(** * DXIL shader debugger: the per-lane interpreter of [dxil_debug.cpp]

    A shallow embedding of the parts of
    [renderdoc/driver/shaders/dxil/dxil_debug.cpp] that decide the numeric,
    memory and control-flow properties listed in the specification:

    - the [ShaderValue] union and the typed views on it;
    - IEEE-754 views of the 16, 32 and 64 bit lanes and [flush_denorm];
    - [OperationFlushing], [AssignValue], [GetShaderVariableHelper],
      [SetResult] and the result commit of [ThreadState::ExecuteInstruction];
    - [RDCISNORMAL], [EncodePointer], [DecodePointer] and the mark of an
      annotated handle;
    - [TypedUAVLoad], [TypedUAVStore], [GetElementByteSize] and
      [FillViewFmtFromVarType];
    - the cases [Phi], [Load], [Store], [Alloca], [Branch], [Select],
      [ExtractElement], [InsertElement], the integer and floating point
      arithmetic, the integer and floating point comparisons, the integer
      conversions, the bit operations and the DXOp intrinsics
      [IMin]/[IMax]/[UMin]/[UMax], [IMul]/[UMul]/[UDiv], [UAddc], [USubb],
      [Msad], [Ubfe], [MakeDouble], [SplitDouble], [FAbs] and the four
      derivatives of [ThreadState::ExecuteInstruction];
    - [ThreadState::JumpToBlock], [DDX], [DDY], [QuadIsDiverged],
      [WorkgroupIsDiverged], [StepOverNopInstructions] and [StepNext];
    - the step loop of [Debugger::ContinueDebug].

    C++ values are modelled as follows.  A [uintN_t] is a [Z] in [0, 2^N); an
    [intN_t] is read from the same bits with [signed].  The [ShaderValue] union
    is one little-endian bit string, a non-negative [Z]; [comp w c v] is lane
    [c] of the view with [w]-bit elements.  Floating point lanes are decoded to
    [spec_float] (the Standard Library's IEEE-754 specification, NaN payloads
    are not tracked) and encoded back.  [std::map] is [gmap], [rdcarray] is
    [list].  [RDCERR] and failed [RDCASSERT]s are collected in a report list:
    they log and execution continues.  C++ undefined behaviour is the outcome
    [Undefined]. *)

From Stdlib Require Import ZArith Lia Bool List String.
From Stdlib Require Import Floats.SpecFloat.
From stdpp Require Import base option list gmap strings pretty.

Set Warnings "-register-all".

Local Open Scope string_scope.
Local Open Scope list_scope.
Local Open Scope Z_scope.

(* ================================================================== *)
(** * Machine integers *)
(* ================================================================== *)

(** The value of a [w]-bit two's complement lane whose bits are [x]. *)
Definition signed (w x : Z) : Z :=
  if x <? 2 ^ (w - 1) then x else x - 2 ^ w.

(** Conversion to an unsigned [w]-bit integer (wrap-around). *)
Definition wrap (w x : Z) : Z := x mod 2 ^ w.

Definition UINT32_MAX : Z := 0xffffffff.

(** [~0U], used as "no block", "no lane" and "no id". *)
Definition NO_INDEX : Z := UINT32_MAX.

(* ================================================================== *)
(** * The [ShaderValue] union *)
(* ================================================================== *)

(** [union ShaderValue { float f32v[16]; uint32_t u32v[16]; uint64_t u64v[16]; ... }].
    All views start at byte 0; the target is little-endian. *)
Definition ShaderValue := Z.

Definition zero_value : ShaderValue := 0.

(** [comp<T>(var, c)] as an r-value: lane [c] of the view with [w]-bit lanes. *)
Definition comp (w c : Z) (v : ShaderValue) : Z :=
  Z.land (Z.shiftr v (w * c)) (Z.ones w).

(** [comp<T>(var, c) = x]: overwrite lane [c] of the [w]-bit view. *)
Definition set_comp (w c x : Z) (v : ShaderValue) : ShaderValue :=
  Z.lor (Z.ldiff v (Z.shiftl (Z.ones w) (w * c)))
        (Z.shiftl (Z.land x (Z.ones w)) (w * c)).

Definition u8v (v : ShaderValue) (c : Z) : Z := comp 8 c v.
Definition u16v (v : ShaderValue) (c : Z) : Z := comp 16 c v.
Definition u32v (v : ShaderValue) (c : Z) : Z := comp 32 c v.
Definition u64v (v : ShaderValue) (c : Z) : Z := comp 64 c v.
Definition s32v (v : ShaderValue) (c : Z) : Z := signed 32 (comp 32 c v).
Definition s64v (v : ShaderValue) (c : Z) : Z := signed 64 (comp 64 c v).

Definition set_u32v (c x : Z) (v : ShaderValue) : ShaderValue := set_comp 32 c x v.
Definition set_s32v (c x : Z) (v : ShaderValue) : ShaderValue := set_comp 32 c x v.
Definition set_u64v (c x : Z) (v : ShaderValue) : ShaderValue := set_comp 64 c x v.
Definition set_s64v (c x : Z) (v : ShaderValue) : ShaderValue := set_comp 64 c x v.

(** [memcpy(&value, src, n)]: the first [n] bytes of the union are replaced. *)
Definition set_low_bytes (n : Z) (x : Z) (v : ShaderValue) : ShaderValue :=
  set_comp (8 * n) 0 x v.

(** The first [n] bytes of the union, as one little-endian number. *)
Definition low_bytes (n : Z) (v : ShaderValue) : Z := comp (8 * n) 0 v.

(* ================================================================== *)
(** * IEEE-754 views *)
(* ================================================================== *)

(** A binary interchange format: the widths of the trailing significand and
    of the biased exponent. *)
Record FloatFormat : Set := { mant_bits : Z; exp_bits : Z }.

Definition binary16 : FloatFormat := {| mant_bits := 10; exp_bits := 5 |}.
Definition binary32 : FloatFormat := {| mant_bits := 23; exp_bits := 8 |}.
Definition binary64 : FloatFormat := {| mant_bits := 52; exp_bits := 11 |}.

Definition fprec (fmt : FloatFormat) : Z := mant_bits fmt + 1.
Definition femax (fmt : FloatFormat) : Z := 2 ^ (exp_bits fmt - 1).
Definition femin (fmt : FloatFormat) : Z := emin (fprec fmt) (femax fmt).
Definition fwidth (fmt : FloatFormat) : Z := mant_bits fmt + exp_bits fmt + 1.

Definition mant_field (fmt : FloatFormat) (x : Z) : Z :=
  Z.land x (Z.ones (mant_bits fmt)).
Definition exp_field (fmt : FloatFormat) (x : Z) : Z :=
  Z.land (Z.shiftr x (mant_bits fmt)) (Z.ones (exp_bits fmt)).
Definition sign_field (fmt : FloatFormat) (x : Z) : bool :=
  Z.testbit x (mant_bits fmt + exp_bits fmt).

(** Reading a lane as a floating point number. *)
Definition float_of_bits (fmt : FloatFormat) (x : Z) : spec_float :=
  let m := mant_field fmt x in
  let e := exp_field fmt x in
  let s := sign_field fmt x in
  if e =? 0 then
    match m with
    | Zpos p => S754_finite s p (femin fmt)
    | _ => S754_zero s
    end
  else if e =? Z.ones (exp_bits fmt) then
    if m =? 0 then S754_infinity s else S754_nan
  else
    match Z.lor m (2 ^ mant_bits fmt) with
    | Zpos p => S754_finite s p (e + femin fmt - 1)
    | _ => S754_nan
    end.

Definition sign_bit (fmt : FloatFormat) (s : bool) : Z :=
  if s then 2 ^ (mant_bits fmt + exp_bits fmt) else 0.

(** Writing a floating point number to a lane.  A NaN is written as the
    positive quiet NaN. *)
Definition bits_of_float (fmt : FloatFormat) (f : spec_float) : Z :=
  match f with
  | S754_zero s => sign_bit fmt s
  | S754_infinity s =>
      Z.lor (sign_bit fmt s) (Z.shiftl (Z.ones (exp_bits fmt)) (mant_bits fmt))
  | S754_nan =>
      Z.lor (Z.shiftl (Z.ones (exp_bits fmt)) (mant_bits fmt))
            (2 ^ (mant_bits fmt - 1))
  | S754_finite s m e =>
      if Zpos m <? 2 ^ mant_bits fmt then Z.lor (sign_bit fmt s) (Zpos m)
      else Z.lor (sign_bit fmt s)
                 (Z.lor (Z.shiftl (e - femin fmt + 1) (mant_bits fmt))
                        (Zpos m - 2 ^ mant_bits fmt))
  end.

(** Arithmetic of the format, rounding to nearest even. *)
Definition fadd (fmt : FloatFormat) := SFadd (fprec fmt) (femax fmt).
Definition fsub (fmt : FloatFormat) := SFsub (fprec fmt) (femax fmt).
Definition fmul (fmt : FloatFormat) := SFmul (fprec fmt) (femax fmt).
Definition fdiv (fmt : FloatFormat) := SFdiv (fprec fmt) (femax fmt).

(** [float(i)] for an integer [i]. *)
Definition float_of_Z (fmt : FloatFormat) (i : Z) : spec_float :=
  binary_normalize (fprec fmt) (femax fmt) i 0 false.

(** The C++ comparison operators on floating point operands. *)
Definition f_eq (a b : spec_float) : bool := SFeqb a b.
Definition f_ne (a b : spec_float) : bool := negb (SFeqb a b).
Definition f_lt (a b : spec_float) : bool := SFltb a b.
Definition f_le (a b : spec_float) : bool := SFleb a b.
Definition f_gt (a b : spec_float) : bool := SFltb b a.
Definition f_ge (a b : spec_float) : bool := SFleb b a.

(** [RDCISNAN], [RDCISFINITE]. *)
Definition RDCISNAN (f : spec_float) : bool :=
  match f with S754_nan => true | _ => false end.
Definition RDCISFINITE (f : spec_float) : bool :=
  match f with S754_nan | S754_infinity _ => false | _ => true end.

(** A lane is subnormal when its exponent field is zero and its significand
    is not; it is a zero when both are zero. *)
Definition is_subnormal (fmt : FloatFormat) (x : Z) : bool :=
  (exp_field fmt x =? 0) && negb (mant_field fmt x =? 0).
Definition is_zero (fmt : FloatFormat) (x : Z) : bool :=
  (exp_field fmt x =? 0) && (mant_field fmt x =? 0).

Definition f32v (v : ShaderValue) (c : Z) : spec_float :=
  float_of_bits binary32 (comp 32 c v).
Definition f64v (v : ShaderValue) (c : Z) : spec_float :=
  float_of_bits binary64 (comp 64 c v).
Definition f16v (v : ShaderValue) (c : Z) : spec_float :=
  float_of_bits binary16 (comp 16 c v).
Definition set_f32v (c : Z) (f : spec_float) (v : ShaderValue) : ShaderValue :=
  set_comp 32 c (bits_of_float binary32 f) v.

(** Modelled from the spec: [flush_denorm] is declared in [dx_debug.h] and its
    body is not part of the sources at hand.  "Denormal flush: replacing a
    subnormal float with zero": a lane whose exponent field is zero keeps its
    sign bit only, any other lane is returned unchanged.  The function works
    on the bits of a 32 bit lane. *)
Definition flush_denorm (x : Z) : Z :=
  if Z.land x 0x7F800000 =? 0 then Z.land x 0x80000000 else x.

(** [DXIL::DXOp]: the vendor-extension opcodes, one constructor per case label of
    [OperationFlushing]; [NumOpCodes] is the sentinel meaning that the instruction is
    not a DXOp call. *)
Module DXOp.
Inductive t : Set :=
  | Sample | SampleBias | SampleLevel | SampleGrad | SampleCmp | SampleCmpBias | SampleCmpLevel
  | SampleCmpGrad | SampleCmpLevelZero | TextureGather | TextureGatherCmp | TextureGatherRaw
  | CalculateLOD | DerivCoarseX | DerivCoarseY | DerivFineX | DerivFineY | EvalSampleIndex
  | FAbs | Cos | Sin | Tan | Acos | Asin | Atan | Hcos | Hsin | Htan | Exp | Frc | Log | Sqrt
  | Rsqrt | Round_ne | Round_ni | Round_pi | Round_z | FMax | FMin | FMad | Fma | Dot2 | Dot3
  | Dot4 | TempRegLoad | TempRegStore | MinPrecXRegLoad | MinPrecXRegStore | LoadInput
  | StoreOutput | Saturate | IsNaN | IsInf | IsFinite | IsNormal | Bfrev | Countbits
  | FirstbitLo | FirstbitHi | FirstbitSHi | IMax | IMin | UMax | UMin | IMul | UMul | UDiv
  | UAddc | USubb | IMad | UMad | Msad | Ibfe | Ubfe | Bfi | CreateHandle | CBufferLoad
  | CBufferLoadLegacy | TextureLoad | TextureStore | BufferLoad | BufferStore
  | BufferUpdateCounter | CheckAccessFullyMapped | GetDimensions | Texture2DMSGetSamplePosition
  | RenderTargetGetSamplePosition | RenderTargetGetSampleCount | AtomicBinOp
  | AtomicCompareExchange | Barrier | Discard | EvalSnapped | EvalCentroid | SampleIndex
  | Coverage | InnerCoverage | ThreadId | GroupId | ThreadIdInGroup | FlattenedThreadIdInGroup
  | EmitStream | CutStream | EmitThenCutStream | GSInstanceID | MakeDouble | SplitDouble
  | LoadOutputControlPoint | LoadPatchConstant | DomainLocation | StorePatchConstant
  | OutputControlPointID | PrimitiveID | CycleCounterLegacy | WaveIsFirstLane | WaveGetLaneIndex
  | WaveGetLaneCount | WaveAnyTrue | WaveAllTrue | WaveActiveAllEqual | WaveActiveBallot
  | WaveReadLaneAt | WaveReadLaneFirst | WaveActiveOp | WaveActiveBit | WavePrefixOp
  | QuadReadLaneAt | QuadOp | BitcastI16toF16 | BitcastF16toI16 | BitcastI32toF32
  | BitcastF32toI32 | BitcastI64toF64 | BitcastF64toI64 | LegacyF32ToF16 | LegacyF16ToF32
  | LegacyDoubleToFloat | LegacyDoubleToSInt32 | LegacyDoubleToUInt32 | WaveAllBitCount
  | WavePrefixBitCount | AttributeAtVertex | ViewID | RawBufferLoad | RawBufferStore
  | InstanceID | InstanceIndex | HitKind | RayFlags | DispatchRaysIndex | DispatchRaysDimensions
  | WorldRayOrigin | WorldRayDirection | ObjectRayOrigin | ObjectRayDirection | ObjectToWorld
  | WorldToObject | RayTMin | RayTCurrent | IgnoreHit | AcceptHitAndEndSearch | TraceRay
  | ReportHit | CallShader | CreateHandleForLib | PrimitiveIndex | Dot2AddHalf | Dot4AddI8Packed
  | Dot4AddU8Packed | WaveMatch | WaveMultiPrefixOp | WaveMultiPrefixBitCount
  | SetMeshOutputCounts | EmitIndices | GetMeshPayload | StoreVertexOutput
  | StorePrimitiveOutput | DispatchMesh | WriteSamplerFeedback | WriteSamplerFeedbackBias
  | WriteSamplerFeedbackLevel | WriteSamplerFeedbackGrad | AllocateRayQuery
  | RayQuery_TraceRayInline | RayQuery_Proceed | RayQuery_Abort
  | RayQuery_CommitNonOpaqueTriangleHit | RayQuery_CommitProceduralPrimitiveHit
  | RayQuery_CommittedStatus | RayQuery_CandidateType | RayQuery_CandidateObjectToWorld3x4
  | RayQuery_CandidateWorldToObject3x4 | RayQuery_CommittedObjectToWorld3x4
  | RayQuery_CommittedWorldToObject3x4 | RayQuery_CandidateProceduralPrimitiveNonOpaque
  | RayQuery_CandidateTriangleFrontFace | RayQuery_CommittedTriangleFrontFace
  | RayQuery_CandidateTriangleBarycentrics | RayQuery_CommittedTriangleBarycentrics
  | RayQuery_RayFlags | RayQuery_WorldRayOrigin | RayQuery_WorldRayDirection | RayQuery_RayTMin
  | RayQuery_CandidateTriangleRayT | RayQuery_CommittedRayT | RayQuery_CandidateInstanceIndex
  | RayQuery_CandidateInstanceID | RayQuery_CandidateGeometryIndex
  | RayQuery_CandidatePrimitiveIndex | RayQuery_CandidateObjectRayOrigin
  | RayQuery_CandidateObjectRayDirection | RayQuery_CommittedInstanceIndex
  | RayQuery_CommittedInstanceID | RayQuery_CommittedGeometryIndex
  | RayQuery_CommittedPrimitiveIndex | RayQuery_CommittedObjectRayOrigin
  | RayQuery_CommittedObjectRayDirection | GeometryIndex
  | RayQuery_CandidateInstanceContributionToHitGroupIndex
  | RayQuery_CommittedInstanceContributionToHitGroupIndex | AnnotateHandle
  | CreateHandleFromBinding | CreateHandleFromHeap | Unpack4x8 | Pack4x8 | IsHelperLane
  | QuadVote | TextureStoreSample | WaveMatrix_Annotate | WaveMatrix_Depth | WaveMatrix_Fill
  | WaveMatrix_LoadRawBuf | WaveMatrix_LoadGroupShared | WaveMatrix_StoreRawBuf
  | WaveMatrix_StoreGroupShared | WaveMatrix_Multiply | WaveMatrix_MultiplyAccumulate
  | WaveMatrix_ScalarOp | WaveMatrix_SumAccumulate | WaveMatrix_Add | AllocateNodeOutputRecords
  | GetNodeRecordPtr | IncrementOutputCount | OutputComplete | GetInputRecordCount
  | FinishedCrossGroupSharing | BarrierByMemoryType | BarrierByMemoryHandle
  | BarrierByNodeRecordHandle | CreateNodeOutputHandle | IndexNodeHandle | AnnotateNodeHandle
  | CreateNodeInputRecordHandle | AnnotateNodeRecordHandle | NodeOutputIsValid
  | GetRemainingRecursionLevels | StartVertexLocation | StartInstanceLocation | NumOpCodes
  .
End DXOp.

(** [DXIL::Operation]: the LLVM level opcodes. *)
Module Operation.
Inductive t : Set :=
  | FAdd | FSub | FMul | FDiv | FRem | FPTrunc | FPExt | FOrdFalse | FOrdEqual | FOrdGreater
  | FOrdGreaterEqual | FOrdLess | FOrdLessEqual | FOrdNotEqual | FOrd | FUnord | FUnordEqual
  | FUnordGreater | FUnordGreaterEqual | FUnordLess | FUnordLessEqual | FUnordNotEqual
  | FOrdTrue | Trunc | SExt | ZExt | PtrToI | IToPtr | Bitcast | AddrSpaceCast | IEqual
  | INotEqual | UGreater | UGreaterEqual | ULess | ULessEqual | SGreater | SGreaterEqual | SLess
  | SLessEqual | FToU | FToS | UToF | SToF | NoOp | Call | ExtractVal | Ret | Unreachable
  | Alloca | GetElementPtr | Branch | Fence | Switch | Load | Store | Select | ExtractElement
  | InsertElement | ShuffleVector | InsertValue | Phi | CompareExchange | Add | Sub | Mul | UDiv
  | SDiv | URem | SRem | ShiftLeft | LogicalShiftRight | ArithShiftRight | And | Or | Xor
  | LoadAtomic | StoreAtomic | AtomicExchange | AtomicAdd | AtomicSub | AtomicAnd | AtomicNand
  | AtomicOr | AtomicXor | AtomicMax | AtomicMin | AtomicUMax | AtomicUMin
  .
End Operation.

(** [OperationFlushing]: the static table that decides whether an operation flushes
    float32 denormals.  A DXOp call is decided by its DXOp code, every other instruction
    by its LLVM opcode. *)
Definition OperationFlushing (op : Operation.t) (dxOpCode : DXOp.t) : bool :=
  match dxOpCode with
  (* sample operations flush denorms *)
  | DXOp.Sample | DXOp.SampleBias | DXOp.SampleLevel | DXOp.SampleGrad | DXOp.SampleCmp
  | DXOp.SampleCmpBias | DXOp.SampleCmpLevel | DXOp.SampleCmpGrad | DXOp.SampleCmpLevelZero
  | DXOp.TextureGather | DXOp.TextureGatherCmp | DXOp.TextureGatherRaw => true
  (* unclear if these flush and it's unlikely denorms will come up, conservatively flush *)
  | DXOp.CalculateLOD | DXOp.DerivCoarseX | DXOp.DerivCoarseY | DXOp.DerivFineX
  | DXOp.DerivFineY | DXOp.EvalSampleIndex => true
  (* Float mathematical operations all flush denorms *)
  | DXOp.FAbs | DXOp.Cos | DXOp.Sin | DXOp.Tan | DXOp.Acos | DXOp.Asin | DXOp.Atan | DXOp.Hcos
  | DXOp.Hsin | DXOp.Htan | DXOp.Exp | DXOp.Frc | DXOp.Log | DXOp.Sqrt | DXOp.Rsqrt
  | DXOp.Round_ne | DXOp.Round_ni | DXOp.Round_pi | DXOp.Round_z | DXOp.FMax | DXOp.FMin
  | DXOp.FMad | DXOp.Fma | DXOp.Dot2 | DXOp.Dot3 | DXOp.Dot4 => true
  (* Not floating point operations, no need to flush *)
  | DXOp.TempRegLoad | DXOp.TempRegStore | DXOp.MinPrecXRegLoad | DXOp.MinPrecXRegStore
  | DXOp.LoadInput | DXOp.StoreOutput | DXOp.Saturate | DXOp.IsNaN | DXOp.IsInf | DXOp.IsFinite
  | DXOp.IsNormal | DXOp.Bfrev | DXOp.Countbits | DXOp.FirstbitLo | DXOp.FirstbitHi
  | DXOp.FirstbitSHi | DXOp.IMax | DXOp.IMin | DXOp.UMax | DXOp.UMin | DXOp.IMul | DXOp.UMul
  | DXOp.UDiv | DXOp.UAddc | DXOp.USubb | DXOp.IMad | DXOp.UMad | DXOp.Msad | DXOp.Ibfe
  | DXOp.Ubfe | DXOp.Bfi | DXOp.CreateHandle | DXOp.CBufferLoad | DXOp.CBufferLoadLegacy
  | DXOp.TextureLoad | DXOp.TextureStore | DXOp.BufferLoad | DXOp.BufferStore
  | DXOp.BufferUpdateCounter | DXOp.CheckAccessFullyMapped | DXOp.GetDimensions
  | DXOp.Texture2DMSGetSamplePosition | DXOp.RenderTargetGetSamplePosition
  | DXOp.RenderTargetGetSampleCount | DXOp.AtomicBinOp | DXOp.AtomicCompareExchange
  | DXOp.Barrier | DXOp.Discard | DXOp.EvalSnapped | DXOp.EvalCentroid | DXOp.SampleIndex
  | DXOp.Coverage | DXOp.InnerCoverage | DXOp.ThreadId | DXOp.GroupId | DXOp.ThreadIdInGroup
  | DXOp.FlattenedThreadIdInGroup | DXOp.EmitStream | DXOp.CutStream | DXOp.EmitThenCutStream
  | DXOp.GSInstanceID | DXOp.MakeDouble | DXOp.SplitDouble | DXOp.LoadOutputControlPoint
  | DXOp.LoadPatchConstant | DXOp.DomainLocation | DXOp.StorePatchConstant
  | DXOp.OutputControlPointID | DXOp.PrimitiveID | DXOp.CycleCounterLegacy
  | DXOp.WaveIsFirstLane | DXOp.WaveGetLaneIndex | DXOp.WaveGetLaneCount | DXOp.WaveAnyTrue
  | DXOp.WaveAllTrue | DXOp.WaveActiveAllEqual | DXOp.WaveActiveBallot | DXOp.WaveReadLaneAt
  | DXOp.WaveReadLaneFirst | DXOp.WaveActiveOp | DXOp.WaveActiveBit | DXOp.WavePrefixOp
  | DXOp.QuadReadLaneAt | DXOp.QuadOp | DXOp.BitcastI16toF16 | DXOp.BitcastF16toI16
  | DXOp.BitcastI32toF32 | DXOp.BitcastF32toI32 | DXOp.BitcastI64toF64 | DXOp.BitcastF64toI64
  | DXOp.LegacyF32ToF16 | DXOp.LegacyF16ToF32 | DXOp.LegacyDoubleToFloat
  | DXOp.LegacyDoubleToSInt32 | DXOp.LegacyDoubleToUInt32 | DXOp.WaveAllBitCount
  | DXOp.WavePrefixBitCount | DXOp.AttributeAtVertex | DXOp.ViewID | DXOp.RawBufferLoad
  | DXOp.RawBufferStore | DXOp.InstanceID | DXOp.InstanceIndex | DXOp.HitKind | DXOp.RayFlags
  | DXOp.DispatchRaysIndex | DXOp.DispatchRaysDimensions | DXOp.WorldRayOrigin
  | DXOp.WorldRayDirection | DXOp.ObjectRayOrigin | DXOp.ObjectRayDirection | DXOp.ObjectToWorld
  | DXOp.WorldToObject | DXOp.RayTMin | DXOp.RayTCurrent | DXOp.IgnoreHit
  | DXOp.AcceptHitAndEndSearch | DXOp.TraceRay | DXOp.ReportHit | DXOp.CallShader
  | DXOp.CreateHandleForLib | DXOp.PrimitiveIndex | DXOp.Dot2AddHalf | DXOp.Dot4AddI8Packed
  | DXOp.Dot4AddU8Packed | DXOp.WaveMatch | DXOp.WaveMultiPrefixOp
  | DXOp.WaveMultiPrefixBitCount | DXOp.SetMeshOutputCounts | DXOp.EmitIndices
  | DXOp.GetMeshPayload | DXOp.StoreVertexOutput | DXOp.StorePrimitiveOutput | DXOp.DispatchMesh
  | DXOp.WriteSamplerFeedback | DXOp.WriteSamplerFeedbackBias | DXOp.WriteSamplerFeedbackLevel
  | DXOp.WriteSamplerFeedbackGrad | DXOp.AllocateRayQuery | DXOp.RayQuery_TraceRayInline
  | DXOp.RayQuery_Proceed | DXOp.RayQuery_Abort | DXOp.RayQuery_CommitNonOpaqueTriangleHit
  | DXOp.RayQuery_CommitProceduralPrimitiveHit | DXOp.RayQuery_CommittedStatus
  | DXOp.RayQuery_CandidateType | DXOp.RayQuery_CandidateObjectToWorld3x4
  | DXOp.RayQuery_CandidateWorldToObject3x4 | DXOp.RayQuery_CommittedObjectToWorld3x4
  | DXOp.RayQuery_CommittedWorldToObject3x4
  | DXOp.RayQuery_CandidateProceduralPrimitiveNonOpaque
  | DXOp.RayQuery_CandidateTriangleFrontFace | DXOp.RayQuery_CommittedTriangleFrontFace
  | DXOp.RayQuery_CandidateTriangleBarycentrics | DXOp.RayQuery_CommittedTriangleBarycentrics
  | DXOp.RayQuery_RayFlags | DXOp.RayQuery_WorldRayOrigin | DXOp.RayQuery_WorldRayDirection
  | DXOp.RayQuery_RayTMin | DXOp.RayQuery_CandidateTriangleRayT | DXOp.RayQuery_CommittedRayT
  | DXOp.RayQuery_CandidateInstanceIndex | DXOp.RayQuery_CandidateInstanceID
  | DXOp.RayQuery_CandidateGeometryIndex | DXOp.RayQuery_CandidatePrimitiveIndex
  | DXOp.RayQuery_CandidateObjectRayOrigin | DXOp.RayQuery_CandidateObjectRayDirection
  | DXOp.RayQuery_CommittedInstanceIndex | DXOp.RayQuery_CommittedInstanceID
  | DXOp.RayQuery_CommittedGeometryIndex | DXOp.RayQuery_CommittedPrimitiveIndex
  | DXOp.RayQuery_CommittedObjectRayOrigin | DXOp.RayQuery_CommittedObjectRayDirection
  | DXOp.GeometryIndex | DXOp.RayQuery_CandidateInstanceContributionToHitGroupIndex
  | DXOp.RayQuery_CommittedInstanceContributionToHitGroupIndex | DXOp.AnnotateHandle
  | DXOp.CreateHandleFromBinding | DXOp.CreateHandleFromHeap | DXOp.Unpack4x8 | DXOp.Pack4x8
  | DXOp.IsHelperLane | DXOp.QuadVote | DXOp.TextureStoreSample | DXOp.WaveMatrix_Annotate
  | DXOp.WaveMatrix_Depth | DXOp.WaveMatrix_Fill | DXOp.WaveMatrix_LoadRawBuf
  | DXOp.WaveMatrix_LoadGroupShared | DXOp.WaveMatrix_StoreRawBuf
  | DXOp.WaveMatrix_StoreGroupShared | DXOp.WaveMatrix_Multiply
  | DXOp.WaveMatrix_MultiplyAccumulate | DXOp.WaveMatrix_ScalarOp
  | DXOp.WaveMatrix_SumAccumulate | DXOp.WaveMatrix_Add | DXOp.AllocateNodeOutputRecords
  | DXOp.GetNodeRecordPtr | DXOp.IncrementOutputCount | DXOp.OutputComplete
  | DXOp.GetInputRecordCount | DXOp.FinishedCrossGroupSharing | DXOp.BarrierByMemoryType
  | DXOp.BarrierByMemoryHandle | DXOp.BarrierByNodeRecordHandle | DXOp.CreateNodeOutputHandle
  | DXOp.IndexNodeHandle | DXOp.AnnotateNodeHandle | DXOp.CreateNodeInputRecordHandle
  | DXOp.AnnotateNodeRecordHandle | DXOp.NodeOutputIsValid | DXOp.GetRemainingRecursionLevels
  | DXOp.StartVertexLocation | DXOp.StartInstanceLocation => false
  | DXOp.NumOpCodes =>
      match op with
      (* Float mathematical operations all flush denorms including comparisons *)
      | Operation.FAdd | Operation.FSub | Operation.FMul | Operation.FDiv | Operation.FRem
      | Operation.FPTrunc | Operation.FPExt | Operation.FOrdFalse | Operation.FOrdEqual
      | Operation.FOrdGreater | Operation.FOrdGreaterEqual | Operation.FOrdLess
      | Operation.FOrdLessEqual | Operation.FOrdNotEqual | Operation.FOrd | Operation.FUnord
      | Operation.FUnordEqual | Operation.FUnordGreater | Operation.FUnordGreaterEqual
      | Operation.FUnordLess | Operation.FUnordLessEqual | Operation.FUnordNotEqual
      | Operation.FOrdTrue => true
      (* Casts do not flush *)
      | Operation.Trunc | Operation.SExt | Operation.ZExt | Operation.PtrToI | Operation.IToPtr
      | Operation.Bitcast | Operation.AddrSpaceCast => false
      (* Integer operations do not flush *)
      | Operation.IEqual | Operation.INotEqual | Operation.UGreater | Operation.UGreaterEqual
      | Operation.ULess | Operation.ULessEqual | Operation.SGreater | Operation.SGreaterEqual
      | Operation.SLess | Operation.SLessEqual => false
      (* Can't generate denorms or denorm inputs are implicitly rounded to 0 *)
      | Operation.FToU | Operation.FToS | Operation.UToF | Operation.SToF => false
      (* Non arithmetic operations do not flush *)
      | Operation.NoOp | Operation.Call | Operation.ExtractVal | Operation.Ret
      | Operation.Unreachable | Operation.Alloca | Operation.GetElementPtr | Operation.Branch
      | Operation.Fence | Operation.Switch | Operation.Load | Operation.Store | Operation.Select
      | Operation.ExtractElement | Operation.InsertElement | Operation.ShuffleVector
      | Operation.InsertValue | Operation.Phi | Operation.CompareExchange => false
      (* Integer operations do not flush *)
      | Operation.Add | Operation.Sub | Operation.Mul | Operation.UDiv | Operation.SDiv
      | Operation.URem | Operation.SRem | Operation.ShiftLeft | Operation.LogicalShiftRight
      | Operation.ArithShiftRight | Operation.And | Operation.Or | Operation.Xor
      | Operation.LoadAtomic | Operation.StoreAtomic | Operation.AtomicExchange
      | Operation.AtomicAdd | Operation.AtomicSub | Operation.AtomicAnd | Operation.AtomicNand
      | Operation.AtomicOr | Operation.AtomicXor | Operation.AtomicMax | Operation.AtomicMin
      | Operation.AtomicUMax | Operation.AtomicUMin => false
      end
  end.

(* ================================================================== *)
(** * Outcomes and reports *)
(* ================================================================== *)

(** What [RDCERR] and a failed [RDCASSERT] leave behind: a log line.  Neither
    stops the interpreter. *)
Inductive Report : Set :=
| Error (msg : string)
| AssertFailed (what : string).

(** The result of running a piece of the interpreter: a value together with
    the reports it logged, C++ undefined behaviour, or a construct that this
    embedding does not cover. *)
Inductive Outcome (A : Type) : Type :=
| Done (a : A) (log : list Report)
| Undefined (why : string)
| Unmodelled (what : string).
Arguments Done {A} a log.
Arguments Undefined {A} why.
Arguments Unmodelled {A} what.

Definition ret {A : Type} (a : A) : Outcome A := Done a [].

Definition bind {A B : Type} (m : Outcome A) (k : A -> Outcome B) : Outcome B :=
  match m with
  | Done a l1 =>
      match k a with
      | Done b l2 => Done b (l1 ++ l2)
      | Undefined why => Undefined why
      | Unmodelled what => Unmodelled what
      end
  | Undefined why => Undefined why
  | Unmodelled what => Unmodelled what
  end.

Notation "x <- m ;; k" := (bind m (fun x => k))
  (at level 100, m at level 99, right associativity).
Notation "m ;;; k" := (bind m (fun _ => k))
  (at level 100, right associativity).

Definition RDCERR (msg : string) : Outcome unit := Done tt [Error msg].

Definition RDCASSERT (cond : bool) (what : string) : Outcome unit :=
  if cond then ret tt else Done tt [AssertFailed what].

(** The value part of a finished run. *)
Definition result_of {A : Type} (m : Outcome A) : option A :=
  match m with Done a _ => Some a | _ => None end.

(** The reports of a finished run. *)
Definition log_of {A : Type} (m : Outcome A) : list Report :=
  match m with Done _ l => l | _ => [] end.

(* ================================================================== *)
(** * Types and variables *)
(* ================================================================== *)

(** [VarType] of the replay API. *)
Module VarType.
Inductive t : Set :=
  | Float | Double | Half | SInt | UInt | SShort | UShort | SLong | ULong | SByte | UByte
  | Bool | Enum | Struct | GPUPointer | ConstantBlock | ReadOnlyResource | ReadWriteResource
  | Sampler | Unknown.

Definition eqb (a b : t) : bool :=
    match a, b with
    | Float, Float | Double, Double | Half, Half | SInt, SInt | UInt, UInt
    | SShort, SShort | UShort, UShort | SLong, SLong | ULong, ULong | SByte, SByte
    | UByte, UByte | Bool, Bool | Enum, Enum | Struct, Struct | GPUPointer, GPUPointer
    | ConstantBlock, ConstantBlock | ReadOnlyResource, ReadOnlyResource
    | ReadWriteResource, ReadWriteResource | Sampler, Sampler | Unknown, Unknown => true
    | _, _ => false
    end.
End VarType.

(** [GetElementByteSize]. *)
Definition GetElementByteSize (type : VarType.t) : Outcome Z :=
  match type with
  | VarType.SLong | VarType.ULong | VarType.Double => ret 8
  | VarType.SInt | VarType.UInt | VarType.Float => ret 4
  | VarType.SShort | VarType.UShort | VarType.Half => ret 2
  | VarType.SByte | VarType.UByte => ret 1
  | VarType.Bool | VarType.Enum | VarType.Struct | VarType.GPUPointer
  | VarType.ConstantBlock | VarType.ReadOnlyResource | VarType.ReadWriteResource
  | VarType.Sampler | VarType.Unknown =>
      RDCERR "Unhandled VarType" ;;; ret 0
  end.

(** [sizeof(ShaderValue)]: sixteen lanes of at most eight bytes. *)
Definition sizeof_ShaderValue : Z := 128.

(** [DXIL::Type]: the kind tag of the C++ struct selects the constructor. *)
Module ScalarKind.
Inductive t : Set := Void | Float | Int.
End ScalarKind.

Inductive DXILType : Set :=
| TyNone
| TyScalar (scalarType : ScalarKind.t) (bitWidth : Z)
| TyVector (elemCount : Z) (inner : DXILType)
| TyPointer (inner : DXILType)
| TyArray (elemCount : Z) (inner : DXILType)
| TyFunction
| TyStruct (tmembers : list DXILType)
| TyMetadata
| TyLabel.

(** [ConvertDXILTypeToVarType]. *)
Fixpoint ConvertDXILTypeToVarType (type : DXILType) : Outcome VarType.t :=
  match type with
  | TyStruct _ => ret VarType.Struct
  | TyVector _ inner => ConvertDXILTypeToVarType inner
  | TyArray _ inner => ConvertDXILTypeToVarType inner
  | TyPointer _ => ret VarType.GPUPointer
  | TyScalar ScalarKind.Int bitWidth =>
      if bitWidth =? 64 then ret VarType.SLong
      else if bitWidth =? 32 then ret VarType.SInt
      else if bitWidth =? 16 then ret VarType.SShort
      else if bitWidth =? 8 then ret VarType.SByte
      else if bitWidth =? 1 then ret VarType.Bool
      else ret VarType.Unknown
  | TyScalar ScalarKind.Float bitWidth =>
      if bitWidth =? 64 then ret VarType.Double
      else if bitWidth =? 32 then ret VarType.Float
      else if bitWidth =? 16 then ret VarType.Half
      else ret VarType.Unknown
  | TyScalar ScalarKind.Void _ => ret VarType.Unknown
  | TyNone | TyFunction | TyMetadata | TyLabel =>
      RDCASSERT false "type->type == Scalar" ;;; ret VarType.Unknown
  end.

(** [ShaderVariable] of the replay API: a name, a shape, the value union and,
    for aggregates, the member variables. *)
Inductive ShaderVariable : Type := mkShaderVariable {
  name : string;
  type : VarType.t;
  rows : Z;
  columns : Z;
  value : ShaderValue;
  members : list ShaderVariable
}.

(** [ShaderVariable()]. *)
Definition default_ShaderVariable : ShaderVariable :=
  {| name := ""; type := VarType.Unknown; rows := 0; columns := 0;
     value := zero_value; members := [] |}.

Definition with_name (n : string) (var : ShaderVariable) : ShaderVariable :=
  {| name := n; type := type var; rows := rows var; columns := columns var;
     value := value var; members := members var |}.
Definition with_type (t : VarType.t) (var : ShaderVariable) : ShaderVariable :=
  {| name := name var; type := t; rows := rows var; columns := columns var;
     value := value var; members := members var |}.
Definition with_value (v : ShaderValue) (var : ShaderVariable) : ShaderVariable :=
  {| name := name var; type := type var; rows := rows var; columns := columns var;
     value := v; members := members var |}.
Definition with_members (ms : list ShaderVariable) (var : ShaderVariable)
  : ShaderVariable :=
  {| name := name var; type := type var; rows := rows var; columns := columns var;
     value := value var; members := ms |}.

(** [ShaderEvents]: a bit set. *)
Definition ShaderEvents := Z.
Module ShaderEvents.
Definition NoEvent : ShaderEvents := 0.
Definition SampleLoadGather : ShaderEvents := 1.
Definition GeneratedNanOrInf : ShaderEvents := 2.
End ShaderEvents.

Definition has_event (flags e : ShaderEvents) : bool := negb (Z.land flags e =? 0).

(** [ShaderVariableChange]. *)
Record ShaderVariableChange : Type := {
  before : ShaderVariable;
  after : ShaderVariable
}.

(** [ShaderDebugState]: what one step of the observed lane reports. *)
Record ShaderDebugState : Type := {
  changes : list ShaderVariableChange;
  flags : ShaderEvents;
  nextInstruction : Z;
  stepIndex : Z
}.

Definition default_ShaderDebugState : ShaderDebugState :=
  {| changes := []; flags := ShaderEvents.NoEvent; nextInstruction := 0; stepIndex := 0 |}.

Definition push_change (c : ShaderVariableChange) (st : ShaderDebugState)
  : ShaderDebugState :=
  {| changes := changes st ++ [c]; flags := flags st;
     nextInstruction := nextInstruction st; stepIndex := stepIndex st |}.
Definition or_flags (f : ShaderEvents) (st : ShaderDebugState) : ShaderDebugState :=
  {| changes := changes st; flags := Z.lor (flags st) f;
     nextInstruction := nextInstruction st; stepIndex := stepIndex st |}.
Definition with_nextInstruction (n : Z) (st : ShaderDebugState) : ShaderDebugState :=
  {| changes := changes st; flags := flags st; nextInstruction := n;
     stepIndex := stepIndex st |}.

(* ================================================================== *)
(** * The program *)
(* ================================================================== *)

Definition Id := Z.
Definition INVALID_ID : Id := NO_INDEX.
Definition INVALID_EXECUTION_POINT : Z := NO_INDEX.

(** What a [DXIL::Constant] holds. *)
Inductive ConstantKind : Set :=
| CShaderVal (v : ShaderValue)
| CLiteral (u64 : Z)
| CNULL
| CUndef (cop : Operation.t)
| CData
| CCast
| CCompound (cop : Operation.t)
| CEmpty.

(** [DXIL::Value]: the dynamic type of the C++ object selects the constructor
    ([cast<T>] succeeds on exactly one of them). *)
Inductive Value : Set :=
| VConstant (vtype : DXILType) (ssaId : Id) (k : ConstantKind)
| VLiteral (vtype : DXILType) (literal : Z)
| VGlobalVar (vtype : DXILType) (ssaId : Id) (initialiser : option Z)
| VInstruction (vtype : DXILType) (slot : Id)
| VBlock (blockId : Z)
| VMetadata.

Definition value_type (v : Value) : DXILType :=
  match v with
  | VConstant t _ _ | VLiteral t _ | VGlobalVar t _ _ | VInstruction t _ => t
  | VBlock _ => TyLabel
  | VMetadata => TyMetadata
  end.

(** [DXIL::IsSSA] and [DXIL::GetSSAId]: instructions, global variables and
    constants carry an SSA id. *)
Definition IsSSA (v : Value) : bool :=
  match v with
  | VConstant _ _ _ | VGlobalVar _ _ _ | VInstruction _ _ => true
  | _ => false
  end.
Definition GetSSAId (v : Value) : Id :=
  match v with
  | VConstant _ i _ | VGlobalVar _ i _ | VInstruction _ i => i
  | _ => INVALID_ID
  end.

Module FunctionFamily.
Inductive t : Set := Unknown | DXOp | LLVMDbg | LLVMInstrinsic.
End FunctionFamily.

(** [DXIL::Instruction].  [resultName] is what [Program::MakeResultId] gives
    for the instruction and [demangledName] what [DXBC::BasicDemangle] makes
    of it, [callFamily] the family of the called function and [callDXOp] the
    DXOp code held by the first argument of a DXOp call. *)
Record Instruction : Set := {
  op : Operation.t;
  itype : DXILType;
  args : list Value;
  islot : Id;
  resultName : string;
  demangledName : string;
  callFamily : FunctionFamily.t;
  callDXOp : DXOp.t
}.

Record Block : Set := { bid : Z; startInstructionIdx : Z }.

Record Function : Set := {
  instructions : list Instruction;
  blocks : list Block
}.

(** [ExecPointReference]. *)
Record ExecPointReference : Set := { epBlock : Z; epInstruction : Z }.

(** [FunctionInfo]: the static facts the lanes read. *)
Record FunctionInfo : Type := {
  function : Function;
  globalInstructionOffset : Z;
  referencedIds : gset Z;
  phiReferencedIdsPerBlock : gmap Z (gset Z);
  divergentBlocks : list Z;
  convergentBlocks : list (Z * Z)
}.

(** [IsNopInstruction]. *)
Definition IsNopInstruction (inst : Instruction) : bool :=
  match op inst with
  | Operation.Call =>
      match callFamily inst with
      | FunctionFamily.LLVMDbg | FunctionFamily.LLVMInstrinsic => true
      | _ => false
      end
  | Operation.NoOp => true
  | _ => false
  end.

(* ================================================================== *)
(** * Memory *)
(* ================================================================== *)

(** [MemoryTracking::Allocation].  The malloc'ed block is the byte list
    [backingMemory]; the block is addressed by the id of the allocation. *)
Module Allocation.
Record t : Set := { backingMemory : list Z; size : Z; global : bool }.
End Allocation.

(** [MemoryTracking::Pointer].  [memory] points into the block of allocation
    [baseMemoryId]; it is kept as the byte offset from the start of that
    block. *)
Module Pointer.
Record t : Set := { baseMemoryId : Id; memory : Z; size : Z }.
End Pointer.

Record MemoryTracking : Type := {
  m_Allocations : gmap Z Allocation.t;
  m_Pointers : gmap Z Pointer.t
}.

(** The bytes of a number, least significant first. *)
Fixpoint bytes_of (n : nat) (x : Z) : list Z :=
  match n with
  | O => []
  | S n' => Z.land x 0xff :: bytes_of n' (Z.shiftr x 8)
  end.

(** The number held by a byte list, least significant first. *)
Fixpoint of_bytes (bs : list Z) : Z :=
  match bs with
  | [] => 0
  | b :: bs' => Z.lor b (Z.shiftl (of_bytes bs') 8)
  end.

(** [memcpy(block + off, src, |src|)] into a block; writing past the end of
    the block is undefined behaviour. *)
Definition write_bytes (block : list Z) (off : Z) (src : list Z) : Outcome (list Z) :=
  if (0 <=? off) && (off + Z.of_nat (length src) <=? Z.of_nat (length block)) then
    ret (take (Z.to_nat off) block ++ src ++
         drop (Z.to_nat off + length src) block)
  else Undefined "memcpy past the end of the allocation".

(** [memcpy(dst, block + off, n)] out of a block. *)
Definition read_bytes (block : list Z) (off n : Z) : Outcome (list Z) :=
  if (0 <=? off) && (0 <=? n) && (off + n <=? Z.of_nat (length block)) then
    ret (take (Z.to_nat n) (drop (Z.to_nat off) block))
  else Undefined "memcpy from past the end of the allocation".

(* ================================================================== *)
(** * The lane *)
(* ================================================================== *)

Module ShaderType.
Inductive t : Set := Pixel | Vertex | Compute | Other.
End ShaderType.

(** [StackFrame]: the live list saved for the caller. *)
Record StackFrame : Set := { live : list bool }.

(** [ThreadState]: the members the modelled code reads or writes.  [m_State]
    is the [ShaderDebugState] the caller of [StepNext] passed in, [None] for
    the null pointer of a lane that is not observed; [m_OutputId] is
    [m_Output.id]; [m_QuadNeighbours] has four entries. *)
Record ThreadState : Type := {
  m_Variables : gmap Z ShaderVariable;
  m_PhiVariables : gmap Z ShaderVariable;
  m_Assigned : list bool;
  m_Live : list bool;
  m_Memory : MemoryTracking;
  m_Block : Z;
  m_PreviousBlock : Z;
  m_FunctionInstructionIdx : Z;
  m_ActiveGlobalInstructionIdx : Z;
  m_State : option ShaderDebugState;
  m_Dead : bool;
  m_Ended : bool;
  m_Callstack : list StackFrame;
  m_Diverged : bool;
  m_ConvergencePoint : Z;
  m_EnteredPoints : list Z;
  m_QuadNeighbours : list Z;
  m_QuadLaneIndex : Z;
  m_ShaderType : ShaderType.t;
  m_OutputId : Id
}.

Definition set_m_Variables (x : gmap Z ShaderVariable) (ts : ThreadState) : ThreadState :=
  {| m_Variables := x;
     m_PhiVariables := m_PhiVariables ts;
     m_Assigned := m_Assigned ts;
     m_Live := m_Live ts;
     m_Memory := m_Memory ts;
     m_Block := m_Block ts;
     m_PreviousBlock := m_PreviousBlock ts;
     m_FunctionInstructionIdx := m_FunctionInstructionIdx ts;
     m_ActiveGlobalInstructionIdx := m_ActiveGlobalInstructionIdx ts;
     m_State := m_State ts;
     m_Dead := m_Dead ts;
     m_Ended := m_Ended ts;
     m_Callstack := m_Callstack ts;
     m_Diverged := m_Diverged ts;
     m_ConvergencePoint := m_ConvergencePoint ts;
     m_EnteredPoints := m_EnteredPoints ts;
     m_QuadNeighbours := m_QuadNeighbours ts;
     m_QuadLaneIndex := m_QuadLaneIndex ts;
     m_ShaderType := m_ShaderType ts;
     m_OutputId := m_OutputId ts |}.
Definition set_m_PhiVariables (x : gmap Z ShaderVariable) (ts : ThreadState) : ThreadState :=
  {| m_Variables := m_Variables ts;
     m_PhiVariables := x;
     m_Assigned := m_Assigned ts;
     m_Live := m_Live ts;
     m_Memory := m_Memory ts;
     m_Block := m_Block ts;
     m_PreviousBlock := m_PreviousBlock ts;
     m_FunctionInstructionIdx := m_FunctionInstructionIdx ts;
     m_ActiveGlobalInstructionIdx := m_ActiveGlobalInstructionIdx ts;
     m_State := m_State ts;
     m_Dead := m_Dead ts;
     m_Ended := m_Ended ts;
     m_Callstack := m_Callstack ts;
     m_Diverged := m_Diverged ts;
     m_ConvergencePoint := m_ConvergencePoint ts;
     m_EnteredPoints := m_EnteredPoints ts;
     m_QuadNeighbours := m_QuadNeighbours ts;
     m_QuadLaneIndex := m_QuadLaneIndex ts;
     m_ShaderType := m_ShaderType ts;
     m_OutputId := m_OutputId ts |}.
Definition set_m_Assigned (x : list bool) (ts : ThreadState) : ThreadState :=
  {| m_Variables := m_Variables ts;
     m_PhiVariables := m_PhiVariables ts;
     m_Assigned := x;
     m_Live := m_Live ts;
     m_Memory := m_Memory ts;
     m_Block := m_Block ts;
     m_PreviousBlock := m_PreviousBlock ts;
     m_FunctionInstructionIdx := m_FunctionInstructionIdx ts;
     m_ActiveGlobalInstructionIdx := m_ActiveGlobalInstructionIdx ts;
     m_State := m_State ts;
     m_Dead := m_Dead ts;
     m_Ended := m_Ended ts;
     m_Callstack := m_Callstack ts;
     m_Diverged := m_Diverged ts;
     m_ConvergencePoint := m_ConvergencePoint ts;
     m_EnteredPoints := m_EnteredPoints ts;
     m_QuadNeighbours := m_QuadNeighbours ts;
     m_QuadLaneIndex := m_QuadLaneIndex ts;
     m_ShaderType := m_ShaderType ts;
     m_OutputId := m_OutputId ts |}.
Definition set_m_Live (x : list bool) (ts : ThreadState) : ThreadState :=
  {| m_Variables := m_Variables ts;
     m_PhiVariables := m_PhiVariables ts;
     m_Assigned := m_Assigned ts;
     m_Live := x;
     m_Memory := m_Memory ts;
     m_Block := m_Block ts;
     m_PreviousBlock := m_PreviousBlock ts;
     m_FunctionInstructionIdx := m_FunctionInstructionIdx ts;
     m_ActiveGlobalInstructionIdx := m_ActiveGlobalInstructionIdx ts;
     m_State := m_State ts;
     m_Dead := m_Dead ts;
     m_Ended := m_Ended ts;
     m_Callstack := m_Callstack ts;
     m_Diverged := m_Diverged ts;
     m_ConvergencePoint := m_ConvergencePoint ts;
     m_EnteredPoints := m_EnteredPoints ts;
     m_QuadNeighbours := m_QuadNeighbours ts;
     m_QuadLaneIndex := m_QuadLaneIndex ts;
     m_ShaderType := m_ShaderType ts;
     m_OutputId := m_OutputId ts |}.
Definition set_m_Memory (x : MemoryTracking) (ts : ThreadState) : ThreadState :=
  {| m_Variables := m_Variables ts;
     m_PhiVariables := m_PhiVariables ts;
     m_Assigned := m_Assigned ts;
     m_Live := m_Live ts;
     m_Memory := x;
     m_Block := m_Block ts;
     m_PreviousBlock := m_PreviousBlock ts;
     m_FunctionInstructionIdx := m_FunctionInstructionIdx ts;
     m_ActiveGlobalInstructionIdx := m_ActiveGlobalInstructionIdx ts;
     m_State := m_State ts;
     m_Dead := m_Dead ts;
     m_Ended := m_Ended ts;
     m_Callstack := m_Callstack ts;
     m_Diverged := m_Diverged ts;
     m_ConvergencePoint := m_ConvergencePoint ts;
     m_EnteredPoints := m_EnteredPoints ts;
     m_QuadNeighbours := m_QuadNeighbours ts;
     m_QuadLaneIndex := m_QuadLaneIndex ts;
     m_ShaderType := m_ShaderType ts;
     m_OutputId := m_OutputId ts |}.
Definition set_m_Block (x : Z) (ts : ThreadState) : ThreadState :=
  {| m_Variables := m_Variables ts;
     m_PhiVariables := m_PhiVariables ts;
     m_Assigned := m_Assigned ts;
     m_Live := m_Live ts;
     m_Memory := m_Memory ts;
     m_Block := x;
     m_PreviousBlock := m_PreviousBlock ts;
     m_FunctionInstructionIdx := m_FunctionInstructionIdx ts;
     m_ActiveGlobalInstructionIdx := m_ActiveGlobalInstructionIdx ts;
     m_State := m_State ts;
     m_Dead := m_Dead ts;
     m_Ended := m_Ended ts;
     m_Callstack := m_Callstack ts;
     m_Diverged := m_Diverged ts;
     m_ConvergencePoint := m_ConvergencePoint ts;
     m_EnteredPoints := m_EnteredPoints ts;
     m_QuadNeighbours := m_QuadNeighbours ts;
     m_QuadLaneIndex := m_QuadLaneIndex ts;
     m_ShaderType := m_ShaderType ts;
     m_OutputId := m_OutputId ts |}.
Definition set_m_PreviousBlock (x : Z) (ts : ThreadState) : ThreadState :=
  {| m_Variables := m_Variables ts;
     m_PhiVariables := m_PhiVariables ts;
     m_Assigned := m_Assigned ts;
     m_Live := m_Live ts;
     m_Memory := m_Memory ts;
     m_Block := m_Block ts;
     m_PreviousBlock := x;
     m_FunctionInstructionIdx := m_FunctionInstructionIdx ts;
     m_ActiveGlobalInstructionIdx := m_ActiveGlobalInstructionIdx ts;
     m_State := m_State ts;
     m_Dead := m_Dead ts;
     m_Ended := m_Ended ts;
     m_Callstack := m_Callstack ts;
     m_Diverged := m_Diverged ts;
     m_ConvergencePoint := m_ConvergencePoint ts;
     m_EnteredPoints := m_EnteredPoints ts;
     m_QuadNeighbours := m_QuadNeighbours ts;
     m_QuadLaneIndex := m_QuadLaneIndex ts;
     m_ShaderType := m_ShaderType ts;
     m_OutputId := m_OutputId ts |}.
Definition set_m_FunctionInstructionIdx (x : Z) (ts : ThreadState) : ThreadState :=
  {| m_Variables := m_Variables ts;
     m_PhiVariables := m_PhiVariables ts;
     m_Assigned := m_Assigned ts;
     m_Live := m_Live ts;
     m_Memory := m_Memory ts;
     m_Block := m_Block ts;
     m_PreviousBlock := m_PreviousBlock ts;
     m_FunctionInstructionIdx := x;
     m_ActiveGlobalInstructionIdx := m_ActiveGlobalInstructionIdx ts;
     m_State := m_State ts;
     m_Dead := m_Dead ts;
     m_Ended := m_Ended ts;
     m_Callstack := m_Callstack ts;
     m_Diverged := m_Diverged ts;
     m_ConvergencePoint := m_ConvergencePoint ts;
     m_EnteredPoints := m_EnteredPoints ts;
     m_QuadNeighbours := m_QuadNeighbours ts;
     m_QuadLaneIndex := m_QuadLaneIndex ts;
     m_ShaderType := m_ShaderType ts;
     m_OutputId := m_OutputId ts |}.
Definition set_m_State (x : option ShaderDebugState) (ts : ThreadState) : ThreadState :=
  {| m_Variables := m_Variables ts;
     m_PhiVariables := m_PhiVariables ts;
     m_Assigned := m_Assigned ts;
     m_Live := m_Live ts;
     m_Memory := m_Memory ts;
     m_Block := m_Block ts;
     m_PreviousBlock := m_PreviousBlock ts;
     m_FunctionInstructionIdx := m_FunctionInstructionIdx ts;
     m_ActiveGlobalInstructionIdx := m_ActiveGlobalInstructionIdx ts;
     m_State := x;
     m_Dead := m_Dead ts;
     m_Ended := m_Ended ts;
     m_Callstack := m_Callstack ts;
     m_Diverged := m_Diverged ts;
     m_ConvergencePoint := m_ConvergencePoint ts;
     m_EnteredPoints := m_EnteredPoints ts;
     m_QuadNeighbours := m_QuadNeighbours ts;
     m_QuadLaneIndex := m_QuadLaneIndex ts;
     m_ShaderType := m_ShaderType ts;
     m_OutputId := m_OutputId ts |}.
Definition set_m_Diverged (x : bool) (ts : ThreadState) : ThreadState :=
  {| m_Variables := m_Variables ts;
     m_PhiVariables := m_PhiVariables ts;
     m_Assigned := m_Assigned ts;
     m_Live := m_Live ts;
     m_Memory := m_Memory ts;
     m_Block := m_Block ts;
     m_PreviousBlock := m_PreviousBlock ts;
     m_FunctionInstructionIdx := m_FunctionInstructionIdx ts;
     m_ActiveGlobalInstructionIdx := m_ActiveGlobalInstructionIdx ts;
     m_State := m_State ts;
     m_Dead := m_Dead ts;
     m_Ended := m_Ended ts;
     m_Callstack := m_Callstack ts;
     m_Diverged := x;
     m_ConvergencePoint := m_ConvergencePoint ts;
     m_EnteredPoints := m_EnteredPoints ts;
     m_QuadNeighbours := m_QuadNeighbours ts;
     m_QuadLaneIndex := m_QuadLaneIndex ts;
     m_ShaderType := m_ShaderType ts;
     m_OutputId := m_OutputId ts |}.
Definition set_m_ConvergencePoint (x : Z) (ts : ThreadState) : ThreadState :=
  {| m_Variables := m_Variables ts;
     m_PhiVariables := m_PhiVariables ts;
     m_Assigned := m_Assigned ts;
     m_Live := m_Live ts;
     m_Memory := m_Memory ts;
     m_Block := m_Block ts;
     m_PreviousBlock := m_PreviousBlock ts;
     m_FunctionInstructionIdx := m_FunctionInstructionIdx ts;
     m_ActiveGlobalInstructionIdx := m_ActiveGlobalInstructionIdx ts;
     m_State := m_State ts;
     m_Dead := m_Dead ts;
     m_Ended := m_Ended ts;
     m_Callstack := m_Callstack ts;
     m_Diverged := m_Diverged ts;
     m_ConvergencePoint := x;
     m_EnteredPoints := m_EnteredPoints ts;
     m_QuadNeighbours := m_QuadNeighbours ts;
     m_QuadLaneIndex := m_QuadLaneIndex ts;
     m_ShaderType := m_ShaderType ts;
     m_OutputId := m_OutputId ts |}.
Definition set_m_EnteredPoints (x : list Z) (ts : ThreadState) : ThreadState :=
  {| m_Variables := m_Variables ts;
     m_PhiVariables := m_PhiVariables ts;
     m_Assigned := m_Assigned ts;
     m_Live := m_Live ts;
     m_Memory := m_Memory ts;
     m_Block := m_Block ts;
     m_PreviousBlock := m_PreviousBlock ts;
     m_FunctionInstructionIdx := m_FunctionInstructionIdx ts;
     m_ActiveGlobalInstructionIdx := m_ActiveGlobalInstructionIdx ts;
     m_State := m_State ts;
     m_Dead := m_Dead ts;
     m_Ended := m_Ended ts;
     m_Callstack := m_Callstack ts;
     m_Diverged := m_Diverged ts;
     m_ConvergencePoint := m_ConvergencePoint ts;
     m_EnteredPoints := x;
     m_QuadNeighbours := m_QuadNeighbours ts;
     m_QuadLaneIndex := m_QuadLaneIndex ts;
     m_ShaderType := m_ShaderType ts;
     m_OutputId := m_OutputId ts |}.
Definition set_m_Dead (x : bool) (ts : ThreadState) : ThreadState :=
  {| m_Variables := m_Variables ts;
     m_PhiVariables := m_PhiVariables ts;
     m_Assigned := m_Assigned ts;
     m_Live := m_Live ts;
     m_Memory := m_Memory ts;
     m_Block := m_Block ts;
     m_PreviousBlock := m_PreviousBlock ts;
     m_FunctionInstructionIdx := m_FunctionInstructionIdx ts;
     m_ActiveGlobalInstructionIdx := m_ActiveGlobalInstructionIdx ts;
     m_State := m_State ts;
     m_Dead := x;
     m_Ended := m_Ended ts;
     m_Callstack := m_Callstack ts;
     m_Diverged := m_Diverged ts;
     m_ConvergencePoint := m_ConvergencePoint ts;
     m_EnteredPoints := m_EnteredPoints ts;
     m_QuadNeighbours := m_QuadNeighbours ts;
     m_QuadLaneIndex := m_QuadLaneIndex ts;
     m_ShaderType := m_ShaderType ts;
     m_OutputId := m_OutputId ts |}.
Definition set_m_Ended (x : bool) (ts : ThreadState) : ThreadState :=
  {| m_Variables := m_Variables ts;
     m_PhiVariables := m_PhiVariables ts;
     m_Assigned := m_Assigned ts;
     m_Live := m_Live ts;
     m_Memory := m_Memory ts;
     m_Block := m_Block ts;
     m_PreviousBlock := m_PreviousBlock ts;
     m_FunctionInstructionIdx := m_FunctionInstructionIdx ts;
     m_ActiveGlobalInstructionIdx := m_ActiveGlobalInstructionIdx ts;
     m_State := m_State ts;
     m_Dead := m_Dead ts;
     m_Ended := x;
     m_Callstack := m_Callstack ts;
     m_Diverged := m_Diverged ts;
     m_ConvergencePoint := m_ConvergencePoint ts;
     m_EnteredPoints := m_EnteredPoints ts;
     m_QuadNeighbours := m_QuadNeighbours ts;
     m_QuadLaneIndex := m_QuadLaneIndex ts;
     m_ShaderType := m_ShaderType ts;
     m_OutputId := m_OutputId ts |}.

(** [ThreadState::Finished]. *)
Definition Finished (ts : ThreadState) : bool :=
  m_Dead ts || m_Ended ts || bool_decide (m_Callstack ts = []).

(** Indexing an [rdcarray] with an unsigned index. *)
Definition at_index {A : Type} (l : list A) (i : Z) : option A :=
  if i <? 0 then None else l !! Z.to_nat i.

Definition in_range {A : Type} (l : list A) (i : Z) : bool :=
  (0 <=? i) && (i <? Z.of_nat (length l)).

(** [inst.args[i]]; reading past the end of the array is undefined. *)
Definition arg_at (inst : Instruction) (i : Z) : Outcome Value :=
  match at_index (args inst) i with
  | Some v => ret v
  | None => Undefined "inst.args index out of bounds"
  end.

(** [m[id]] on a [std::map] used as an r-value: the entry, or a default
    constructed one. *)
Definition map_at (m : gmap Z ShaderVariable) (id : Id) : ShaderVariable :=
  default default_ShaderVariable (m !! id).

(** [ThreadState::IsVariableAssigned]. *)
Definition IsVariableAssigned (ts : ThreadState) (id : Id) : Outcome bool :=
  match at_index (m_Assigned ts) id with
  | Some b => ret b
  | None => RDCERR "Variable Id is not in assigned list" ;;; ret false
  end.

(** [var.value.f32v[0] = flush_denorm(var.value.f32v[0])]. *)
Definition flush_f32v0 (v : ShaderValue) : ShaderValue :=
  set_comp 32 0 (flush_denorm (comp 32 0 v)) v.

(** [ThreadState::GetVariableHelper]. *)
Definition GetVariableHelper (op : Operation.t) (dxOpCode : DXOp.t) (var : ShaderVariable)
  : Outcome (bool * ShaderVariable) :=
  let flushDenorm := OperationFlushing op dxOpCode in
  let flushDenorm := if VarType.eqb (type var) VarType.Double then false else flushDenorm in
  let flushDenorm := if VarType.eqb (type var) VarType.Half then false else flushDenorm in
  RDCASSERT (negb flushDenorm || VarType.eqb (type var) VarType.Float)
            "!flushDenorm || var.type == VarType::Float" ;;;
  ret (true, if flushDenorm then with_value (flush_f32v0 (value var)) var else var).

(** [ThreadState::GetLiveVariable]. *)
Definition GetLiveVariable (ts : ThreadState) (id : Id) (op : Operation.t)
    (dxOpCode : DXOp.t) (var : ShaderVariable) : Outcome (bool * ShaderVariable) :=
  match at_index (m_Live ts) id with
  | Some b => RDCASSERT b "m_Live[id]"
  | None => RDCERR "Unknown Live Variable Id"
  end ;;;
  assigned <- IsVariableAssigned ts id ;;
  RDCASSERT assigned "IsVariableAssigned(id)" ;;;
  match m_Variables ts !! id with
  | Some v => GetVariableHelper op dxOpCode v
  | None => RDCERR "Unknown Variable" ;;; ret (false, var)
  end.

(** [ThreadState::GetPhiVariable]: reads [m_PhiVariables] only. *)
Definition GetPhiVariable (ts : ThreadState) (id : Id) (op : Operation.t)
    (dxOpCode : DXOp.t) (var : ShaderVariable) : Outcome (bool * ShaderVariable) :=
  match m_PhiVariables ts !! id with
  | Some v => GetVariableHelper op dxOpCode v
  | None => RDCERR "Phi Variable not found" ;;; ret (false, var)
  end.

(** [ThreadState::GetShaderVariableHelper].  [var] is the caller's variable,
    which the function fills in; the result is the returned flag and the
    variable afterwards.  Constant expressions and constant aggregates
    ([isCompound]) are not covered. *)
Definition GetShaderVariableHelper (ts : ThreadState) (dxilValue : Value)
    (op : Operation.t) (dxOpCode : DXOp.t) (var : ShaderVariable)
    (flushDenormInput isLive : bool) : Outcome (bool * ShaderVariable) :=
  ty <- ConvertDXILTypeToVarType (value_type dxilValue) ;;
  let var := {| name := ""; type := ty; rows := 1; columns := 1;
                value := value var; members := [] |} in
  let flushDenorm := flushDenormInput && OperationFlushing op dxOpCode in
  let flushDenorm := if VarType.eqb ty VarType.Double then false else flushDenorm in
  let flushDenorm := if VarType.eqb ty VarType.Half then false else flushDenorm in
  RDCASSERT (negb flushDenorm || VarType.eqb ty VarType.Float)
            "!flushDenorm || var.type == VarType::Float" ;;;
  match dxilValue with
  | VConstant _ _ k =>
      match k with
      | CShaderVal v =>
          let var := with_value v var in
          ret (true, if flushDenorm then with_value (flush_f32v0 (value var)) var else var)
      | CLiteral u => ret (true, with_value (set_u64v 0 u (value var)) var)
      | CNULL => ret (true, with_value (set_u64v 0 0 (value var)) var)
      | CUndef cop =>
          match cop with
          | Operation.NoOp => ret (true, with_value (set_u64v 0 0 (value var)) var)
          | _ => ret (false, var)
          end
      | CData =>
          RDCERR "Constant isData DXIL Value not supported" ;;;
          RDCERR "Unhandled DXIL Value type" ;;; ret (false, var)
      | CCast =>
          RDCERR "Constant isCast DXIL Value not supported" ;;;
          RDCERR "Unhandled DXIL Value type" ;;; ret (false, var)
      | CCompound cop =>
          match cop with
          | Operation.GetElementPtr => Unmodelled "constant GetElementPtr expression"
          | Operation.NoOp => Unmodelled "constant aggregate"
          | _ =>
              RDCERR "Constant isCompound DXIL Value with unsupported operation" ;;;
              ret (false, var)
          end
      | CEmpty => RDCERR "Constant DXIL Value with no value" ;;; ret (false, var)
      end
  | VLiteral _ lit => ret (true, with_value (set_u64v 0 lit (value var)) var)
  | VGlobalVar _ _ init =>
      match init with
      | Some u => ret (true, with_value (set_u64v 0 u (value var)) var)
      | None => ret (true, with_value zero_value var)
      end
  | VInstruction _ slot =>
      if isLive then GetLiveVariable ts slot op dxOpCode var
      else GetPhiVariable ts slot op dxOpCode var
  | VBlock _ | VMetadata => RDCERR "Unhandled DXIL Value type" ;;; ret (false, var)
  end.

(** [ThreadState::GetShaderVariable] and [ThreadState::GetPhiShaderVariable]
    (inline in the class declaration): the helper with [isLive] true and
    false. *)
Definition GetShaderVariable (ts : ThreadState) (dxilValue : Value) (op : Operation.t)
    (dxOpCode : DXOp.t) (var : ShaderVariable) (flushDenormInput : bool)
  : Outcome (bool * ShaderVariable) :=
  GetShaderVariableHelper ts dxilValue op dxOpCode var flushDenormInput true.

Definition GetPhiShaderVariable (ts : ThreadState) (dxilValue : Value) (op : Operation.t)
    (dxOpCode : DXOp.t) (var : ShaderVariable) (flushDenormInput : bool)
  : Outcome (bool * ShaderVariable) :=
  GetShaderVariableHelper ts dxilValue op dxOpCode var flushDenormInput false.

(** [ShaderVariable x; RDCASSERT(GetShaderVariable(v, opCode, dxOpCode, x));]:
    the call is made on a fresh variable and a [false] return is reported. *)
Definition fetch (ts : ThreadState) (dxilValue : Value) (op : Operation.t)
    (dxOpCode : DXOp.t) : Outcome ShaderVariable :=
  r <- GetShaderVariable ts dxilValue op dxOpCode default_ShaderVariable true ;;
  RDCASSERT (fst r) "GetShaderVariable" ;;;
  ret (snd r).

(** The events [AssignValue] reports for a value of type [t]: a [Float] or
    [Double] whose first component is not finite generates a NaN or Inf. *)
Definition value_events (t : VarType.t) (v : ShaderValue) : ShaderEvents :=
  match t with
  | VarType.Float =>
      if RDCISFINITE (f32v v 0) then ShaderEvents.NoEvent
      else Z.lor ShaderEvents.NoEvent ShaderEvents.GeneratedNanOrInf
  | VarType.Double =>
      if RDCISFINITE (f64v v 0) then ShaderEvents.NoEvent
      else Z.lor ShaderEvents.NoEvent ShaderEvents.GeneratedNanOrInf
  | _ => ShaderEvents.NoEvent
  end.

(** [AssignValue(result, src, flushDenorm)]: the events of the value and the
    variable [result] afterwards. *)
Definition AssignValue (result src : ShaderVariable) (flushDenorm : bool)
  : Outcome (ShaderEvents * ShaderVariable) :=
  RDCASSERT (VarType.eqb (type result) (type src)) "result.type == src.type" ;;;
  let flags := value_events (type result) (value src) in
  let result := with_value (set_u32v 0 (u32v (value src) 0) (value result)) result in
  if flushDenorm then
    match type result with
    | VarType.Float =>
        ret (flags, with_value (set_comp 32 0 (flush_denorm (comp 32 0 (value src)))
                                         (value result)) result)
    | VarType.Double => RDCERR "Unhandled flushing denormalised double" ;;; ret (flags, result)
    | _ => ret (flags, result)
    end
  else ret (flags, result).

(** [ThreadState::SetResult]: [result] is assigned to itself through
    [AssignValue], and the observed lane records the change. *)
Definition SetResult (ts : ThreadState) (id : Id) (result : ShaderVariable)
    (op : Operation.t) (dxOpCode : DXOp.t) (flags : ShaderEvents)
  : Outcome (ThreadState * ShaderVariable) :=
  RDCASSERT (((0 <? rows result) && (0 <? columns result))
             || negb (bool_decide (members result = [])))
            "(result.rows > 0 && result.columns > 0) || !result.members.empty()" ;;;
  RDCASSERT (columns result <=? 16) "result.columns <= 16" ;;;
  RDCASSERT (negb (VarType.eqb (type result) VarType.Unknown))
            "result.type != VarType::Unknown" ;;;
  let flushDenorm := OperationFlushing op dxOpCode
                     && VarType.eqb (type result) VarType.Float in
  r <- AssignValue result result flushDenorm ;;
  let flags := Z.lor flags (fst r) in
  let result := snd r in
  match m_State ts with
  | Some st =>
      let change := {| before := map_at (m_Variables ts) id; after := result |} in
      ret (set_m_State (Some (push_change change (or_flags flags st))) ts, result)
  | None => ret (ts, result)
  end.

(* ================================================================== *)
(** * Jumps *)
(* ================================================================== *)

(** [for(Id id : phiIds) m_PhiVariables[id] = m_Variables[id];] on the pair
    of maps.  Reading [m_Variables[id]] creates a default entry when there is
    none. *)
Definition snapshot_step (acc : gmap Z ShaderVariable * gmap Z ShaderVariable) (id : Id)
  : gmap Z ShaderVariable * gmap Z ShaderVariable :=
  let vars := match fst acc !! id with
              | Some _ => fst acc
              | None => <[id := default_ShaderVariable]> (fst acc)
              end in
  (vars, <[id := map_at (fst acc) id]> (snd acc)).

Definition snapshot_phi (ids : list Id) (vars phis : gmap Z ShaderVariable)
  : gmap Z ShaderVariable * gmap Z ShaderVariable :=
  foldl snapshot_step (vars, phis) ids.

(** [rdcarray::contains]. *)
Definition contains (l : list Z) (x : Z) : bool := existsb (Z.eqb x) l.

(** [ThreadState::JumpToBlock].  [target] is the id of the block pointed to,
    [None] for a null pointer. *)
Definition JumpToBlock (fi : FunctionInfo) (ts : ThreadState) (target : option Z)
    (divergencePoint : bool) : Outcome (bool * ThreadState) :=
  let ts := set_m_PreviousBlock (m_Block ts) ts in
  let ts := set_m_PhiVariables ∅ ts in
  let ts :=
    match phiReferencedIdsPerBlock fi !! m_PreviousBlock ts with
    | Some phiIds =>
        let r := snapshot_phi (elements phiIds) (m_Variables ts) (m_PhiVariables ts) in
        set_m_PhiVariables (snd r) (set_m_Variables (fst r) ts)
    | None => ts
    end in
  RDCASSERT (bool_decide (is_Some target)) "target" ;;;
  match target with
  | None => Undefined "target->id on a null block"
  | Some blockId =>
      match at_index (blocks (function fi)) blockId with
      | Some blk =>
          let ts := set_m_Block blockId ts in
          let ts := set_m_FunctionInstructionIdx (startInstructionIdx blk) ts in
          let nextInstruction :=
            wrap 32 (globalInstructionOffset fi + m_FunctionInstructionIdx ts) in
          let ts :=
            match m_State ts with
            | Some st =>
                if m_Ended ts then ts
                else set_m_State (Some (with_nextInstruction nextInstruction st)) ts
            | None => ts
            end in
          let ts := set_m_EnteredPoints (m_EnteredPoints ts ++ [m_Block ts]) ts in
          RDCASSERT (Bool.eqb (contains (divergentBlocks fi) (m_PreviousBlock ts))
                              divergencePoint)
                    "divergentBlocks.contains(m_PreviousBlock) == divergencePoint" ;;;
          if divergencePoint then
            let ts := set_m_Diverged true ts in
            RDCASSERT (m_ConvergencePoint ts =? INVALID_EXECUTION_POINT)
                      "m_ConvergencePoint == INVALID_EXECUTION_POINT" ;;;
            let ts :=
              match List.find (fun cb => fst cb =? m_PreviousBlock ts)
                              (convergentBlocks fi) with
              | Some cb => set_m_ConvergencePoint (snd cb) ts
              | None => ts
              end in
            RDCASSERT (negb (m_ConvergencePoint ts =? INVALID_EXECUTION_POINT))
                      "m_ConvergencePoint != INVALID_EXECUTION_POINT" ;;;
            ret (true, ts)
          else ret (true, ts)
      | None => ret (false, ts)
      end
  end.

(** The loop of [Debugger::BeginDebug] that stores "the block captured SSA
    IDs used as arguments to phi nodes": every SSA value of a
    [{ value, label }] pair of a phi is filed under the id of its label. *)
Fixpoint phi_pairs_ids (pairs : list Value)
    (acc : gmap Z (gset Z)) : Outcome (gmap Z (gset Z)) :=
  match pairs with
  | arg :: label :: rest =>
      if IsSSA arg then
        match label with
        | VBlock blockId =>
            phi_pairs_ids rest
              (<[blockId := {[GetSSAId arg]} ∪ default ∅ (acc !! blockId)]> acc)
        | _ => Undefined "block->id on a null block"
        end
      else phi_pairs_ids rest acc
  | [_] => Undefined "inst.args index out of bounds"
  | [] => ret acc
  end.

Fixpoint build_phiReferencedIdsPerBlock (insts : list Instruction)
    (acc : gmap Z (gset Z)) : Outcome (gmap Z (gset Z)) :=
  match insts with
  | [] => ret acc
  | inst :: rest =>
      match op inst with
      | Operation.Phi =>
          acc' <- phi_pairs_ids (args inst) acc ;;
          build_phiReferencedIdsPerBlock rest acc'
      | _ => build_phiReferencedIdsPerBlock rest acc
      end
  end.

(* ================================================================== *)
(** * Backing memory *)
(* ================================================================== *)

(** [ThreadState::UpdateBackingMemoryFromVariable(ptr, allocSize, var)].
    [block] is the block [ptr] points into and [ptr] the offset in it; the
    result is the block afterwards and the updated [allocSize]. *)
Fixpoint UpdateBackingMemoryFromVariable (var : ShaderVariable) (block : list Z)
    (ptr : Z) (allocSize : Z) {struct var} : Outcome (list Z * Z) :=
  match var with
  | mkShaderVariable _ vtype vrows vcolumns vvalue vmembers =>
      match vmembers with
      | [] =>
          RDCASSERT (vrows =? 1) "var.rows == 1" ;;;
          elementSize <- GetElementByteSize vtype ;;
          RDCASSERT (elementSize <=? allocSize) "elementSize <= allocSize" ;;;
          RDCASSERT (elementSize <=? sizeof_ShaderValue)
                    "elementSize <= sizeof(ShaderValue)" ;;;
          let varMemSize := vcolumns * elementSize in
          if sizeof_ShaderValue <? varMemSize then
            Undefined "memcpy reads past the end of the value"
          else
            block' <- write_bytes block ptr (bytes_of (Z.to_nat varMemSize) vvalue) ;;
            ret (block', wrap 64 (allocSize - varMemSize))
      | _ =>
          (fix loop (ms : list ShaderVariable) (block : list Z) (dst : Z)
                    (allocSize : Z) {struct ms} : Outcome (list Z * Z) :=
             match ms with
             | [] => ret (block, allocSize)
             | m :: ms' =>
                 elementSize <- GetElementByteSize (type m) ;;
                 let varMemSize := columns m * elementSize in
                 r <- UpdateBackingMemoryFromVariable m block dst allocSize ;;
                 loop ms' (fst r) (dst + varMemSize) (snd r)
             end) vmembers block ptr allocSize
      end
  end.

(** The member loop of [UpdateMemoryVariableFromBackingMemory]. *)
Fixpoint update_members_from_memory (ms : list ShaderVariable) (i : Z)
    (elementSize : Z) (block : list Z) (src : Z) : Outcome (list ShaderVariable) :=
  match ms with
  | [] => ret []
  | m :: ms' =>
      m' <- (if elementSize <=? sizeof_ShaderValue then
               bs <- read_bytes block src elementSize ;;
               ret (with_value (set_low_bytes elementSize (of_bytes bs) (value m)) m)
             else
               RDCERR "Updating MemoryVariable member elementSize too large" ;;;
               ret m) ;;
      rest <- update_members_from_memory ms' (i + 1) elementSize block
                                         (src + elementSize) ;;
      ret (m' :: rest)
  end.

(** [ThreadState::UpdateMemoryVariableFromBackingMemory(memoryId, ptr)] where
    [ptr] is the start of [block]. *)
Definition UpdateMemoryVariableFromBackingMemory (ts : ThreadState) (memoryId : Id)
    (block : list Z) : Outcome ThreadState :=
  let baseMemory := map_at (m_Variables ts) memoryId in
  elementSize <- GetElementByteSize (type baseMemory) ;;
  baseMemory' <-
    match members baseMemory with
    | [] =>
        RDCASSERT (rows baseMemory =? 1) "baseMemory.rows == 1" ;;;
        RDCASSERT (columns baseMemory =? 1) "baseMemory.columns == 1" ;;;
        if elementSize <=? sizeof_ShaderValue then
          bs <- read_bytes block 0 elementSize ;;
          ret (with_value (set_low_bytes elementSize (of_bytes bs) (value baseMemory))
                          baseMemory)
        else
          RDCERR "Updating MemoryVariable elementSize too large" ;;; ret baseMemory
    | ms =>
        ms' <- update_members_from_memory ms 0 elementSize block 0 ;;
        ret (with_members ms' baseMemory)
    end ;;
  ret (set_m_Variables (<[memoryId := baseMemory']> (m_Variables ts)) ts).

(** [ComputeDXILTypeByteSize]. *)
Fixpoint ComputeDXILTypeByteSize (type : DXILType) : Outcome Z :=
  match type with
  | TyStruct tmembers =>
      (fix sum (ts : list DXILType) : Outcome Z :=
         match ts with
         | [] => ret 0
         | t :: ts' =>
             n <- ComputeDXILTypeByteSize t ;;
             m <- sum ts' ;;
             ret (n + m)
         end) tmembers
  | TyVector elemCount inner =>
      n <- ComputeDXILTypeByteSize inner ;; ret (elemCount * n)
  | TyArray elemCount inner =>
      n <- ComputeDXILTypeByteSize inner ;; ret (elemCount * n)
  | TyPointer inner => ComputeDXILTypeByteSize inner
  | TyScalar _ bitWidth => ret (bitWidth / 8)
  | TyNone | TyFunction | TyMetadata | TyLabel => RDCERR "Unexpected type kind" ;;; ret 0
  end.

(** [ConvertDXILTypeToShaderVariable(type, var)]: the variable afterwards. *)
Fixpoint ConvertDXILTypeToShaderVariable (type : DXILType) (var : ShaderVariable)
  : Outcome ShaderVariable :=
  match type with
  | TyStruct tmembers =>
      ms <- (fix each (ts : list DXILType) (i : nat) : Outcome (list ShaderVariable) :=
               match ts with
               | [] => ret []
               | t :: ts' =>
                   m <- ConvertDXILTypeToShaderVariable t
                          (with_name (".member" +:+ pretty i) default_ShaderVariable) ;;
                   rest <- each ts' (S i) ;;
                   ret (m :: rest)
               end) tmembers O ;;
      ret {| name := name var; type := VarType.Struct; rows := 0; columns := 0;
             value := value var; members := ms |}
  | TyVector elemCount inner =>
      t <- ConvertDXILTypeToVarType inner ;;
      ret {| name := name var; type := t; rows := 1; columns := wrap 8 elemCount;
             value := value var; members := members var |}
  | TyArray elemCount inner =>
      t <- ConvertDXILTypeToVarType inner ;;
      ms <- (fix each (n : nat) (i : nat) : Outcome (list ShaderVariable) :=
               match n with
               | O => ret []
               | S n' =>
                   m <- ConvertDXILTypeToShaderVariable inner
                          (with_name ("[" +:+ pretty i +:+ "]") default_ShaderVariable) ;;
                   rest <- each n' (S i) ;;
                   ret (m :: rest)
               end) (Z.to_nat elemCount) O ;;
      ret {| name := name var; type := t; rows := 1; columns := 1;
             value := value var; members := ms |}
  | TyPointer inner => ConvertDXILTypeToShaderVariable inner var
  | TyScalar _ _ =>
      t <- ConvertDXILTypeToVarType type ;;
      ret {| name := name var; type := t; rows := 1; columns := 1;
             value := value var; members := members var |}
  | TyNone | TyFunction | TyMetadata | TyLabel => RDCERR "Unexpected type kind" ;;; ret var
  end.

(** [type->inner], null for the kinds that have no inner type. *)
Definition type_inner (type : DXILType) : option DXILType :=
  match type with
  | TyVector _ inner | TyPointer inner | TyArray _ inner => Some inner
  | _ => None
  end.

(** [MemoryTracking::AllocateMemoryForType(type, allocId, global, var)]: the
    tracker and [var] afterwards. *)
Definition AllocateMemoryForType (mem : MemoryTracking) (type : DXILType) (allocId : Id)
    (global : bool) (var : ShaderVariable) : Outcome (MemoryTracking * ShaderVariable) :=
  RDCASSERT (match type with TyPointer _ => true | _ => false end)
            "type->type == Type::TypeKind::Pointer" ;;;
  match type_inner type with
  | Some inner =>
      var' <- ConvertDXILTypeToShaderVariable inner var ;;
      byteSize <- ComputeDXILTypeByteSize inner ;;
      let backingMem := replicate (Z.to_nat byteSize) 0 in
      ret ({| m_Allocations :=
                <[allocId := {| Allocation.backingMemory := backingMem;
                                Allocation.size := byteSize;
                                Allocation.global := global |}]> (m_Allocations mem);
              m_Pointers :=
                <[allocId := {| Pointer.baseMemoryId := allocId; Pointer.memory := 0;
                                Pointer.size := byteSize |}]> (m_Pointers mem) |},
           var')
  | None => Undefined "type->inner is null"
  end.

(* ================================================================== *)
(** * Arithmetic and comparisons *)
(* ================================================================== *)

(** [IMPL_FOR_INT_TYPES_FOR_TYPE(_IMPL, type)] expands [_IMPL(I, S, U)] for
    the integer lane types of [type]: [I] and [U] the unsigned and [S] the
    signed type of the same width.  The macro is defined outside the sources
    at hand; the width it selects is all a body needs.  No branch applies to
    any other type. *)
Definition int_lane_bits (t : VarType.t) : option Z :=
  match t with
  | VarType.UByte | VarType.SByte => Some 8
  | VarType.UShort | VarType.SShort => Some 16
  | VarType.UInt | VarType.SInt => Some 32
  | VarType.ULong | VarType.SLong => Some 64
  | _ => None
  end.

(** [IMPL_FOR_FLOAT_TYPES_FOR_TYPE(_IMPL, type)] expands [_IMPL(T)] for
    [float], [half] or [double]. *)
Definition float_lane_format (t : VarType.t) : option FloatFormat :=
  match t with
  | VarType.Float => Some binary32
  | VarType.Half => Some binary16
  | VarType.Double => Some binary64
  | _ => None
  end.

(** [x / y] on signed lanes of [w] bits.  The operands of lanes narrower than
    [int] are promoted; on the wider lanes a quotient that does not fit is
    undefined. *)
Definition cxx_sdiv (w x y : Z) : Outcome Z :=
  if y =? 0 then Undefined "integer division by zero"
  else if (32 <=? w) && (x =? - 2 ^ (w - 1)) && (y =? -1) then
    Undefined "signed integer overflow"
  else ret (Z.quot x y).

(** [x % y] on signed lanes of [w] bits. *)
Definition cxx_srem (w x y : Z) : Outcome Z :=
  if y =? 0 then Undefined "integer remainder by zero"
  else if (32 <=? w) && (x =? - 2 ^ (w - 1)) && (y =? -1) then
    Undefined "signed integer overflow"
  else ret (Z.rem x y).

(** [x / y] and [x % y] on unsigned lanes. *)
Definition cxx_udiv (x y : Z) : Outcome Z :=
  if y =? 0 then Undefined "integer division by zero" else ret (x / y).
Definition cxx_urem (x y : Z) : Outcome Z :=
  if y =? 0 then Undefined "integer remainder by zero" else ret (x mod y).

(** The body of the case [Add], [Sub], [Mul], [UDiv], [SDiv], [URem], [SRem]
    once both operands are fetched; [c] is [0]. *)
Definition exec_int_arith (opCode : Operation.t) (a b result : ShaderVariable)
    (eventFlags : ShaderEvents) : Outcome (ShaderVariable * ShaderEvents) :=
  match int_lane_bits (type a) with
  | None =>
      match opCode with
      | Operation.Add | Operation.Sub | Operation.Mul | Operation.UDiv | Operation.SDiv
      | Operation.URem | Operation.SRem => ret (result, eventFlags)
      | _ => RDCERR "Unhandled opCode" ;;; ret (result, eventFlags)
      end
  | Some w =>
      let ua := comp w 0 (value a) in
      let ub := comp w 0 (value b) in
      let sa := signed w ua in
      let sb := signed w ub in
      let store x := with_value (set_comp w 0 x (value result)) result in
      match opCode with
      | Operation.Add => ret (store (ua + ub), eventFlags)
      | Operation.Sub => ret (store (ua - ub), eventFlags)
      | Operation.Mul => ret (store (ua * ub), eventFlags)
      | Operation.UDiv =>
          if negb (ub =? 0) then
            q <- cxx_udiv ua ub ;; ret (store q, eventFlags)
          else
            ret (store 0, Z.lor eventFlags ShaderEvents.GeneratedNanOrInf)
      | Operation.SDiv =>
          if negb (sb =? 0) then
            q <- cxx_sdiv w sa sb ;; ret (store q, eventFlags)
          else
            ret (store 0, Z.lor eventFlags ShaderEvents.GeneratedNanOrInf)
      | Operation.URem => r <- cxx_urem ua ub ;; ret (store r, eventFlags)
      | Operation.SRem => r <- cxx_srem w sa sb ;; ret (store r, eventFlags)
      | _ => RDCERR "Unhandled opCode" ;;; ret (result, eventFlags)
      end
  end.

(** The body of the case [FAdd], [FSub], [FMul], [FDiv], [FRem]. *)
Definition exec_float_arith (opCode : Operation.t) (a b result : ShaderVariable)
  : Outcome ShaderVariable :=
  match float_lane_format (type a) with
  | None =>
      match opCode with
      | Operation.FAdd | Operation.FSub | Operation.FMul | Operation.FDiv
      | Operation.FRem => ret result
      | _ => RDCERR "Unhandled opCode" ;;; ret result
      end
  | Some fmt =>
      let w := fwidth fmt in
      let fa := float_of_bits fmt (comp w 0 (value a)) in
      let fb := float_of_bits fmt (comp w 0 (value b)) in
      let store f := with_value (set_comp w 0 (bits_of_float fmt f) (value result)) result in
      match opCode with
      | Operation.FAdd => ret (store (fadd fmt fa fb))
      | Operation.FSub => ret (store (fsub fmt fa fb))
      | Operation.FMul => ret (store (fmul fmt fa fb))
      | Operation.FDiv => ret (store (fdiv fmt fa fb))
      | Operation.FRem => Unmodelled "fmod"
      | _ => RDCERR "Unhandled opCode" ;;; ret result
      end
  end.

Definition bool_to_u32 (b : bool) : Z := if b then 1 else 0.

(** The comparison an opcode of the [FOrd]/[FUnord] family writes to
    [comp<uint32_t>(result, c)], as the source spells it; [None] for an
    opcode that is not handled there. *)
Definition fcmp_value (opCode : Operation.t) (x y : spec_float) : option Z :=
  match opCode with
  | Operation.FOrdEqual => Some (if f_eq x y then 1 else 0)
  | Operation.FOrdGreater => Some (if f_gt x y then 1 else 0)
  | Operation.FOrdGreaterEqual => Some (if f_ge x y then 1 else 0)
  | Operation.FOrdLess => Some (if f_lt x y then 1 else 0)
  | Operation.FOrdLessEqual => Some (if f_le x y then 1 else 0)
  | Operation.FOrdNotEqual => Some (if f_ne x y then 1 else 0)
  | Operation.FOrd => Some (bool_to_u32 (negb (RDCISNAN x) && negb (RDCISNAN y)))
  | Operation.FUnord => Some (bool_to_u32 (RDCISNAN x || RDCISNAN y))
  | Operation.FUnordEqual => Some (if f_ne x y then 0 else 1)
  | Operation.FUnordGreater => Some (if f_le x y then 0 else 1)
  | Operation.FUnordGreaterEqual => Some (if f_lt x y then 0 else 1)
  | Operation.FUnordLess => Some (if f_ge x y then 0 else 1)
  | Operation.FUnordLessEqual => Some (if f_gt x y then 0 else 1)
  | Operation.FUnordNotEqual => Some (if f_eq x y then 0 else 1)
  | _ => None
  end.

(** The body of the floating point comparison case once both operands are
    fetched: the chain of tests on [opCode], each with the dispatch on the
    type of [a]. *)
Definition exec_fcmp (opCode : Operation.t) (a b result : ShaderVariable)
  : Outcome ShaderVariable :=
  match float_lane_format (type a) with
  | Some fmt =>
      let w := fwidth fmt in
      let fa := float_of_bits fmt (comp w 0 (value a)) in
      let fb := float_of_bits fmt (comp w 0 (value b)) in
      match fcmp_value opCode fa fb with
      | Some r => ret (with_value (set_comp 32 0 r (value result)) result)
      | None => RDCERR "Unhandled opCode" ;;; ret result
      end
  | None =>
      match fcmp_value opCode S754_nan S754_nan with
      | Some _ => ret result
      | None => RDCERR "Unhandled opCode" ;;; ret result
      end
  end.

(** [RDCASSERTEQUAL(v->type->type, Scalar); RDCASSERTEQUAL(v->type->scalarType, k)]. *)
Definition assert_scalar (v : Value) (k : ScalarKind.t) : Outcome unit :=
  match value_type v with
  | TyScalar k' _ =>
      RDCASSERT (match k, k' with
                 | ScalarKind.Int, ScalarKind.Int | ScalarKind.Float, ScalarKind.Float
                 | ScalarKind.Void, ScalarKind.Void => true
                 | _, _ => false
                 end) "type->scalarType"
  | _ =>
      RDCASSERT false "type->type == Type::TypeKind::Scalar" ;;;
      RDCASSERT (match k with ScalarKind.Void => true | _ => false end) "type->scalarType"
  end.

Definition assert_type (var : ShaderVariable) (t : VarType.t) (what : string)
  : Outcome unit :=
  RDCASSERT (VarType.eqb (type var) t) what.

(* ================================================================== *)
(** * Quads *)
(* ================================================================== *)

(** [ThreadState::QuadIsDiverged]: the loop over the four neighbours with the
    first unfinished lane's block and instruction in [block0], [instr0]. *)
Fixpoint QuadIsDiverged_loop (workgroup : list ThreadState) (qs : list Z)
    (block0 instr0 : Z) : Outcome bool :=
  match qs with
  | [] => ret false
  | i :: qs' =>
      if i =? NO_INDEX then
        RDCERR "Checking quad divergence on non-quad" ;;;
        QuadIsDiverged_loop workgroup qs' block0 instr0
      else
        match at_index workgroup i with
        | None => Undefined "workgroup index out of bounds"
        | Some lane =>
            if Finished lane then QuadIsDiverged_loop workgroup qs' block0 instr0
            else if block0 =? NO_INDEX then
              QuadIsDiverged_loop workgroup qs' (m_Block lane)
                                  (m_ActiveGlobalInstructionIdx lane)
            else if negb (m_Block lane =? block0) then ret true
            else if negb (m_ActiveGlobalInstructionIdx lane =? instr0) then ret true
            else QuadIsDiverged_loop workgroup qs' block0 instr0
        end
  end.

Definition QuadIsDiverged (workgroup : list ThreadState) (quadNeighbours : list Z)
  : Outcome bool :=
  QuadIsDiverged_loop workgroup quadNeighbours NO_INDEX NO_INDEX.

(** [ThreadState::Sub]. *)
Definition Sub (a b : ShaderVariable) (ret_ : ShaderValue) : Outcome ShaderValue :=
  RDCASSERT (VarType.eqb (type a) (type b)) "a.type == b.type" ;;;
  RDCASSERT (rows a =? rows b) "a.rows == b.rows" ;;;
  RDCASSERT (columns a =? columns b) "a.columns == b.columns" ;;;
  match type a with
  | VarType.Float =>
      ret (set_f32v 0 (fsub binary32 (f32v (value a) 0) (f32v (value b) 0)) ret_)
  | VarType.SInt =>
      let d := s32v (value a) 0 - s32v (value b) 0 in
      if (- 2 ^ 31 <=? d) && (d <? 2 ^ 31) then ret (set_s32v 0 d ret_)
      else Undefined "signed integer overflow"
  | VarType.UInt => ret (set_u32v 0 (u32v (value a) 0 - u32v (value b) 0) ret_)
  | _ => RDCERR "Unhandled type" ;;; ret ret_
  end.

Definition no_quad (ts : ThreadState) : bool :=
  match m_QuadNeighbours ts with
  | [n0; n1; n2; n3] =>
      (n0 =? NO_INDEX) || (n1 =? NO_INDEX) || (n2 =? NO_INDEX) || (n3 =? NO_INDEX)
  | _ => true
  end.

Definition assert_neighbours_in_range (ts : ThreadState) (workgroup : list ThreadState)
  : Outcome unit :=
  (fix each (qs : list Z) : Outcome unit :=
     match qs with
     | [] => ret tt
     | q :: qs' =>
         RDCASSERT (q <? Z.of_nat (length workgroup))
                   "m_QuadNeighbours[i] < workgroup.size()" ;;;
         each qs'
     end) (m_QuadNeighbours ts).

(** The operand of lane [m_QuadNeighbours[index]], fetched on that lane. *)
Definition neighbour_fetch (ts : ThreadState) (workgroup : list ThreadState) (index : Z)
    (dxilValue : Value) (opCode : Operation.t) (dxOpCode : DXOp.t)
  : Outcome ShaderVariable :=
  match at_index (m_QuadNeighbours ts) index with
  | None => Undefined "m_QuadNeighbours index out of bounds"
  | Some n =>
      match at_index workgroup n with
      | None => Undefined "workgroup index out of bounds"
      | Some lane => fetch lane dxilValue opCode dxOpCode
      end
  end.

(** The common shape of [ThreadState::DDX] and [ThreadState::DDY]: [stride]
    is 1 for the horizontal and 2 for the vertical neighbour, [index] the
    quad lane the difference starts from. *)
Definition derivative (ts : ThreadState) (workgroup : list ThreadState) (index stride : Z)
    (opCode : Operation.t) (dxOpCode : DXOp.t) (dxilValue : Value)
  : Outcome ShaderValue :=
  let ret_ := zero_value in
  if no_quad ts then
    RDCERR "Derivative calculation within non-quad" ;;; ret ret_
  else
    assert_neighbours_in_range ts workgroup ;;;
    diverged <- QuadIsDiverged workgroup (m_QuadNeighbours ts) ;;
    RDCASSERT (negb diverged) "!QuadIsDiverged(workgroup, m_QuadNeighbours)" ;;;
    a <- neighbour_fetch ts workgroup (index + stride) dxilValue opCode dxOpCode ;;
    b <- neighbour_fetch ts workgroup index dxilValue opCode dxOpCode ;;
    Sub a b ret_.

(** [ThreadState::DDX]. *)
Definition DDX (ts : ThreadState) (fine : bool) (opCode : Operation.t) (dxOpCode : DXOp.t)
    (workgroup : list ThreadState) (dxilValue : Value) : Outcome ShaderValue :=
  let quadIndex := signed 32 (m_QuadLaneIndex ts) in
  let index :=
    if negb fine then 0
    else if Z.rem quadIndex 2 =? 0 then wrap 32 quadIndex
    else wrap 32 (quadIndex - 1) in
  derivative ts workgroup index 1 opCode dxOpCode dxilValue.

(** [ThreadState::DDY]. *)
Definition DDY (ts : ThreadState) (fine : bool) (opCode : Operation.t) (dxOpCode : DXOp.t)
    (workgroup : list ThreadState) (dxilValue : Value) : Outcome ShaderValue :=
  let quadIndex := signed 32 (m_QuadLaneIndex ts) in
  let index :=
    if negb fine then 0
    else if quadIndex <? 2 then wrap 32 quadIndex
    else wrap 32 (quadIndex - 2) in
  derivative ts workgroup index 2 opCode dxOpCode dxilValue.

(* ================================================================== *)
(** * [ThreadState::ExecuteInstruction] *)
(* ================================================================== *)

(** The locals of [ExecuteInstruction] that a case may change, with the lane. *)
Record Dispatched : Type := {
  d_ts : ThreadState;
  d_result : ShaderVariable;
  d_resultId : Id;
  d_eventFlags : ShaderEvents
}.

(** How a case leaves the switch: [break], or [return b]. *)
Inductive Flow : Type :=
| Break (d : Dispatched)
| Return (b : bool) (ts : ThreadState).

Definition break_with (ts : ThreadState) (result : ShaderVariable) (resultId : Id)
    (eventFlags : ShaderEvents) : Outcome Flow :=
  ret (Break {| d_ts := ts; d_result := result; d_resultId := resultId;
                d_eventFlags := eventFlags |}).

(** [cast<Block>(v)->id]. *)
Definition block_id (v : Value) : Outcome Z :=
  match v with
  | VBlock i => ret i
  | _ => Undefined "->id on a null block"
  end.

(** [m_Variables[id]] used as an l-value or copied: the entry exists
    afterwards. *)
Definition touch (id : Id) (ts : ThreadState) : ThreadState :=
  match m_Variables ts !! id with
  | Some _ => ts
  | None => set_m_Variables (<[id := default_ShaderVariable]> (m_Variables ts)) ts
  end.

(** The body of [case DXOp::UMin: case DXOp::UMax:]. *)
Definition case_UMin_UMax (ts : ThreadState) (inst : Instruction) (dxOpCode : DXOp.t)
    (result : ShaderVariable) : Outcome ShaderVariable :=
  let opCode := Operation.Call in
  v1 <- arg_at inst 1 ;;
  a <- fetch ts v1 opCode dxOpCode ;;
  v2 <- arg_at inst 2 ;;
  b <- fetch ts v2 opCode dxOpCode ;;
  assert_type a VarType.SInt "a.type == VarType::SInt" ;;;
  assert_type b VarType.SInt "b.type == VarType::SInt" ;;;
  assert_type result VarType.SInt "result.type == VarType::SInt" ;;;
  match dxOpCode with
  | DXOp.UMin =>
      ret (with_value (set_u32v 0 (Z.min (u32v (value a) 0) (u32v (value b) 0))
                                (value result)) result)
  | DXOp.UMax =>
      ret (with_value (set_u32v 0 (Z.max (u32v (value a) 0) (u32v (value b) 0))
                                (value result)) result)
  | _ => ret result
  end.

(** The body of [case DXOp::IMin: case DXOp::IMax:].  It does not end in
    [break]: control continues in the body of [UMin]/[UMax]. *)
Definition case_IMin_IMax (ts : ThreadState) (inst : Instruction) (dxOpCode : DXOp.t)
    (result : ShaderVariable) : Outcome ShaderVariable :=
  let opCode := Operation.Call in
  v1 <- arg_at inst 1 ;;
  a <- fetch ts v1 opCode dxOpCode ;;
  v2 <- arg_at inst 2 ;;
  b <- fetch ts v2 opCode dxOpCode ;;
  assert_type a VarType.SInt "a.type == VarType::SInt" ;;;
  assert_type b VarType.SInt "b.type == VarType::SInt" ;;;
  assert_type result VarType.SInt "result.type == VarType::SInt" ;;;
  let result :=
    match dxOpCode with
    | DXOp.IMin =>
        with_value (set_s32v 0 (Z.min (s32v (value a) 0) (s32v (value b) 0))
                             (value result)) result
    | DXOp.IMax =>
        with_value (set_s32v 0 (Z.max (s32v (value a) 0) (s32v (value b) 0))
                             (value result)) result
    | _ => result
    end in
  case_UMin_UMax ts inst dxOpCode result.

(** The body of [case DXOp::IMul: case DXOp::UMul: case DXOp::UDiv:]. *)
Definition case_IMul_UMul_UDiv (ts : ThreadState) (inst : Instruction) (dxOpCode : DXOp.t)
    (result : ShaderVariable) (eventFlags : ShaderEvents)
  : Outcome (ShaderVariable * ShaderEvents) :=
  let opCode := Operation.Call in
  v1 <- arg_at inst 1 ;;
  assert_scalar v1 ScalarKind.Int ;;;
  v2 <- arg_at inst 2 ;;
  assert_scalar v2 ScalarKind.Int ;;;
  a <- fetch ts v1 opCode dxOpCode ;;
  b <- fetch ts v2 opCode dxOpCode ;;
  RDCASSERT (VarType.eqb (type a) (type b)) "a.type == b.type" ;;;
  match dxOpCode with
  | DXOp.IMul =>
      ret (with_value (set_s64v 0 (s32v (value a) 0 * s32v (value b) 0) (value result))
                      result, eventFlags)
  | DXOp.UMul =>
      ret (with_value (set_u64v 0 (u32v (value a) 0 * u32v (value b) 0) (value result))
                      result, eventFlags)
  | DXOp.UDiv =>
      if negb (u32v (value b) 0 =? 0) then
        let r0 := set_u32v 0 (u32v (value a) 0 / u32v (value b) 0) (value result) in
        let r1 := set_u32v 1 (u32v (value a) 0 - u32v r0 0 * u32v (value b) 0) r0 in
        ret (with_value r1 result, eventFlags)
      else
        let r0 := set_u32v 0 0xffffffff (value result) in
        let r1 := set_u32v 1 0xffffffff r0 in
        ret (with_value r1 result, Z.lor eventFlags ShaderEvents.GeneratedNanOrInf)
  | _ => ret (result, eventFlags)
  end.

(** The body of [case DXOp::FAbs:]; [fabsf] clears the sign bit. *)
Definition case_FAbs (ts : ThreadState) (inst : Instruction) (result : ShaderVariable)
  : Outcome ShaderVariable :=
  v1 <- arg_at inst 1 ;;
  arg <- fetch ts v1 Operation.Call DXOp.FAbs ;;
  assert_type arg VarType.Float "arg.type == VarType::Float" ;;;
  assert_type result VarType.Float "result.type == VarType::Float" ;;;
  ret (with_value (set_comp 32 0 (Z.land (comp 32 0 (value arg)) 0x7fffffff)
                            (value result)) result).

(** The body of the four derivative cases. *)
Definition case_Deriv (ts : ThreadState) (workgroup : list ThreadState)
    (inst : Instruction) (dxOpCode : DXOp.t) (result : ShaderVariable)
  : Outcome ShaderVariable :=
  let opCode := Operation.Call in
  if negb (match m_ShaderType ts with ShaderType.Pixel => true | _ => false end)
     || negb (Z.of_nat (length workgroup) =? 4) then
    RDCERR "Undefined results using derivative instruction outside of a pixel shader." ;;;
    ret result
  else
    diverged <- QuadIsDiverged workgroup (m_QuadNeighbours ts) ;;
    RDCASSERT (negb diverged) "!QuadIsDiverged(workgroup, m_QuadNeighbours)" ;;;
    v1 <- arg_at inst 1 ;;
    v <- match dxOpCode with
         | DXOp.DerivCoarseX => DDX ts false opCode dxOpCode workgroup v1
         | DXOp.DerivCoarseY => DDY ts false opCode dxOpCode workgroup v1
         | DXOp.DerivFineX => DDX ts true opCode dxOpCode workgroup v1
         | DXOp.DerivFineY => DDY ts true opCode dxOpCode workgroup v1
         | _ => ret (value result)
         end ;;
    ret (with_value v result).

(** The inner [switch(dxOpCode)] of the case [Operation::Call]. *)
Definition exec_DXOp (workgroup : list ThreadState) (ts : ThreadState)
    (inst : Instruction) (dxOpCode : DXOp.t) (result : ShaderVariable) (resultId : Id)
    (eventFlags : ShaderEvents) : Outcome Flow :=
  match dxOpCode with
  | DXOp.IMin | DXOp.IMax =>
      r <- case_IMin_IMax ts inst dxOpCode result ;;
      break_with ts r resultId eventFlags
  | DXOp.UMin | DXOp.UMax =>
      r <- case_UMin_UMax ts inst dxOpCode result ;;
      break_with ts r resultId eventFlags
  | DXOp.IMul | DXOp.UMul | DXOp.UDiv =>
      r <- case_IMul_UMul_UDiv ts inst dxOpCode result eventFlags ;;
      break_with ts (fst r) resultId (snd r)
  | DXOp.FAbs =>
      r <- case_FAbs ts inst result ;;
      break_with ts r resultId eventFlags
  | DXOp.DerivCoarseX | DXOp.DerivCoarseY | DXOp.DerivFineX | DXOp.DerivFineY =>
      r <- case_Deriv ts workgroup inst dxOpCode result ;;
      break_with ts r resultId eventFlags
  | DXOp.NumOpCodes =>
      RDCERR "Unhandled dx.op method" ;;; break_with ts result resultId eventFlags
  | _ => Unmodelled "DXOp"
  end.

(** The search of the phi case for the value paired with [m_PreviousBlock]. *)
Fixpoint phi_select (pairs : list Value) (previousBlock : Z) : Outcome (option Value) :=
  match pairs with
  | [] => ret None
  | [_] => Undefined "inst.args index out of bounds"
  | v :: label :: rest =>
      RDCASSERT (match label with VBlock _ => true | _ => false end) "block" ;;;
      blockId <- block_id label ;;
      if blockId =? previousBlock then ret (Some v) else phi_select rest previousBlock
  end.

(** [case Operation::Phi:]. *)
Definition case_Phi (ts : ThreadState) (inst : Instruction) (result : ShaderVariable)
  : Outcome ShaderVariable :=
  dxilValue <- phi_select (args inst) (m_PreviousBlock ts) ;;
  match dxilValue with
  | Some v =>
      r <- GetPhiShaderVariable ts v Operation.Phi DXOp.NumOpCodes
                                default_ShaderVariable true ;;
      RDCASSERT (fst r) "GetPhiShaderVariable" ;;;
      ret (with_name (name result) (snd r))
  | None => RDCERR "PreviousBlock not found in Phi list" ;;; ret result
  end.

(** [case Operation::Branch:]. *)
Definition case_Branch (fi : FunctionInfo) (ts : ThreadState) (inst : Instruction)
  : Outcome ThreadState :=
  r <- (if 1 <? Z.of_nat (length (args inst)) then
          v0 <- arg_at inst 0 ;;
          b0 <- block_id v0 ;;
          v1 <- arg_at inst 1 ;;
          b1 <- block_id v1 ;;
          v2 <- arg_at inst 2 ;;
          cond <- fetch ts v2 Operation.Branch DXOp.NumOpCodes ;;
          ret (negb (b0 =? b1), if u32v (value cond) 0 =? 0 then 1 else 0)
        else ret (false, 0)) ;;
  target <- arg_at inst (snd r) ;;
  j <- JumpToBlock fi ts (match target with VBlock i => Some i | _ => None end) (fst r) ;;
  (if fst j then ret tt else RDCERR "Unknown branch target") ;;;
  ret (snd j).

(** [case Operation::Load: case Operation::LoadAtomic:]. *)
Definition case_Load (ts : ThreadState) (inst : Instruction) (opCode : Operation.t)
    (result : ShaderVariable) : Outcome (ThreadState * ShaderVariable) :=
  v0 <- arg_at inst 0 ;;
  let ptrId := GetSSAId v0 in
  if ptrId =? INVALID_ID then ret (ts, result)
  else
    match m_Pointers (m_Memory ts) !! ptrId with
    | None => RDCERR "Unknown memory pointer Id" ;;; ret (ts, result)
    | Some ptr =>
        let baseMemoryId := Pointer.baseMemoryId ptr in
        match m_Allocations (m_Memory ts) !! baseMemoryId with
        | None => RDCERR "Unknown memory allocation Id" ;;; ret (ts, result)
        | Some allocation =>
            assigned <- IsVariableAssigned ts ptrId ;;
            r <- (if Allocation.global allocation && negb assigned then
                    baseAssigned <- IsVariableAssigned ts baseMemoryId ;;
                    RDCASSERT baseAssigned "IsVariableAssigned(baseMemoryId)" ;;;
                    ret (touch baseMemoryId ts, map_at (m_Variables ts) baseMemoryId)
                  else
                    arg <- fetch ts v0 opCode DXOp.NumOpCodes ;;
                    ret (ts, arg)) ;;
            ret (fst r, with_value (value (snd r)) result)
        end
    end.

(** [case Operation::Store: case Operation::StoreAtomic:]: the lane, [result]
    and [resultId] afterwards. *)
Definition case_Store (ts : ThreadState) (inst : Instruction) (opCode : Operation.t)
    (result : ShaderVariable) (resultId : Id)
  : Outcome (ThreadState * ShaderVariable * Id) :=
  v0 <- arg_at inst 0 ;;
  let ptrId := GetSSAId v0 in
  if ptrId =? INVALID_ID then ret (ts, result, resultId)
  else
    match m_Pointers (m_Memory ts) !! ptrId with
    | None => RDCERR "Unknown memory pointer Id" ;;; ret (ts, result, resultId)
    | Some ptr =>
        let baseMemoryId := Pointer.baseMemoryId ptr in
        let memory := Pointer.memory ptr in
        let allocSize := Pointer.size ptr in
        RDCASSERT (negb (baseMemoryId =? INVALID_ID))
                  "baseMemoryId != DXILDebug::INVALID_ID" ;;;
        v1 <- arg_at inst 1 ;;
        val <- fetch ts v1 opCode DXOp.NumOpCodes ;;
        RDCASSERT (resultId =? INVALID_ID) "resultId == DXILDebug::INVALID_ID" ;;;
        match m_Allocations (m_Memory ts) !! baseMemoryId with
        | None => Undefined "store through a pointer into no allocation"
        | Some allocation =>
            w <- UpdateBackingMemoryFromVariable val (Allocation.backingMemory allocation)
                                                 memory allocSize ;;
            let allocation :=
              {| Allocation.backingMemory := fst w;
                 Allocation.size := Allocation.size allocation;
                 Allocation.global := Allocation.global allocation |} in
            let ts :=
              set_m_Memory
                {| m_Allocations := <[baseMemoryId := allocation]>
                                      (m_Allocations (m_Memory ts));
                   m_Pointers := m_Pointers (m_Memory ts) |} ts in
            baseAssigned <- IsVariableAssigned ts baseMemoryId ;;
            RDCASSERT baseAssigned "IsVariableAssigned(baseMemoryId)" ;;;
            let ts := touch baseMemoryId ts in
            let change_before := map_at (m_Variables ts) baseMemoryId in
            ts <- UpdateMemoryVariableFromBackingMemory
                    ts baseMemoryId (Allocation.backingMemory allocation) ;;
            let change := {| before := change_before;
                             after := map_at (m_Variables ts) baseMemoryId |} in
            let ts :=
              match m_State ts with
              | Some st => set_m_State (Some (push_change change st)) ts
              | None => ts
              end in
            ptrAssigned <- IsVariableAssigned ts ptrId ;;
            RDCASSERT ptrAssigned "IsVariableAssigned(ptrId)" ;;;
            let ts := touch ptrId ts in
            let result := with_value (value val) (map_at (m_Variables ts) ptrId) in
            ret (ts, result, ptrId)
        end
    end.

(** The outer [switch(opCode)]. *)
Definition dispatch (fi : FunctionInfo) (workgroup : list ThreadState) (ts : ThreadState)
    (inst : Instruction) (result : ShaderVariable) (resultId : Id) : Outcome Flow :=
  let opCode := op inst in
  let eventFlags := ShaderEvents.NoEvent in
  match opCode with
  | Operation.Call =>
      match callFamily inst with
      | FunctionFamily.DXOp =>
          let dxOpCode := callDXOp inst in
          RDCASSERT (match dxOpCode with DXOp.NumOpCodes => false | _ => true end)
                    "dxOpCode < DXOp::NumOpCodes" ;;;
          exec_DXOp workgroup ts inst dxOpCode result resultId eventFlags
      | FunctionFamily.LLVMDbg =>
          RDCERR "LLVMDbg Instructions should not be executed" ;;; ret (Return false ts)
      | _ =>
          RDCERR "Unhandled call to function" ;;; break_with ts result resultId eventFlags
      end
  | Operation.Ret => break_with (set_m_Ended true ts) result resultId eventFlags
  | Operation.NoOp =>
      RDCERR "NoOp instructions should not be executed" ;;; ret (Return false ts)
  | Operation.Unreachable =>
      RDCERR "Operation::Unreachable reached, terminating debugging!" ;;;
      ret (Return true (set_m_Dead true ts))
  | Operation.Branch =>
      ts' <- case_Branch fi ts inst ;;
      break_with ts' result resultId eventFlags
  | Operation.Phi =>
      r <- case_Phi ts inst result ;;
      break_with ts r resultId eventFlags
  | Operation.Load | Operation.LoadAtomic =>
      r <- case_Load ts inst opCode result ;;
      break_with (fst r) (snd r) resultId eventFlags
  | Operation.Store | Operation.StoreAtomic =>
      r <- case_Store ts inst opCode result resultId ;;
      break_with (fst (fst r)) (snd (fst r)) (snd r) eventFlags
  | Operation.Alloca =>
      r <- AllocateMemoryForType (m_Memory ts) (itype inst) resultId false
                                 (with_name (demangledName inst) result) ;;
      break_with (set_m_Memory (fst r) ts) (snd r) resultId eventFlags
  | Operation.Add | Operation.Sub | Operation.Mul | Operation.UDiv | Operation.SDiv
  | Operation.URem | Operation.SRem =>
      v0 <- arg_at inst 0 ;;
      assert_scalar v0 ScalarKind.Int ;;;
      v1 <- arg_at inst 1 ;;
      assert_scalar v1 ScalarKind.Int ;;;
      a <- fetch ts v0 opCode DXOp.NumOpCodes ;;
      b <- fetch ts v1 opCode DXOp.NumOpCodes ;;
      RDCASSERT (VarType.eqb (type a) (type b)) "a.type == b.type" ;;;
      r <- exec_int_arith opCode a b result eventFlags ;;
      break_with ts (fst r) resultId (snd r)
  | Operation.FAdd | Operation.FSub | Operation.FMul | Operation.FDiv | Operation.FRem =>
      v0 <- arg_at inst 0 ;;
      assert_scalar v0 ScalarKind.Float ;;;
      v1 <- arg_at inst 1 ;;
      assert_scalar v1 ScalarKind.Float ;;;
      a <- fetch ts v0 opCode DXOp.NumOpCodes ;;
      b <- fetch ts v1 opCode DXOp.NumOpCodes ;;
      RDCASSERT (VarType.eqb (type a) (type b)) "a.type == b.type" ;;;
      r <- exec_float_arith opCode a b result ;;
      break_with ts r resultId eventFlags
  | Operation.FOrdFalse | Operation.FOrdEqual | Operation.FOrdGreater
  | Operation.FOrdGreaterEqual | Operation.FOrdLess | Operation.FOrdLessEqual
  | Operation.FOrdNotEqual | Operation.FOrd | Operation.FOrdTrue | Operation.FUnord
  | Operation.FUnordEqual | Operation.FUnordGreater | Operation.FUnordGreaterEqual
  | Operation.FUnordLess | Operation.FUnordLessEqual | Operation.FUnordNotEqual =>
      assert_type result VarType.Bool "result.type == VarType::Bool" ;;;
      match opCode with
      | Operation.FOrdFalse =>
          break_with ts (with_value (set_u32v 0 0 (value result)) result)
                     resultId eventFlags
      | Operation.FOrdTrue =>
          break_with ts (with_value (set_u32v 0 1 (value result)) result)
                     resultId eventFlags
      | _ =>
          v0 <- arg_at inst 0 ;;
          assert_scalar v0 ScalarKind.Float ;;;
          v1 <- arg_at inst 1 ;;
          assert_scalar v1 ScalarKind.Float ;;;
          a <- fetch ts v0 opCode DXOp.NumOpCodes ;;
          b <- fetch ts v1 opCode DXOp.NumOpCodes ;;
          RDCASSERT (VarType.eqb (type a) (type b)) "a.type == b.type" ;;;
          r <- exec_fcmp opCode a b result ;;
          break_with ts r resultId eventFlags
      end
  | _ => Unmodelled "LLVM opcode"
  end.

(** "Update the result variable": the tail of [ExecuteInstruction]. *)
Definition commit_result (fi : FunctionInfo) (d : Dispatched) (opCode : Operation.t)
    (dxOpCode : DXOp.t) : Outcome ThreadState :=
  let ts := d_ts d in
  let result := d_result d in
  let resultId := d_resultId d in
  (if resultId =? INVALID_ID
   then RDCASSERT (bool_decide (name result = "")) "result.name.empty()"
   else RDCASSERT (negb (bool_decide (name result = ""))) "!result.name.empty()") ;;;
  if negb (bool_decide (name result = "")) && negb (resultId =? INVALID_ID) then
    r <- match m_State ts with
         | Some _ => SetResult ts resultId result opCode dxOpCode (d_eventFlags d)
         | None => ret (ts, result)
         end ;;
    let ts := fst r in
    let result := snd r in
    RDCASSERT ((resultId =? m_OutputId ts) || bool_decide (resultId ∈ referencedIds fi))
              "resultId == m_Output.id || referencedIds.count(resultId) == 1" ;;;
    RDCASSERT (resultId <? Z.of_nat (length (m_Live ts))) "resultId < m_Live.size()" ;;;
    if negb (in_range (m_Live ts) resultId) then
      Undefined "m_Live index out of bounds"
    else
      let ts := set_m_Live (<[Z.to_nat resultId := true]> (m_Live ts)) ts in
      let ts := set_m_Variables (<[resultId := result]> (m_Variables ts)) ts in
      RDCASSERT (resultId <? Z.of_nat (length (m_Assigned ts)))
                "resultId < m_Assigned.size()" ;;;
      if negb (in_range (m_Assigned ts) resultId) then
        Undefined "m_Assigned index out of bounds"
      else
        ret (set_m_Assigned (<[Z.to_nat resultId := true]> (m_Assigned ts)) ts)
  else ret ts.

(** The DXOp code [ExecuteInstruction] holds after the switch: that of a DXOp
    call, [NumOpCodes] otherwise. *)
Definition dxOpCode_of (inst : Instruction) : DXOp.t :=
  match op inst, callFamily inst with
  | Operation.Call, FunctionFamily.DXOp => callDXOp inst
  | _, _ => DXOp.NumOpCodes
  end.

(** [ThreadState::ExecuteInstruction]: the returned flag and the lane
    afterwards. *)
Definition ExecuteInstruction (fi : FunctionInfo) (workgroup : list ThreadState)
    (ts : ThreadState) : Outcome (bool * ThreadState) :=
  match at_index (instructions (function fi)) (m_FunctionInstructionIdx ts) with
  | None => Undefined "instructions index out of bounds"
  | Some inst =>
      let ts := set_m_FunctionInstructionIdx (wrap 32 (m_FunctionInstructionIdx ts + 1)) ts in
      RDCASSERT (negb (IsNopInstruction inst)) "!IsNopInstruction(inst)" ;;;
      let resultId := islot inst in
      ty <- ConvertDXILTypeToVarType (itype inst) ;;
      let result := {| name := resultName inst; type := ty; rows := 1; columns := 1;
                       value := zero_value; members := [] |} in
      f <- dispatch fi workgroup ts inst result resultId ;;
      match f with
      | Return b ts' => ret (b, ts')
      | Break d =>
          ts' <- commit_result fi d (op inst) (dxOpCode_of inst) ;;
          ret (true, ts')
      end
  end.

(* ================================================================== *)
(** * Typed UAV loads *)
(* ================================================================== *)

(** [CompType] of the replay API. *)
Module CompType.
Inductive t : Set :=
  | Typeless | Float | UNorm | SNorm | UInt | SInt | UScaled | SScaled | Depth | UNormSRGB.
End CompType.

(** [GlobalState::ViewFmt]. *)
Record ViewFmt : Set := {
  byteWidth : Z;
  numComps : Z;
  compType : CompType.t;
  stride : Z
}.

Definition F32_ZERO : Z := 0.
Definition F32_ONE : Z := 0x3f800000.
Definition F32_MINUS_ONE : Z := 0xbf800000.

(** [float(i) / k] for an integer [i] and the float constant [k], as the bits
    of the resulting [float]. *)
Definition int_over (i k : Z) : Z :=
  bits_of_float binary32 (fdiv binary32 (float_of_Z binary32 i) (float_of_Z binary32 k)).

(** Element [c] of the buffer read as an array of [n]-byte little-endian
    numbers. *)
Definition read_elem (d : list Z) (n c : Z) : Outcome Z :=
  bs <- read_bytes d (n * c) n ;; ret (of_bytes bs).

(** [result.u32v[c] = x] (or the same lane through [f32v], [s32v]); the union
    has sixteen such lanes. *)
Definition store_lane (c x : Z) (result : ShaderValue) : Outcome ShaderValue :=
  if (0 <=? c) && (c <? 16) then ret (set_comp 32 c x result)
  else Undefined "lane index out of bounds".

(** [for(int c = 0; c < fmt.numComps; c++) body]. *)
Fixpoint for_comps (n : nat) (c : Z) (body : Z -> ShaderValue -> Outcome ShaderValue)
    (result : ShaderValue) : Outcome ShaderValue :=
  match n with
  | O => ret result
  | S n' => r <- body c result ;; for_comps n' (c + 1) body r
  end.

(** What one element of a buffer of width [n] bytes and type [ct] decodes to;
    [None] where the source has no branch for the pair. *)
Definition decode_elem (n : Z) (ct : CompType.t) (d : list Z) (c : Z)
  : option (Outcome Z) :=
  if n =? 4 then Some (read_elem d 4 c)
  else if n =? 2 then
    match ct with
    | CompType.Float => Some (Unmodelled "ConvertFromHalf")
    | CompType.UInt => Some (read_elem d 2 c)
    | CompType.SInt => Some (u <- read_elem d 2 c ;; ret (signed 16 u))
    | CompType.UNorm | CompType.UNormSRGB =>
        Some (u <- read_elem d 2 c ;; ret (int_over u 0xffff))
    | CompType.SNorm =>
        Some (u <- read_elem d 2 c ;;
              let i := signed 16 u in
              (* -32768 is mapped to -1, then -32767 to -32767 are mapped to -1 to 1 *)
              if i =? -32768 then ret F32_MINUS_ONE else ret (int_over i 32767))
    | _ => None
    end
  else if n =? 1 then
    match ct with
    | CompType.UInt => Some (read_elem d 1 c)
    | CompType.SInt => Some (u <- read_elem d 1 c ;; ret (signed 8 u))
    | CompType.UNorm | CompType.UNormSRGB =>
        Some (u <- read_elem d 1 c ;; ret (int_over u 0xff))
    | CompType.SNorm =>
        Some (u <- read_elem d 1 c ;;
              let i := signed 8 u in
              (* -128 is mapped to -1, then -127 to -127 are mapped to -1 to 1 *)
              if i =? -128 then ret F32_MINUS_ONE else ret (int_over i 127))
    | _ => None
    end
  else None.

(** [TypedUAVLoad(fmt, d)].  [ShaderValue result;] starts from indeterminate
    contents, [uninit]. *)
Definition TypedUAVLoad (fmt : ViewFmt) (d : list Z) (uninit : ShaderValue)
  : Outcome ShaderValue :=
  let result := set_comp 32 3 F32_ZERO (set_comp 32 2 F32_ZERO
                  (set_comp 32 1 F32_ZERO (set_comp 32 0 F32_ZERO uninit))) in
  if byteWidth fmt =? 10 then
    u <- read_elem d 4 0 ;;
    match compType fmt with
    | CompType.UInt =>
        ret (set_comp 32 3 (Z.land (Z.shiftr u 30) 0x003)
              (set_comp 32 2 (Z.land (Z.shiftr u 20) 0x3ff)
                (set_comp 32 1 (Z.land (Z.shiftr u 10) 0x3ff)
                  (set_comp 32 0 (Z.land (Z.shiftr u 0) 0x3ff) result))))
    | CompType.UNorm => Unmodelled "ConvertFromR10G10B10A2"
    | _ => RDCERR "Unexpected format type on buffer resource" ;;; ret result
    end
  else if byteWidth fmt =? 11 then Unmodelled "ConvertFromR11G11B10"
  else
    result <-
      (if (byteWidth fmt =? 4) || (byteWidth fmt =? 2) || (byteWidth fmt =? 1) then
         match decode_elem (byteWidth fmt) (compType fmt) d 0 with
         | Some _ =>
             for_comps (Z.to_nat (numComps fmt)) 0
               (fun c r =>
                  match decode_elem (byteWidth fmt) (compType fmt) d c with
                  | Some m => x <- m ;; store_lane c x r
                  | None => ret r
                  end) result
         | None => RDCERR "Unexpected format type on buffer resource" ;;; ret result
         end
       else ret result) ;;
    (* fill in alpha with 1.0 or 1 as appropriate *)
    if numComps fmt <? 4 then
      match compType fmt with
      | CompType.UNorm | CompType.UNormSRGB | CompType.SNorm | CompType.Float =>
          ret (set_comp 32 3 F32_ONE result)
      | _ => ret (set_comp 32 3 1 result)
      end
    else ret result.

(* ================================================================== *)
(** * [Debugger::ContinueDebug] *)
(* ================================================================== *)

(** [ThreadExecutionStates]: the execution points each thread entered. *)
Abbreviation ThreadExecutionStates := (gmap Z (list Z)).

(** What [ContinueDebug] uses of [DXIL::ControlFlow] and of its tangles.  The
    class is implemented outside the sources at hand; its operations are the
    parameters of the model.  [GetTangles] returns a reference: the tangles
    changed by the loop are written back with [SetTangles]. *)
Class ControlFlowAPI (ControlFlow Tangle : Type) : Type := {
  GetTangles : ControlFlow -> list Tangle;
  SetTangles : ControlFlow -> list Tangle -> ControlFlow;
  UpdateState : ControlFlow -> ThreadExecutionStates -> ControlFlow;
  IsAliveActive : Tangle -> bool;
  GetThreadRefs : Tangle -> list Z;
  SetThreadDead : Tangle -> Z -> Tangle;
  AddMergePoint : Tangle -> Z -> Tangle;
  SetDiverged : Tangle -> bool -> Tangle
}.

(** What [ContinueDebug] calls on a lane.  [StepNext state workgroup
    activeMask thread] and [EnterEntryPoint state thread] give the lane and
    the state pointed to afterwards; the loop bound does not depend on what a
    step does. *)
Class LaneAPI : Type := {
  StepNext : option ShaderDebugState -> list ThreadState -> list bool -> ThreadState ->
             ThreadState * option ShaderDebugState;
  StepOverNopInstructions : ThreadState -> ThreadState;
  EnterEntryPoint : option ShaderDebugState -> ThreadState ->
                    ThreadState * option ShaderDebugState
}.


(** The sum of two [int]s as the target computes it: the 32 bits of the sum,
    read as two's complement.  In C++ the overflow of a signed sum is
    undefined; the wrap-around is what the compiled code does. *)
Definition int_add (x y : Z) : Z := signed 32 (wrap 32 (x + y)).

(** The members of [Debugger] the loop uses; [m_Globals] and [m_Constants]
    are the variables of [m_GlobalState.globals] and
    [m_GlobalState.constants].  [m_Steps] is declared in the header of the
    class, which is not among the sources at hand; the loop compares it with
    [int stepEnd = m_Steps + 100], and it is an [int] here: [m_Steps + 100]
    and [m_Steps++] are computed with [int_add]. *)
Record Debugger (ControlFlow : Type) : Type := {
  m_Steps : Z;
  m_Workgroup : list ThreadState;
  m_ActiveLaneIndex : Z;
  m_ControlFlow : ControlFlow;
  m_Globals : list ShaderVariable;
  m_Constants : list ShaderVariable
}.
Arguments m_Steps {ControlFlow} _.
Arguments m_Workgroup {ControlFlow} _.
Arguments m_ActiveLaneIndex {ControlFlow} _.
Arguments m_ControlFlow {ControlFlow} _.
Arguments m_Globals {ControlFlow} _.
Arguments m_Constants {ControlFlow} _.

(** [Debugger::GetActiveLane]. *)
Definition GetActiveLane {CF : Type} (d : Debugger CF) : option ThreadState :=
  at_index (m_Workgroup d) (m_ActiveLaneIndex d).

(** The active lane is finished; a lane index outside the workgroup is
    treated as finished. *)
Definition active_Finished {CF : Type} (d : Debugger CF) : bool :=
  match GetActiveLane d with
  | Some lane => Finished lane
  | None => true
  end.

(** The locals of one pass over a tangle, with the members of the debugger
    the pass changes.  The three counters are [uint32_t]; [state.stepIndex]
    is a [uint32_t] too and takes the [int] [m_Steps] converted. *)
Record TanglePass (Tangle : Type) : Type := {
  tp_workgroup : list ThreadState;
  tp_tangle : Tangle;
  tp_steps : Z;
  tp_ret : list ShaderDebugState;
  tp_state : ShaderDebugState;
  tp_hasDebugState : bool;
  tp_executionStates : ThreadExecutionStates;
  tp_newConvergencePoint : Z;
  tp_countActiveThreads : Z;
  tp_countDivergedThreads : Z;
  tp_countConvergePointThreads : Z
}.
Arguments tp_workgroup {Tangle} _.
Arguments tp_tangle {Tangle} _.
Arguments tp_steps {Tangle} _.
Arguments tp_ret {Tangle} _.
Arguments tp_state {Tangle} _.
Arguments tp_hasDebugState {Tangle} _.
Arguments tp_executionStates {Tangle} _.
Arguments tp_newConvergencePoint {Tangle} _.
Arguments tp_countActiveThreads {Tangle} _.
Arguments tp_countDivergedThreads {Tangle} _.
Arguments tp_countConvergePointThreads {Tangle} _.

(** "calculate the current active thread mask from the threads in the
    tangle": all [false], then [true] at every thread reference.  The source
    asserts that a reference is inside the workgroup before it writes the
    mask; a reference outside is left out here. *)
Definition tangle_activeMask (size : nat) (threadRefs : list Z) : list bool :=
  foldl (fun mask idx => if idx <? 0 then mask else <[Z.to_nat idx := true]> mask)
        (replicate size false) threadRefs.

Section ContinueDebugModel.
Context {ControlFlow Tangle : Type} `{ControlFlowAPI ControlFlow Tangle} `{LaneAPI}.

  (** The body of "step all active members of the workgroup" for one lane. *)
Definition step_lane (activeLaneIndex : Z) (activeMask : list bool)
      (p : TanglePass Tangle) (lane : nat) : TanglePass Tangle :=
    match activeMask !! lane, tp_workgroup p !! lane with
    | Some true, Some thread =>
        let threadId := Z.of_nat lane in
        let countActive := wrap 32 (tp_countActiveThreads p + 1) in
        if Finished thread then
          {| tp_workgroup := tp_workgroup p;
             tp_tangle := SetThreadDead (tp_tangle p) threadId;
             tp_steps := tp_steps p;
             tp_ret := if Z.of_nat lane =? activeLaneIndex
                       then tp_ret p ++ [default_ShaderDebugState] else tp_ret p;
             tp_state := tp_state p;
             tp_hasDebugState := tp_hasDebugState p;
             tp_executionStates := tp_executionStates p;
             tp_newConvergencePoint := tp_newConvergencePoint p;
             tp_countActiveThreads := countActive;
             tp_countDivergedThreads := tp_countDivergedThreads p;
             tp_countConvergePointThreads := tp_countConvergePointThreads p |}
        else
          let observed := Z.of_nat lane =? activeLaneIndex in
          let state0 :=
            {| changes := changes (tp_state p); flags := flags (tp_state p);
               nextInstruction := nextInstruction (tp_state p);
               stepIndex := wrap 32 (tp_steps p) |} in
          let stepped :=
            if observed then StepNext (Some state0) (tp_workgroup p) activeMask thread
            else StepNext None (tp_workgroup p) activeMask thread in
          let thread' := fst stepped in
          let state' := if observed then default state0 (snd stepped) else tp_state p in
          let threadConvergencePoint := m_ConvergencePoint thread' in
          let converging := negb (threadConvergencePoint =? INVALID_EXECUTION_POINT) in
          let tangle' :=
            if Finished thread' then SetThreadDead (tp_tangle p) threadId
            else tp_tangle p in
          {| tp_workgroup := <[lane := thread']> (tp_workgroup p);
             tp_tangle := tangle';
             tp_steps := if observed then int_add (tp_steps p) 1 else tp_steps p;
             tp_ret := tp_ret p;
             tp_state := state';
             tp_hasDebugState := observed || tp_hasDebugState p;
             tp_executionStates :=
               <[threadId := m_EnteredPoints thread']> (tp_executionStates p);
             tp_newConvergencePoint :=
               if converging && (tp_newConvergencePoint p =? INVALID_EXECUTION_POINT)
               then threadConvergencePoint else tp_newConvergencePoint p;
             tp_countActiveThreads := countActive;
             tp_countDivergedThreads :=
               if m_Diverged thread' then wrap 32 (tp_countDivergedThreads p + 1)
               else tp_countDivergedThreads p;
             tp_countConvergePointThreads :=
               if converging then wrap 32 (tp_countConvergePointThreads p + 1)
               else tp_countConvergePointThreads p |}
    | _, _ => p
    end.

  (** The second lane loop: [StepOverNopInstructions] on the active lanes. *)
Definition step_over_nops (activeMask : list bool) (workgroup : list ThreadState)
    : list ThreadState :=
    imap (fun lane thread =>
            match activeMask !! lane with
            | Some true => StepOverNopInstructions thread
            | _ => thread
            end) workgroup.

  (** What the loop over the tangles carries from one tangle to the next. *)
Record TangleLoop : Type := {
    tl_workgroup : list ThreadState;
    tl_steps : Z;
    tl_ret : list ShaderDebugState;
    tl_executionStates : ThreadExecutionStates;
    tl_anyActiveThreads : bool;
    tl_tangles : list Tangle
  }.

  (** The body of [for(Tangle &tangle : tangles)]; the tangle afterwards is
      appended to [tl_tangles]. *)
Definition run_tangle (activeLaneIndex : Z) (l : TangleLoop) (tangle : Tangle)
    : TangleLoop :=
    if negb (IsAliveActive tangle) then
      {| tl_workgroup := tl_workgroup l; tl_steps := tl_steps l; tl_ret := tl_ret l;
         tl_executionStates := tl_executionStates l;
         tl_anyActiveThreads := tl_anyActiveThreads l;
         tl_tangles := tl_tangles l ++ [tangle] |}
    else
      let threadRefs := GetThreadRefs tangle in
      let size := length (tl_workgroup l) in
      let activeMask := tangle_activeMask size threadRefs in
      let anyActiveThreads :=
        tl_anyActiveThreads l || negb (bool_decide (threadRefs = [])) in
      let p0 :=
        {| tp_workgroup := tl_workgroup l; tp_tangle := tangle; tp_steps := tl_steps l;
           tp_ret := tl_ret l; tp_state := default_ShaderDebugState;
           tp_hasDebugState := false; tp_executionStates := tl_executionStates l;
           tp_newConvergencePoint := INVALID_EXECUTION_POINT;
           tp_countActiveThreads := 0; tp_countDivergedThreads := 0;
           tp_countConvergePointThreads := 0 |} in
      let p := foldl (step_lane activeLaneIndex activeMask) p0 (seq 0 size) in
      let workgroup := step_over_nops activeMask (tp_workgroup p) in
      let ret_ :=
        if tp_hasDebugState p then
          match at_index workgroup activeLaneIndex with
          | Some thread =>
              tp_ret p ++ [with_nextInstruction (m_ActiveGlobalInstructionIdx thread)
                                                (tp_state p)]
          | None => tp_ret p ++ [tp_state p]
          end
        else tp_ret p in
      let tangle1 :=
        if negb (tp_countConvergePointThreads p =? 0)
        then AddMergePoint (tp_tangle p) (tp_newConvergencePoint p) else tp_tangle p in
      let tangle2 :=
        if negb (tp_countDivergedThreads p =? 0) then SetDiverged tangle1 true
        else tangle1 in
      {| tl_workgroup := workgroup; tl_steps := tp_steps p; tl_ret := ret_;
         tl_executionStates := tp_executionStates p;
         tl_anyActiveThreads := anyActiveThreads;
         tl_tangles := tl_tangles l ++ [tangle2] |}.

  (** [active.m_Dead = true]. *)
Definition kill_active (activeLaneIndex : Z) (workgroup : list ThreadState)
    : list ThreadState :=
    match at_index workgroup activeLaneIndex with
    | Some lane => <[Z.to_nat activeLaneIndex := set_m_Dead true lane]> workgroup
    | None => workgroup
    end.

  (** One pass of the body of the [for(int stepEnd = m_Steps + 100; ...)]
      loop, after the test of [active.Finished()]. *)
Definition iteration (d : Debugger ControlFlow) (ret_ : list ShaderDebugState)
    : Debugger ControlFlow * list ShaderDebugState :=
    let l0 :=
      {| tl_workgroup := m_Workgroup d; tl_steps := m_Steps d; tl_ret := ret_;
         tl_executionStates := ∅; tl_anyActiveThreads := false; tl_tangles := [] |} in
    let l := foldl (run_tangle (m_ActiveLaneIndex d)) l0 (GetTangles (m_ControlFlow d)) in
    let cf := SetTangles (m_ControlFlow d) (tl_tangles l) in
    let workgroup :=
      if tl_anyActiveThreads l then tl_workgroup l
      else kill_active (m_ActiveLaneIndex d) (tl_workgroup l) in
    let cf :=
      if tl_anyActiveThreads l then cf else UpdateState cf (tl_executionStates l) in
    let cf := UpdateState cf (tl_executionStates l) in
    ({| m_Steps := tl_steps l; m_Workgroup := workgroup;
        m_ActiveLaneIndex := m_ActiveLaneIndex d; m_ControlFlow := cf;
        m_Globals := m_Globals d; m_Constants := m_Constants d |}, tl_ret l).

  (** The loop [for(int stepEnd = m_Steps + 100; m_Steps < stepEnd;)].  The
      recursion is on the number of passes allowed: [None] means that the
      passes ran out before the loop ended, so that a call that returns is a
      call for which some number of passes gives [Some]. *)
Fixpoint step_loop (passes : nat) (stepEnd : Z) (d : Debugger ControlFlow)
      (ret_ : list ShaderDebugState)
    : option (list ShaderDebugState * Debugger ControlFlow) :=
    match passes with
    | O => None
    | S passes' =>
        if negb (m_Steps d <? stepEnd) then Some (ret_, d)
        else if active_Finished d then Some (ret_, d)
        else
          let r := iteration d ret_ in
          step_loop passes' stepEnd (fst r) (snd r)
    end.

  (** "initialise the first ShaderDebugState if we haven't stepped yet". *)
Definition enter_lanes (activeLaneIndex : Z) (workgroup : list ThreadState)
    : list ThreadState * ShaderDebugState * Z :=
    foldl (fun acc lane =>
             let '(wg, initial, startPoint) := acc in
             match wg !! lane with
             | Some thread =>
                 if Z.of_nat lane =? activeLaneIndex then
                   let r := EnterEntryPoint (Some initial) thread in
                   let initial' := default initial (snd r) in
                   let nextInst := m_ActiveGlobalInstructionIdx (fst r) in
                   (<[lane := fst r]> wg, with_nextInstruction nextInst initial', nextInst)
                 else
                   (<[lane := fst (EnterEntryPoint None thread)]> wg, initial, startPoint)
             | None => acc
             end)
          (workgroup, default_ShaderDebugState, INVALID_EXECUTION_POINT)
          (seq 0 (length workgroup)).

Definition initial_executionStates (tangles : list Tangle) (workgroup : list ThreadState)
      (startPoint : Z) : ThreadExecutionStates :=
    foldl (fun tes (_ : Tangle) =>
             foldl (fun tes threadIdx =>
                      match workgroup !! threadIdx with
                      | Some thread =>
                          if Finished thread then tes
                          else <[Z.of_nat threadIdx :=
                                   default [] (tes !! Z.of_nat threadIdx) ++ [startPoint]]> tes
                      | None => tes
                      end) tes (seq 0 (length workgroup)))
          ∅ tangles.

Definition first_step (d : Debugger ControlFlow)
    : Debugger ControlFlow * list ShaderDebugState :=
    if m_Steps d =? 0 then
      let '(workgroup, initial, startPoint) :=
        enter_lanes (m_ActiveLaneIndex d) (m_Workgroup d) in
      let initial :=
        foldl (fun st var => push_change {| before := default_ShaderVariable;
                                            after := var |} st)
              initial (m_Globals d ++ m_Constants d) in
      let tes := initial_executionStates (GetTangles (m_ControlFlow d)) workgroup
                                         startPoint in
      ({| m_Steps := int_add (m_Steps d) 1; m_Workgroup := workgroup;
          m_ActiveLaneIndex := m_ActiveLaneIndex d;
          m_ControlFlow := UpdateState (m_ControlFlow d) tes;
          m_Globals := m_Globals d; m_Constants := m_Constants d |}, [initial])
    else (d, []).

  (** [Debugger::ContinueDebug]: the states returned and the debugger
      afterwards, [None] when [passes] passes of the loop were not enough. *)
Definition ContinueDebug (passes : nat) (d : Debugger ControlFlow)
    : option (list ShaderDebugState * Debugger ControlFlow) :=
    let r := first_step d in
    let d := fst r in
    let ret_ := snd r in
    (* if we've finished, return an empty set to signify that *)
    if active_Finished d then Some (ret_, d)
    else step_loop passes (int_add (m_Steps d) 100) d ret_.

End ContinueDebugModel.

(* ================================================================== *)
(** * Notions used in the statements *)
(* ================================================================== *)

(** [m] runs to completion with the value [a], whatever it logs. *)
Definition finishes {A : Type} (m : Outcome A) (a : A) : Prop := result_of m = Some a.

(** [m] logs the report [r]. *)
Definition reports {A : Type} (m : Outcome A) (r : Report) : Prop := In r (log_of m).

(** The variable an instruction commits: what [SetResult] makes of the
    result on the observed lane, the result itself on any other lane. *)
Definition committed_value (observed : bool) (opCode : Operation.t) (dxOpCode : DXOp.t)
    (result : ShaderVariable) : ShaderVariable :=
  if observed && (OperationFlushing opCode dxOpCode
                  && VarType.eqb (type result) VarType.Float)
  then with_value (flush_f32v0 (value result)) result
  else result.

(** The 8 bit codes, as the bytes that hold them. *)
Definition all_bytes : list Z := map Z.of_nat (seq 0 256).

(** The lane after the commit of [result] under the id [id] with the events
    [eventFlags]: the change and the events go to the state of the observed
    lane, the variable becomes live and assigned. *)
Definition committed_lane (ts : ThreadState) (id : Id) (result : ShaderVariable)
    (opCode : Operation.t) (dxOpCode : DXOp.t) (eventFlags : ShaderEvents) : ThreadState :=
  let res := committed_value (bool_decide (is_Some (m_State ts))) opCode dxOpCode result in
  let ts1 :=
    match m_State ts with
    | Some st =>
        set_m_State
          (Some (push_change {| before := map_at (m_Variables ts) id; after := res |}
                   (or_flags (Z.lor eventFlags (value_events (type result) (value result)))
                             st))) ts
    | None => ts
    end in
  set_m_Assigned (<[Z.to_nat id := true]> (m_Assigned ts1))
    (set_m_Variables (<[id := res]> (m_Variables ts1))
       (set_m_Live (<[Z.to_nat id := true]> (m_Live ts1)) ts1)).

(** What [IMin] and [IMax] compute on two signed 32 bit integers. *)
Definition signed_min_max (dxOpCode : DXOp.t) (x y : Z) : Z :=
  match dxOpCode with
  | DXOp.IMin => Z.min x y
  | _ => Z.max x y
  end.


(** The ordered comparison an unordered comparison is paired with. *)
Definition ordered_counterpart (opCode : Operation.t) : option Operation.t :=
  match opCode with
  | Operation.FUnordEqual => Some Operation.FOrdEqual
  | Operation.FUnordGreater => Some Operation.FOrdGreater
  | Operation.FUnordGreaterEqual => Some Operation.FOrdGreaterEqual
  | Operation.FUnordLess => Some Operation.FOrdLess
  | Operation.FUnordLessEqual => Some Operation.FOrdLessEqual
  | Operation.FUnordNotEqual => Some Operation.FOrdNotEqual
  | _ => None
  end.

(** The unordered opcodes whose code yields 1 as soon as an operand is NaN. *)
Definition true_on_nan (opCode : Operation.t) : bool :=
  match opCode with
  | Operation.FUnord | Operation.FUnordGreater | Operation.FUnordGreaterEqual
  | Operation.FUnordLess | Operation.FUnordLessEqual | Operation.FUnordNotEqual => true
  | _ => false
  end.

(** The first operand of a floating point case as the number it holds. *)
Definition float_operand (fmt : FloatFormat) (var : ShaderVariable) : spec_float :=
  float_of_bits fmt (comp (fwidth fmt) 0 (value var)).

(** [phi_pair pairs v label]: [{ v, label }] is one of the pairs of the
    argument list of a phi. *)
Inductive phi_pair : list Value -> Value -> Value -> Prop :=
| phi_pair_here (v label : Value) (rest : list Value) :
    phi_pair (v :: label :: rest) v label
| phi_pair_later (v' label' v label : Value) (rest : list Value) :
    phi_pair rest v label -> phi_pair (v' :: label' :: rest) v label.

(** The ids filed under a block. *)
Definition ids_of_block (m : gmap Z (gset Z)) (blockId : Z) : gset Z :=
  default ∅ (m !! blockId).

Section Scheduling.
Context {ControlFlow Tangle : Type} `{ControlFlowAPI ControlFlow Tangle}.




End Scheduling.

Section Passes.
Context {ControlFlow Tangle : Type} `{ControlFlowAPI ControlFlow Tangle} `{LaneAPI}.





End Passes.

(* ================================================================== *)
(** * Small programs and lanes *)
(* ================================================================== *)

Definition i1 : DXILType := TyScalar ScalarKind.Int 1.
Definition i32 : DXILType := TyScalar ScalarKind.Int 32.
Definition f32 : DXILType := TyScalar ScalarKind.Float 32.
Definition void : DXILType := TyScalar ScalarKind.Void 0.

(** An [i32] or [float] constant given by its bits. *)
Definition const_i32 (bits : Z) : Value := VConstant i32 100 (CLiteral bits).
Definition const_f32 (bits : Z) : Value := VConstant f32 101 (CLiteral bits).

(** The opcode constant that is the first argument of a DXOp call. *)
Definition dxop_arg : Value := VConstant i32 102 (CLiteral 0).

(** A DXOp call [%slot = call @dx.op...(opcode, args)]. *)
Definition dx_call (dx : DXOp.t) (ty : DXILType) (operands : list Value) (slot : Id)
    (nm : string) : Instruction :=
  {| op := Operation.Call; itype := ty; args := dxop_arg :: operands; islot := slot;
     resultName := nm; demangledName := nm; callFamily := FunctionFamily.DXOp;
     callDXOp := dx |}.

(** An LLVM instruction [%slot = op args]. *)
Definition llvm_inst (o : Operation.t) (ty : DXILType) (operands : list Value) (slot : Id)
    (nm : string) : Instruction :=
  {| op := o; itype := ty; args := operands; islot := slot; resultName := nm;
     demangledName := nm; callFamily := FunctionFamily.Unknown;
     callDXOp := DXOp.NumOpCodes |}.

(** A function of one block holding the given instructions. *)
Definition one_block (insts : list Instruction) : FunctionInfo :=
  {| function := {| instructions := insts;
                    blocks := [ {| bid := 0; startInstructionIdx := 0 |} ] |};
     globalInstructionOffset := 0;
     referencedIds := list_to_set (map islot insts);
     phiReferencedIdsPerBlock := ∅;
     divergentBlocks := [];
     convergentBlocks := [] |}.

(** A lane at instruction [idx] of block 0 with the given variables, eight
    SSA ids, all live and assigned, and no quad. *)
Definition lane_at (idx : Z) (vars : list (Z * ShaderVariable))
    (state : option ShaderDebugState) : ThreadState :=
  {| m_Variables := list_to_map vars;
     m_PhiVariables := ∅;
     m_Assigned := replicate 8 true;
     m_Live := replicate 8 true;
     m_Memory := {| m_Allocations := ∅; m_Pointers := ∅ |};
     m_Block := 0;
     m_PreviousBlock := NO_INDEX;
     m_FunctionInstructionIdx := idx;
     m_ActiveGlobalInstructionIdx := idx;
     m_State := state;
     m_Dead := false;
     m_Ended := false;
     m_Callstack := [ {| live := [] |} ];
     m_Diverged := false;
     m_ConvergencePoint := INVALID_EXECUTION_POINT;
     m_EnteredPoints := [];
     m_QuadNeighbours := [NO_INDEX; NO_INDEX; NO_INDEX; NO_INDEX];
     m_QuadLaneIndex := 0;
     m_ShaderType := ShaderType.Pixel;
     m_OutputId := 7 |}.

(** A flat variable of the given type and bits. *)
Definition scalar_var (nm : string) (t : VarType.t) (bits : Z) : ShaderVariable :=
  {| name := nm; type := t; rows := 1; columns := 1; value := bits; members := [] |}.

(** [%2 = IMin(-1, 3)] and [%2 = UDiv(7, 0)]. *)
Definition imin_example : Instruction :=
  dx_call DXOp.IMin i32 [const_i32 0xffffffff; const_i32 3] 2 "_2".
Definition udiv_example : Instruction :=
  dx_call DXOp.UDiv i32 [const_i32 7; const_i32 0] 2 "_2".

(** [%2 = fadd float 0x00800000, 0x80C00000]: the sum of the smallest normal
    float and of minus one and a half times it is subnormal. *)
Definition fadd_example : Instruction :=
  llvm_inst Operation.FAdd f32 [const_f32 0x00800000; const_f32 0x80C00000] 2 "_2".

(** [%2 = FAbs(%1)] with [%1] a subnormal float. *)
Definition fabs_example : Instruction :=
  dx_call DXOp.FAbs f32 [VInstruction f32 1] 2 "_2".
Definition subnormal_var : ShaderVariable := scalar_var "_1" VarType.Float 0x80000001.

Definition F32_NAN : Z := 0x7fc00000.
Definition F32_TWO : Z := 0x40000000.

(** [%2 = fcmp ueq float NaN, 1.0], [%2 = fcmp uno float 1.0, 2.0] and
    [%2 = fcmp ord float 1.0, 2.0]. *)
Definition fcmp_ueq_nan : Instruction :=
  llvm_inst Operation.FUnordEqual i1 [const_f32 F32_NAN; const_f32 F32_ONE] 2 "_2".
Definition fcmp_uno_example : Instruction :=
  llvm_inst Operation.FUnord i1 [const_f32 F32_ONE; const_f32 F32_TWO] 2 "_2".
Definition fcmp_ord_example : Instruction :=
  llvm_inst Operation.FOrd i1 [const_f32 F32_ONE; const_f32 F32_TWO] 2 "_2".
Definition fcmp_ugt_nan : Instruction :=
  llvm_inst Operation.FUnordGreater i1 [const_f32 F32_NAN; const_f32 F32_ONE] 2 "_2".

(** [%2 = urem i32 5, 0], [%2 = srem i32 5, 0], [%2 = udiv i32 5, 0] and
    [%2 = sdiv i32 5, 0]. *)
Definition urem_by_zero : Instruction :=
  llvm_inst Operation.URem i32 [const_i32 5; const_i32 0] 2 "_2".
Definition srem_by_zero : Instruction :=
  llvm_inst Operation.SRem i32 [const_i32 5; const_i32 0] 2 "_2".
Definition udiv_by_zero : Instruction :=
  llvm_inst Operation.UDiv i32 [const_i32 5; const_i32 0] 2 "_2".
Definition sdiv_by_zero : Instruction :=
  llvm_inst Operation.SDiv i32 [const_i32 5; const_i32 0] 2 "_2".

(** A lane of a complete 2x2 quad: it is at block [block], holds the float
    [bits] in [%1] and runs [%2 = DerivCoarseX(%1)]. *)
Definition quad_lane (block : Z) (quadLane : Z) (bits : Z)
    (state : option ShaderDebugState) : ThreadState :=
  {| m_Variables := {[ 1 := scalar_var "_1" VarType.Float bits ]};
     m_PhiVariables := ∅;
     m_Assigned := replicate 8 true;
     m_Live := replicate 8 true;
     m_Memory := {| m_Allocations := ∅; m_Pointers := ∅ |};
     m_Block := block;
     m_PreviousBlock := NO_INDEX;
     m_FunctionInstructionIdx := 0;
     m_ActiveGlobalInstructionIdx := 0;
     m_State := state;
     m_Dead := false;
     m_Ended := false;
     m_Callstack := [ {| live := [] |} ];
     m_Diverged := false;
     m_ConvergencePoint := INVALID_EXECUTION_POINT;
     m_EnteredPoints := [];
     m_QuadNeighbours := [0; 1; 2; 3];
     m_QuadLaneIndex := quadLane;
     m_ShaderType := ShaderType.Pixel;
     m_OutputId := 7 |}.

Definition deriv_example : Instruction :=
  dx_call DXOp.DerivCoarseX f32 [VInstruction f32 1] 2 "_2".

(** A quad whose lane 1 is in another block than the lanes 0, 2 and 3; the
    lanes hold 1.0, 3.0, 1.0 and 3.0. *)
Definition diverged_quad : list ThreadState :=
  [ quad_lane 0 0 F32_ONE None; quad_lane 1 1 0x40400000 None;
    quad_lane 0 2 F32_ONE None; quad_lane 0 3 0x40400000 None ].

(** A pixel lane without quad neighbours in a workgroup of four. *)
Definition lone_lane : ThreadState := lane_at 0 [(1, scalar_var "_1" VarType.Float F32_ONE)] None.

(** A function of two blocks: block 0 is [br label %b1], block 1 starts with
    [%3 = phi i32 [ %1, %b0 ], [ %2, %b1 ]].  Its phi table is the one the
    builder makes of its instructions. *)
Definition phi_example : Instruction :=
  llvm_inst Operation.Phi i32
            [VInstruction i32 1; VBlock 0; VInstruction i32 2; VBlock 1] 3 "_3".

Definition phi_instructions : list Instruction :=
  [ llvm_inst Operation.Branch void [VBlock 1] INVALID_ID ""; phi_example ].

Definition phi_function : FunctionInfo :=
  {| function := {| instructions := phi_instructions;
                    blocks := [ {| bid := 0; startInstructionIdx := 0 |};
                                {| bid := 1; startInstructionIdx := 1 |} ] |};
     globalInstructionOffset := 0;
     referencedIds := {[ 1; 2; 3 ]};
     phiReferencedIdsPerBlock :=
       default ∅ (result_of (build_phiReferencedIdsPerBlock phi_instructions ∅));
     divergentBlocks := [];
     convergentBlocks := [] |}.

(** The lane before the jump out of block 0, with [%1 = 5]; the lane the
    jump returns; and that lane once [%1] has been overwritten with 9 in the
    live table. *)
Definition phi_before : ThreadState :=
  lane_at 0 [(1, scalar_var "_1" VarType.SInt 5)] None.

Definition phi_after : ThreadState :=
  match result_of (JumpToBlock phi_function phi_before (Some 1) false) with
  | Some r => snd r
  | None => phi_before
  end.

Definition phi_later : ThreadState :=
  set_m_Variables {[ 1 := scalar_var "_1" VarType.SInt 9 ]} phi_after.

(** An [R8G8B8A8_SNORM] buffer element with the codes -128, 127, -127 and 1,
    and an [R16G16_SNORM] one with the codes -32768 and 32767. *)
Definition snorm8_fmt : ViewFmt :=
  {| byteWidth := 1; numComps := 4; compType := CompType.SNorm; stride := 4 |}.
Definition snorm8_data : list Z := [0x80; 0x7f; 0x81; 0x01].

Definition snorm16_fmt : ViewFmt :=
  {| byteWidth := 2; numComps := 2; compType := CompType.SNorm; stride := 4 |}.
Definition snorm16_data : list Z := [0x00; 0x80; 0xff; 0x7f].













(* ================================================================== *)
(** * Encoded pointers, annotated handles, normal numbers *)
(* ================================================================== *)

Definition POINTER_MAGIC : Z := 0xBEAFDEAF.

(** [EncodePointer(ptrId, offset, size, var)]: [var] afterwards. *)
Definition EncodePointer (ptrId offset size : Z) (var : ShaderVariable) : ShaderVariable :=
  let var := with_type VarType.GPUPointer var in
  let var := with_value (set_u32v 0 ptrId (value var)) var in
  let var := with_value (set_u32v 1 POINTER_MAGIC (value var)) var in
  let var := with_value (set_u64v 1 offset (value var)) var in
  with_value (set_u64v 2 size (value var)) var.

(** [DecodePointer(ptrId, offset, size, var)]: the three outputs when the
    function returns [true]; [None] when it returns [false], and the outputs
    are then left as they were. *)
Definition DecodePointer (var : ShaderVariable) : Outcome (option (Id * Z * Z)) :=
  if negb (VarType.eqb (type var) VarType.GPUPointer) then
    RDCERR "Calling DecodePointer on non-pointer type" ;;; ret None
  else if negb (u32v (value var) 1 =? POINTER_MAGIC) then
    RDCERR "Calling DecodePointer on non encoded pointer type" ;;; ret None
  else
    ret (Some (u32v (value var) 0, u64v (value var) 1, u64v (value var) 2)).

(** [ClearAnnotatedHandle], [SetAnnotatedHandle], [IsAnnotatedHandle]. *)
Definition ClearAnnotatedHandle (var : ShaderVariable) : ShaderVariable :=
  with_value (set_u32v 15 0 (value var)) var.

Definition SetAnnotatedHandle (var : ShaderVariable) : ShaderVariable :=
  with_value (set_u32v 15 1 (value var)) var.

Definition IsAnnotatedHandle (var : ShaderVariable) : bool :=
  u32v (value var) 15 =? 1.

(** [RDCISNORMAL(float)] and [RDCISNORMAL(double)], on the bits of the
    argument: "normal is not zero, not subnormal, not infinite, not NaN". *)
Definition RDCISNORMAL_float (x : Z) : bool :=
  let u := Z.land x 0x7fffffff in
  if u <? 0x800000 then false
  else if 0x7f800000 <=? u then false
  else true.

Definition RDCISNORMAL_double (x : Z) : bool :=
  let u := Z.land x 0x7fffffffffffffff in
  if u <? 0x80000000000000 then false
  else if 0x7ff0000000000000 <=? u then false
  else true.
(* ================================================================== *)
(** * View formats and typed UAV stores *)
(* ================================================================== *)

Definition with_format (bw : Z) (ct : CompType.t) (fmt : ViewFmt) : ViewFmt :=
  {| byteWidth := bw; numComps := numComps fmt; compType := ct; stride := stride fmt |}.

(** [FillViewFmtFromVarType(type, fmt)]: [fmt] afterwards. *)
Definition FillViewFmtFromVarType (type : VarType.t) (fmt : ViewFmt) : Outcome ViewFmt :=
  match type with
  | VarType.Float => ret (with_format 4 CompType.Float fmt)
  | VarType.Double => ret (with_format 8 CompType.Float fmt)
  | VarType.Half => ret (with_format 2 CompType.Float fmt)
  | VarType.SInt => ret (with_format 4 CompType.SInt fmt)
  | VarType.UInt => ret (with_format 4 CompType.UInt fmt)
  | VarType.SShort => ret (with_format 2 CompType.SInt fmt)
  | VarType.UShort => ret (with_format 2 CompType.UInt fmt)
  | VarType.SLong => ret (with_format 8 CompType.SInt fmt)
  | VarType.ULong => ret (with_format 2 CompType.UInt fmt)
  | VarType.SByte => ret (with_format 1 CompType.SInt fmt)
  | VarType.UByte => ret (with_format 1 CompType.UInt fmt)
  | _ => RDCERR "Unhandled Result Type" ;;; ret fmt
  end.

Definition INT8_MIN : Z := -128.
Definition INT8_MAX : Z := 127.
Definition INT16_MIN : Z := -32768.
Definition INT16_MAX : Z := 32767.

(** [RDCCLAMP(val, mn, mx)] on integers.  The macro is defined outside the
    sources at hand; it limits [val] to the range from [mn] to [mx]. *)
Definition RDCCLAMP (val mn mx : Z) : Z :=
  if val <? mn then mn else if mx <? val then mx else val.

(** [RDCCLAMP(val, mn, mx)] on floats.  What the macro gives for a NaN
    depends on how it is spelt, which the sources at hand do not show: a NaN
    is not covered. *)
Definition RDCCLAMP_float (val mn mx : spec_float) : Outcome spec_float :=
  if RDCISNAN val then Unmodelled "RDCCLAMP of a NaN"
  else ret (if f_lt val mn then mn else if f_gt val mx then mx else val).

(** The conversion of a float to an integer type with the values from [lo]
    to [hi]: the fractional part is discarded, and a value that does not fit
    the type is undefined behaviour. *)
Definition float_to_int (lo hi : Z) (f : spec_float) : Outcome Z :=
  match f with
  | S754_zero _ => ret 0
  | S754_finite s m e =>
      let magnitude := if 0 <=? e then Zpos m * 2 ^ e else Zpos m / 2 ^ (- e) in
      let i := if s then - magnitude else magnitude in
      if (lo <=? i) && (i <=? hi) then ret i
      else Undefined "float to integer conversion out of range"
  | S754_infinity _ | S754_nan => Undefined "float to integer conversion out of range"
  end.

Definition F32_HALF : Z := 0x3f000000.

(** [RDCCLAMP(f, 0.0f, 1.0f) * float(k) + 0.5f] converted to the unsigned
    type with the values up to [k]. *)
Definition unorm_encode (k : Z) (x : Z) : Outcome Z :=
  f <- RDCCLAMP_float (float_of_bits binary32 x) (float_of_bits binary32 F32_ZERO)
                      (float_of_bits binary32 F32_ONE) ;;
  float_to_int 0 k
    (fadd binary32 (fmul binary32 f (float_of_Z binary32 k))
                   (float_of_bits binary32 F32_HALF)).

(** [f = RDCCLAMP(f, -1.0f, 1.0f) * k], then [f - 0.5f] or [f + 0.5f]
    converted to the signed type with the values from [lo] to [k]; the
    result is given as the bits that are stored. *)
Definition snorm_encode (w lo k : Z) (x : Z) : Outcome Z :=
  c <- RDCCLAMP_float (float_of_bits binary32 x) (float_of_bits binary32 F32_MINUS_ONE)
                      (float_of_bits binary32 F32_ONE) ;;
  let f := fmul binary32 c (float_of_Z binary32 k) in
  i <- (if f_lt f (float_of_bits binary32 F32_ZERO)
        then float_to_int lo k (fsub binary32 f (float_of_bits binary32 F32_HALF))
        else float_to_int lo k (fadd binary32 f (float_of_bits binary32 F32_HALF))) ;;
  ret (wrap w i).

(** What a 32 bit lane [x] of the value is stored as in a buffer of elements
    of [n] bytes and type [ct]; [None] where the source has no branch for
    the pair. *)
Definition encode_lane (n : Z) (ct : CompType.t) (x : Z) : option (Outcome Z) :=
  if n =? 4 then Some (ret x)
  else if n =? 2 then
    match ct with
    | CompType.Float => Some (Unmodelled "ConvertToHalf")
    | CompType.UInt => Some (ret (Z.land x 0xffff))
    | CompType.SInt => Some (ret (wrap 16 (RDCCLAMP (signed 32 x) INT16_MIN INT16_MAX)))
    | CompType.UNorm | CompType.UNormSRGB => Some (unorm_encode 0xffff x)
    | CompType.SNorm => Some (snorm_encode 16 INT16_MIN 0x7fff x)
    | _ => None
    end
  else if n =? 1 then
    match ct with
    | CompType.UInt => Some (ret (Z.land x 0xff))
    | CompType.SInt => Some (ret (wrap 8 (RDCCLAMP (signed 32 x) INT8_MIN INT8_MAX)))
    | CompType.UNorm | CompType.UNormSRGB => Some (unorm_encode 0xff x)
    | CompType.SNorm => Some (snorm_encode 8 INT8_MIN 0x7f x)
    | _ => None
    end
  else None.

(** [value.u32v[c]] (or the same lane through [f32v], [s32v]) as an
    r-value. *)
Definition load_lane (c : Z) (value : ShaderValue) : Outcome Z :=
  if (0 <=? c) && (c <? 16) then ret (comp 32 c value)
  else Undefined "lane index out of bounds".

(** [u[c] = x] on the buffer seen as an array of [n]-byte little-endian
    numbers. *)
Definition write_elem (d : list Z) (n c x : Z) : Outcome (list Z) :=
  write_bytes d (n * c) (bytes_of (Z.to_nat n) x).

(** [for(int c = 0; c < fmt.numComps; c++) body] on the buffer. *)
Fixpoint for_comps_bytes (n : nat) (c : Z) (body : Z -> list Z -> Outcome (list Z))
    (d : list Z) : Outcome (list Z) :=
  match n with
  | O => ret d
  | S n' => d' <- body c d ;; for_comps_bytes n' (c + 1) body d'
  end.

(** [TypedUAVStore(fmt, d, value)]: the buffer afterwards. *)
Definition TypedUAVStore (fmt : ViewFmt) (d : list Z) (value : ShaderValue)
  : Outcome (list Z) :=
  if byteWidth fmt =? 10 then
    u <- match compType fmt with
         | CompType.UInt =>
             let u := 0 in
             let u := Z.lor u (Z.shiftl (Z.land (u32v value 0) 0x3ff) 0) in
             let u := Z.lor u (Z.shiftl (Z.land (u32v value 1) 0x3ff) 10) in
             let u := Z.lor u (Z.shiftl (Z.land (u32v value 2) 0x3ff) 20) in
             let u := Z.lor u (Z.shiftl (Z.land (u32v value 3) 0x3) 30) in
             ret u
         | CompType.UNorm => Unmodelled "ConvertToR10G10B10A2"
         | _ => RDCERR "Unexpected format type on buffer resource" ;;; ret 0
         end ;;
    write_elem d 4 0 u
  else if byteWidth fmt =? 11 then Unmodelled "ConvertToR11G11B10"
  else if (byteWidth fmt =? 4) || (byteWidth fmt =? 2) || (byteWidth fmt =? 1) then
    match encode_lane (byteWidth fmt) (compType fmt) 0 with
    | Some _ =>
        for_comps_bytes (Z.to_nat (numComps fmt)) 0
          (fun c d =>
             x <- load_lane c value ;;
             match encode_lane (byteWidth fmt) (compType fmt) x with
             | Some m => e <- m ;; write_elem d (byteWidth fmt) c e
             | None => ret d
             end) d
    | None => RDCERR "Unexpected format type on buffer resource" ;;; ret d
    end
  else ret d.

(** The formats whose elements are integers that [TypedUAVLoad] widens to a
    32 bit lane: every element of four bytes, and the [UInt] and [SInt]
    elements of two bytes and of one byte. *)
Definition integer_format (fmt : ViewFmt) : bool :=
  (byteWidth fmt =? 4)
  || (((byteWidth fmt =? 2) || (byteWidth fmt =? 1))
      && match compType fmt with
         | CompType.UInt | CompType.SInt => true
         | _ => false
         end).

(** A buffer of bytes. *)
Definition is_bytes (d : list Z) : Prop := Forall (fun b => 0 <= b < 256) d.

(** What [TypedUAVLoad] makes of an element of an integer format: a signed
    element of one or two bytes is sign-extended. *)
Definition widen (bw : Z) (ct : CompType.t) (e : Z) : Z :=
  if bw =? 4 then e
  else match ct with
       | CompType.SInt => signed (8 * bw) e
       | _ => e
       end.

(** The byte a signed-normalised byte is stored back as. *)
Definition snorm8_restored (b : Z) : Z := if b =? 0x80 then 0x81 else b.

(** The 32 bit number [TypedUAVStore] packs the four lanes of an
    [R10G10B10A2_UINT] element into. *)
Definition pack_10_10_10_2 (value : ShaderValue) : Z :=
  Z.lor (Z.lor (Z.lor (Z.lor 0 (Z.shiftl (Z.land (u32v value 0) 0x3ff) 0))
                      (Z.shiftl (Z.land (u32v value 1) 0x3ff) 10))
               (Z.shiftl (Z.land (u32v value 2) 0x3ff) 20))
        (Z.shiftl (Z.land (u32v value 3) 0x3) 30).

(** The buffer [d'] has the size of [d], agrees with it from the byte at
    [bound] on, and holds bytes if [d] does. *)
Definition same_outside (bound : Z) (d d' : list Z) : Prop :=
  length d' = length d /\
  (forall i : nat, bound <= Z.of_nat i -> d' !! i = d !! i) /\
  (is_bytes d -> is_bytes d').
(* ================================================================== *)
(** * More DXOp intrinsics *)
(* ================================================================== *)

(** [RDCASSERTEQUAL(v->type->type, Type::TypeKind::Scalar)]. *)
Definition assert_kind_scalar (v : Value) : Outcome unit :=
  RDCASSERT (match value_type v with TyScalar _ _ => true | _ => false end)
            "type->type == Type::TypeKind::Scalar".

(** [RDCASSERTEQUAL(v->type->bitWidth, w)]; the bit width of a type that is
    not a scalar is not covered. *)
Definition assert_bitWidth (v : Value) (w : Z) : Outcome unit :=
  match value_type v with
  | TyScalar _ bitWidth => RDCASSERT (bitWidth =? w) "type->bitWidth"
  | _ => Unmodelled "bitWidth of a type that is not a scalar"
  end.

(** The body of [case DXOp::UAddc:]. *)
Definition case_UAddc (ts : ThreadState) (inst : Instruction) (result : ShaderVariable)
  : Outcome ShaderVariable :=
  let opCode := Operation.Call in
  let dxOpCode := DXOp.UAddc in
  v1 <- arg_at inst 1 ;;
  assert_scalar v1 ScalarKind.Int ;;;
  v2 <- arg_at inst 2 ;;
  assert_scalar v2 ScalarKind.Int ;;;
  a <- fetch ts v1 opCode dxOpCode ;;
  b <- fetch ts v2 opCode dxOpCode ;;
  RDCASSERT (VarType.eqb (type a) (type b)) "a.type == b.type" ;;;
  let sum := wrap 64 (u32v (value a) 0 + u32v (value b) 0) in
  (* a+b : 32-bits *)
  let r := set_u32v 0 (Z.land sum 0xffffffff) (value result) in
  (* carry *)
  let r := set_u32v 1 (if 0xffffffff <? sum then 1 else 0) r in
  ret (with_value r result).

(** The body of [case DXOp::USubb:]. *)
Definition case_USubb (ts : ThreadState) (inst : Instruction) (result : ShaderVariable)
  : Outcome ShaderVariable :=
  let opCode := Operation.Call in
  let dxOpCode := DXOp.USubb in
  v1 <- arg_at inst 1 ;;
  assert_scalar v1 ScalarKind.Int ;;;
  v2 <- arg_at inst 2 ;;
  assert_scalar v2 ScalarKind.Int ;;;
  a <- fetch ts v1 opCode dxOpCode ;;
  b <- fetch ts v2 opCode dxOpCode ;;
  RDCASSERT (VarType.eqb (type a) (type b)) "a.type == b.type" ;;;
  (* add on a 'borrow' bit *)
  let src0 := Z.lor 0x100000000 (u32v (value a) 0) in
  let src1 := u32v (value b) 0 in
  (* do the subtract *)
  let sub := wrap 64 (src0 - src1) in
  (* a-b : 32-bits *)
  let r := set_u32v 0 (Z.land sub 0xffffffff) (value result) in
  (* mark where the borrow bits was used *)
  let r := set_u32v 1 (if sub <=? 0xffffffff then 1 else 0) r in
  ret (with_value r result).

(** The loop of [case DXOp::Msad:] from byte [i] on, [n] bytes to go: the
    accumulator and the events afterwards. *)
Fixpoint Msad_loop (n : nat) (i : Z) (ref src accum : Z) (eventFlags : ShaderEvents)
  : Z * ShaderEvents :=
  match n with
  | O => (accum, eventFlags)
  | S n' =>
      let refByte := wrap 8 (Z.shiftr ref (i * 8)) in
      if refByte =? 0 then Msad_loop n' (i + 1) ref src accum eventFlags
      else
        let srcByte := wrap 8 (Z.shiftr src (i * 8)) in
        let absDiff :=
          wrap 8 (if srcByte <=? refByte then refByte - srcByte else srcByte - refByte) in
        (* The recommended overflow behaviour for MSAD is to do a 32-bit saturate. *)
        if UINT32_MAX - accum <? absDiff then
          (UINT32_MAX, Z.lor eventFlags ShaderEvents.GeneratedNanOrInf)
        else Msad_loop n' (i + 1) ref src (wrap 32 (accum + absDiff)) eventFlags
  end.

(** The body of [case DXOp::Msad:]. *)
Definition case_Msad (ts : ThreadState) (inst : Instruction) (result : ShaderVariable)
    (eventFlags : ShaderEvents) : Outcome (ShaderVariable * ShaderEvents) :=
  let opCode := Operation.Call in
  let dxOpCode := DXOp.Msad in
  v1 <- arg_at inst 1 ;;
  assert_scalar v1 ScalarKind.Int ;;;
  v2 <- arg_at inst 2 ;;
  assert_scalar v2 ScalarKind.Int ;;;
  v3 <- arg_at inst 3 ;;
  assert_scalar v3 ScalarKind.Int ;;;
  a <- fetch ts v1 opCode dxOpCode ;;
  b <- fetch ts v2 opCode dxOpCode ;;
  c <- fetch ts v3 opCode dxOpCode ;;
  RDCASSERT (VarType.eqb (type a) (type b)) "a.type == b.type" ;;;
  RDCASSERT (VarType.eqb (type a) (type c)) "a.type == c.type" ;;;
  let r := Msad_loop 4 0 (u32v (value a) 0) (u32v (value b) 0) (u32v (value c) 0)
                     eventFlags in
  ret (with_value (set_u32v 0 (fst r) (value result)) result, snd r).

(** The body of [case DXOp::Ubfe:]. *)
Definition case_Ubfe (ts : ThreadState) (inst : Instruction) (result : ShaderVariable)
  : Outcome ShaderVariable :=
  let opCode := Operation.Call in
  let dxOpCode := DXOp.Ubfe in
  v1 <- arg_at inst 1 ;;
  assert_scalar v1 ScalarKind.Int ;;;
  v2 <- arg_at inst 2 ;;
  assert_scalar v2 ScalarKind.Int ;;;
  v3 <- arg_at inst 3 ;;
  assert_scalar v3 ScalarKind.Int ;;;
  a <- fetch ts v1 opCode dxOpCode ;;
  b <- fetch ts v2 opCode dxOpCode ;;
  c <- fetch ts v3 opCode dxOpCode ;;
  RDCASSERT (VarType.eqb (type a) (type b)) "a.type == b.type" ;;;
  RDCASSERT (VarType.eqb (type a) (type c)) "a.type == c.type" ;;;
  let width := Z.land (u32v (value a) 0) 0x1f in
  let offset := Z.land (u32v (value b) 0) 0x1f in
  if width =? 0 then ret (with_value (set_u32v 0 0 (value result)) result)
  else if width + offset <? 32 then
    let r := set_u32v 0 (wrap 32 (Z.shiftl (u32v (value c) 0) (32 - (width + offset))))
                      (value result) in
    let r := set_u32v 0 (Z.shiftr (u32v r 0) (32 - width)) r in
    ret (with_value r result)
  else
    ret (with_value (set_u32v 0 (Z.shiftr (u32v (value c) 0) offset) (value result)) result).

(** The body of [case DXOp::MakeDouble:]. *)
Definition case_MakeDouble (ts : ThreadState) (inst : Instruction) (result : ShaderVariable)
  : Outcome ShaderVariable :=
  let opCode := Operation.Call in
  let dxOpCode := DXOp.MakeDouble in
  v1 <- arg_at inst 1 ;;
  assert_kind_scalar v1 ;;;
  v2 <- arg_at inst 2 ;;
  assert_kind_scalar v2 ;;;
  a <- fetch ts v1 opCode dxOpCode ;;
  b <- fetch ts v2 opCode dxOpCode ;;
  RDCASSERT (VarType.eqb (type a) (type b)) "a.type == b.type" ;;;
  ret (with_value
         (set_u64v 0 (Z.lor (wrap 64 (Z.shiftl (u32v (value b) 0) 32)) (u32v (value a) 0))
                   (value result)) result).

(** The body of [case DXOp::SplitDouble:]. *)
Definition case_SplitDouble (ts : ThreadState) (inst : Instruction) (result : ShaderVariable)
  : Outcome ShaderVariable :=
  let opCode := Operation.Call in
  let dxOpCode := DXOp.SplitDouble in
  v1 <- arg_at inst 1 ;;
  assert_scalar v1 ScalarKind.Float ;;;
  assert_bitWidth v1 64 ;;;
  a <- fetch ts v1 opCode dxOpCode ;;
  (* lo *)
  let r := set_u32v 0 (wrap 32 (Z.land (u64v (value a) 0) 0xffffffff)) (value result) in
  (* hi *)
  let r := set_u32v 1 (wrap 32 (Z.shiftr (u64v (value a) 0) 32)) r in
  ret (with_value r result).

(** The sum [Msad] adds to the accumulator: the absolute differences of the
    four bytes of [ref] and [src], leaving out the bytes where [ref] is 0. *)
Definition byte_at (x i : Z) : Z := Z.land (Z.shiftr x (8 * i)) 0xff.

Definition masked_abs_diff (ref src i : Z) : Z :=
  if byte_at ref i =? 0 then 0 else Z.abs (byte_at ref i - byte_at src i).

Definition masked_sad (ref src : Z) : Z :=
  masked_abs_diff ref src 0 + masked_abs_diff ref src 1
  + masked_abs_diff ref src 2 + masked_abs_diff ref src 3.

(** What the loop of [Msad] adds from byte [i] on. *)
Fixpoint sad_from (n : nat) (i : Z) (ref src : Z) : Z :=
  match n with
  | O => 0
  | S n' => masked_abs_diff ref src i + sad_from n' (i + 1) ref src
  end.

(* ================================================================== *)
(** * More LLVM opcodes *)
(* ================================================================== *)

(** [comp<T>(var, c)] with an index computed at run time, as an r-value and
    as an l-value: every view of the union is an array of sixteen lanes, and
    an index past the last one is out of bounds. *)
Definition comp_at (w c : Z) (v : ShaderValue) : Outcome Z :=
  if (0 <=? c) && (c <? 16) then ret (comp w c v)
  else Undefined "lane index out of bounds".

Definition set_comp_at (w c x : Z) (v : ShaderValue) : Outcome ShaderValue :=
  if (0 <=? c) && (c <? 16) then ret (set_comp w c x v)
  else Undefined "lane index out of bounds".

(** The comparison an opcode of the integer family writes to the result
    lane, as the source spells it on the unsigned lanes [ua], [ub] and the
    signed lanes [sa], [sb]; [None] for an opcode that is not handled
    there. *)
Definition icmp_value (opCode : Operation.t) (ua ub sa sb : Z) : option Z :=
  match opCode with
  | Operation.IEqual => Some (if ua =? ub then 1 else 0)
  | Operation.INotEqual => Some (if negb (ua =? ub) then 1 else 0)
  | Operation.UGreater => Some (if ua >? ub then 1 else 0)
  | Operation.UGreaterEqual => Some (if ua >=? ub then 1 else 0)
  | Operation.ULess => Some (if ua <? ub then 1 else 0)
  | Operation.ULessEqual => Some (if ua <=? ub then 1 else 0)
  | Operation.SGreater => Some (if sa >? sb then 1 else 0)
  | Operation.SGreaterEqual => Some (if sa >=? sb then 1 else 0)
  | Operation.SLess => Some (if sa <? sb then 1 else 0)
  | Operation.SLessEqual => Some (if sa <=? sb then 1 else 0)
  | _ => None
  end.

(** The body of the integer comparison case once both operands are fetched:
    the chain of tests on [opCode], each with the dispatch on the type of
    [a]; the result is written to the lane of that type. *)
Definition exec_icmp (opCode : Operation.t) (a b result : ShaderVariable)
  : Outcome ShaderVariable :=
  match int_lane_bits (type a) with
  | Some w =>
      let ua := comp w 0 (value a) in
      let ub := comp w 0 (value b) in
      match icmp_value opCode ua ub (signed w ua) (signed w ub) with
      | Some r => ret (with_value (set_comp w 0 r (value result)) result)
      | None => RDCERR "Unhandled opCode" ;;; ret result
      end
  | None =>
      match icmp_value opCode 0 0 0 0 with
      | Some _ => ret result
      | None => RDCERR "Unhandled opCode" ;;; ret result
      end
  end.

(** [case Operation::IEqual: ... case Operation::SLessEqual:]. *)
Definition case_icmp (ts : ThreadState) (inst : Instruction) (opCode : Operation.t)
    (result : ShaderVariable) : Outcome ShaderVariable :=
  let dxOpCode := DXOp.NumOpCodes in
  v0 <- arg_at inst 0 ;;
  assert_scalar v0 ScalarKind.Int ;;;
  v1 <- arg_at inst 1 ;;
  assert_scalar v1 ScalarKind.Int ;;;
  a <- fetch ts v0 opCode dxOpCode ;;
  b <- fetch ts v1 opCode dxOpCode ;;
  RDCASSERT (VarType.eqb (type a) (type b)) "a.type == b.type" ;;;
  exec_icmp opCode a b result.

(** [type->scalarType]; a type that is not a scalar holds [Void]. *)
Definition type_scalarType (type : DXILType) : ScalarKind.t :=
  match type with
  | TyScalar k _ => k
  | _ => ScalarKind.Void
  end.

Definition ScalarKind_eqb (a b : ScalarKind.t) : bool :=
  match a, b with
  | ScalarKind.Void, ScalarKind.Void | ScalarKind.Float, ScalarKind.Float
  | ScalarKind.Int, ScalarKind.Int => true
  | _, _ => false
  end.

(** [type->bitWidth]; the field of a type that is not a scalar is not
    covered. *)
Definition type_bitWidth (type : DXILType) : Outcome Z :=
  match type with
  | TyScalar _ bitWidth => ret bitWidth
  | _ => Unmodelled "bitWidth of a type that is not a scalar"
  end.

(** [RDCASSERTEQUAL(t->type, Scalar); RDCASSERTEQUAL(t->scalarType, k)] on a
    type. *)
Definition assert_scalar_type (t : DXILType) (k : ScalarKind.t) : Outcome unit :=
  RDCASSERT (match t with TyScalar _ _ => true | _ => false end)
            "type->type == Type::TypeKind::Scalar" ;;;
  RDCASSERT (ScalarKind_eqb (type_scalarType t) k) "type->scalarType".




(** The width of the type the operands of a shift on [w]-bit lanes are
    promoted to: [int] for the lanes narrower than [int]. *)
Definition promoted_bits (w : Z) : Z := Z.max w 32.

(** [x << n] on unsigned lanes of [w] bits.  A shift by the width of the
    promoted type or more is undefined.  An operand narrower than [int] is
    shifted as an [int]; whether a result of 2^31 or more is defined depends
    on the revision of the language, so that case is not covered. *)
Definition cxx_shl_unsigned (w x n : Z) : Outcome Z :=
  if promoted_bits w <=? n then Undefined "shift count too large"
  else if (w <? 32) && (2 ^ 31 <=? x * 2 ^ n) then
    Unmodelled "left shift of a promoted operand out of the range of int"
  else ret (Z.shiftl x n).

(** [x >> n] on unsigned lanes of [w] bits. *)
Definition cxx_shr_unsigned (w x n : Z) : Outcome Z :=
  if promoted_bits w <=? n then Undefined "shift count too large"
  else ret (Z.shiftr x n).

(** [x >> n] on signed lanes of [w] bits: a negative operand is shifted
    arithmetically. *)
Definition cxx_shr_signed (w x n : Z) : Outcome Z :=
  if (n <? 0) || (promoted_bits w <=? n) then Undefined "shift count out of range"
  else ret (Z.shiftr x n).

(** [x << n] with [x] an [int64_t] and [n] a [uint64_t].  Whether the shift
    of a negative number, or one whose result does not fit, is defined
    depends on the revision of the language: those cases are not covered. *)
Definition cxx_shl_s64 (x n : Z) : Outcome Z :=
  if 64 <=? n then Undefined "shift count too large"
  else if (x <? 0) || (2 ^ 63 <=? x * 2 ^ n) then
    Unmodelled "left shift of a signed operand out of the range of int64_t"
  else ret (Z.shiftl x n).

(** The body of the case [And], [Or], [Xor], [ShiftLeft],
    [LogicalShiftRight], [ArithShiftRight] once both operands are fetched:
    the dispatch is on the type of the result. *)
Definition exec_bitwise (opCode : Operation.t) (a b result : ShaderVariable)
  : Outcome ShaderVariable :=
  let on_lanes (f : Z -> Z -> Z -> Outcome Z) (result : ShaderVariable) :=
    match int_lane_bits (type result) with
    | Some w =>
        x <- f w (comp w 0 (value a)) (comp w 0 (value b)) ;;
        ret (with_value (set_comp w 0 x (value result)) result)
    | None => ret result
    end in
  match opCode with
  | Operation.And => on_lanes (fun _ x y => ret (Z.land x y)) result
  | Operation.Or => on_lanes (fun _ x y => ret (Z.lor x y)) result
  | Operation.Xor => on_lanes (fun _ x y => ret (Z.lxor x y)) result
  | Operation.ShiftLeft => on_lanes cxx_shl_unsigned result
  | Operation.LogicalShiftRight => on_lanes cxx_shr_unsigned result
  | Operation.ArithShiftRight =>
      s <- cxx_shl_s64 (s64v (value a) 0) (u64v (value b) 0) ;;
      let result := with_value (set_s64v 0 s (value result)) result in
      on_lanes (fun w x y => cxx_shr_signed w (signed w x) (signed w y)) result
  | _ => RDCERR "Unhandled opCode" ;;; ret result
  end.

(** [case Operation::And: ... case Operation::ArithShiftRight:]. *)
Definition case_bitwise (ts : ThreadState) (inst : Instruction) (opCode : Operation.t)
    (result : ShaderVariable) : Outcome ShaderVariable :=
  let dxOpCode := DXOp.NumOpCodes in
  let retType := itype inst in
  (* Both args and the result must be Integer and the same bitwidth *)
  v0 <- arg_at inst 0 ;;
  assert_scalar v0 ScalarKind.Int ;;;
  v1 <- arg_at inst 1 ;;
  assert_scalar v1 ScalarKind.Int ;;;
  w0 <- type_bitWidth (value_type v0) ;;
  w1 <- type_bitWidth (value_type v1) ;;
  RDCASSERT (w0 =? w1) "inst.args[0]->type->bitWidth == inst.args[1]->type->bitWidth" ;;;
  assert_scalar_type retType ScalarKind.Int ;;;
  wr <- type_bitWidth retType ;;
  RDCASSERT (wr =? w0) "retType->bitWidth == inst.args[0]->type->bitWidth" ;;;
  a <- fetch ts v0 opCode dxOpCode ;;
  b <- fetch ts v1 opCode dxOpCode ;;
  exec_bitwise opCode a b result.

(** [case Operation::Select:]. *)
Definition case_Select (ts : ThreadState) (inst : Instruction) (result : ShaderVariable)
  : Outcome ShaderVariable :=
  let opCode := Operation.Select in
  let dxOpCode := DXOp.NumOpCodes in
  (* arg[2] ? arg[0] : arg[1] *)
  v2 <- arg_at inst 2 ;;
  selector <- fetch ts v2 opCode dxOpCode ;;
  let resultIdx := if u32v (value selector) 0 =? 1 then 0 else 1 in
  v <- arg_at inst resultIdx ;;
  arg <- fetch ts v opCode dxOpCode ;;
  ret (with_value (value arg) result).

(** [type->inner->scalarType]; [inner] is null for a kind without an inner
    type. *)
Definition inner_scalarType (type : DXILType) : Outcome ScalarKind.t :=
  match type_inner type with
  | Some inner => ret (type_scalarType inner)
  | None => Undefined "type->inner is null"
  end.

Definition is_vector (type : DXILType) : bool :=
  match type with TyVector _ _ => true | _ => false end.

Definition is_scalar (type : DXILType) : bool :=
  match type with TyScalar _ _ => true | _ => false end.

(** [case Operation::ExtractElement:]. *)
Definition case_ExtractElement (ts : ThreadState) (inst : Instruction)
    (result : ShaderVariable) : Outcome ShaderVariable :=
  let opCode := Operation.ExtractElement in
  let dxOpCode := DXOp.NumOpCodes in
  let retType := itype inst in
  v0 <- arg_at inst 0 ;;
  RDCASSERT (is_vector (value_type v0)) "inst.args[0]->type->type == Vector" ;;;
  RDCASSERT (is_scalar retType) "retType->type == Scalar" ;;;
  k0 <- inner_scalarType (value_type v0) ;;
  RDCASSERT (ScalarKind_eqb (type_scalarType retType) k0)
            "retType->scalarType == inst.args[0]->type->inner->scalarType" ;;;
  a <- fetch ts v0 opCode dxOpCode ;;
  v1 <- arg_at inst 1 ;;
  b <- fetch ts v1 opCode dxOpCode ;;
  let idx := u32v (value b) 0 in
  result <- match int_lane_bits (type a) with
            | Some w =>
                x <- comp_at w idx (value a) ;;
                ret (with_value (set_comp w 0 x (value result)) result)
            | None => ret result
            end ;;
  match float_lane_format (type a) with
  | Some fmt =>
      x <- comp_at (fwidth fmt) idx (value a) ;;
      ret (with_value (set_comp (fwidth fmt) 0 x (value result)) result)
  | None => ret result
  end.

(** [case Operation::InsertElement:].  [result = a] copies the whole
    variable, its name included; the integer branch is chosen by the type of
    the vector and the floating point branch by the type of the scalar. *)
Definition case_InsertElement (ts : ThreadState) (inst : Instruction)
    (result : ShaderVariable) : Outcome ShaderVariable :=
  let opCode := Operation.InsertElement in
  let dxOpCode := DXOp.NumOpCodes in
  let retType := itype inst in
  v0 <- arg_at inst 0 ;;
  RDCASSERT (is_vector (value_type v0)) "inst.args[0]->type->type == Vector" ;;;
  RDCASSERT (is_vector retType) "retType->type == Vector" ;;;
  kr <- inner_scalarType retType ;;
  k0 <- inner_scalarType (value_type v0) ;;
  RDCASSERT (ScalarKind_eqb kr k0)
            "retType->inner->scalarType == inst.args[0]->type->inner->scalarType" ;;;
  v1 <- arg_at inst 1 ;;
  RDCASSERT (is_scalar (value_type v1)) "inst.args[1]->type->type == Scalar" ;;;
  RDCASSERT (ScalarKind_eqb (type_scalarType (value_type v1)) k0)
            "inst.args[1]->type->scalarType == inst.args[0]->type->inner->scalarType" ;;;
  a <- fetch ts v0 opCode dxOpCode ;;
  b <- fetch ts v1 opCode dxOpCode ;;
  v2 <- arg_at inst 2 ;;
  c <- fetch ts v2 opCode dxOpCode ;;
  let idx := u32v (value c) 0 in
  let result := a in
  result <- match int_lane_bits (type a) with
            | Some w =>
                r <- set_comp_at w idx (comp w 0 (value b)) (value result) ;;
                ret (with_value r result)
            | None => ret result
            end ;;
  match float_lane_format (type b) with
  | Some fmt =>
      r <- set_comp_at (fwidth fmt) idx (comp (fwidth fmt) 0 (value b)) (value result) ;;
      ret (with_value r result)
  | None => ret result
  end.

(* ================================================================== *)
(** * Divergence of the workgroup *)
(* ================================================================== *)

(** [ThreadState::WorkgroupIsDiverged]: the loop over the lanes with the
    first unfinished lane's block and instruction in [block0], [instr0]. *)
Fixpoint WorkgroupIsDiverged_loop (workgroup : list ThreadState) (block0 instr0 : Z)
  : bool :=
  match workgroup with
  | [] => false
  | lane :: rest =>
      if Finished lane then WorkgroupIsDiverged_loop rest block0 instr0
      else if block0 =? NO_INDEX then
        WorkgroupIsDiverged_loop rest (m_Block lane) (m_ActiveGlobalInstructionIdx lane)
      (* not in the same basic block *)
      else if negb (m_Block lane =? block0) then true
      (* not executing the same instruction *)
      else if negb (m_ActiveGlobalInstructionIdx lane =? instr0) then true
      else WorkgroupIsDiverged_loop rest block0 instr0
  end.

Definition WorkgroupIsDiverged (workgroup : list ThreadState) : bool :=
  WorkgroupIsDiverged_loop workgroup NO_INDEX NO_INDEX.

(** The execution point a lane is at. *)
Definition execution_point (lane : ThreadState) : Z * Z :=
  (m_Block lane, m_ActiveGlobalInstructionIdx lane).

(** A lane that has not finished is at the execution point [p]. *)
Definition unfinished_at (p : Z * Z) (lane : ThreadState) : Prop :=
  Finished lane = false -> execution_point lane = p.

(* ================================================================== *)
(** * Stepping over instructions that do nothing *)
(* ================================================================== *)

Definition set_m_ActiveGlobalInstructionIdx (x : Z) (ts : ThreadState) : ThreadState :=
  {| m_Variables := m_Variables ts;
     m_PhiVariables := m_PhiVariables ts;
     m_Assigned := m_Assigned ts;
     m_Live := m_Live ts;
     m_Memory := m_Memory ts;
     m_Block := m_Block ts;
     m_PreviousBlock := m_PreviousBlock ts;
     m_FunctionInstructionIdx := m_FunctionInstructionIdx ts;
     m_ActiveGlobalInstructionIdx := x;
     m_State := m_State ts;
     m_Dead := m_Dead ts;
     m_Ended := m_Ended ts;
     m_Callstack := m_Callstack ts;
     m_Diverged := m_Diverged ts;
     m_ConvergencePoint := m_ConvergencePoint ts;
     m_EnteredPoints := m_EnteredPoints ts;
     m_QuadNeighbours := m_QuadNeighbours ts;
     m_QuadLaneIndex := m_QuadLaneIndex ts;
     m_ShaderType := m_ShaderType ts;
     m_OutputId := m_OutputId ts |}.

(** The [do ... while(true)] loop of [ThreadState::StepOverNopInstructions];
    [fuel] bounds the number of passes. *)
Fixpoint StepOverNopInstructions_loop (fuel : nat) (fi : FunctionInfo) (ts : ThreadState)
  : Outcome ThreadState :=
  match fuel with
  | O => Unmodelled "StepOverNopInstructions: out of fuel"
  | S fuel' =>
      RDCASSERT (m_FunctionInstructionIdx ts
                   <? Z.of_nat (length (instructions (function fi))))
                "m_FunctionInstructionIdx < m_FunctionInfo->function->instructions.size()" ;;;
      match at_index (instructions (function fi)) (m_FunctionInstructionIdx ts) with
      | None => Undefined "instructions index out of bounds"
      | Some inst =>
          if negb (IsNopInstruction inst) then
            ret (set_m_ActiveGlobalInstructionIdx
                   (wrap 32 (globalInstructionOffset fi + m_FunctionInstructionIdx ts)) ts)
          else
            StepOverNopInstructions_loop fuel' fi
              (set_m_FunctionInstructionIdx (wrap 32 (m_FunctionInstructionIdx ts + 1)) ts)
      end
  end.

(** [ThreadState::StepOverNopInstructions], with the bound on the passes of
    its loop. *)
Definition ThreadState_StepOverNopInstructions (fuel : nat) (fi : FunctionInfo)
    (ts : ThreadState) : Outcome ThreadState :=
  if m_Ended ts then ret ts else StepOverNopInstructions_loop fuel fi ts.

(* ================================================================== *)
(** * [ThreadState::StepNext] *)
(* ================================================================== *)

(** "Remove variables which have gone out of scope".  Whether a live
    variable is past its range is asked of [ControlFlow], which is not among
    the sources at hand.  The loop passes over the ids that are not live and
    over the output; a lane with another live id is not modelled. *)
Definition has_scoped_variables (ts : ThreadState) : bool :=
  existsb (fun id => default false (m_Live ts !! id) && negb (Z.of_nat id =? m_OutputId ts))
          (seq 0 (length (m_Live ts))).

(** [ThreadState::StepNext]: the lane and the state pointed to afterwards. *)
Definition ThreadState_StepNext (fi : FunctionInfo) (state : option ShaderDebugState)
    (workgroup : list ThreadState) (ts : ThreadState)
  : Outcome (ThreadState * option ShaderDebugState) :=
  let ts := set_m_ConvergencePoint INVALID_EXECUTION_POINT
              (set_m_EnteredPoints [] (set_m_Diverged false (set_m_State state ts))) in
  RDCASSERT (m_ActiveGlobalInstructionIdx ts
               =? wrap 32 (globalInstructionOffset fi + m_FunctionInstructionIdx ts))
            "m_ActiveGlobalInstructionIdx == globalInstructionOffset + m_FunctionInstructionIdx" ;;;
  ts <- match m_State ts with
        | Some st =>
            if has_scoped_variables ts then Unmodelled "variables going out of scope"
            else ret (set_m_State
                        (Some {| changes := []; flags := ShaderEvents.NoEvent;
                                 nextInstruction := nextInstruction st;
                                 stepIndex := stepIndex st |}) ts)
        | None => ret ts
        end ;;
  r <- ExecuteInstruction fi workgroup ts ;;
  ret (set_m_State None (snd r), m_State (snd r)).

(* ================================================================== *)
(** * More small programs, lanes and buffers *)
(* ================================================================== *)

Definition f64 : DXILType := TyScalar ScalarKind.Float 64.
Definition v4i32 : DXILType := TyVector 4 i32.

(** A [double] constant given by its bits. *)
Definition const_f64 (bits : Z) : Value := VConstant f64 103 (CLiteral bits).

(** An idle lane without variables. *)
Definition idle_lane : ThreadState := lane_at 0 [] None.

(** [R8G8B8A8_UINT], [R8G8B8A8_UNORM] and [R10G10B10A2_UINT] elements. *)
Definition uint8_fmt : ViewFmt :=
  {| byteWidth := 1; numComps := 4; compType := CompType.UInt; stride := 4 |}.
Definition unorm8_fmt : ViewFmt :=
  {| byteWidth := 1; numComps := 4; compType := CompType.UNorm; stride := 4 |}.
Definition packed_fmt : ViewFmt :=
  {| byteWidth := 10; numComps := 4; compType := CompType.UInt; stride := 4 |}.

(** A buffer of six bytes: one element of four bytes and two bytes more. *)
Definition six_bytes : list Z := [0x12; 0x34; 0x56; 0x78; 0x9a; 0xbc].

(** [%2 = UDiv(7, 2)], [%2 = UMul(0xffffffff, 0xffffffff)],
    [%2 = UAddc(0xffffffff, 1)], [%2 = USubb(0, 1)],
    [%2 = Msad(0x00ff00ff, 0x01020304, 0xffffff00)],
    [%2 = Ubfe(8, 28, 0xf0000000)], [%2 = MakeDouble(1, 2)],
    [%2 = SplitDouble(0x0000000200000001)] and [%2 = UMin(-1, 3)]. *)
Definition udiv_7_2 : Instruction :=
  dx_call DXOp.UDiv i32 [const_i32 7; const_i32 2] 2 "_2".
Definition umul_example : Instruction :=
  dx_call DXOp.UMul i32 [const_i32 0xffffffff; const_i32 0xffffffff] 2 "_2".
Definition uaddc_example : Instruction :=
  dx_call DXOp.UAddc i32 [const_i32 0xffffffff; const_i32 1] 2 "_2".
Definition usubb_example : Instruction :=
  dx_call DXOp.USubb i32 [const_i32 0; const_i32 1] 2 "_2".
Definition msad_example : Instruction :=
  dx_call DXOp.Msad i32 [const_i32 0x00ff00ff; const_i32 0x01020304; const_i32 0xffffff00]
          2 "_2".
Definition ubfe_example : Instruction :=
  dx_call DXOp.Ubfe i32 [const_i32 8; const_i32 28; const_i32 0xf0000000] 2 "_2".
Definition makedouble_example : Instruction :=
  dx_call DXOp.MakeDouble f64 [const_i32 1; const_i32 2] 2 "_2".
Definition splitdouble_example : Instruction :=
  dx_call DXOp.SplitDouble i32 [const_f64 0x0000000200000001] 2 "_2".
Definition umin_example : Instruction :=
  dx_call DXOp.UMin i32 [const_i32 0xffffffff; const_i32 3] 2 "_2".

(** [%2 = icmp slt i32 -1, 3], [%2 = sext i32 -1 to i64] and
    [%2 = select i1 %1, i32 10, i32 20] with [%1] all ones. *)
Definition icmp_slt_example : Instruction :=
  llvm_inst Operation.SLess i1 [const_i32 0xffffffff; const_i32 3] 2 "_2".
Definition select_example : Instruction :=
  llvm_inst Operation.Select i32 [const_i32 10; const_i32 20; const_i32 0xffffffff] 2 "_2".

(** A vector [<4 x i32>] holding 1, 2, 3, 4 in [%1], and
    [%2 = insertelement <4 x i32> %1, i32 9, i32 2] and
    [%3 = extractelement <4 x i32> %2, i32 2] on it. *)
Definition vector_var (nm : string) (bits : Z) : ShaderVariable :=
  {| name := nm; type := VarType.SInt; rows := 1; columns := 4; value := bits;
     members := [] |}.
Definition vector_1234 : Z := 0x00000004000000030000000200000001.
Definition vector_1294 : Z := 0x00000004000000090000000200000001.
Definition vector_lane : ThreadState :=
  lane_at 0 [(1, vector_var "_1" vector_1234); (2, vector_var "_1" vector_1294)] None.
Definition insert_example : Instruction :=
  llvm_inst Operation.InsertElement v4i32 [VInstruction v4i32 1; const_i32 9; const_i32 2]
            2 "_2".
Definition extract_example : Instruction :=
  llvm_inst Operation.ExtractElement i32 [VInstruction v4i32 2; const_i32 2] 3 "_3".

(** A lane at instruction [idx] of block [block] that has ended or not. *)
Definition lane_in (block idx : Z) (ended : bool) : ThreadState :=
  set_m_Ended ended (set_m_Block block (lane_at idx [] None)).

(** A workgroup whose lanes 0 and 2 are at the same point of block 1 and
    whose lanes 1 and 3 have ended elsewhere. *)
Definition converged_workgroup : list ThreadState :=
  [ lane_in 1 5 false; lane_in 0 2 true; lane_in 1 5 false; lane_in 2 7 true ].

(** [br i1 %c, label %b1, label %b2] in a function of two blocks, so that the
    second label names no block, and a function of three instructions of
    which the first two do nothing. *)
Definition branch_example (c : Z) : Instruction :=
  llvm_inst Operation.Branch void [VBlock 1; VBlock 2; const_i32 c] INVALID_ID "".
Definition two_blocks : FunctionInfo :=
  {| function := {| instructions := [branch_example 1; branch_example 0];
                    blocks := [ {| bid := 0; startInstructionIdx := 0 |};
                                {| bid := 1; startInstructionIdx := 1 |} ] |};
     globalInstructionOffset := 0;
     referencedIds := ∅;
     phiReferencedIdsPerBlock := ∅;
     divergentBlocks := [0];
     convergentBlocks := [(0, 1)] |}.
Definition nop_inst : Instruction := llvm_inst Operation.NoOp void [] INVALID_ID "".
Definition nops_then_udiv : FunctionInfo :=
  {| function := {| instructions := [nop_inst; nop_inst; udiv_7_2];
                    blocks := [ {| bid := 0; startInstructionIdx := 0 |} ] |};
     globalInstructionOffset := 10;
     referencedIds := {[ 2 ]};
     phiReferencedIdsPerBlock := ∅;
     divergentBlocks := [];
     convergentBlocks := [] |}.

(** ** Subnormal operands *)

(** [%2 = fmul float 0x00400000, 0x7F000000], the product of the subnormal
    2^-127, a literal, and of 2^127; and the same product with the subnormal
    in [%1]. *)
Definition fmul_literal_example : Instruction :=
  llvm_inst Operation.FMul f32 [const_f32 0x00400000; const_f32 0x7F000000] 2 "_2".
Definition fmul_ssa_example : Instruction :=
  llvm_inst Operation.FMul f32 [VInstruction f32 1; const_f32 0x7F000000] 2 "_2".
Definition subnormal_operand : ShaderVariable := scalar_var "_1" VarType.Float 0x00400000.

(** ** A loop, its lanes and their tangles *)

(** The function [b0: br label %b0]. *)
Definition loop_function : FunctionInfo :=
  one_block [llvm_inst Operation.Branch void [VBlock 0] INVALID_ID ""].

(** A lane at the branch, with no variable live. *)
Definition looping_lane : ThreadState := set_m_Live (replicate 8 false) (lane_at 0 [] None).

(** Lanes that have entered the function [fi] and are stepped by
    [ThreadState_StepNext] and [ThreadState_StepOverNopInstructions]; where
    these give no result the lane is left as it is. *)
Definition modelled_lanes (fi : FunctionInfo) : LaneAPI :=
  {| StepNext := fun state workgroup _ thread =>
       default (thread, state) (result_of (ThreadState_StepNext fi state workgroup thread));
     StepOverNopInstructions := fun thread =>
       default thread
         (result_of (ThreadState_StepOverNopInstructions
                       (length (instructions (function fi))) fi thread));
     EnterEntryPoint := fun state thread => (thread, state) |}.

(** Tangles that keep their threads and their activity, as long as no lane
    leaves the loop: a tangle is active or waits. *)
Record FrozenTangle : Type := { ft_active : bool; ft_refs : list Z }.

Definition frozen_flow : ControlFlowAPI (list FrozenTangle) FrozenTangle :=
  {| GetTangles := fun cf => cf;
     SetTangles := fun cf _ => cf;
     UpdateState := fun cf _ => cf;
     IsAliveActive := ft_active;
     GetThreadRefs := ft_refs;
     SetThreadDead := fun t _ => t;
     AddMergePoint := fun t _ => t;
     SetDiverged := fun t _ => t |}.

(** Three lanes in the loop after the entry: the observed lane 0 and lane 1
    run in one tangle, lane 2 waits in another. *)
Definition lockstep_debugger : Debugger (list FrozenTangle) :=
  {| m_Steps := 1; m_Workgroup := [looping_lane; looping_lane; looping_lane];
     m_ActiveLaneIndex := 0;
     m_ControlFlow := [ {| ft_active := true; ft_refs := [0; 1] |};
                        {| ft_active := false; ft_refs := [2] |} ];
     m_Globals := []; m_Constants := [] |}.



(* ================================================================== *)
(** * Lemmas on the value union *)
(* ================================================================== *)

Section LaneLemmas.

Lemma testbit_ones_nonneg (w n : Z) :
    0 <= w -> 0 <= n -> Z.testbit (Z.ones w) n = (n <? w).
Proof.
    intros Hw Hn. destruct (Z.ltb_spec n w).
    - apply Z.ones_spec_low. lia.
    - apply Z.ones_spec_high. lia.
Qed.

  (** Reading the lane that was just written gives the value written,
      truncated to the lane. *)
Lemma comp_set_comp_same (w c x v : Z) :
    0 <= w -> 0 <= c -> comp w c (set_comp w c x v) = Z.land x (Z.ones w).
Proof.
    intros Hw Hc. unfold comp, set_comp.
    apply Z.bits_inj'. intros n Hn.
    rewrite !Z.land_spec, Z.shiftr_spec, Z.lor_spec, Z.ldiff_spec by lia.
    rewrite !Z.shiftl_spec by nia.
    replace (n + w * c - w * c) with n by lia.
    rewrite Z.land_spec, testbit_ones_nonneg by lia.
    destruct (Z.ltb_spec n w); [ | rewrite !andb_false_r; reflexivity ].
    rewrite !andb_true_r, andb_false_r. reflexivity.
Qed.

  (** Writing a lane leaves the other lanes of the same view alone. *)
Lemma comp_set_comp_other (w c c' x v : Z) :
    0 <= w -> 0 <= c -> 0 <= c' -> c <> c' ->
    comp w c' (set_comp w c x v) = comp w c' v.
Proof.
    intros Hw Hc Hc' Hne. unfold comp, set_comp.
    apply Z.bits_inj'. intros n Hn.
    rewrite !Z.land_spec, !Z.shiftr_spec, Z.lor_spec, Z.ldiff_spec by lia.
    rewrite testbit_ones_nonneg by lia.
    destruct (Z.ltb_spec n w); [ | rewrite !andb_false_r; reflexivity ].
    rewrite !andb_true_r.
    destruct (Z.lt_ge_cases (n + w * c') (w * c)) as [Hlt | Hge].
    - rewrite !(Z.shiftl_spec_low _ _ _ Hlt). rewrite andb_true_r, orb_false_r. reflexivity.
    - rewrite !Z.shiftl_spec by nia.
      assert (Hhigh : w <= n + w * c' - w * c) by nia.
      rewrite Z.land_spec, (Z.ones_spec_high w) by lia.
      rewrite andb_false_r, orb_false_r, andb_true_r. reflexivity.
Qed.

Lemma land_ones_small (w x : Z) : 0 <= w -> 0 <= x < 2 ^ w -> Z.land x (Z.ones w) = x.
Proof.
    intros Hw Hx. rewrite Z.land_ones by lia. apply Z.mod_small. lia.
Qed.

Lemma comp_range (w c v : Z) : 0 <= w -> 0 <= comp w c v < 2 ^ w.
Proof.
    intros Hw. unfold comp. rewrite Z.land_ones by lia.
    apply Z.mod_pos_bound. apply Z.pow_pos_nonneg; lia.
Qed.

End LaneLemmas.

(* ================================================================== *)
(** * Signed-normalised decoding *)
(* ================================================================== *)

Section TypedLoad.

Lemma take_one_drop (d : list Z) (n : nat) :
    (n < length d)%nat -> take 1 (drop n d) = [nth n d 0].
Proof.
    revert d. induction n as [ | n IH ]; intros [ | b d ] Hlen; simpl in *; try lia.
    - reflexivity.
    - apply IH. lia.
Qed.

Lemma take_two_drop (d : list Z) (n : nat) :
    (S n < length d)%nat -> take 2 (drop n d) = [nth n d 0; nth (S n) d 0].
Proof.
    revert d. induction n as [ | n IH ]; intros [ | b d ] Hlen; simpl in *; try lia.
    - destruct d; simpl in *; [ lia | reflexivity ].
    - apply IH. lia.
Qed.

  (** Reading element [c] of a byte buffer. *)
Lemma read_elem_1 (d : list Z) (c : Z) :
    0 <= c < Z.of_nat (length d) ->
    read_elem d 1 c = Done (nth (Z.to_nat c) d 0) [].
Proof.
    intros Hc. unfold read_elem, read_bytes.
    replace ((0 <=? 1 * c) && (0 <=? 1) && (1 * c + 1 <=? Z.of_nat (length d)))
      with true by (symmetry; rewrite !andb_true_iff; repeat split; lia).
    replace (1 * c) with c by lia. simpl.
    change (Z.to_nat 1) with 1%nat.
    rewrite take_one_drop by lia. simpl.
    rewrite Z.lor_0_r. reflexivity.
Qed.

  (** Reading element [c] of a buffer of 16 bit elements. *)
Lemma read_elem_2 (d : list Z) (c : Z) :
    0 <= c -> 2 * c + 1 < Z.of_nat (length d) ->
    read_elem d 2 c =
      Done (Z.lor (nth (Z.to_nat (2 * c)) d 0)
                  (Z.shiftl (nth (S (Z.to_nat (2 * c))) d 0) 8)) [].
Proof.
    intros Hc Hlen. unfold read_elem, read_bytes.
    replace ((0 <=? 2 * c) && (0 <=? 2) && (2 * c + 2 <=? Z.of_nat (length d)))
      with true by (symmetry; rewrite !andb_true_iff; repeat split; lia).
    simpl. change (Z.to_nat 2) with 2%nat.
    rewrite take_two_drop by lia. simpl.
    rewrite Z.lor_0_r. reflexivity.
Qed.

  (** A loop whose body writes lane [c] with [g c] fills the lanes it runs
      over and leaves the others alone. *)
Lemma for_comps_lanes (g : Z -> Z) (body : Z -> ShaderValue -> Outcome ShaderValue) :
    forall (n : nat) (c0 : Z) (r : ShaderValue),
      0 <= c0 ->
      (forall c r0, c0 <= c < c0 + Z.of_nat n ->
                    body c r0 = Done (set_comp 32 c (g c) r0) []) ->
      exists r',
        for_comps n c0 body r = Done r' [] /\
        (forall k, c0 <= k < c0 + Z.of_nat n -> comp 32 k r' = Z.land (g k) (Z.ones 32)) /\
        (forall k, 0 <= k -> ~ (c0 <= k < c0 + Z.of_nat n) -> comp 32 k r' = comp 32 k r).
Proof.
    induction n as [ | n IH ]; intros c0 r Hc0 Hbody.
    - exists r. simpl. split; [ reflexivity | split ].
      + intros k Hk. lia.
      + reflexivity.
    - simpl for_comps. rewrite Hbody by lia.
      destruct (IH (c0 + 1) (set_comp 32 c0 (g c0) r)) as (r' & Hrun & Hin & Hout).
      + lia.
      + intros c r0 Hc. apply Hbody. lia.
      + exists r'. unfold bind. rewrite Hrun. simpl. split; [ reflexivity | split ].
        * intros k Hk. destruct (Z.eq_dec k c0) as [-> | Hne].
          -- rewrite Hout by lia. apply comp_set_comp_same; lia.
          -- apply Hin. lia.
        * intros k Hk0 Hk. rewrite Hout by lia.
          apply comp_set_comp_other; lia.
Qed.

Lemma decode_elem_snorm8 (d : list Z) (c : Z) :
    decode_elem 1 CompType.SNorm d c =
      Some (u <- read_elem d 1 c ;;
            if signed 8 u =? -128 then ret F32_MINUS_ONE else ret (int_over (signed 8 u) 127)).
Proof. reflexivity. Qed.

Lemma decode_elem_snorm16 (d : list Z) (c : Z) :
    decode_elem 2 CompType.SNorm d c =
      Some (u <- read_elem d 2 c ;;
            if signed 16 u =? -32768 then ret F32_MINUS_ONE
            else ret (int_over (signed 16 u) 32767)).
Proof. reflexivity. Qed.

Lemma in_all_bytes (b : Z) : 0 <= b < 256 -> In b all_bytes.
Proof.
    intros Hb. unfold all_bytes. apply in_map_iff. exists (Z.to_nat b).
    split; [ lia | apply in_seq; lia ].
Qed.

  (** Every decoded 8 bit code fits the 32 bit lane. *)
Lemma snorm8_fits (b : Z) :
    0 <= b < 256 -> Z.land (int_over (signed 8 b) 127) (Z.ones 32) = int_over (signed 8 b) 127.
Proof.
    intros Hb.
    assert (Hall : forallb (fun b => Z.land (int_over (signed 8 b) 127) (Z.ones 32)
                                     =? int_over (signed 8 b) 127) all_bytes = true)
      by (vm_compute; reflexivity).
    rewrite forallb_forall in Hall. apply Z.eqb_eq. apply Hall. apply in_all_bytes. exact Hb.
Qed.

End TypedLoad.

(** C7.  Decoding a signed-normalised resource value.  For a one byte SNorm
    format the code -128 decodes to exactly -1.0f, the code 127 to exactly
    1.0f, and every code other than -128 to the float quotient of the code
    and 127.0f; for a two byte SNorm format the code -32768 decodes to
    exactly -1.0f and the code 32767 to exactly 1.0f.  This holds for every
    component the format has. *)
Theorem snorm_decode_boundaries (fmt : ViewFmt) (d : list Z) (uninit : ShaderValue) (c : Z) :
  compType fmt = CompType.SNorm ->
  0 <= c < numComps fmt ->
  numComps fmt <= 4 ->
  (byteWidth fmt = 1 ->
   numComps fmt <= Z.of_nat (length d) ->
   0 <= nth (Z.to_nat c) d 0 < 256 ->
   exists r,
     TypedUAVLoad fmt d uninit = Done r [] /\
     let code := signed 8 (nth (Z.to_nat c) d 0) in
     (code = -128 -> comp 32 c r = 0xbf800000) /\
     (code = 127 -> comp 32 c r = 0x3f800000) /\
     (code <> -128 -> comp 32 c r = int_over code 127)) /\
  (byteWidth fmt = 2 ->
   2 * numComps fmt <= Z.of_nat (length d) ->
   exists r,
     TypedUAVLoad fmt d uninit = Done r [] /\
     let lo := nth (Z.to_nat (2 * c)) d 0 in
     let hi := nth (S (Z.to_nat (2 * c))) d 0 in
     (lo = 0x00 -> hi = 0x80 -> comp 32 c r = 0xbf800000) /\
     (lo = 0xff -> hi = 0x7f -> comp 32 c r = 0x3f800000)).
Proof.
  intros Hct Hc Hn4. split.
  - intros Hbw Hlen Hbyte.
    set (g := fun k => let i := signed 8 (nth (Z.to_nat k) d 0) in
                       if i =? -128 then F32_MINUS_ONE else int_over i 127).
    set (r0 := set_comp 32 3 F32_ZERO (set_comp 32 2 F32_ZERO
                 (set_comp 32 1 F32_ZERO (set_comp 32 0 F32_ZERO uninit)))).
    destruct (for_comps_lanes g
                (fun c r => match decode_elem (byteWidth fmt) (compType fmt) d c with
                            | Some m => x <- m ;; store_lane c x r
                            | None => ret r
                            end)
                (Z.to_nat (numComps fmt)) 0 r0) as (r' & Hrun & Hin & _).
    + lia.
    + intros k rk Hk. rewrite Hbw, Hct, decode_elem_snorm8.
      rewrite read_elem_1 by lia. unfold g, store_lane. cbv beta zeta.
      replace ((0 <=? k) && (k <? 16)) with true
        by (symmetry; rewrite andb_true_iff; split; lia).
      unfold bind, ret.
      destruct (signed 8 (nth (Z.to_nat k) d 0) =? -128); reflexivity.
    + assert (Hlane : comp 32 c r' = g c).
      { rewrite Hin by lia. unfold g. simpl.
        destruct (signed 8 (nth (Z.to_nat c) d 0) =? -128) eqn:E.
        - reflexivity.
        - apply snorm8_fits. exact Hbyte. }
      unfold TypedUAVLoad. fold r0. rewrite Hbw, Hct. cbn [Z.eqb Pos.eqb orb].
      rewrite decode_elem_snorm8. cbv iota.
      rewrite Hbw, Hct in Hrun. rewrite Hrun. cbv [bind ret app].
      destruct (numComps fmt <? 4) eqn:E4.
      * exists (set_comp 32 3 F32_ONE r'). split; [ reflexivity | ].
        assert (Hc3 : c <> 3) by lia.
        rewrite comp_set_comp_other by lia. rewrite Hlane. unfold g. simpl.
        repeat split.
        -- intros ->. reflexivity.
        -- intros ->. vm_compute. reflexivity.
        -- intros Hne. destruct (Z.eqb_spec (signed 8 (nth (Z.to_nat c) d 0)) (-128)); [ contradiction | reflexivity ].
      * exists r'. split; [ reflexivity | ].
        rewrite Hlane. unfold g. simpl.
        repeat split.
        -- intros ->. reflexivity.
        -- intros ->. vm_compute. reflexivity.
        -- intros Hne. destruct (Z.eqb_spec (signed 8 (nth (Z.to_nat c) d 0)) (-128)); [ contradiction | reflexivity ].
  - intros Hbw Hlen.
    set (r0 := set_comp 32 3 F32_ZERO (set_comp 32 2 F32_ZERO
                 (set_comp 32 1 F32_ZERO (set_comp 32 0 F32_ZERO uninit)))).
    set (g := fun k => let i := signed 16 (Z.lor (nth (Z.to_nat (2 * k)) d 0)
                                     (Z.shiftl (nth (S (Z.to_nat (2 * k))) d 0) 8)) in
                       if i =? -32768 then F32_MINUS_ONE else int_over i 32767).
    destruct (for_comps_lanes g
                (fun c r => match decode_elem (byteWidth fmt) (compType fmt) d c with
                            | Some m => x <- m ;; store_lane c x r
                            | None => ret r
                            end)
                (Z.to_nat (numComps fmt)) 0 r0) as (r' & Hrun & Hin & _).
    + lia.
    + intros k rk Hk. rewrite Hbw, Hct, decode_elem_snorm16.
      rewrite read_elem_2 by lia. unfold g, store_lane. cbv beta zeta.
      replace ((0 <=? k) && (k <? 16)) with true
        by (symmetry; rewrite andb_true_iff; split; lia).
      unfold bind, ret.
      match goal with |- context [ signed 16 ?x =? -32768 ] =>
        destruct (signed 16 x =? -32768) end; reflexivity.
    + assert (Hlane : comp 32 c r' = Z.land (g c) (Z.ones 32)) by (apply Hin; lia).
      assert (Hcodes :
                let lo := nth (Z.to_nat (2 * c)) d 0 in
                let hi := nth (S (Z.to_nat (2 * c))) d 0 in
                (lo = 0x00 -> hi = 0x80 -> comp 32 c r' = 0xbf800000) /\
                (lo = 0xff -> hi = 0x7f -> comp 32 c r' = 0x3f800000)).
      { cbv zeta. rewrite Hlane. unfold g.
        split; intros Hlo Hhi; rewrite Hlo, Hhi; vm_compute; reflexivity. }
      unfold TypedUAVLoad. fold r0. rewrite Hbw, Hct. cbn [Z.eqb Pos.eqb orb].
      rewrite decode_elem_snorm16. cbv iota.
      rewrite Hbw, Hct in Hrun. rewrite Hrun. cbv [bind ret app].
      destruct (numComps fmt <? 4) eqn:E4.
      * exists (set_comp 32 3 F32_ONE r'). split; [ reflexivity | ].
        cbv zeta. rewrite comp_set_comp_other by lia. exact Hcodes.
      * exists r'. split; [ reflexivity | exact Hcodes ].
Qed.

(* ================================================================== *)
(** * Reasoning about outcomes *)
(* ================================================================== *)

Lemma finishes_Done {A : Type} (a : A) (l : list Report) : finishes (Done a l) a.
Proof. reflexivity. Qed.

Lemma finishes_ret {A : Type} (a : A) : finishes (ret a) a.
Proof. reflexivity. Qed.

Lemma finishes_inv {A : Type} (m : Outcome A) (a : A) :
  finishes m a -> exists l, m = Done a l.
Proof.
  destruct m as [a' l | | ]; unfold finishes; simpl; intros H; try discriminate.
  inversion H. subst. exists l. reflexivity.
Qed.

Section Outcomes.
Context {A B : Type}.

Lemma finishes_fun (m : Outcome A) (a a' : A) :
    finishes m a -> finishes m a' -> a = a'.
Proof. unfold finishes. congruence. Qed.

Lemma finishes_bind (m : Outcome A) (k : A -> Outcome B) (a : A) (b : B) :
    finishes m a -> finishes (k a) b -> finishes (bind m k) b.
Proof.
    intros Hm Hk. apply finishes_inv in Hm as [l ->]. apply finishes_inv in Hk as [l' Hk].
    unfold bind. rewrite Hk. reflexivity.
Qed.

Lemma finishes_bind_inv (m : Outcome A) (k : A -> Outcome B) (b : B) :
    finishes (bind m k) b -> exists a, finishes m a /\ finishes (k a) b.
Proof.
    destruct m as [a l | | ]; unfold finishes; simpl; try discriminate.
    intros H. exists a. split; [ reflexivity | ].
    destruct (k a); simpl in *; try discriminate. exact H.
Qed.

Lemma log_bind (m : Outcome A) (k : A -> Outcome B) (a : A) (b : B) :
    finishes m a -> finishes (k a) b -> log_of (bind m k) = log_of m ++ log_of (k a).
Proof.
    intros Hm Hk. apply finishes_inv in Hm as [l ->]. apply finishes_inv in Hk as [l' Hk].
    unfold bind. rewrite Hk. reflexivity.
Qed.

Lemma reports_bind_l (m : Outcome A) (k : A -> Outcome B) (a : A) (b : B) (r : Report) :
    finishes m a -> finishes (k a) b -> reports m r -> reports (bind m k) r.
Proof.
    intros Hm Hk Hr. unfold reports. rewrite (log_bind m k a b Hm Hk).
    apply in_or_app. left. exact Hr.
Qed.

Lemma reports_bind_r (m : Outcome A) (k : A -> Outcome B) (a : A) (b : B) (r : Report) :
    finishes m a -> finishes (k a) b -> reports (k a) r -> reports (bind m k) r.
Proof.
    intros Hm Hk Hr. unfold reports. rewrite (log_bind m k a b Hm Hk).
    apply in_or_app. right. exact Hr.
Qed.

Lemma not_finishes_Undefined (why : string) (a : A) : ~ finishes (Undefined why) a.
Proof. unfold finishes. simpl. discriminate. Qed.

End Outcomes.

Lemma finishes_RDCASSERT (c : bool) (what : string) : finishes (RDCASSERT c what) tt.
Proof. destruct c; reflexivity. Qed.

Lemma finishes_RDCERR (msg : string) : finishes (RDCERR msg) tt.
Proof. reflexivity. Qed.

Lemma reports_RDCASSERT_false (what : string) :
  reports (RDCASSERT false what) (AssertFailed what).
Proof. left. reflexivity. Qed.

Lemma reports_RDCERR (msg : string) : reports (RDCERR msg) (Error msg).
Proof. left. reflexivity. Qed.

Lemma finishes_assert_type (var : ShaderVariable) (t : VarType.t) (what : string) :
  finishes (assert_type var t what) tt.
Proof. apply finishes_RDCASSERT. Qed.

Lemma finishes_assert_scalar (v : Value) (k : ScalarKind.t) : finishes (assert_scalar v k) tt.
Proof.
  unfold assert_scalar. destruct (value_type v); try apply finishes_RDCASSERT;
    (eapply finishes_bind; [ apply finishes_RDCASSERT | apply finishes_RDCASSERT ]).
Qed.

(** Steps through a chain of binds whose heads are known to finish. *)
Ltac step_bind :=
  match goal with
  | |- finishes (bind (assert_type _ _ _) _) _ =>
      eapply finishes_bind; [ apply finishes_assert_type | cbv beta iota zeta ]
  | |- finishes (bind (assert_scalar _ _) _) _ =>
      eapply finishes_bind; [ apply finishes_assert_scalar | cbv beta iota zeta ]
  | |- finishes (bind (RDCASSERT _ _) _) _ =>
      eapply finishes_bind; [ apply finishes_RDCASSERT | cbv beta iota zeta ]
  | |- finishes (bind (RDCERR _) _) _ =>
      eapply finishes_bind; [ apply finishes_RDCERR | cbv beta iota zeta ]
  | |- finishes (bind (ret _) _) _ =>
      eapply finishes_bind; [ apply finishes_ret | cbv beta iota zeta ]
  | H : finishes ?m _ |- finishes (bind ?m _) _ =>
      eapply finishes_bind; [ exact H | cbv beta iota zeta ]
  end.

(* ================================================================== *)
(** * More lemmas on lanes *)
(* ================================================================== *)

Lemma set_comp_comp (w c v : Z) : 0 <= w -> 0 <= c -> set_comp w c (comp w c v) v = v.
Proof.
  intros Hw Hc. unfold comp, set_comp.
  apply Z.bits_inj'. intros n Hn.
  rewrite Z.lor_spec, Z.ldiff_spec.
  destruct (Z.lt_ge_cases n (w * c)) as [Hlt | Hge].
  - rewrite !(Z.shiftl_spec_low _ _ _ Hlt). rewrite andb_true_r, orb_false_r. reflexivity.
  - rewrite !Z.shiftl_spec by lia.
    rewrite !Z.land_spec, Z.shiftr_spec by lia.
    replace (n - w * c + w * c) with n by lia.
    rewrite testbit_ones_nonneg by lia.
    destruct (Z.testbit v n), (n - w * c <? w); reflexivity.
Qed.

Lemma set_comp_set_comp (w c x y v : Z) :
  0 <= w -> 0 <= c -> set_comp w c x (set_comp w c y v) = set_comp w c x v.
Proof.
  intros Hw Hc. unfold set_comp.
  apply Z.bits_inj'. intros n Hn.
  rewrite !Z.lor_spec, !Z.ldiff_spec, Z.lor_spec, Z.ldiff_spec.
  destruct (Z.lt_ge_cases n (w * c)) as [Hlt | Hge].
  - rewrite !(Z.shiftl_spec_low _ _ _ Hlt). rewrite !andb_true_r, !orb_false_r. reflexivity.
  - rewrite !Z.shiftl_spec by lia.
    rewrite !Z.land_spec.
    rewrite testbit_ones_nonneg by lia.
    destruct (Z.testbit v n), (n - w * c <? w), (Z.testbit x (n - w * c)),
      (Z.testbit y (n - w * c)); reflexivity.
Qed.

Lemma with_value_value (var : ShaderVariable) : with_value (value var) var = var.
Proof. destruct var; reflexivity. Qed.

(** Flushing a subnormal lane gives a zero. *)
Lemma exp_mask_zero (x : Z) :
  Z.land (Z.shiftr x 23) (Z.ones 8) = 0 -> Z.land x (Z.shiftl (Z.ones 8) 23) = 0.
Proof.
  intros He. apply Z.bits_inj'. intros n Hn.
  rewrite Z.land_spec, Z.bits_0.
  destruct (Z.lt_ge_cases n 23) as [Hlt | Hge].
  - rewrite (Z.shiftl_spec_low _ _ _ Hlt). apply andb_false_r.
  - rewrite Z.shiftl_spec by lia.
    assert (Hb : Z.testbit (Z.land (Z.shiftr x 23) (Z.ones 8)) (n - 23) = false)
      by (rewrite He; apply Z.bits_0).
    rewrite Z.land_spec, Z.shiftr_spec in Hb by lia.
    replace (n - 23 + 23) with n in Hb by lia. exact Hb.
Qed.

Lemma sign_mask_cases (x : Z) :
  Z.land x (Z.shiftl 1 31) = 0 \/ Z.land x (Z.shiftl 1 31) = Z.shiftl 1 31.
Proof.
  rewrite Z.shiftl_1_l.
  destruct (Z.testbit x 31) eqn:E.
  - right. apply Z.bits_inj'. intros n Hn. rewrite Z.land_spec, Z.pow2_bits_eqb by lia.
    destruct (Z.eqb_spec 31 n); [ subst; rewrite E; reflexivity | apply andb_false_r ].
  - left. apply Z.bits_inj'. intros n Hn. rewrite Z.land_spec, Z.pow2_bits_eqb, Z.bits_0 by lia.
    destruct (Z.eqb_spec 31 n); [ subst; rewrite E; reflexivity | apply andb_false_r ].
Qed.

Lemma flush_denorm_subnormal (x : Z) :
  is_subnormal binary32 x = true -> is_zero binary32 (flush_denorm x) = true.
Proof.
  intros Hsub. unfold is_subnormal in Hsub. apply andb_true_iff in Hsub as [He _].
  apply Z.eqb_eq in He.
  change (exp_field binary32 x) with (Z.land (Z.shiftr x 23) (Z.ones 8)) in He.
  apply exp_mask_zero in He.
  unfold flush_denorm.
  change 0x7F800000 with (Z.shiftl (Z.ones 8) 23).
  rewrite He. change (0 =? 0) with true. cbv iota.
  change 0x80000000 with (Z.shiftl 1 31).
  destruct (sign_mask_cases x) as [-> | ->]; vm_compute; reflexivity.
Qed.

(* ================================================================== *)
(** * The result commit *)
(* ================================================================== *)

(** The value [SetResult] leaves in [result]: the first component of a
    [Float] is flushed when the operation flushes, nothing else changes. *)
Lemma AssignValue_self (result : ShaderVariable) (flushDenorm : bool) :
  finishes (AssignValue result result flushDenorm)
           (value_events (type result) (value result),
            if flushDenorm && VarType.eqb (type result) VarType.Float
            then with_value (flush_f32v0 (value result)) result
            else result).
Proof.
  unfold AssignValue. step_bind.
  unfold set_u32v, u32v. rewrite set_comp_comp by lia. rewrite with_value_value.
  destruct flushDenorm; simpl andb.
  - destruct (type result) eqn:E; simpl VarType.eqb; cbv iota;
      apply finishes_ret.
  - apply finishes_ret.
Qed.


Lemma SetResult_spec (ts : ThreadState) (id : Id) (result : ShaderVariable)
    (opCode : Operation.t) (dxOpCode : DXOp.t) (eventFlags : ShaderEvents)
    (st : ShaderDebugState) :
  m_State ts = Some st ->
  let res := committed_value true opCode dxOpCode result in
  finishes (SetResult ts id result opCode dxOpCode eventFlags)
    (set_m_State
       (Some (push_change {| before := map_at (m_Variables ts) id; after := res |}
                (or_flags (Z.lor eventFlags (value_events (type result) (value result)))
                          st))) ts, res).
Proof.
  intros Hst res. unfold SetResult. do 3 step_bind.
  eapply finishes_bind; [ apply AssignValue_self | ].
  cbv beta. unfold fst, snd. rewrite Hst. subst res. unfold committed_value.
  cbn [andb]. rewrite <- andb_assoc, andb_diag. apply finishes_ret.
Qed.

(** The tail of [ExecuteInstruction] for a named result whose id is inside
    the live and assigned arrays. *)
Lemma commit_result_spec (fi : FunctionInfo) (d : Dispatched) (opCode : Operation.t)
    (dxOpCode : DXOp.t) :
  name (d_result d) <> "" ->
  d_resultId d <> INVALID_ID ->
  in_range (m_Live (d_ts d)) (d_resultId d) = true ->
  in_range (m_Assigned (d_ts d)) (d_resultId d) = true ->
  finishes (commit_result fi d opCode dxOpCode)
           (committed_lane (d_ts d) (d_resultId d) (d_result d) opCode dxOpCode
                           (d_eventFlags d)).
Proof.
  intros Hname Hid Hlive Hassigned. unfold commit_result. cbv zeta.
  apply Z.eqb_neq in Hid. rewrite Hid.
  rewrite (bool_decide_eq_false_2 _ Hname). cbn [negb andb].
  step_bind.
  unfold committed_lane. cbv zeta.
  destruct (m_State (d_ts d)) as [st | ] eqn:Hst.
  - eapply finishes_bind; [ apply (SetResult_spec _ _ _ _ _ _ st Hst) | ].
    cbv beta. unfold fst, snd. do 2 step_bind.
    change (m_Live (set_m_State _ (d_ts d))) with (m_Live (d_ts d)).
    rewrite Hlive. cbn [negb]. step_bind.
    match goal with |- context [ in_range ?l _ ] =>
      change l with (m_Assigned (d_ts d)) end.
    rewrite Hassigned. cbn [negb].
    replace (bool_decide (is_Some (Some st))) with true
      by (symmetry; apply bool_decide_eq_true_2; eauto).
    apply finishes_ret.
  - step_bind. unfold fst, snd. do 2 step_bind.
    rewrite Hlive. cbn [negb]. step_bind.
    match goal with |- context [ in_range ?l _ ] =>
      change l with (m_Assigned (d_ts d)) end.
    rewrite Hassigned. cbn [negb].
    replace (bool_decide (is_Some (@None ShaderDebugState))) with false
      by (symmetry; apply bool_decide_eq_false_2; intros [? ?]; discriminate).
    apply finishes_ret.
Qed.

(* ================================================================== *)
(** * Running one instruction *)
(* ================================================================== *)

Lemma arg_at_Some (inst : Instruction) (i : Z) (v : Value) :
  at_index (args inst) i = Some v -> arg_at inst i = ret v.
Proof. intros Hv. unfold arg_at. rewrite Hv. reflexivity. Qed.

(** An instruction whose case leaves the switch with [break] finishes with
    the commit of what the case left. *)
Lemma ExecuteInstruction_break (fi : FunctionInfo) (workgroup : list ThreadState)
    (ts ts' : ThreadState) (inst : Instruction) (ty : VarType.t) (d : Dispatched) :
  at_index (instructions (function fi)) (m_FunctionInstructionIdx ts) = Some inst ->
  finishes (ConvertDXILTypeToVarType (itype inst)) ty ->
  finishes (dispatch fi workgroup
              (set_m_FunctionInstructionIdx (wrap 32 (m_FunctionInstructionIdx ts + 1)) ts)
              inst
              {| name := resultName inst; type := ty; rows := 1; columns := 1;
                 value := zero_value; members := [] |}
              (islot inst)) (Break d) ->
  finishes (commit_result fi d (op inst) (dxOpCode_of inst)) ts' ->
  finishes (ExecuteInstruction fi workgroup ts) (true, ts').
Proof.
  intros Hinst Hty Hdispatch Hcommit. unfold ExecuteInstruction. rewrite Hinst. cbv zeta.
  step_bind. step_bind. step_bind. step_bind. apply finishes_ret.
Qed.

Lemma signed_range (w x : Z) :
  0 < w -> 0 <= x < 2 ^ w -> - 2 ^ (w - 1) <= signed w x < 2 ^ (w - 1).
Proof.
  intros Hw Hx. unfold signed.
  assert (Hp : 2 ^ w = 2 * 2 ^ (w - 1)).
  { replace w with (Z.succ (w - 1)) at 1 by lia. apply Z.pow_succ_r. lia. }
  destruct (Z.ltb_spec x (2 ^ (w - 1))); lia.
Qed.

(** Writing a signed value that fits the lane and reading it back. *)
Lemma signed_land_ones (w x : Z) :
  0 < w -> - 2 ^ (w - 1) <= x < 2 ^ (w - 1) -> signed w (Z.land x (Z.ones w)) = x.
Proof.
  intros Hw Hx.
  assert (Hp : 2 ^ w = 2 * 2 ^ (w - 1)).
  { replace w with (Z.succ (w - 1)) at 1 by lia. apply Z.pow_succ_r. lia. }
  assert (Hpos : 0 < 2 ^ (w - 1)) by (apply Z.pow_pos_nonneg; lia).
  rewrite Z.land_ones by lia. unfold signed.
  destruct (Z.le_gt_cases 0 x) as [Hnn | Hneg].
  - rewrite Z.mod_small by lia.
    destruct (Z.ltb_spec x (2 ^ (w - 1))); lia.
  - replace (x mod 2 ^ w) with (x + 2 ^ w).
    + destruct (Z.ltb_spec (x + 2 ^ w) (2 ^ (w - 1))); lia.
    + symmetry. rewrite <- (Z.mod_add x 1 (2 ^ w)) by lia.
      rewrite Z.mul_1_l. apply Z.mod_small. lia.
Qed.

Lemma s32v_range (v : ShaderValue) (c : Z) : - 2 ^ 31 <= s32v v c < 2 ^ 31.
Proof.
  unfold s32v. apply (signed_range 32); [ lia | ]. apply comp_range. lia.
Qed.

Lemma s32v_set_s32v (x : Z) (v : ShaderValue) :
  - 2 ^ 31 <= x < 2 ^ 31 -> s32v (set_s32v 0 x v) 0 = x.
Proof.
  intros Hx. unfold s32v, set_s32v. rewrite comp_set_comp_same by lia.
  apply (signed_land_ones 32); lia.
Qed.

Lemma u32v_set_u32v (c x : Z) (v : ShaderValue) :
  0 <= c -> 0 <= x < 2 ^ 32 -> u32v (set_u32v c x v) c = x.
Proof.
  intros Hc Hx. unfold u32v, set_u32v. rewrite comp_set_comp_same by lia.
  apply land_ones_small; lia.
Qed.

Lemma u32v_set_u32v_other (c c' x : Z) (v : ShaderValue) :
  0 <= c -> 0 <= c' -> c <> c' -> u32v (set_u32v c x v) c' = u32v v c'.
Proof.
  intros Hc Hc' Hne. unfold u32v, set_u32v. apply comp_set_comp_other; lia.
Qed.

(** The variable found under the committed id. *)
Lemma committed_lane_lookup (ts : ThreadState) (id : Id) (result : ShaderVariable)
    (opCode : Operation.t) (dxOpCode : DXOp.t) (eventFlags : ShaderEvents) :
  m_Variables (committed_lane ts id result opCode dxOpCode eventFlags) !! id =
    Some (committed_value (bool_decide (is_Some (m_State ts))) opCode dxOpCode result).
Proof.
  unfold committed_lane. cbv zeta. cbn [m_Variables set_m_Assigned set_m_Variables].
  apply lookup_insert_eq.
Qed.

(** The state of the observed lane after the commit. *)
Lemma committed_lane_state (ts : ThreadState) (id : Id) (result : ShaderVariable)
    (opCode : Operation.t) (dxOpCode : DXOp.t) (eventFlags : ShaderEvents)
    (st : ShaderDebugState) :
  m_State ts = Some st ->
  m_State (committed_lane ts id result opCode dxOpCode eventFlags) =
    Some (push_change
            {| before := map_at (m_Variables ts) id;
               after := committed_value true opCode dxOpCode result |}
            (or_flags (Z.lor eventFlags (value_events (type result) (value result))) st)).
Proof.
  intros Hst. unfold committed_lane. cbv zeta. rewrite Hst.
  replace (bool_decide (is_Some (Some st))) with true
    by (symmetry; apply bool_decide_eq_true_2; eauto).
  reflexivity.
Qed.


(* ================================================================== *)
(** * Signed and unsigned minimum and maximum *)
(* ================================================================== *)

Section MinMax.
Variables (ts : ThreadState) (inst : Instruction) (v1 v2 : Value) (a b : ShaderVariable).
Hypothesis Harg1 : at_index (args inst) 1 = Some v1.
Hypothesis Harg2 : at_index (args inst) 2 = Some v2.

  (** The body shared by [UMin] and [UMax] does not touch the result of any
      other opcode. *)
Lemma case_UMin_UMax_other (dxOpCode : DXOp.t) (result : ShaderVariable) :
    finishes (fetch ts v1 Operation.Call dxOpCode) a ->
    finishes (fetch ts v2 Operation.Call dxOpCode) b ->
    dxOpCode = DXOp.IMin \/ dxOpCode = DXOp.IMax ->
    finishes (case_UMin_UMax ts inst dxOpCode result) result.
Proof.
    intros Ha Hb Hdx. unfold case_UMin_UMax. cbv zeta.
    rewrite (arg_at_Some _ _ _ Harg1), (arg_at_Some _ _ _ Harg2).
    repeat step_bind.
    destruct Hdx as [-> | ->]; apply finishes_ret.
Qed.

Lemma case_IMin_spec (result : ShaderVariable) :
    finishes (fetch ts v1 Operation.Call DXOp.IMin) a ->
    finishes (fetch ts v2 Operation.Call DXOp.IMin) b ->
    finishes (case_IMin_IMax ts inst DXOp.IMin result)
             (with_value (set_s32v 0 (Z.min (s32v (value a) 0) (s32v (value b) 0))
                                   (value result)) result).
Proof.
    intros Ha Hb. unfold case_IMin_IMax. cbv zeta.
    rewrite (arg_at_Some _ _ _ Harg1), (arg_at_Some _ _ _ Harg2).
    repeat step_bind.
    apply case_UMin_UMax_other; auto.
Qed.

Lemma case_IMax_spec (result : ShaderVariable) :
    finishes (fetch ts v1 Operation.Call DXOp.IMax) a ->
    finishes (fetch ts v2 Operation.Call DXOp.IMax) b ->
    finishes (case_IMin_IMax ts inst DXOp.IMax result)
             (with_value (set_s32v 0 (Z.max (s32v (value a) 0) (s32v (value b) 0))
                                   (value result)) result).
Proof.
    intros Ha Hb. unfold case_IMin_IMax. cbv zeta.
    rewrite (arg_at_Some _ _ _ Harg1), (arg_at_Some _ _ _ Harg2).
    repeat step_bind.
    apply case_UMin_UMax_other; auto.
Qed.

End MinMax.

(** C9.  The case of the DXOps [IMin] and [IMax] has no [break] and runs on
    into the body of [UMin]/[UMax]; the unsigned assignments there are
    guarded by tests of the opcode, so that for every pair of signed 32 bit
    operands the committed result of [IMin] is their signed minimum and the
    committed result of [IMax] their signed maximum. *)
Theorem IMin_IMax_commit_signed (fi : FunctionInfo) (workgroup : list ThreadState)
    (ts : ThreadState) (inst : Instruction) (dxOpCode : DXOp.t) (v1 v2 : Value)
    (a b : ShaderVariable) :
  at_index (instructions (function fi)) (m_FunctionInstructionIdx ts) = Some inst ->
  op inst = Operation.Call ->
  callFamily inst = FunctionFamily.DXOp ->
  callDXOp inst = dxOpCode ->
  dxOpCode = DXOp.IMin \/ dxOpCode = DXOp.IMax ->
  itype inst = TyScalar ScalarKind.Int 32 ->
  at_index (args inst) 1 = Some v1 ->
  at_index (args inst) 2 = Some v2 ->
  finishes (fetch ts v1 Operation.Call dxOpCode) a ->
  finishes (fetch ts v2 Operation.Call dxOpCode) b ->
  resultName inst <> "" ->
  islot inst <> INVALID_ID ->
  in_range (m_Live ts) (islot inst) = true ->
  in_range (m_Assigned ts) (islot inst) = true ->
  exists ts' res,
    finishes (ExecuteInstruction fi workgroup ts) (true, ts') /\
    m_Variables ts' !! islot inst = Some res /\
    s32v (value res) 0 = signed_min_max dxOpCode (s32v (value a) 0) (s32v (value b) 0).
Proof.
  intros Hinst Hop Hfam Hdx Hcases Hty Harg1 Harg2 Ha Hb Hname Hslot Hlive Hassigned.
  set (ts1 := set_m_FunctionInstructionIdx (wrap 32 (m_FunctionInstructionIdx ts + 1)) ts).
  set (result := {| name := resultName inst; type := VarType.SInt; rows := 1; columns := 1;
                    value := zero_value; members := [] |}).
  set (x := signed_min_max dxOpCode (s32v (value a) 0) (s32v (value b) 0)).
  set (r := with_value (set_s32v 0 x (value result)) result).
  set (d := {| d_ts := ts1; d_result := r; d_resultId := islot inst;
               d_eventFlags := ShaderEvents.NoEvent |}).
  assert (Hcase : finishes (case_IMin_IMax ts1 inst dxOpCode result) r).
  { unfold r, x.
    destruct Hcases as [E | E]; rewrite E in Ha, Hb |- *; cbn [signed_min_max].
    - apply (case_IMin_spec ts1 inst v1 v2 a b Harg1 Harg2 result Ha Hb).
    - apply (case_IMax_spec ts1 inst v1 v2 a b Harg1 Harg2 result Ha Hb). }
  assert (Hdispatch : finishes (dispatch fi workgroup ts1 inst result (islot inst)) (Break d)).
  { unfold dispatch. cbv zeta. rewrite Hop, Hfam. cbv iota. step_bind.
    rewrite Hdx. destruct Hcases as [E | E]; rewrite E in Hcase |- *; unfold exec_DXOp;
      (eapply finishes_bind; [ exact Hcase | apply finishes_ret ]). }
  exists (committed_lane ts1 (islot inst) r (op inst) (dxOpCode_of inst) ShaderEvents.NoEvent),
         (committed_value (bool_decide (is_Some (m_State ts1))) (op inst) (dxOpCode_of inst) r).
  split; [ | split ].
  - apply (ExecuteInstruction_break fi workgroup ts _ inst VarType.SInt d Hinst).
    + rewrite Hty. apply finishes_ret.
    + exact Hdispatch.
    + apply (commit_result_spec fi d); assumption.
  - apply committed_lane_lookup.
  - unfold committed_value, dxOpCode_of. rewrite Hop, Hfam, Hdx.
    replace (OperationFlushing Operation.Call dxOpCode) with false
      by (destruct Hcases as [-> | ->]; reflexivity).
    rewrite andb_false_l, andb_false_r. unfold r. cbn [value with_value].
    apply s32v_set_s32v. unfold x, signed_min_max.
    pose proof (s32v_range (value a) 0). pose proof (s32v_range (value b) 0).
    destruct Hcases as [-> | ->]; lia.
Qed.

(* ================================================================== *)
(** * Unsigned division by zero *)
(* ================================================================== *)

Lemma has_event_lor (a b e : ShaderEvents) :
  has_event (Z.lor a b) e = has_event a e || has_event b e.
Proof.
  unfold has_event. rewrite Z.land_lor_distr_l.
  destruct (Z.eqb_spec (Z.land a e) 0) as [Ha | Ha],
           (Z.eqb_spec (Z.land b e) 0) as [Hb | Hb],
           (Z.eqb_spec (Z.lor (Z.land a e) (Z.land b e)) 0) as [Hab | Hab];
    try reflexivity; exfalso.
  - apply Hab. apply Z.lor_eq_0_iff. split; assumption.
  - apply Z.lor_eq_0_iff in Hab as [_ Hab]. contradiction.
  - apply Z.lor_eq_0_iff in Hab as [Hab _]. contradiction.
  - apply Z.lor_eq_0_iff in Hab as [Hab _]. contradiction.
Qed.

(** The conversion of a type never fails. *)
Lemma ConvertDXILTypeToVarType_total (type : DXILType) :
  exists t, finishes (ConvertDXILTypeToVarType type) t.
Proof.
  induction type as [ | k w | n inner IH | inner IH | n inner IH | | tmembers | | ];
    simpl; try (eexists; reflexivity); try exact IH.
  - destruct k; [ eexists; reflexivity | | ].
    + destruct (w =? 64); [ eexists; reflexivity | ].
      destruct (w =? 32); [ eexists; reflexivity | ].
      destruct (w =? 16); eexists; reflexivity.
    + destruct (w =? 64); [ eexists; reflexivity | ].
      destruct (w =? 32); [ eexists; reflexivity | ].
      destruct (w =? 16); [ eexists; reflexivity | ].
      destruct (w =? 8); [ eexists; reflexivity | ].
      destruct (w =? 1); eexists; reflexivity.
Qed.

(** The body of the case for a zero divisor. *)
Lemma case_UDiv_by_zero (ts : ThreadState) (inst : Instruction) (v1 v2 : Value)
    (a b result : ShaderVariable) (eventFlags : ShaderEvents) :
  at_index (args inst) 1 = Some v1 ->
  at_index (args inst) 2 = Some v2 ->
  finishes (fetch ts v1 Operation.Call DXOp.UDiv) a ->
  finishes (fetch ts v2 Operation.Call DXOp.UDiv) b ->
  u32v (value b) 0 = 0 ->
  finishes (case_IMul_UMul_UDiv ts inst DXOp.UDiv result eventFlags)
           (with_value (set_u32v 1 0xffffffff (set_u32v 0 0xffffffff (value result))) result,
            Z.lor eventFlags ShaderEvents.GeneratedNanOrInf).
Proof.
  intros Harg1 Harg2 Ha Hb Hzero. unfold case_IMul_UMul_UDiv. cbv zeta.
  rewrite (arg_at_Some _ _ _ Harg1), (arg_at_Some _ _ _ Harg2).
  repeat step_bind. rewrite Hzero. apply finishes_ret.
Qed.

(** C3.  The DXOp [UDiv] with a zero divisor: for every dividend the first
    component of the committed result (the quotient) and the second (the
    remainder) are both 0xFFFFFFFF, and on the observed lane the step's
    [ShaderDebugState] has the event [GeneratedNanOrInf]. *)
Theorem DXOp_UDiv_by_zero (fi : FunctionInfo) (workgroup : list ThreadState)
    (ts : ThreadState) (inst : Instruction) (v1 v2 : Value) (a b : ShaderVariable) :
  at_index (instructions (function fi)) (m_FunctionInstructionIdx ts) = Some inst ->
  op inst = Operation.Call ->
  callFamily inst = FunctionFamily.DXOp ->
  callDXOp inst = DXOp.UDiv ->
  at_index (args inst) 1 = Some v1 ->
  at_index (args inst) 2 = Some v2 ->
  finishes (fetch ts v1 Operation.Call DXOp.UDiv) a ->
  finishes (fetch ts v2 Operation.Call DXOp.UDiv) b ->
  u32v (value b) 0 = 0 ->
  resultName inst <> "" ->
  islot inst <> INVALID_ID ->
  in_range (m_Live ts) (islot inst) = true ->
  in_range (m_Assigned ts) (islot inst) = true ->
  exists ts' res,
    finishes (ExecuteInstruction fi workgroup ts) (true, ts') /\
    m_Variables ts' !! islot inst = Some res /\
    u32v (value res) 0 = 0xffffffff /\
    u32v (value res) 1 = 0xffffffff /\
    (forall st, m_State ts = Some st ->
                exists st', m_State ts' = Some st' /\
                            has_event (flags st') ShaderEvents.GeneratedNanOrInf = true).
Proof.
  intros Hinst Hop Hfam Hdx Harg1 Harg2 Ha Hb Hzero Hname Hslot Hlive Hassigned.
  destruct (ConvertDXILTypeToVarType_total (itype inst)) as [ty Hty].
  set (ts1 := set_m_FunctionInstructionIdx (wrap 32 (m_FunctionInstructionIdx ts + 1)) ts).
  set (result := {| name := resultName inst; type := ty; rows := 1; columns := 1;
                    value := zero_value; members := [] |}).
  set (r := with_value (set_u32v 1 0xffffffff (set_u32v 0 0xffffffff (value result))) result).
  set (ev := Z.lor ShaderEvents.NoEvent ShaderEvents.GeneratedNanOrInf).
  set (d := {| d_ts := ts1; d_result := r; d_resultId := islot inst; d_eventFlags := ev |}).
  assert (Hdispatch : finishes (dispatch fi workgroup ts1 inst result (islot inst)) (Break d)).
  { unfold dispatch. cbv zeta. rewrite Hop, Hfam. cbv iota. step_bind.
    rewrite Hdx. unfold exec_DXOp.
    eapply finishes_bind.
    - apply (case_UDiv_by_zero ts1 inst v1 v2 a b result ShaderEvents.NoEvent
               Harg1 Harg2 Ha Hb Hzero).
    - apply finishes_ret. }
  assert (Hres : committed_value (bool_decide (is_Some (m_State ts1))) (op inst)
                                 (dxOpCode_of inst) r = r).
  { unfold committed_value, dxOpCode_of. rewrite Hop, Hfam, Hdx.
    change (OperationFlushing Operation.Call DXOp.UDiv) with false.
    rewrite andb_false_l, andb_false_r. reflexivity. }
  exists (committed_lane ts1 (islot inst) r (op inst) (dxOpCode_of inst) ev), r.
  split; [ | split; [ | split; [ | split ] ] ].
  - apply (ExecuteInstruction_break fi workgroup ts _ inst ty d Hinst Hty Hdispatch).
    apply (commit_result_spec fi d); assumption.
  - rewrite committed_lane_lookup, Hres. reflexivity.
  - unfold r. cbn [value with_value].
    rewrite u32v_set_u32v_other by lia. apply u32v_set_u32v; lia.
  - unfold r. cbn [value with_value]. apply u32v_set_u32v; lia.
  - intros st Hst. eexists. split.
    + apply committed_lane_state. exact Hst.
    + cbn [flags push_change or_flags]. unfold ev.
      rewrite !has_event_lor.
      replace (has_event ShaderEvents.GeneratedNanOrInf ShaderEvents.GeneratedNanOrInf)
        with true by reflexivity.
      destruct (has_event (flags st) _), (has_event ShaderEvents.NoEvent _),
        (has_event (value_events _ _) _); reflexivity.
Qed.

(* ================================================================== *)
(** * Denormal flushing *)
(* ================================================================== *)

Lemma flush_denorm_range (x : Z) : 0 <= x < 2 ^ 32 -> 0 <= flush_denorm x < 2 ^ 32.
Proof.
  intros Hx. unfold flush_denorm. destruct (Z.land x 0x7F800000 =? 0); [ | exact Hx ].
  split.
  - apply Z.land_nonneg. left. lia.
  - assert (H : Z.land x 0x80000000 <= 0x80000000).
    { destruct (sign_mask_cases x) as [E | E];
        change (Z.shiftl 1 31) with 0x80000000 in E; rewrite E; lia. }
    lia.
Qed.

Lemma comp_flush_f32v0 (v : ShaderValue) :
  comp 32 0 (flush_f32v0 v) = flush_denorm (comp 32 0 v).
Proof.
  unfold flush_f32v0. rewrite comp_set_comp_same by lia.
  apply land_ones_small; [ lia | ]. apply flush_denorm_range. apply comp_range. lia.
Qed.

(** A flushed subnormal is a zero. *)
Lemma flush_f32v0_subnormal (v : ShaderValue) :
  is_subnormal binary32 (comp 32 0 v) = true ->
  is_zero binary32 (comp 32 0 (flush_f32v0 v)) = true.
Proof. intros Hsub. rewrite comp_flush_f32v0. apply flush_denorm_subnormal. exact Hsub. Qed.

(** [GetVariableHelper] flushes a [Float] for a flushing operation and
    returns every [Half] and [Double] as it is. *)
Lemma GetVariableHelper_spec (opCode : Operation.t) (dxOpCode : DXOp.t) (var : ShaderVariable) :
  finishes (GetVariableHelper opCode dxOpCode var)
           (true,
            if OperationFlushing opCode dxOpCode
               && negb (VarType.eqb (type var) VarType.Double)
               && negb (VarType.eqb (type var) VarType.Half)
            then with_value (flush_f32v0 (value var)) var else var).
Proof.
  unfold GetVariableHelper. cbv zeta. step_bind.
  destruct (OperationFlushing opCode dxOpCode), (type var); apply finishes_ret.
Qed.

Lemma IsVariableAssigned_total (ts : ThreadState) (id : Id) :
  exists b, finishes (IsVariableAssigned ts id) b.
Proof.
  unfold IsVariableAssigned. destruct (at_index (m_Assigned ts) id) as [b | ].
  - exists b. apply finishes_ret.
  - exists false. step_bind. apply finishes_ret.
Qed.

(** What [GetShaderVariable] gives for an SSA value. *)
Lemma GetShaderVariable_instruction (ts : ThreadState) (t : DXILType) (id : Id)
    (opCode : Operation.t) (dxOpCode : DXOp.t) (var0 var : ShaderVariable)
    (flushDenormInput : bool) :
  m_Variables ts !! id = Some var ->
  finishes (GetShaderVariable ts (VInstruction t id) opCode dxOpCode var0 flushDenormInput)
           (true,
            if OperationFlushing opCode dxOpCode
               && negb (VarType.eqb (type var) VarType.Double)
               && negb (VarType.eqb (type var) VarType.Half)
            then with_value (flush_f32v0 (value var)) var else var).
Proof.
  intros Hvar. unfold GetShaderVariable, GetShaderVariableHelper.
  destruct (ConvertDXILTypeToVarType_total t) as [ty Hty].
  change (value_type (VInstruction t id)) with t.
  step_bind. step_bind.
  unfold GetLiveVariable.
  eapply finishes_bind.
  { destruct (at_index (m_Live ts) id); [ apply finishes_RDCASSERT | apply finishes_RDCERR ]. }
  cbv beta.
  destruct (IsVariableAssigned_total ts id) as [assigned Hassigned].
  step_bind. step_bind. rewrite Hvar. apply GetVariableHelper_spec.
Qed.

(** The operand a case body receives for an SSA value. *)
Lemma fetch_instruction (ts : ThreadState) (t : DXILType) (id : Id) (opCode : Operation.t)
    (dxOpCode : DXOp.t) (var : ShaderVariable) :
  m_Variables ts !! id = Some var ->
  finishes (fetch ts (VInstruction t id) opCode dxOpCode)
           (if OperationFlushing opCode dxOpCode
               && negb (VarType.eqb (type var) VarType.Double)
               && negb (VarType.eqb (type var) VarType.Half)
            then with_value (flush_f32v0 (value var)) var else var).
Proof.
  intros Hvar. unfold fetch.
  eapply finishes_bind; [ apply GetShaderVariable_instruction; exact Hvar | ].
  cbv beta. unfold fst, snd. step_bind. apply finishes_ret.
Qed.

(** Where the code flushes and where it does not.  For every operation that
    the table [OperationFlushing] flags:
    - a subnormal [Float] operand that is an SSA value reaches the case body
      as a zero, so that the result is computed on the flushed operand;
    - on the observed lane the first component of a committed [Float] result
      that is subnormal is flushed to zero;
    - a lane that is not observed commits the result as computed.
    For every operation, flagged or not, a [Half] or [Double] operand is read
    unchanged and a [Half] or [Double] result is committed unchanged. *)
Lemma denormal_flush_law :
  (forall ts t id opCode dxOpCode var,
     OperationFlushing opCode dxOpCode = true ->
     m_Variables ts !! id = Some var ->
     type var = VarType.Float ->
     is_subnormal binary32 (comp 32 0 (value var)) = true ->
     exists a,
       finishes (fetch ts (VInstruction t id) opCode dxOpCode) a /\
       is_zero binary32 (comp 32 0 (value a)) = true) /\
  (forall fi d opCode dxOpCode st,
     OperationFlushing opCode dxOpCode = true ->
     m_State (d_ts d) = Some st ->
     type (d_result d) = VarType.Float ->
     is_subnormal binary32 (comp 32 0 (value (d_result d))) = true ->
     name (d_result d) <> "" ->
     d_resultId d <> INVALID_ID ->
     in_range (m_Live (d_ts d)) (d_resultId d) = true ->
     in_range (m_Assigned (d_ts d)) (d_resultId d) = true ->
     exists ts' res,
       finishes (commit_result fi d opCode dxOpCode) ts' /\
       m_Variables ts' !! d_resultId d = Some res /\
       is_zero binary32 (comp 32 0 (value res)) = true) /\
  (forall fi d opCode dxOpCode,
     m_State (d_ts d) = None ->
     name (d_result d) <> "" ->
     d_resultId d <> INVALID_ID ->
     in_range (m_Live (d_ts d)) (d_resultId d) = true ->
     in_range (m_Assigned (d_ts d)) (d_resultId d) = true ->
     exists ts',
       finishes (commit_result fi d opCode dxOpCode) ts' /\
       m_Variables ts' !! d_resultId d = Some (d_result d)) /\
  (forall ts t id opCode dxOpCode var,
     m_Variables ts !! id = Some var ->
     type var = VarType.Half \/ type var = VarType.Double ->
     finishes (fetch ts (VInstruction t id) opCode dxOpCode) var) /\
  (forall fi d opCode dxOpCode,
     type (d_result d) = VarType.Half \/ type (d_result d) = VarType.Double ->
     name (d_result d) <> "" ->
     d_resultId d <> INVALID_ID ->
     in_range (m_Live (d_ts d)) (d_resultId d) = true ->
     in_range (m_Assigned (d_ts d)) (d_resultId d) = true ->
     exists ts',
       finishes (commit_result fi d opCode dxOpCode) ts' /\
       m_Variables ts' !! d_resultId d = Some (d_result d)).
Proof.
  split; [ | split; [ | split; [ | split ] ] ].
  - intros ts t id opCode dxOpCode var Hflush Hvar Hty Hsub.
    eexists. split; [ apply (fetch_instruction ts t id opCode dxOpCode var Hvar) | ].
    rewrite Hflush, Hty. cbn [VarType.eqb negb andb value with_value].
    apply flush_f32v0_subnormal. exact Hsub.
  - intros fi d opCode dxOpCode st Hflush Hst Hty Hsub Hname Hid Hlive Hassigned.
    eexists. eexists. split; [ apply commit_result_spec; assumption | ].
    split; [ apply committed_lane_lookup | ].
    rewrite Hst.
    replace (bool_decide (is_Some (Some st))) with true
      by (symmetry; apply bool_decide_eq_true_2; eauto).
    unfold committed_value. rewrite Hflush, Hty.
    cbn [VarType.eqb andb value with_value].
    apply flush_f32v0_subnormal. exact Hsub.
  - intros fi d opCode dxOpCode Hst Hname Hid Hlive Hassigned.
    eexists. split; [ apply commit_result_spec; assumption | ].
    rewrite committed_lane_lookup, Hst.
    replace (bool_decide (is_Some (@None ShaderDebugState))) with false
      by (symmetry; apply bool_decide_eq_false_2; intros [? ?]; discriminate).
    reflexivity.
  - intros ts t id opCode dxOpCode var Hvar Hty.
    pose proof (fetch_instruction ts t id opCode dxOpCode var Hvar) as Hfetch.
    destruct Hty as [Hty | Hty]; rewrite Hty in Hfetch;
      cbn [VarType.eqb negb andb] in Hfetch;
      rewrite ?andb_false_r in Hfetch; exact Hfetch.
  - intros fi d opCode dxOpCode Hty Hname Hid Hlive Hassigned.
    eexists. split; [ apply commit_result_spec; assumption | ].
    rewrite committed_lane_lookup. unfold committed_value.
    destruct Hty as [Hty | Hty]; rewrite Hty; cbn [VarType.eqb];
      rewrite !andb_false_r; reflexivity.
Qed.

(** C2 at the failing inputs.  [FAdd] and [FMul] are flushing operations.
    - The sum of 0x00800000 and 0x80C00000 is the subnormal 0x80400000.  The
      observed lane commits it flushed, as the zero 0x80000000; a lane that
      is not observed commits the subnormal itself: the flushing of the
      result is done by [SetResult], which is called for the observed lane
      only.
    - A subnormal operand that is a literal constant is read as it is: the
      product of the literal 0x00400000, which is 2^-127, and of 2^127 is
      committed as 1.0, where the same product with the subnormal in the SSA
      value [%1] is committed as the zero that the flushed operand gives. *)
Theorem subnormal_result_not_flushed :
  OperationFlushing Operation.FAdd DXOp.NumOpCodes = true /\
  OperationFlushing Operation.FMul DXOp.NumOpCodes = true /\
  (exists ts' res,
     finishes (ExecuteInstruction (one_block [fadd_example]) [] (lane_at 0 [] None))
              (true, ts') /\
     m_Variables ts' !! 2 = Some res /\
     type res = VarType.Float /\
     comp 32 0 (value res) = 0x80400000 /\
     is_subnormal binary32 (comp 32 0 (value res)) = true /\
     is_zero binary32 (comp 32 0 (value res)) = false) /\
  (exists ts' res,
     finishes (ExecuteInstruction (one_block [fadd_example]) []
                 (lane_at 0 [] (Some default_ShaderDebugState))) (true, ts') /\
     m_Variables ts' !! 2 = Some res /\
     type res = VarType.Float /\
     comp 32 0 (value res) = 0x80000000 /\
     is_zero binary32 (comp 32 0 (value res)) = true) /\
  is_subnormal binary32 0x00400000 = true /\
  (exists ts' res,
     finishes (ExecuteInstruction (one_block [fmul_literal_example]) []
                 (lane_at 0 [] (Some default_ShaderDebugState))) (true, ts') /\
     m_Variables ts' !! 2 = Some res /\
     comp 32 0 (value res) = F32_ONE) /\
  (exists ts' res,
     finishes (ExecuteInstruction (one_block [fmul_ssa_example]) []
                 (lane_at 0 [(1, subnormal_operand)] (Some default_ShaderDebugState)))
              (true, ts') /\
     m_Variables ts' !! 2 = Some res /\
     is_zero binary32 (comp 32 0 (value res)) = true).
Proof.
  split; [ reflexivity | ]. split; [ reflexivity | ].
  split.
  { eexists. eexists. split; [ vm_compute; reflexivity | ].
    split; [ vm_compute; reflexivity | ].
    split; [ vm_compute; reflexivity | ].
    split; [ vm_compute; reflexivity | ].
    split; [ vm_compute; reflexivity | ]. vm_compute; reflexivity. }
  split.
  { eexists. eexists. split; [ vm_compute; reflexivity | ].
    split; [ vm_compute; reflexivity | ].
    split; [ vm_compute; reflexivity | ].
    split; [ vm_compute; reflexivity | ]. vm_compute; reflexivity. }
  split; [ vm_compute; reflexivity | ].
  split.
  { eexists. eexists. split; [ vm_compute; reflexivity | ].
    split; [ vm_compute; reflexivity | ]. vm_compute; reflexivity. }
  eexists. eexists. split; [ vm_compute; reflexivity | ].
  split; [ vm_compute; reflexivity | ]. vm_compute; reflexivity.
Qed.

(* ================================================================== *)
(** * Unordered comparisons *)
(* ================================================================== *)

Section Comparisons.

Lemma SFcompare_nan (x y : spec_float) :
  RDCISNAN x = true \/ RDCISNAN y = true -> SFcompare x y = None.
Proof.
  intros [H | H]; destruct x, y; simpl in *; try discriminate; reflexivity.
Qed.

Lemma SFcompare_swap (x y : spec_float) :
  SFcompare y x = option_map CompOpp (SFcompare x y).
Proof.
  destruct x as [sx | sx | | sx mx ex], y as [sy | sy | | sy my ey]; simpl;
    try reflexivity; try (destruct sx; reflexivity); try (destruct sy; reflexivity);
    try (destruct sx, sy; reflexivity).
  destruct sx, sy; simpl; try reflexivity;
    rewrite (Z.compare_antisym ex ey); destruct (ex ?= ey); simpl; try reflexivity;
    change (Pos.compare_cont Eq my mx) with (Pos.compare my mx);
    change (Pos.compare_cont Eq mx my) with (Pos.compare mx my);
    rewrite (Pos.compare_antisym mx my); destruct (mx ?= my)%positive; reflexivity.
Qed.

Lemma SFcompare_ordered (x y : spec_float) :
  RDCISNAN x = false -> RDCISNAN y = false -> exists c, SFcompare x y = Some c.
Proof.
  intros Hx Hy. destruct x, y; simpl in *; try discriminate; eexists; reflexivity.
Qed.

(** On operands that are not NaN [!(x <= y)] is [x > y], and so on. *)
Lemma not_le_gt (x y : spec_float) :
  RDCISNAN x = false -> RDCISNAN y = false -> negb (f_le x y) = f_gt x y.
Proof.
  intros Hx Hy. unfold f_le, f_gt, SFleb, SFltb. rewrite (SFcompare_swap x y).
  destruct (SFcompare_ordered x y Hx Hy) as [c ->]. destruct c; reflexivity.
Qed.

Lemma not_lt_ge (x y : spec_float) :
  RDCISNAN x = false -> RDCISNAN y = false -> negb (f_lt x y) = f_ge x y.
Proof.
  intros Hx Hy. unfold f_lt, f_ge, SFleb, SFltb. rewrite (SFcompare_swap x y).
  destruct (SFcompare_ordered x y Hx Hy) as [c ->]. destruct c; reflexivity.
Qed.

Lemma not_ge_lt (x y : spec_float) :
  RDCISNAN x = false -> RDCISNAN y = false -> negb (f_ge x y) = f_lt x y.
Proof.
  intros Hx Hy. rewrite <- (not_lt_ge x y Hx Hy). apply negb_involutive.
Qed.

Lemma not_gt_le (x y : spec_float) :
  RDCISNAN x = false -> RDCISNAN y = false -> negb (f_gt x y) = f_le x y.
Proof.
  intros Hx Hy. rewrite <- (not_le_gt x y Hx Hy). apply negb_involutive.
Qed.

(** The value of the six opcodes of [true_on_nan] when an operand is NaN. *)
Lemma fcmp_value_nan (opCode : Operation.t) (x y : spec_float) :
  true_on_nan opCode = true ->
  RDCISNAN x = true \/ RDCISNAN y = true ->
  fcmp_value opCode x y = Some 1.
Proof.
  intros Hop Hnan. pose proof (SFcompare_nan x y Hnan) as Hxy.
  assert (Hyx : SFcompare y x = None) by (apply SFcompare_nan; tauto).
  destruct opCode; try discriminate Hop; cbn [fcmp_value];
    unfold f_le, f_lt, f_ge, f_gt, f_eq, SFleb, SFltb, SFeqb; rewrite ?Hxy, ?Hyx;
    try reflexivity.
  destruct Hnan as [-> | ->]; [ reflexivity | rewrite orb_true_r; reflexivity ].
Qed.

(** The value of an unordered comparison and of its ordered counterpart on
    operands that are not NaN. *)
Lemma fcmp_value_ordered (opCode opCode' : Operation.t) (x y : spec_float) :
  ordered_counterpart opCode = Some opCode' ->
  RDCISNAN x = false -> RDCISNAN y = false ->
  fcmp_value opCode x y = fcmp_value opCode' x y.
Proof.
  intros Hop Hx Hy.
  destruct opCode; try discriminate Hop; injection Hop as <-; cbn [fcmp_value].
  - unfold f_ne, f_eq. destruct (SFeqb x y); reflexivity.
  - rewrite <- (not_le_gt x y Hx Hy). destruct (f_le x y); reflexivity.
  - rewrite <- (not_lt_ge x y Hx Hy). destruct (f_lt x y); reflexivity.
  - rewrite <- (not_ge_lt x y Hx Hy). destruct (f_ge x y); reflexivity.
  - rewrite <- (not_gt_le x y Hx Hy). destruct (f_gt x y); reflexivity.
  - unfold f_ne, f_eq. destruct (SFeqb x y); reflexivity.
Qed.

End Comparisons.

(** The unordered comparisons the code gets right.  Let the operands have
    one of the types [Float], [Half], [Double].
    - For [FUnord], [FUnordGreater], [FUnordGreaterEqual], [FUnordLess],
      [FUnordLessEqual] and [FUnordNotEqual] the result is 1 whenever an
      operand is NaN.
    - On operands that are not NaN each of [FUnordEqual], [FUnordGreater],
      [FUnordGreaterEqual], [FUnordLess], [FUnordLessEqual] and
      [FUnordNotEqual] gives the result of its ordered counterpart. *)
Lemma unordered_comparison_law (fmt : FloatFormat) (a b result : ShaderVariable) :
  float_lane_format (type a) = Some fmt ->
  (forall opCode,
     true_on_nan opCode = true ->
     RDCISNAN (float_operand fmt a) = true \/ RDCISNAN (float_operand fmt b) = true ->
     exists r, finishes (exec_fcmp opCode a b result) r /\ u32v (value r) 0 = 1) /\
  (forall opCode opCode',
     ordered_counterpart opCode = Some opCode' ->
     RDCISNAN (float_operand fmt a) = false ->
     RDCISNAN (float_operand fmt b) = false ->
     exec_fcmp opCode a b result = exec_fcmp opCode' a b result).
Proof.
  intros Hfmt. split.
  - intros opCode Hop Hnan. unfold exec_fcmp. rewrite Hfmt. cbv zeta.
    fold (float_operand fmt a) (float_operand fmt b).
    rewrite (fcmp_value_nan opCode _ _ Hop Hnan).
    eexists. split; [ apply finishes_ret | ].
    cbn [value with_value]. apply u32v_set_u32v; lia.
  - intros opCode opCode' Hop Ha Hb. unfold exec_fcmp. rewrite Hfmt. cbv zeta.
    fold (float_operand fmt a) (float_operand fmt b).
    rewrite (fcmp_value_ordered opCode opCode' _ _ Hop Ha Hb). reflexivity.
Qed.

(** [FUnordEqual] is computed as [(a != b) ? 0 : 1]: with an operand that is
    NaN the operands are unequal and the value is 0. *)
Lemma fcmp_value_ueq_nan (x y : spec_float) :
  RDCISNAN x = true \/ RDCISNAN y = true ->
  fcmp_value Operation.FUnordEqual x y = Some 0.
Proof.
  intros Hnan. pose proof (SFcompare_nan x y Hnan) as Hxy.
  cbn [fcmp_value]. unfold f_ne, f_eq, SFeqb. rewrite Hxy. reflexivity.
Qed.

(** C4 at the failing inputs.  [FUnordEqual] gives 0 whenever an operand is
    NaN, for every type of floating point operands: [fcmp ueq float NaN, 1.0]
    commits 0.  The other unordered comparisons give 1 there, as
    [fcmp ugt float NaN, 1.0] does. *)
Theorem FUnordEqual_false_on_nan :
  (forall fmt a b result,
     float_lane_format (type a) = Some fmt ->
     RDCISNAN (float_operand fmt a) = true \/ RDCISNAN (float_operand fmt b) = true ->
     exists r, finishes (exec_fcmp Operation.FUnordEqual a b result) r /\
               u32v (value r) 0 = 0) /\
  RDCISNAN (float_of_bits binary32 F32_NAN) = true /\
  (exists ts' res,
     finishes (ExecuteInstruction (one_block [fcmp_ueq_nan]) [] (lane_at 0 [] None))
              (true, ts') /\
     m_Variables ts' !! 2 = Some res /\ u32v (value res) 0 = 0) /\
  (exists ts' res,
     finishes (ExecuteInstruction (one_block [fcmp_ugt_nan]) [] (lane_at 0 [] None))
              (true, ts') /\
     m_Variables ts' !! 2 = Some res /\ u32v (value res) 0 = 1).
Proof.
  split; [ | split; [ vm_compute; reflexivity | split ] ].
  - intros fmt a b result Hfmt Hnan. unfold exec_fcmp. rewrite Hfmt. cbv zeta.
    fold (float_operand fmt a) (float_operand fmt b).
    rewrite (fcmp_value_ueq_nan _ _ Hnan).
    eexists. split; [ apply finishes_ret | ].
    cbn [value with_value]. apply u32v_set_u32v; lia.
  - eexists. eexists. split; [ vm_compute; reflexivity | ].
    split; [ vm_compute; reflexivity | ]. vm_compute; reflexivity.
  - eexists. eexists. split; [ vm_compute; reflexivity | ].
    split; [ vm_compute; reflexivity | ]. vm_compute; reflexivity.
Qed.

(* ================================================================== *)
(** * Integer division and remainder by zero *)
(* ================================================================== *)

Lemma int_lane_bits_cases (t : VarType.t) (w : Z) :
  int_lane_bits t = Some w -> w = 8 \/ w = 16 \/ w = 32 \/ w = 64.
Proof.
  destruct t; simpl; intros E; try discriminate; injection E as <-; tauto.
Qed.

(** The four opcodes on a zero divisor, for every integer lane width: [UDiv]
    and [SDiv] test the divisor, store 0 and raise [GeneratedNanOrInf];
    [URem] and [SRem] apply [%] to it, which is undefined behaviour. *)
Lemma int_arith_zero_divisor (a b result : ShaderVariable) (eventFlags : ShaderEvents)
    (w : Z) :
  int_lane_bits (type a) = Some w ->
  comp w 0 (value b) = 0 ->
  exec_int_arith Operation.UDiv a b result eventFlags =
    ret (with_value (set_comp w 0 0 (value result)) result,
         Z.lor eventFlags ShaderEvents.GeneratedNanOrInf) /\
  exec_int_arith Operation.SDiv a b result eventFlags =
    ret (with_value (set_comp w 0 0 (value result)) result,
         Z.lor eventFlags ShaderEvents.GeneratedNanOrInf) /\
  exec_int_arith Operation.URem a b result eventFlags =
    Undefined "integer remainder by zero" /\
  exec_int_arith Operation.SRem a b result eventFlags =
    Undefined "integer remainder by zero".
Proof.
  intros Hw Hzero. unfold exec_int_arith. rewrite Hw. cbv zeta. rewrite Hzero.
  assert (Hs : signed w 0 = 0).
  { destruct (int_lane_bits_cases _ _ Hw) as [-> | [-> | [-> | ->]]]; reflexivity. }
  rewrite Hs. repeat split.
Qed.

(** C5 at the failing inputs.  On an observed lane [urem i32 5, 0] and
    [srem i32 5, 0] run into the undefined remainder by zero: there is no
    sentinel and no event.  The sibling cases [udiv i32 5, 0] and
    [sdiv i32 5, 0] commit 0 and raise [GeneratedNanOrInf]. *)
Theorem remainder_by_zero_undefined :
  ExecuteInstruction (one_block [urem_by_zero]) []
                     (lane_at 0 [] (Some default_ShaderDebugState))
    = Undefined "integer remainder by zero" /\
  ExecuteInstruction (one_block [srem_by_zero]) []
                     (lane_at 0 [] (Some default_ShaderDebugState))
    = Undefined "integer remainder by zero" /\
  (exists ts' res st',
     finishes (ExecuteInstruction (one_block [udiv_by_zero]) []
                 (lane_at 0 [] (Some default_ShaderDebugState))) (true, ts') /\
     m_Variables ts' !! 2 = Some res /\ u32v (value res) 0 = 0 /\
     m_State ts' = Some st' /\
     has_event (flags st') ShaderEvents.GeneratedNanOrInf = true) /\
  (exists ts' res st',
     finishes (ExecuteInstruction (one_block [sdiv_by_zero]) []
                 (lane_at 0 [] (Some default_ShaderDebugState))) (true, ts') /\
     m_Variables ts' !! 2 = Some res /\ u32v (value res) 0 = 0 /\
     m_State ts' = Some st' /\
     has_event (flags st') ShaderEvents.GeneratedNanOrInf = true).
Proof.
  split; [ vm_compute; reflexivity | ].
  split; [ vm_compute; reflexivity | ].
  split.
  - eexists. eexists. eexists.
    split; [ vm_compute; reflexivity | ].
    split; [ vm_compute; reflexivity | ].
    split; [ vm_compute; reflexivity | ].
    split; [ vm_compute; reflexivity | ]. vm_compute; reflexivity.
  - eexists. eexists. eexists.
    split; [ vm_compute; reflexivity | ].
    split; [ vm_compute; reflexivity | ].
    split; [ vm_compute; reflexivity | ].
    split; [ vm_compute; reflexivity | ]. vm_compute; reflexivity.
Qed.

(* ================================================================== *)
(** * Derivatives *)
(* ================================================================== *)

Lemma assert_neighbours_in_range_total (ts : ThreadState) (workgroup : list ThreadState) :
  finishes (assert_neighbours_in_range ts workgroup) tt.
Proof.
  unfold assert_neighbours_in_range.
  induction (m_QuadNeighbours ts) as [ | q qs IH ].
  - apply finishes_ret.
  - step_bind. exact IH.
Qed.

(** The derivative of a lane without a complete quad. *)
Lemma derivative_no_quad (ts : ThreadState) (workgroup : list ThreadState) (index stride : Z)
    (opCode : Operation.t) (dxOpCode : DXOp.t) (dxilValue : Value) :
  no_quad ts = true ->
  derivative ts workgroup index stride opCode dxOpCode dxilValue =
    Done zero_value [Error "Derivative calculation within non-quad"].
Proof. intros Hno. unfold derivative. rewrite Hno. reflexivity. Qed.

(** The derivative of a lane whose quad is complete and diverged. *)
Lemma derivative_diverged (ts : ThreadState) (workgroup : list ThreadState) (index stride : Z)
    (opCode : Operation.t) (dxOpCode : DXOp.t) (dxilValue : Value)
    (a b : ShaderVariable) (v : ShaderValue) :
  no_quad ts = false ->
  finishes (QuadIsDiverged workgroup (m_QuadNeighbours ts)) true ->
  finishes (neighbour_fetch ts workgroup (index + stride) dxilValue opCode dxOpCode) a ->
  finishes (neighbour_fetch ts workgroup index dxilValue opCode dxOpCode) b ->
  finishes (Sub a b zero_value) v ->
  finishes (derivative ts workgroup index stride opCode dxOpCode dxilValue) v /\
  reports (derivative ts workgroup index stride opCode dxOpCode dxilValue)
          (AssertFailed "!QuadIsDiverged(workgroup, m_QuadNeighbours)").
Proof.
  intros Hno Hdiv Ha Hb Hsub. unfold derivative. rewrite Hno. cbv zeta.
  assert (Htail : finishes
            (a0 <- neighbour_fetch ts workgroup (index + stride) dxilValue opCode dxOpCode ;;
             b0 <- neighbour_fetch ts workgroup index dxilValue opCode dxOpCode ;;
             Sub a0 b0 zero_value) v).
  { repeat step_bind. exact Hsub. }
  assert (Hassert : finishes
            (RDCASSERT (negb true) "!QuadIsDiverged(workgroup, m_QuadNeighbours)" ;;;
             a0 <- neighbour_fetch ts workgroup (index + stride) dxilValue opCode dxOpCode ;;
             b0 <- neighbour_fetch ts workgroup index dxilValue opCode dxOpCode ;;
             Sub a0 b0 zero_value) v).
  { step_bind. exact Htail. }
  assert (Hquad : finishes
            (diverged <- QuadIsDiverged workgroup (m_QuadNeighbours ts) ;;
             RDCASSERT (negb diverged) "!QuadIsDiverged(workgroup, m_QuadNeighbours)" ;;;
             a0 <- neighbour_fetch ts workgroup (index + stride) dxilValue opCode dxOpCode ;;
             b0 <- neighbour_fetch ts workgroup index dxilValue opCode dxOpCode ;;
             Sub a0 b0 zero_value) v).
  { eapply finishes_bind; [ exact Hdiv | exact Hassert ]. }
  split.
  - eapply finishes_bind; [ apply assert_neighbours_in_range_total | exact Hquad ].
  - eapply reports_bind_r;
      [ apply assert_neighbours_in_range_total | exact Hquad | ].
    eapply reports_bind_r; [ exact Hdiv | exact Hassert | ].
    eapply reports_bind_l;
      [ apply finishes_RDCASSERT | exact Htail | apply reports_RDCASSERT_false ].
Qed.

(** [DDX] and [DDY] are the same computation with the neighbour one lane to
    the right and one lane down.  When a neighbour slot of the executing lane
    is the sentinel, the computation logs an error and returns the zeroed
    value.  When the quad is complete and diverged, the failed assertion is
    reported and the computation still returns the difference of the
    operands of the two neighbours. *)
Lemma derivative_on_broken_quad (ts : ThreadState) (workgroup : list ThreadState)
    (fine : bool) (opCode : Operation.t) (dxOpCode : DXOp.t) (dxilValue : Value) :
  (exists ix iy,
     DDX ts fine opCode dxOpCode workgroup dxilValue =
       derivative ts workgroup ix 1 opCode dxOpCode dxilValue /\
     DDY ts fine opCode dxOpCode workgroup dxilValue =
       derivative ts workgroup iy 2 opCode dxOpCode dxilValue) /\
  (forall index stride,
     no_quad ts = true ->
     derivative ts workgroup index stride opCode dxOpCode dxilValue =
       Done zero_value [Error "Derivative calculation within non-quad"]) /\
  (forall index stride a b v,
     no_quad ts = false ->
     finishes (QuadIsDiverged workgroup (m_QuadNeighbours ts)) true ->
     finishes (neighbour_fetch ts workgroup (index + stride) dxilValue opCode dxOpCode) a ->
     finishes (neighbour_fetch ts workgroup index dxilValue opCode dxOpCode) b ->
     finishes (Sub a b zero_value) v ->
     finishes (derivative ts workgroup index stride opCode dxOpCode dxilValue) v /\
     reports (derivative ts workgroup index stride opCode dxOpCode dxilValue)
             (AssertFailed "!QuadIsDiverged(workgroup, m_QuadNeighbours)")).
Proof.
  split; [ | split ].
  - eexists. eexists. split; reflexivity.
  - intros index stride. apply derivative_no_quad.
  - intros index stride a b v. apply derivative_diverged.
Qed.

(** C8 at the failing input.  Lane 0 of a pixel shader quad whose lane 1 is
    in another block runs [DerivCoarseX] on a value that is 1.0 in lane 0 and
    3.0 in lane 1.  The quad is diverged; the assertion [!QuadIsDiverged]
    fails and is reported, and the lane commits the difference 2.0, not
    zero.  The sibling paths do zero the result: a lane whose neighbour
    slots are the sentinel commits zero and logs the error of the non-quad,
    and the same diverged quad in a workgroup of five lanes commits zero and
    logs the error of the derivative outside of a pixel shader. *)
Theorem derivative_on_diverged_quad_not_zeroed :
  QuadIsDiverged diverged_quad [0; 1; 2; 3] = Done true [] /\
  (exists ts' res,
     finishes (ExecuteInstruction (one_block [deriv_example]) diverged_quad
                 (quad_lane 0 0 F32_ONE None)) (true, ts') /\
     m_Variables ts' !! 2 = Some res /\
     comp 32 0 (value res) = F32_TWO) /\
  reports (ExecuteInstruction (one_block [deriv_example]) diverged_quad
             (quad_lane 0 0 F32_ONE None))
          (AssertFailed "!QuadIsDiverged(workgroup, m_QuadNeighbours)") /\
  (exists ts' res,
     finishes (ExecuteInstruction (one_block [deriv_example])
                 [lone_lane; lone_lane; lone_lane; lone_lane] lone_lane) (true, ts') /\
     m_Variables ts' !! 2 = Some res /\
     value res = zero_value) /\
  reports (ExecuteInstruction (one_block [deriv_example])
             [lone_lane; lone_lane; lone_lane; lone_lane] lone_lane)
          (Error "Derivative calculation within non-quad") /\
  (exists ts' res,
     finishes (ExecuteInstruction (one_block [deriv_example])
                 (diverged_quad ++ [quad_lane 0 0 F32_ONE None])
                 (quad_lane 0 0 F32_ONE None)) (true, ts') /\
     m_Variables ts' !! 2 = Some res /\
     value res = zero_value) /\
  reports (ExecuteInstruction (one_block [deriv_example])
             (diverged_quad ++ [quad_lane 0 0 F32_ONE None])
             (quad_lane 0 0 F32_ONE None))
          (Error "Undefined results using derivative instruction outside of a pixel shader.").
Proof.
  split; [ vm_compute; reflexivity | ].
  split.
  { eexists. eexists. split; [ vm_compute; reflexivity | ].
    split; [ vm_compute; reflexivity | ]. vm_compute; reflexivity. }
  split; [ vm_compute; repeat (first [ left; reflexivity | right ]) | ].
  split.
  { eexists. eexists. split; [ vm_compute; reflexivity | ].
    split; [ vm_compute; reflexivity | ]. vm_compute; reflexivity. }
  split; [ vm_compute; repeat (first [ left; reflexivity | right ]) | ].
  split.
  { eexists. eexists. split; [ vm_compute; reflexivity | ].
    split; [ vm_compute; reflexivity | ]. vm_compute; reflexivity. }
  vm_compute; repeat (first [ left; reflexivity | right ]).
Qed.

(* ================================================================== *)
(** * Phi nodes *)
(* ================================================================== *)

Section PhiTable.

(** Induction over an argument list taken two values at a time. *)
Lemma pairs_ind (P : list Value -> Prop) :
  P [] -> (forall v, P [v]) ->
  (forall v label rest, P rest -> P (v :: label :: rest)) ->
  forall pairs, P pairs.
Proof.
  intros Hnil Hone Hstep pairs.
  enough (H : P pairs /\ forall v, P (v :: pairs)) by exact (proj1 H).
  induction pairs as [ | x rest [IH1 IH2] ].
  - split; [ exact Hnil | exact Hone ].
  - split; [ apply IH2 | intros v; apply Hstep; exact IH1 ].
Qed.

(** The table of phi referenced ids only grows while it is built. *)
Lemma phi_pairs_ids_mono (pairs : list Value) :
  forall acc acc' b id,
    finishes (phi_pairs_ids pairs acc) acc' ->
    id ∈ ids_of_block acc b -> id ∈ ids_of_block acc' b.
Proof.
  induction pairs as [ | v | v label rest IH ] using pairs_ind;
    intros acc acc' b id Hrun Hin.
  - apply finishes_inv in Hrun as [l Hrun]. injection Hrun as <-. exact Hin.
  - simpl in Hrun. exfalso. exact (not_finishes_Undefined _ _ Hrun).
  - simpl in Hrun. destruct (IsSSA v).
    + destruct label; try (exfalso; exact (not_finishes_Undefined _ _ Hrun)).
      eapply IH; [ exact Hrun | ].
      unfold ids_of_block in *.
      destruct (Z.eq_dec blockId b) as [-> | Hne].
      * rewrite lookup_insert_eq. simpl. set_solver.
      * rewrite lookup_insert_ne by exact Hne. exact Hin.
    + eapply IH; [ exact Hrun | exact Hin ].
Qed.

(** Every SSA value of a pair is filed under the block of the pair. *)
Lemma phi_pairs_ids_adds (pairs : list Value) (v : Value) (b : Z) :
  phi_pair pairs v (VBlock b) ->
  IsSSA v = true ->
  forall acc acc',
    finishes (phi_pairs_ids pairs acc) acc' -> GetSSAId v ∈ ids_of_block acc' b.
Proof.
  intros Hpair Hssa.
  remember (VBlock b) as label eqn:Hlabel.
  induction Hpair as [ v label rest | v' label' v label rest Hpair IH ];
    intros acc acc' Hrun; simpl in Hrun.
  - subst label. rewrite Hssa in Hrun.
    eapply phi_pairs_ids_mono; [ exact Hrun | ].
    unfold ids_of_block. rewrite lookup_insert_eq. simpl. set_solver.
  - destruct (IsSSA v').
    + destruct label'; try (exfalso; exact (not_finishes_Undefined _ _ Hrun)).
      eapply IH; [ exact Hlabel | exact Hssa | exact Hrun ].
    + eapply IH; [ exact Hlabel | exact Hssa | exact Hrun ].
Qed.

Lemma build_phi_mono (insts : list Instruction) :
  forall acc acc' b id,
    finishes (build_phiReferencedIdsPerBlock insts acc) acc' ->
    id ∈ ids_of_block acc b -> id ∈ ids_of_block acc' b.
Proof.
  induction insts as [ | inst rest IH ]; intros acc acc' b id Hrun Hin; simpl in Hrun.
  - apply finishes_inv in Hrun as [l Hrun]. injection Hrun as <-. exact Hin.
  - destruct (op inst); try (eapply IH; [ exact Hrun | exact Hin ]).
    apply finishes_bind_inv in Hrun as (acc1 & Hpairs & Hrest).
    eapply IH; [ exact Hrest | ].
    eapply phi_pairs_ids_mono; [ exact Hpairs | exact Hin ].
Qed.

(** The table built for a function files the SSA value of every pair of
    every phi under the block of the pair. *)
Lemma build_phi_adds (insts : list Instruction) (inst : Instruction) (v : Value) (b : Z) :
  In inst insts ->
  op inst = Operation.Phi ->
  phi_pair (args inst) v (VBlock b) ->
  IsSSA v = true ->
  forall acc acc',
    finishes (build_phiReferencedIdsPerBlock insts acc) acc' ->
    GetSSAId v ∈ ids_of_block acc' b.
Proof.
  intros Hin Hop Hpair Hssa.
  induction insts as [ | i rest IH ]; intros acc acc' Hrun; [ contradiction | ].
  simpl in Hrun. destruct Hin as [-> | Hin].
  - rewrite Hop in Hrun.
    apply finishes_bind_inv in Hrun as (acc1 & Hpairs & Hrest).
    eapply build_phi_mono; [ exact Hrest | ].
    eapply phi_pairs_ids_adds; [ exact Hpair | exact Hssa | exact Hpairs ].
  - destruct (op i); try (eapply IH; [ exact Hin | exact Hrun ]).
    apply finishes_bind_inv in Hrun as (acc1 & Hpairs & Hrest).
    eapply IH; [ exact Hin | exact Hrest ].
Qed.

(** The phi case selects a pair whose label is the previous block. *)
Lemma phi_select_pair (pairs : list Value) (previousBlock : Z) (v : Value) :
  finishes (phi_select pairs previousBlock) (Some v) ->
  phi_pair pairs v (VBlock previousBlock).
Proof.
  induction pairs as [ | v' | v' label rest IH ] using pairs_ind;
    intros Hrun; simpl in Hrun.
  - apply finishes_inv in Hrun as [l Hrun]. discriminate Hrun.
  - exfalso. exact (not_finishes_Undefined _ _ Hrun).
  - apply finishes_bind_inv in Hrun as ([] & _ & Hrun).
    apply finishes_bind_inv in Hrun as (blockId' & Hid & Hrun).
    destruct label; simpl in Hid;
      try (exfalso; exact (not_finishes_Undefined _ _ Hid)).
    apply finishes_inv in Hid as [l Hid]. injection Hid as <-.
    destruct (Z.eqb_spec blockId previousBlock) as [-> | Hne].
    + apply finishes_inv in Hrun as [l' Hrun]. injection Hrun as <-.
      apply phi_pair_here.
    + apply phi_pair_later. apply IH. exact Hrun.
Qed.

End PhiTable.

Section Snapshot.

(** The snapshot loop keeps the values of the live table as they were and
    copies them for every id it runs over. *)
Lemma snapshot_phi_spec (ids : list Id) :
  forall (vars0 vars phis : gmap Z ShaderVariable),
    (forall k, map_at vars k = map_at vars0 k) ->
    (forall k, map_at (fst (snapshot_phi ids vars phis)) k = map_at vars0 k) /\
    (forall id, In id ids ->
                snd (snapshot_phi ids vars phis) !! id = Some (map_at vars0 id)) /\
    (forall id, ~ In id ids -> snd (snapshot_phi ids vars phis) !! id = phis !! id).
Proof.
  induction ids as [ | i ids IH ]; intros vars0 vars phis Hsame.
  - simpl. split; [ exact Hsame | split; [ contradiction | reflexivity ] ].
  - unfold snapshot_phi. simpl foldl. unfold snapshot_step at 2. cbn [fst snd].
    set (vars' := match vars !! i with
                  | Some _ => vars
                  | None => <[i := default_ShaderVariable]> vars
                  end).
    assert (Hsame' : forall k, map_at vars' k = map_at vars0 k).
    { intros k. rewrite <- Hsame. unfold vars', map_at.
      destruct (vars !! i) eqn:E; [ reflexivity | ].
      destruct (Z.eq_dec i k) as [-> | Hne].
      - rewrite lookup_insert_eq, E. reflexivity.
      - rewrite lookup_insert_ne by exact Hne. reflexivity. }
    destruct (IH vars0 vars' (<[i := map_at vars i]> phis) Hsame') as (H1 & H2 & H3).
    fold (snapshot_phi ids vars' (<[i := map_at vars i]> phis)).
    split; [ exact H1 | split ].
    + intros id [-> | Hin].
      * destruct (in_dec Z.eq_dec id ids) as [Hin | Hnot].
        -- apply H2. exact Hin.
        -- rewrite H3 by exact Hnot. rewrite lookup_insert_eq, Hsame. reflexivity.
      * apply H2. exact Hin.
    + intros id Hnot. rewrite H3 by (intros Hin; apply Hnot; right; exact Hin).
      apply lookup_insert_ne. intros ->. apply Hnot. left. reflexivity.
Qed.

End Snapshot.

Section PhiRead.

(** A jump that returns leaves the lane with the block it left as the
    previous block, and with a copy of the live value of every id filed
    under that block in the phi table. *)
Lemma JumpToBlock_snapshot (fi : FunctionInfo) (ts0 ts1 : ThreadState) (target : option Z)
    (divergencePoint b : bool) :
  finishes (JumpToBlock fi ts0 target divergencePoint) (b, ts1) ->
  m_PreviousBlock ts1 = m_Block ts0 /\
  forall id, id ∈ ids_of_block (phiReferencedIdsPerBlock fi) (m_Block ts0) ->
             m_PhiVariables ts1 !! id = Some (map_at (m_Variables ts0) id).
Proof.
  intros Hrun. unfold JumpToBlock in Hrun. cbv zeta in Hrun.
  match type of Hrun with
  | context [ set_m_Block _ ?x ] => remember x as X eqn:EX
  end.
  assert (HX : m_PreviousBlock X = m_Block ts0 /\
               forall id, id ∈ ids_of_block (phiReferencedIdsPerBlock fi) (m_Block ts0) ->
                          m_PhiVariables X !! id = Some (map_at (m_Variables ts0) id)).
  { rewrite EX. cbn [m_PreviousBlock set_m_PhiVariables set_m_PreviousBlock].
    unfold ids_of_block.
    destruct (phiReferencedIdsPerBlock fi !! m_Block ts0) as [phiIds | ] eqn:E.
    - split; [ reflexivity | ]. intros id Hin. cbn [default] in Hin.
      cbn [m_PhiVariables m_Variables set_m_PhiVariables set_m_Variables set_m_PreviousBlock].
      apply (snapshot_phi_spec (elements phiIds) (m_Variables ts0));
        [ reflexivity | ].
      apply list_elem_of_In, elem_of_elements. exact Hin.
    - split; [ reflexivity | ]. intros id Hin. cbn [default] in Hin.
      exfalso. exact (not_elem_of_empty id Hin). }
  clear EX.
  apply finishes_bind_inv in Hrun as ([] & _ & Hrun).
  destruct target as [blockId | ]; [ | exfalso; exact (not_finishes_Undefined _ _ Hrun) ].
  destruct (at_index (blocks (function fi)) blockId) as [blk | ].
  - apply finishes_bind_inv in Hrun as ([] & _ & Hrun).
    destruct divergencePoint.
    + apply finishes_bind_inv in Hrun as ([] & _ & Hrun).
      apply finishes_bind_inv in Hrun as ([] & _ & Hrun).
      apply finishes_inv in Hrun as [l Hrun]. injection Hrun as _ <-.
      destruct (m_State X) as [st | ]; [ destruct (m_Ended X) | ];
        match goal with |- context [ List.find ?f ?l ] => destruct (List.find f l) end;
        exact HX.
    + apply finishes_inv in Hrun as [l Hrun]. injection Hrun as _ <-.
      destruct (m_State X) as [st | ]; [ destruct (m_Ended X) | ]; exact HX.
  - apply finishes_inv in Hrun as [l Hrun]. injection Hrun as _ <-. exact HX.
Qed.

(** The phi case on a lane whose snapshot holds [var] for the SSA value of
    the pair of the previous block: the result is [var] under the name of
    the instruction, and the live table is not read. *)
Lemma case_Phi_snapshot (ts : ThreadState) (inst : Instruction) (result var : ShaderVariable)
    (t : DXILType) (id : Id) :
  finishes (phi_select (args inst) (m_PreviousBlock ts)) (Some (VInstruction t id)) ->
  m_PhiVariables ts !! id = Some var ->
  finishes (case_Phi ts inst result) (with_name (name result) var).
Proof.
  intros Hsel Hphi. unfold case_Phi.
  eapply finishes_bind; [ exact Hsel | ]. cbv beta iota.
  eapply finishes_bind.
  { unfold GetPhiShaderVariable, GetShaderVariableHelper.
    destruct (ConvertDXILTypeToVarType_total t) as [ty Hty].
    change (value_type (VInstruction t id)) with t.
    step_bind. step_bind. unfold GetPhiVariable. rewrite Hphi.
    apply GetVariableHelper_spec. }
  cbn [fst snd OperationFlushing andb]. step_bind. apply finishes_ret.
Qed.

End PhiRead.

(** C1.  A phi reads the snapshot of the block that was left.  Let the phi
    table of a function be the one built from its instructions, let a lane
    jump (from the state [ts0]) and let the jump return the lane [ts1].  On
    every later state [ts2] of the lane that has the previous block and the
    snapshot of [ts1], whatever its live table holds, a phi of the function
    whose first pair labelled with the block that was left carries the SSA
    value [id] yields the variable [id] had in the live table at the moment of
    the jump, under the name of the phi. *)
Theorem phi_reads_snapshot (fi : FunctionInfo) (ts0 ts1 ts2 : ThreadState)
    (target : option Z) (divergencePoint b : bool) (inst : Instruction)
    (result : ShaderVariable) (t : DXILType) (id : Id) :
  finishes (build_phiReferencedIdsPerBlock (instructions (function fi)) ∅)
           (phiReferencedIdsPerBlock fi) ->
  finishes (JumpToBlock fi ts0 target divergencePoint) (b, ts1) ->
  m_PreviousBlock ts2 = m_PreviousBlock ts1 ->
  m_PhiVariables ts2 = m_PhiVariables ts1 ->
  In inst (instructions (function fi)) ->
  op inst = Operation.Phi ->
  finishes (phi_select (args inst) (m_Block ts0)) (Some (VInstruction t id)) ->
  m_PreviousBlock ts2 = m_Block ts0 /\
  finishes (case_Phi ts2 inst result)
           (with_name (name result) (map_at (m_Variables ts0) id)).
Proof.
  intros Hbuild Hjump Hprev Hphis Hin Hop Hsel.
  destruct (JumpToBlock_snapshot _ _ _ _ _ _ Hjump) as [Hleft Hsnap].
  assert (Hprev2 : m_PreviousBlock ts2 = m_Block ts0) by (rewrite Hprev; exact Hleft).
  split; [ exact Hprev2 | ].
  apply (case_Phi_snapshot ts2 inst result _ t id).
  - rewrite Hprev2. exact Hsel.
  - rewrite Hphis. apply Hsnap.
    apply (build_phi_adds (instructions (function fi)) inst (VInstruction t id)
                          (m_Block ts0) Hin Hop (phi_select_pair _ _ _ Hsel) eq_refl
                          ∅ _ Hbuild).
Qed.

(* ================================================================== *)
(** * Stores and loads *)
(* ================================================================== *)

Section StoreLoad.










End StoreLoad.


(* ================================================================== *)
(** * The step loop of [ContinueDebug] *)
(* ================================================================== *)

Section StepLoop.
Context {ControlFlow Tangle : Type} `{ControlFlowAPI ControlFlow Tangle} `{LaneAPI}.

(** ** The active mask *)


Lemma tangle_activeMask_length (size : nat) (refs : list Z) :
  length (tangle_activeMask size refs) = size.
Proof.
  unfold tangle_activeMask.
  enough (Hgen : forall mask : list bool,
             length (foldl (fun mask idx => if idx <? 0 then mask
                                            else <[Z.to_nat idx := true]> mask)
                           mask refs) = length mask).
  { rewrite Hgen. apply length_replicate. }
  induction refs as [ | idx refs IH ]; intros mask; simpl; [ reflexivity | ].
  rewrite IH. destruct (idx <? 0); [ reflexivity | apply length_insert ].
Qed.


(** ** Sums of [int]s *)


(** ** One lane of one tangle *)





Lemma step_lane_length (a : Z) (mask : list bool) (p : TanglePass Tangle) (lane : nat) :
  length (tp_workgroup (step_lane a mask p lane)) = length (tp_workgroup p).
Proof.
  unfold step_lane.
  destruct (mask !! lane) as [ [ | ] | ]; try reflexivity.
  destruct (tp_workgroup p !! lane) as [thread | ]; [ | reflexivity ].
  destruct (Finished thread); cbn [tp_workgroup]; [ reflexivity | apply length_insert ].
Qed.

(** ** The lanes of one tangle *)

Lemma step_lanes_length (a : Z) (mask : list bool) (lanes : list nat) :
  forall p, length (tp_workgroup (foldl (step_lane a mask) p lanes))
            = length (tp_workgroup p).
Proof.
  induction lanes as [ | lane lanes IH ]; intros p; simpl; [ reflexivity | ].
  rewrite IH. apply step_lane_length.
Qed.





(** ** One tangle *)




Lemma run_tangle_length (a : Z) (l : TangleLoop) (t : Tangle) :
  length (tl_workgroup (run_tangle a l t)) = length (tl_workgroup l).
Proof.
  unfold run_tangle. destruct (IsAliveActive t); cbn [negb]; [ | reflexivity ].
  cbv zeta. cbn [tl_workgroup]. unfold step_over_nops.
  rewrite length_imap, step_lanes_length. reflexivity.
Qed.



(** ** The tangles of one pass of the loop *)




Lemma run_tangles_length (a : Z) (tangles : list Tangle) :
  forall l, length (tl_workgroup (foldl (run_tangle a) l tangles))
            = length (tl_workgroup l).
Proof.
  induction tangles as [ | t tangles IH ]; intros l; simpl; [ reflexivity | ].
  rewrite IH. apply run_tangle_length.
Qed.




(** ** One pass of the loop *)

Lemma iteration_lane (d : Debugger ControlFlow) (ret_ : list ShaderDebugState) :
  m_ActiveLaneIndex (fst (iteration d ret_)) = m_ActiveLaneIndex d.
Proof. reflexivity. Qed.




(** ** The loop *)




Lemma first_step_lane (d : Debugger ControlFlow) :
  m_ActiveLaneIndex (fst (first_step d)) = m_ActiveLaneIndex d.
Proof.
  unfold first_step. destruct (m_Steps d =? 0); [ | reflexivity ].
  destruct (enter_lanes (m_ActiveLaneIndex d) (m_Workgroup d)) as [ [wg initial] startPoint ].
  reflexivity.
Qed.


End StepLoop.

(* ================================================================== *)
(** * Where the code departs from the specification *)
(* ================================================================== *)


(** ** A call of [ContinueDebug] that does not return *)




(* ================================================================== *)
(** * The statements at concrete inputs *)
(* ================================================================== *)

(** [IMin(-1, 3)] commits -1: the signed minimum, where the unsigned minimum
    would be 3. *)
Lemma IMin_IMax_commit_signed_witness :
  exists ts' res,
    finishes (ExecuteInstruction (one_block [imin_example]) [] (lane_at 0 [] None))
             (true, ts') /\
    m_Variables ts' !! 2 = Some res /\ s32v (value res) 0 = -1.
Proof.
  destruct (IMin_IMax_commit_signed (one_block [imin_example]) [] (lane_at 0 [] None)
              imin_example DXOp.IMin (const_i32 0xffffffff) (const_i32 3)
              (scalar_var "" VarType.SInt 0xffffffff) (scalar_var "" VarType.SInt 3))
    as (ts' & res & Hrun & Hlookup & Hval);
    try reflexivity; try (left; reflexivity); try discriminate.
  exists ts', res. split; [ exact Hrun | split; [ exact Hlookup | exact Hval ] ].
Defined.

(** [UDiv(7, 0)] on an observed lane. *)
Lemma DXOp_UDiv_by_zero_witness :
  exists ts' res,
    finishes (ExecuteInstruction (one_block [udiv_example]) []
                (lane_at 0 [] (Some default_ShaderDebugState))) (true, ts') /\
    m_Variables ts' !! 2 = Some res /\
    u32v (value res) 0 = 0xffffffff /\ u32v (value res) 1 = 0xffffffff.
Proof.
  destruct (DXOp_UDiv_by_zero (one_block [udiv_example]) []
              (lane_at 0 [] (Some default_ShaderDebugState))
              udiv_example (const_i32 7) (const_i32 0)
              (scalar_var "" VarType.SInt 7) (scalar_var "" VarType.SInt 0))
    as (ts' & res & Hrun & Hlookup & Hq & Hr & _);
    try reflexivity; try discriminate.
  exists ts', res. repeat split; assumption.
Defined.

(** [FAbs] on the subnormal SSA operand [%1] reads it as a zero. *)
Lemma denormal_flush_law_example :
  exists a,
    finishes (fetch (lane_at 0 [(1, subnormal_var)] None) (VInstruction f32 1)
                    Operation.Call DXOp.FAbs) a /\
    is_zero binary32 (comp 32 0 (value a)) = true.
Proof.
  destruct denormal_flush_law as (Hoperand & _).
  apply (Hoperand (lane_at 0 [(1, subnormal_var)] None) f32 1 Operation.Call DXOp.FAbs
           subnormal_var); reflexivity.
Defined.

(** [FUnordGreater] on a NaN and 1.0 gives 1. *)
Lemma unordered_comparison_law_example :
  float_lane_format (type (scalar_var "" VarType.Float F32_NAN)) = Some binary32 /\
  exists r,
    finishes (exec_fcmp Operation.FUnordGreater (scalar_var "" VarType.Float F32_NAN)
                        (scalar_var "" VarType.Float F32_ONE)
                        (scalar_var "_2" VarType.Bool 0)) r /\
    u32v (value r) 0 = 1.
Proof.
  split; [ reflexivity | ].
  destruct (unordered_comparison_law binary32 (scalar_var "" VarType.Float F32_NAN)
              (scalar_var "" VarType.Float F32_ONE) (scalar_var "_2" VarType.Bool 0))
    as (Hnan & _); [ reflexivity | ].
  apply (Hnan Operation.FUnordGreater); [ reflexivity | left; reflexivity ].
Defined.

(** [DDX] on a lane without quad neighbours logs the error and returns the
    zeroed value. *)
Lemma derivative_on_broken_quad_example :
  no_quad lone_lane = true /\
  DDX lone_lane false Operation.Call DXOp.DerivCoarseX
      [lone_lane; lone_lane; lone_lane; lone_lane] (VInstruction f32 1) =
    Done zero_value [Error "Derivative calculation within non-quad"].
Proof.
  split; [ reflexivity | ].
  destruct (derivative_on_broken_quad lone_lane [lone_lane; lone_lane; lone_lane; lone_lane]
              false Operation.Call DXOp.DerivCoarseX (VInstruction f32 1))
    as (_ & Hno & _).
  apply (Hno 0 1). reflexivity.
Defined.

(** The phi of block 1 after the jump out of block 0: [%1] was 5 at the
    jump and is 9 in the live table afterwards; the phi yields 5. *)
Lemma phi_reads_snapshot_witness :
  m_Variables phi_later !! 1 = Some (scalar_var "_1" VarType.SInt 9) /\
  m_PreviousBlock phi_later = 0 /\
  finishes (case_Phi phi_later phi_example (scalar_var "_3" VarType.SInt 0))
           (scalar_var "_3" VarType.SInt 5).
Proof.
  split; [ vm_compute; reflexivity | ].
  apply (phi_reads_snapshot phi_function phi_before phi_after phi_later (Some 1) false true
           phi_example (scalar_var "_3" VarType.SInt 0) i32 1).
  - vm_compute. reflexivity.
  - vm_compute. reflexivity.
  - reflexivity.
  - reflexivity.
  - right. left. reflexivity.
  - reflexivity.
  - vm_compute. reflexivity.
Defined.

(** The first lane of an [R8G8B8A8_SNORM] element whose first byte is 0x80
    decodes to -1.0f, and the second lane of an [R16G16_SNORM] element whose
    second code is 0x7fff to 1.0f. *)
Lemma snorm_decode_boundaries_witness :
  (exists r, TypedUAVLoad snorm8_fmt snorm8_data 0 = Done r [] /\ comp 32 0 r = 0xbf800000) /\
  (exists r, TypedUAVLoad snorm16_fmt snorm16_data 0 = Done r [] /\ comp 32 1 r = 0x3f800000).
Proof.
  split.
  - destruct (snorm_decode_boundaries snorm8_fmt snorm8_data 0 0) as [H8 _].
    + reflexivity.
    + vm_compute. split; [ discriminate | reflexivity ].
    + vm_compute. discriminate.
    + destruct H8 as (r & Hrun & Hmin & _).
      * reflexivity.
      * vm_compute. discriminate.
      * vm_compute. split; [ discriminate | reflexivity ].
      * exists r. split; [ exact Hrun | apply Hmin; reflexivity ].
  - destruct (snorm_decode_boundaries snorm16_fmt snorm16_data 0 1) as [_ H16].
    + reflexivity.
    + vm_compute. split; [ discriminate | reflexivity ].
    + vm_compute. discriminate.
    + destruct H16 as (r & Hrun & _ & Hmax).
      * reflexivity.
      * vm_compute. discriminate.
      * exists r. split; [ exact Hrun | apply Hmax; reflexivity ].
Defined.



(** A call on lanes that never leave the loop returns early: after 100
    steps of the observed lane, with the 100 states of these and the lane not
    finished. *)
Lemma looping_lanes_early_return :
  match @ContinueDebug (list FrozenTangle) FrozenTangle frozen_flow
                       (modelled_lanes loop_function) 102 lockstep_debugger with
  | Some (ret_, d') =>
      m_Steps d' = 101 /\ length ret_ = 100%nat /\ active_Finished d' = false
  | None => False
  end.
Proof. vm_compute. repeat split. Qed.


(* ================================================================== *)
(** * Lanes of different views *)
(* ================================================================== *)

Section MixedLanes.

(** The bits of a lane that is read, and of a value after a lane is
    written. *)
Lemma testbit_comp (w c v n : Z) :
  0 <= w -> 0 <= c -> 0 <= n ->
  Z.testbit (comp w c v) n = (n <? w) && Z.testbit v (n + w * c).
Proof.
  intros Hw Hc Hn. unfold comp.
  rewrite Z.land_spec, Z.shiftr_spec, testbit_ones_nonneg by lia.
  apply andb_comm.
Qed.

Lemma testbit_set_comp (w c x v n : Z) :
  0 <= w -> 0 <= c -> 0 <= n ->
  Z.testbit (set_comp w c x v) n =
    if (w * c <=? n) && (n <? w * c + w) then Z.testbit x (n - w * c) else Z.testbit v n.
Proof.
  intros Hw Hc Hn. unfold set_comp.
  rewrite Z.lor_spec, Z.ldiff_spec.
  destruct (Z.leb_spec (w * c) n) as [Hlow | Hlow]; cbn [andb].
  - rewrite !Z.shiftl_spec by nia.
    rewrite Z.land_spec, testbit_ones_nonneg by lia.
    destruct (Z.ltb_spec n (w * c + w)) as [Hhigh | Hhigh].
    + replace (n - w * c <? w) with true by (symmetry; apply Z.ltb_lt; lia).
      cbn [negb]. rewrite andb_false_r, andb_true_r. reflexivity.
    + replace (n - w * c <? w) with false by (symmetry; apply Z.ltb_ge; lia).
      cbn [negb]. rewrite andb_true_r, andb_false_r, orb_false_r. reflexivity.
  - rewrite !(Z.shiftl_spec_low _ _ _ Hlow). cbn [negb].
    rewrite andb_true_r, orb_false_r. reflexivity.
Qed.

(** Writing a lane of one view leaves the lanes of any view that do not
    overlap it as they were. *)
Lemma comp_set_comp_disjoint (w c w' c' x v : Z) :
  0 <= w -> 0 <= c -> 0 <= w' -> 0 <= c' ->
  w' * c' + w' <= w * c \/ w * c + w <= w' * c' ->
  comp w' c' (set_comp w c x v) = comp w' c' v.
Proof.
  intros Hw Hc Hw' Hc' Hdisjoint.
  apply Z.bits_inj'. intros n Hn.
  rewrite !testbit_comp by lia.
  destruct (Z.ltb_spec n w') as [Hlt | Hge]; [ cbn [andb] | reflexivity ].
  rewrite testbit_set_comp by nia.
  replace ((w * c <=? n + w' * c') && (n + w' * c' <? w * c + w)) with false;
    [ reflexivity | ].
  symmetry. apply andb_false_iff.
  destruct Hdisjoint; [ left; apply Z.leb_gt; lia | right; apply Z.ltb_ge; lia ].
Qed.

(** A write that covers a lane decides what is read from it. *)
Lemma comp_set_comp_inside (w c w' c' x v : Z) :
  0 <= w -> 0 <= c -> 0 <= w' -> 0 <= c' ->
  w * c <= w' * c' -> w' * c' + w' <= w * c + w ->
  comp w' c' (set_comp w c x v) = Z.land (Z.shiftr x (w' * c' - w * c)) (Z.ones w').
Proof.
  intros Hw Hc Hw' Hc' Hlow Hhigh.
  apply Z.bits_inj'. intros n Hn.
  rewrite testbit_comp, Z.land_spec, Z.shiftr_spec, testbit_ones_nonneg by lia.
  destruct (Z.ltb_spec n w') as [Hlt | Hge];
    [ cbn [andb] | rewrite andb_false_r; reflexivity ].
  rewrite testbit_set_comp by nia.
  replace ((w * c <=? n + w' * c') && (n + w' * c' <? w * c + w)) with true.
  - rewrite andb_true_r. f_equal. lia.
  - symmetry. apply andb_true_iff. split; [ apply Z.leb_le | apply Z.ltb_lt ]; lia.
Qed.

End MixedLanes.
(* ================================================================== *)
(** * Encoded pointers and annotated handles *)
(* ================================================================== *)

Section Pointers.

Lemma value_EncodePointer (ptrId offset size : Z) (var : ShaderVariable) :
  value (EncodePointer ptrId offset size var) =
    set_u64v 2 size (set_u64v 1 offset
      (set_u32v 1 POINTER_MAGIC (set_u32v 0 ptrId (value var)))).
Proof. reflexivity. Qed.

Lemma type_EncodePointer (ptrId offset size : Z) (var : ShaderVariable) :
  type (EncodePointer ptrId offset size var) = VarType.GPUPointer.
Proof. reflexivity. Qed.

(** The four fields of an encoded pointer. *)
Lemma EncodePointer_fields (ptrId offset size : Z) (var : ShaderVariable) :
  let v := value (EncodePointer ptrId offset size var) in
  u32v v 0 = wrap 32 ptrId /\ u32v v 1 = POINTER_MAGIC /\
  u64v v 1 = wrap 64 offset /\ u64v v 2 = wrap 64 size.
Proof.
  cbv zeta. rewrite value_EncodePointer.
  unfold u32v, u64v, set_u32v, set_u64v, wrap.
  repeat split.
  - rewrite !comp_set_comp_disjoint by lia.
    rewrite comp_set_comp_same by lia. apply Z.land_ones. lia.
  - rewrite !comp_set_comp_disjoint by lia.
    rewrite comp_set_comp_same by lia. reflexivity.
  - rewrite comp_set_comp_disjoint by lia.
    rewrite comp_set_comp_same by lia. apply Z.land_ones. lia.
  - rewrite comp_set_comp_same by lia. apply Z.land_ones. lia.
Qed.

(** The lanes of the 32 bit view from 6 on are not part of the encoding. *)
Lemma EncodePointer_high_lanes (ptrId offset size c : Z) (var : ShaderVariable) :
  6 <= c ->
  u32v (value (EncodePointer ptrId offset size var)) c = u32v (value var) c.
Proof.
  intros Hc. rewrite value_EncodePointer.
  unfold u32v, set_u32v, set_u64v.
  rewrite !comp_set_comp_disjoint by lia. reflexivity.
Qed.

End Pointers.

(** X1.  Pointer encoding round trip.  Whatever variable [EncodePointer]
    overwrites, [DecodePointer] accepts the result without logging anything
    and returns the pointer id, the offset and the size that were encoded
    (as the 32 bit id and the two 64 bit numbers the parameters hold). *)
Theorem pointer_round_trip (ptrId offset size : Z) (var : ShaderVariable) :
  DecodePointer (EncodePointer ptrId offset size var) =
    Done (Some (wrap 32 ptrId, wrap 64 offset, wrap 64 size)) [].
Proof.
  destruct (EncodePointer_fields ptrId offset size var) as (H0 & H1 & H2 & H3).
  unfold DecodePointer. rewrite type_EncodePointer.
  change (negb (VarType.eqb VarType.GPUPointer VarType.GPUPointer)) with false.
  cbv iota. rewrite H0, H1, H2, H3. rewrite Z.eqb_refl. reflexivity.
Qed.

(** X2.  The annotated-handle mark lives in lane 15 of the 32 bit view, away
    from an encoded pointer: setting the mark makes [IsAnnotatedHandle] true
    and clearing it makes it false, whatever the variable held; neither
    changes what [DecodePointer] returns or logs; and [EncodePointer] keeps
    the mark as it was. *)
Theorem annotated_handle_mark (var : ShaderVariable) :
  IsAnnotatedHandle (SetAnnotatedHandle var) = true /\
  IsAnnotatedHandle (ClearAnnotatedHandle var) = false /\
  DecodePointer (SetAnnotatedHandle var) = DecodePointer var /\
  DecodePointer (ClearAnnotatedHandle var) = DecodePointer var /\
  (forall ptrId offset size,
     IsAnnotatedHandle (EncodePointer ptrId offset size var) = IsAnnotatedHandle var).
Proof.
  assert (Hlow : forall x c w, 0 < w -> 0 <= c -> w * c + w <= 480 ->
                   comp w c (set_u32v 15 x (value var)) = comp w c (value var)).
  { intros x c w Hw Hc Hle. unfold set_u32v. apply comp_set_comp_disjoint; lia. }
  assert (Hdecode : forall x,
            DecodePointer (with_value (set_u32v 15 x (value var)) var) = DecodePointer var).
  { intros x. unfold DecodePointer, u32v, u64v. cbn [type value with_value].
    rewrite !Hlow by lia. reflexivity. }
  split; [ | split; [ | split; [ | split ] ] ].
  - unfold IsAnnotatedHandle, SetAnnotatedHandle, u32v, set_u32v. cbn [value with_value].
    rewrite comp_set_comp_same by lia. reflexivity.
  - unfold IsAnnotatedHandle, ClearAnnotatedHandle, u32v, set_u32v. cbn [value with_value].
    rewrite comp_set_comp_same by lia. reflexivity.
  - apply Hdecode.
  - apply Hdecode.
  - intros ptrId offset size. unfold IsAnnotatedHandle.
    rewrite EncodePointer_high_lanes by lia. reflexivity.
Qed.
(* ================================================================== *)
(** * Normal numbers *)
(* ================================================================== *)

Section NormalNumbers.

(** A lane without its sign bit splits into the exponent field and the
    trailing significand. *)
Lemma fields_split (m e x : Z) :
  0 < m -> 0 < e ->
  let ex := Z.land (Z.shiftr x m) (Z.ones e) in
  Z.land x (Z.ones (m + e)) = ex * 2 ^ m + x mod 2 ^ m /\
  0 <= x mod 2 ^ m < 2 ^ m /\ 0 <= ex < 2 ^ e.
Proof.
  intros Hm He. cbv zeta.
  assert (Hpm : 0 < 2 ^ m) by (apply Z.pow_pos_nonneg; lia).
  assert (Hpe : 0 < 2 ^ e) by (apply Z.pow_pos_nonneg; lia).
  rewrite !Z.land_ones by lia. rewrite Z.shiftr_div_pow2 by lia.
  rewrite Z.pow_add_r by lia.
  rewrite Z.rem_mul_r by lia.
  split; [ lia | ]. split; apply Z.mod_pos_bound; assumption.
Qed.

(** A lane decodes to a finite number unless its exponent field is all
    ones. *)
Lemma RDCISFINITE_float_of_bits (fmt : FloatFormat) (x : Z) :
  0 <= mant_bits fmt -> 0 < exp_bits fmt ->
  RDCISFINITE (float_of_bits fmt x) = negb (exp_field fmt x =? Z.ones (exp_bits fmt)).
Proof.
  intros Hm He. unfold float_of_bits. cbv zeta.
  assert (Hones : 0 < Z.ones (exp_bits fmt)).
  { rewrite Z.ones_equiv.
    assert (2 ^ 1 <= 2 ^ exp_bits fmt) by (apply Z.pow_le_mono_r; lia). lia. }
  destruct (Z.eqb_spec (exp_field fmt x) 0) as [E0 | E0].
  - destruct (Z.eqb_spec (exp_field fmt x) (Z.ones (exp_bits fmt))) as [E1 | E1].
    + lia.
    + destruct (mant_field fmt x); reflexivity.
  - destruct (Z.eqb_spec (exp_field fmt x) (Z.ones (exp_bits fmt))) as [E1 | E1].
    + destruct (mant_field fmt x =? 0); reflexivity.
    + assert (Hpos : 0 < 2 ^ mant_bits fmt) by (apply Z.pow_pos_nonneg; lia).
      destruct (Z.lor (mant_field fmt x) (2 ^ mant_bits fmt)) as [ | p | p ] eqn:EL.
      * apply Z.lor_eq_0_iff in EL. lia.
      * reflexivity.
      * assert (Hnn : 0 <= Z.lor (mant_field fmt x) (2 ^ mant_bits fmt)).
        { apply Z.lor_nonneg. split; [ | lia ].
          unfold mant_field. apply Z.land_nonneg. right.
          rewrite Z.ones_equiv. lia. }
        rewrite EL in Hnn. lia.
Qed.

(** Neither a zero nor a subnormal: the exponent field is not zero. *)
Lemma not_zero_not_subnormal (fmt : FloatFormat) (x : Z) :
  negb (is_zero fmt x) && negb (is_subnormal fmt x) = negb (exp_field fmt x =? 0).
Proof.
  unfold is_zero, is_subnormal.
  destruct (exp_field fmt x =? 0), (mant_field fmt x =? 0); reflexivity.
Qed.

Lemma RDCISNORMAL_float_fields (x : Z) :
  RDCISNORMAL_float x =
    negb (exp_field binary32 x =? 0) && negb (exp_field binary32 x =? 255).
Proof.
  destruct (fields_split 23 8 x) as (Hu & Hm & He); [ lia | lia | ].
  unfold RDCISNORMAL_float. cbv zeta.
  change 0x7fffffff with (Z.ones (23 + 8)). rewrite Hu.
  change (exp_field binary32 x) with (Z.land (Z.shiftr x 23) (Z.ones 8)).
  remember (Z.land (Z.shiftr x 23) (Z.ones 8)) as e eqn:Ee. clear Ee Hu.
  remember (x mod 2 ^ 23) as m eqn:Em. clear Em.
  change (2 ^ 23) with 8388608 in *. change (2 ^ 8) with 256 in *.
  destruct (Z.ltb_spec (e * 8388608 + m) 0x800000) as [H1 | H1];
    destruct (Z.eqb_spec e 0) as [H2 | H2]; try lia; cbn [negb andb]; try reflexivity.
  destruct (Z.leb_spec 0x7f800000 (e * 8388608 + m)) as [H3 | H3];
    destruct (Z.eqb_spec e 255) as [H4 | H4]; try lia; reflexivity.
Qed.

Lemma RDCISNORMAL_double_fields (x : Z) :
  RDCISNORMAL_double x =
    (8 <=? exp_field binary64 x) && negb (exp_field binary64 x =? 2047).
Proof.
  destruct (fields_split 52 11 x) as (Hu & Hm & He); [ lia | lia | ].
  unfold RDCISNORMAL_double. cbv zeta.
  change 0x7fffffffffffffff with (Z.ones (52 + 11)). rewrite Hu.
  change (exp_field binary64 x) with (Z.land (Z.shiftr x 52) (Z.ones 11)).
  remember (Z.land (Z.shiftr x 52) (Z.ones 11)) as e eqn:Ee. clear Ee Hu.
  remember (x mod 2 ^ 52) as m eqn:Em. clear Em.
  change (2 ^ 52) with 4503599627370496 in *. change (2 ^ 11) with 2048 in *.
  destruct (Z.ltb_spec (e * 4503599627370496 + m) 0x80000000000000) as [H1 | H1];
    destruct (Z.leb_spec 8 e) as [H2 | H2]; try lia; cbn [negb andb]; try reflexivity.
  destruct (Z.leb_spec 0x7ff0000000000000 (e * 4503599627370496 + m)) as [H3 | H3];
    destruct (Z.eqb_spec e 2047) as [H4 | H4]; try lia; reflexivity.
Qed.

End NormalNumbers.

(** X3.  [RDCISNORMAL(float)] is exact: for every 32 bit pattern it answers
    true just when the pattern is neither a zero nor a subnormal and decodes
    to a finite number, that is, when its exponent field is neither 0 nor
    255. *)
Theorem RDCISNORMAL_float_exact (x : Z) :
  RDCISNORMAL_float x =
    negb (is_zero binary32 x) && negb (is_subnormal binary32 x)
    && RDCISFINITE (float_of_bits binary32 x).
Proof.
  rewrite RDCISNORMAL_float_fields, not_zero_not_subnormal.
  rewrite RDCISFINITE_float_of_bits by (cbn; lia). reflexivity.
Qed.

(** X4.  [RDCISNORMAL(double)] compares against 0x80000000000000, which is
    2^55 and not the smallest normal double 2^52: it answers true just when
    the exponent field is between 8 and 2046.  A double whose exponent field
    is between 1 and 7 is finite, not a zero and not a subnormal, and is
    still reported as not normal. *)
Theorem RDCISNORMAL_double_threshold (x : Z) :
  RDCISNORMAL_double x =
    (8 <=? exp_field binary64 x) && (exp_field binary64 x <=? 2046) /\
  (1 <= exp_field binary64 x <= 7 ->
   is_zero binary64 x = false /\ is_subnormal binary64 x = false /\
   RDCISFINITE (float_of_bits binary64 x) = true /\
   RDCISNORMAL_double x = false).
Proof.
  assert (He : 0 <= exp_field binary64 x < 2048).
  { unfold exp_field. rewrite Z.land_ones by (cbn; lia).
    apply Z.mod_pos_bound. reflexivity. }
  rewrite RDCISNORMAL_double_fields. split.
  - destruct (Z.eqb_spec (exp_field binary64 x) 2047) as [E | E];
      destruct (Z.leb_spec (exp_field binary64 x) 2046) as [E' | E']; try lia; reflexivity.
  - intros Hsmall.
    rewrite RDCISFINITE_float_of_bits by (cbn; lia).
    change (Z.ones (exp_bits binary64)) with 2047.
    unfold is_zero, is_subnormal.
    destruct (Z.eqb_spec (exp_field binary64 x) 0) as [E0 | E0]; [ lia | ].
    destruct (Z.eqb_spec (exp_field binary64 x) 2047) as [E1 | E1]; [ lia | ].
    destruct (Z.leb_spec 8 (exp_field binary64 x)) as [E2 | E2]; [ lia | ].
    repeat split; reflexivity.
Qed.
(* ================================================================== *)
(** * Typed UAV stores *)
(* ================================================================== *)

Section Bytes.

Lemma lor_shiftl_byte (b r : Z) :
  0 <= b < 256 -> Z.lor b (Z.shiftl r 8) = b + 256 * r.
Proof.
  intros Hb. rewrite <- Z.add_nocarry_lor.
  - rewrite Z.shiftl_mul_pow2 by lia. change (2 ^ 8) with 256. lia.
  - apply Z.bits_inj'. intros n Hn. rewrite Z.land_spec, Z.bits_0.
    destruct (Z.lt_ge_cases n 8) as [Hlt | Hge].
    + rewrite (Z.shiftl_spec_low _ _ _ Hlt). apply andb_false_r.
    + replace (Z.testbit b n) with false; [ reflexivity | ].
      symmetry. apply Z.bits_above_log2; [ lia | ].
      destruct (Z.eq_dec b 0) as [-> | Hnz]; [ simpl; lia | ].
      apply Z.log2_lt_pow2; [ lia | ].
      assert (2 ^ 8 <= 2 ^ n) by (apply Z.pow_le_mono_r; lia).
      change (2 ^ 8) with 256 in *. lia.
Qed.

Lemma of_bytes_cons (b : Z) (bs : list Z) :
  0 <= b < 256 -> of_bytes (b :: bs) = b + 256 * of_bytes bs.
Proof. intros Hb. cbn [of_bytes]. apply lor_shiftl_byte. exact Hb. Qed.

Lemma of_bytes_range (bs : list Z) :
  is_bytes bs -> 0 <= of_bytes bs < 2 ^ (8 * Z.of_nat (length bs)).
Proof.
  induction 1 as [ | b bs Hb Hbs IH ].
  - cbn. lia.
  - rewrite of_bytes_cons by exact Hb.
    replace (8 * Z.of_nat (length (b :: bs))) with (8 + 8 * Z.of_nat (length bs))
      by (cbn [length]; lia).
    rewrite Z.pow_add_r by lia. change (2 ^ 8) with 256. lia.
Qed.

(** The bytes of the number a byte list holds are the list. *)
Lemma bytes_of_of_bytes (bs : list Z) :
  is_bytes bs -> bytes_of (length bs) (of_bytes bs) = bs.
Proof.
  induction 1 as [ | b bs Hb Hbs IH ].
  - reflexivity.
  - rewrite of_bytes_cons by exact Hb. cbn [length bytes_of]. f_equal.
    + change 0xff with (Z.ones 8). rewrite Z.land_ones by lia.
      change (2 ^ 8) with 256.
      replace (b + 256 * of_bytes bs) with (b + of_bytes bs * 256) by lia.
      rewrite Z.mod_add by lia. apply Z.mod_small. lia.
    + rewrite Z.shiftr_div_pow2 by lia. change (2 ^ 8) with 256.
      replace (b + 256 * of_bytes bs) with (b + of_bytes bs * 256) by lia.
      rewrite Z.div_add by lia.
      rewrite Z.div_small by lia. rewrite Z.add_0_l. exact IH.
Qed.

(** The number the bytes of [x] hold is [x] cut to that many bytes. *)
Lemma of_bytes_bytes_of (n : nat) (x : Z) :
  of_bytes (bytes_of n x) = Z.land x (Z.ones (8 * Z.of_nat n)).
Proof.
  revert x. induction n as [ | n IH ]; intros x.
  - cbn. rewrite Z.land_0_r. reflexivity.
  - cbn [bytes_of]. rewrite of_bytes_cons.
    + rewrite IH. rewrite !Z.land_ones by lia.
      change 0xff with (Z.ones 8). rewrite Z.land_ones by lia.
      rewrite Z.shiftr_div_pow2 by lia.
      replace (8 * Z.of_nat (S n)) with (8 + 8 * Z.of_nat n) by lia.
      rewrite Z.pow_add_r by lia.
      rewrite Z.rem_mul_r; [ lia | lia | apply Z.pow_pos_nonneg; lia ].
    + change 0xff with (Z.ones 8). rewrite Z.land_ones by lia.
      apply Z.mod_pos_bound. reflexivity.
Qed.

Lemma is_bytes_bytes_of (n : nat) (x : Z) : is_bytes (bytes_of n x).
Proof.
  revert x. induction n as [ | n IH ]; intros x; constructor.
  - change 0xff with (Z.ones 8). rewrite Z.land_ones by lia.
    apply Z.mod_pos_bound. reflexivity.
  - apply IH.
Qed.

Lemma length_bytes_of (n : nat) (x : Z) : length (bytes_of n x) = n.
Proof.
  revert x. induction n as [ | n IH ]; intros x; cbn [bytes_of length];
    [ reflexivity | rewrite IH; reflexivity ].
Qed.

Lemma is_bytes_segment (d : list Z) (off n : nat) :
  is_bytes d -> is_bytes (take n (drop off d)).
Proof.
  intros Hd. unfold is_bytes in *. apply Forall_take. apply Forall_drop. exact Hd.
Qed.

(** Writing back what is there changes nothing. *)
Lemma write_bytes_same (d : list Z) (off n : nat) :
  (off + n <= length d)%nat ->
  write_bytes d (Z.of_nat off) (take n (drop off d)) = Done d [].
Proof.
  intros Hlen. unfold write_bytes.
  assert (Hseg : length (take n (drop off d)) = n).
  { rewrite length_take, length_drop. lia. }
  rewrite Hseg.
  replace ((0 <=? Z.of_nat off) && (Z.of_nat off + Z.of_nat n <=? Z.of_nat (length d)))
    with true by (symmetry; apply andb_true_iff; split; apply Z.leb_le; lia).
  rewrite Nat2Z.id. unfold ret. f_equal.
  rewrite <- (drop_drop d n off).
  rewrite take_drop. apply take_drop.
Qed.

End Bytes.

Section Elements.

(** Element [c] of a buffer of [n]-byte elements. *)
Lemma read_elem_segment (d : list Z) (n c : Z) :
  0 <= n -> 0 <= c -> n * c + n <= Z.of_nat (length d) ->
  read_elem d n c = Done (of_bytes (take (Z.to_nat n) (drop (Z.to_nat (n * c)) d))) [].
Proof.
  intros Hn Hc Hlen. unfold read_elem, read_bytes.
  replace ((0 <=? n * c) && (0 <=? n) && (n * c + n <=? Z.of_nat (length d)))
    with true by (symmetry; rewrite !andb_true_iff; repeat split; apply Z.leb_le; nia).
  reflexivity.
Qed.

(** Writing an element with the number it holds changes nothing. *)
Lemma write_elem_same (d : list Z) (n c : Z) :
  is_bytes d -> 0 <= n -> 0 <= c -> n * c + n <= Z.of_nat (length d) ->
  write_elem d n c (of_bytes (take (Z.to_nat n) (drop (Z.to_nat (n * c)) d))) = Done d [].
Proof.
  intros Hd Hn Hc Hlen. unfold write_elem.
  assert (Hseg : length (take (Z.to_nat n) (drop (Z.to_nat (n * c)) d)) = Z.to_nat n).
  { rewrite length_take, length_drop. nia. }
  rewrite <- Hseg at 1.
  rewrite bytes_of_of_bytes by (apply is_bytes_segment; exact Hd).
  replace (n * c) with (Z.of_nat (Z.to_nat (n * c))) at 1 by nia.
  apply write_bytes_same. nia.
Qed.

Lemma elem_range (d : list Z) (n c : Z) :
  is_bytes d -> 0 <= n -> 0 <= c -> n * c + n <= Z.of_nat (length d) ->
  0 <= of_bytes (take (Z.to_nat n) (drop (Z.to_nat (n * c)) d)) < 2 ^ (8 * n).
Proof.
  intros Hd Hn Hc Hlen.
  pose proof (of_bytes_range _ (is_bytes_segment d (Z.to_nat (n * c)) (Z.to_nat n) Hd)) as H.
  rewrite length_take, length_drop in H.
  replace (Z.of_nat (Z.to_nat n `min` (length d - Z.to_nat (n * c)))) with n in H by nia.
  exact H.
Qed.

(** A loop whose body leaves the buffer as it is. *)
Lemma for_comps_bytes_same (body : Z -> list Z -> Outcome (list Z)) (d : list Z) :
  forall (n : nat) (c0 : Z),
    (forall c, c0 <= c < c0 + Z.of_nat n -> body c d = Done d []) ->
    for_comps_bytes n c0 body d = Done d [].
Proof.
  induction n as [ | n IH ]; intros c0 Hbody.
  - reflexivity.
  - cbn [for_comps_bytes]. rewrite Hbody by lia. unfold bind.
    rewrite IH; [ reflexivity | ]. intros c Hc. apply Hbody. lia.
Qed.

End Elements.

Section StoreOfLoad.

Lemma wrap_signed (w e : Z) : 0 < w -> 0 <= e < 2 ^ w -> wrap w (signed w e) = e.
Proof.
  intros Hw He. unfold wrap, signed.
  destruct (Z.ltb_spec e (2 ^ (w - 1))).
  - apply Z.mod_small. exact He.
  - replace (e - 2 ^ w) with (e + (-1) * 2 ^ w) by lia.
    rewrite Z.mod_add by lia. apply Z.mod_small. exact He.
Qed.

Lemma RDCCLAMP_inside (val mn mx : Z) : mn <= val <= mx -> RDCCLAMP val mn mx = val.
Proof.
  intros H. unfold RDCCLAMP.
  destruct (Z.ltb_spec val mn); [ lia | ]. destruct (Z.ltb_spec mx val); [ lia | reflexivity ].
Qed.

Lemma decode_elem_integer (fmt : ViewFmt) (d : list Z) (c : Z) :
  integer_format fmt = true ->
  0 <= c -> byteWidth fmt * c + byteWidth fmt <= Z.of_nat (length d) ->
  decode_elem (byteWidth fmt) (compType fmt) d c =
    Some (Done (widen (byteWidth fmt) (compType fmt)
                  (of_bytes (take (Z.to_nat (byteWidth fmt))
                                  (drop (Z.to_nat (byteWidth fmt * c)) d)))) []).
Proof.
  intros Hfmt Hc Hlen. unfold integer_format in Hfmt.
  destruct fmt as [bw n ct st]. cbn [byteWidth numComps compType] in *.
  destruct (Z.eqb_spec bw 4) as [-> | H4].
  - unfold decode_elem, widen. cbn [Z.eqb Pos.eqb].
    rewrite read_elem_segment by lia. reflexivity.
  - cbn [orb] in Hfmt. apply andb_true_iff in Hfmt as [Hbw Hct].
    destruct (Z.eqb_spec bw 2) as [-> | H2].
    + unfold decode_elem, widen. cbn [Z.eqb Pos.eqb].
      rewrite read_elem_segment by lia.
      destruct ct; try discriminate; reflexivity.
    + cbn [orb] in Hbw. apply Z.eqb_eq in Hbw. subst bw.
      unfold decode_elem, widen. cbn [Z.eqb Pos.eqb].
      rewrite read_elem_segment by lia.
      destruct ct; try discriminate; reflexivity.
Qed.

Lemma encode_lane_integer (fmt : ViewFmt) (e : Z) :
  integer_format fmt = true ->
  0 <= e < 2 ^ (8 * byteWidth fmt) ->
  encode_lane (byteWidth fmt) (compType fmt)
    (Z.land (widen (byteWidth fmt) (compType fmt) e) (Z.ones 32)) = Some (Done e []).
Proof.
  intros Hfmt He. unfold integer_format in Hfmt.
  destruct fmt as [bw n ct st]. cbn [byteWidth numComps compType] in *.
  destruct (Z.eqb_spec bw 4) as [-> | H4].
  - unfold encode_lane, widen. cbn [Z.eqb Pos.eqb].
    rewrite land_ones_small by (change (8 * 4) with 32 in He; lia). reflexivity.
  - cbn [orb] in Hfmt. apply andb_true_iff in Hfmt as [Hbw Hct].
    destruct (Z.eqb_spec bw 2) as [-> | H2].
    + change (8 * 2) with 16 in He. change (2 ^ 16) with 65536 in He.
      unfold encode_lane, widen. cbn [Z.eqb Pos.eqb]. change (8 * 2) with 16.
      destruct ct; try discriminate; unfold ret; do 2 f_equal.
      * rewrite land_ones_small by lia. change 0xffff with (Z.ones 16).
        apply land_ones_small; lia.
      * pose proof (signed_range 16 e ltac:(lia) ltac:(change (2 ^ 16) with 65536; lia)) as Hs.
        change (2 ^ (16 - 1)) with 32768 in Hs.
        rewrite (signed_land_ones 32) by (change (2 ^ (32 - 1)) with 2147483648; lia).
        rewrite RDCCLAMP_inside by (unfold INT16_MIN, INT16_MAX; lia).
        apply wrap_signed; [ lia | change (2 ^ 16) with 65536; lia ].
    + cbn [orb] in Hbw. apply Z.eqb_eq in Hbw. subst bw.
      change (8 * 1) with 8 in He. change (2 ^ 8) with 256 in He.
      unfold encode_lane, widen. cbn [Z.eqb Pos.eqb]. change (8 * 1) with 8.
      destruct ct; try discriminate; unfold ret; do 2 f_equal.
      * rewrite land_ones_small by lia. change 0xff with (Z.ones 8).
        apply land_ones_small; lia.
      * pose proof (signed_range 8 e ltac:(lia) ltac:(change (2 ^ 8) with 256; lia)) as Hs.
        change (2 ^ (8 - 1)) with 128 in Hs.
        rewrite (signed_land_ones 32) by (change (2 ^ (32 - 1)) with 2147483648; lia).
        rewrite RDCCLAMP_inside by (unfold INT8_MIN, INT8_MAX; lia).
        apply wrap_signed; [ lia | change (2 ^ 8) with 256; lia ].
Qed.

(** The lanes [TypedUAVLoad] fills from a buffer of one, two or four byte
    elements that decode without a report. *)
Lemma TypedUAVLoad_lanes (fmt : ViewFmt) (d : list Z) (uninit : ShaderValue) (g : Z -> Z) :
  byteWidth fmt = 4 \/ byteWidth fmt = 2 \/ byteWidth fmt = 1 ->
  0 <= numComps fmt <= 4 ->
  is_Some (decode_elem (byteWidth fmt) (compType fmt) d 0) ->
  (forall c, 0 <= c < numComps fmt ->
             decode_elem (byteWidth fmt) (compType fmt) d c = Some (Done (g c) [])) ->
  exists v,
    TypedUAVLoad fmt d uninit = Done v [] /\
    forall c, 0 <= c < numComps fmt -> comp 32 c v = Z.land (g c) (Z.ones 32).
Proof.
  intros Hbw Hn [m0 Hm0] Hdecode.
  set (r0 := set_comp 32 3 F32_ZERO (set_comp 32 2 F32_ZERO
               (set_comp 32 1 F32_ZERO (set_comp 32 0 F32_ZERO uninit)))).
  destruct (for_comps_lanes g
              (fun c r => match decode_elem (byteWidth fmt) (compType fmt) d c with
                          | Some m => x <- m ;; store_lane c x r
                          | None => ret r
                          end)
              (Z.to_nat (numComps fmt)) 0 r0) as (r' & Hrun & Hin & _).
  - lia.
  - intros k rk Hk. rewrite Hdecode by lia. unfold store_lane.
    replace ((0 <=? k) && (k <? 16)) with true
      by (symmetry; rewrite andb_true_iff; split; [ apply Z.leb_le | apply Z.ltb_lt ]; lia).
    reflexivity.
  - assert (Hwidth : (byteWidth fmt =? 10) = false /\ (byteWidth fmt =? 11) = false /\
                     (byteWidth fmt =? 4) || (byteWidth fmt =? 2) || (byteWidth fmt =? 1)
                     = true).
    { destruct Hbw as [-> | [-> | ->]]; repeat split; reflexivity. }
    destruct Hwidth as (H10 & H11 & H421).
    unfold TypedUAVLoad. fold r0. rewrite H10, H11, H421, Hm0. rewrite Hrun.
    cbv [bind ret app].
    destruct (numComps fmt <? 4) eqn:E4.
    + assert (Hlanes : forall x c, 0 <= c < numComps fmt ->
                         comp 32 c (set_comp 32 3 x r') = Z.land (g c) (Z.ones 32)).
      { intros x c Hc. apply Z.ltb_lt in E4.
        rewrite comp_set_comp_other by lia. apply Hin. lia. }
      destruct (compType fmt); eexists; (split; [ reflexivity | apply Hlanes ]).
    + exists r'. split; [ reflexivity | ]. intros c Hc. apply Hin. lia.
Qed.

End StoreOfLoad.

(** X6.  A typed load followed by a typed store of what was loaded leaves
    the buffer as it was, and neither logs anything: this holds for every
    format of four byte elements and for the [UInt] and [SInt] formats of
    two byte and one byte elements, with up to four components that lie
    inside the buffer.  (Buffer stores load the element, replace components
    and store it back.) *)
Theorem typed_store_of_load (fmt : ViewFmt) (d : list Z) (uninit : ShaderValue) :
  integer_format fmt = true ->
  0 <= numComps fmt <= 4 ->
  is_bytes d ->
  byteWidth fmt * numComps fmt <= Z.of_nat (length d) ->
  exists v,
    TypedUAVLoad fmt d uninit = Done v [] /\
    TypedUAVStore fmt d v = Done d [].
Proof.
  intros Hfmt Hn Hd Hlen.
  assert (Hbw : byteWidth fmt = 4 \/ byteWidth fmt = 2 \/ byteWidth fmt = 1).
  { unfold integer_format in Hfmt.
    destruct (Z.eqb_spec (byteWidth fmt) 4); [ left; assumption | ].
    destruct (Z.eqb_spec (byteWidth fmt) 2); [ right; left; assumption | ].
    destruct (Z.eqb_spec (byteWidth fmt) 1); [ right; right; assumption | discriminate ]. }
  set (elem c := of_bytes (take (Z.to_nat (byteWidth fmt))
                                (drop (Z.to_nat (byteWidth fmt * c)) d))).
  assert (Hsome : forall x, is_Some (encode_lane (byteWidth fmt) (compType fmt) x)).
  { intros x. unfold integer_format in Hfmt. unfold encode_lane.
    destruct Hbw as [E | [E | E]]; rewrite E in *; cbn [Z.eqb Pos.eqb orb andb] in *;
      [ eexists; reflexivity | | ];
      destruct (compType fmt); try discriminate; eexists; reflexivity. }
  assert (Hsome' : is_Some (decode_elem (byteWidth fmt) (compType fmt) d 0)).
  { unfold integer_format in Hfmt. unfold decode_elem.
    destruct Hbw as [E | [E | E]]; rewrite E in *; cbn [Z.eqb Pos.eqb orb andb] in *;
      [ eexists; reflexivity | | ];
      destruct (compType fmt); try discriminate; eexists; reflexivity. }
  destruct (TypedUAVLoad_lanes fmt d uninit
              (fun c => widen (byteWidth fmt) (compType fmt) (elem c)) Hbw Hn Hsome')
    as (v & Hload & Hlanes).
  { intros c Hc. apply decode_elem_integer; [ exact Hfmt | lia | nia ]. }
  exists v. split; [ exact Hload | ].
  assert (Hwidth : (byteWidth fmt =? 10) = false /\ (byteWidth fmt =? 11) = false /\
                   (byteWidth fmt =? 4) || (byteWidth fmt =? 2) || (byteWidth fmt =? 1)
                   = true).
  { destruct Hbw as [-> | [-> | ->]]; repeat split; reflexivity. }
  destruct Hwidth as (H10 & H11 & H421).
  unfold TypedUAVStore. rewrite H10, H11, H421.
  destruct (Hsome 0) as [m0 ->].
  apply for_comps_bytes_same. intros c Hc.
  unfold load_lane.
  replace ((0 <=? c) && (c <? 16)) with true
    by (symmetry; rewrite andb_true_iff; split; [ apply Z.leb_le | apply Z.ltb_lt ]; lia).
  cbv [bind ret]. rewrite Hlanes by lia.
  rewrite encode_lane_integer.
  - cbv [app]. rewrite write_elem_same; [ reflexivity | exact Hd | lia | lia | nia ].
  - exact Hfmt.
  - apply elem_range; [ exact Hd | lia | lia | nia ].
Qed.

Section Normalised.

Lemma write_elem_byte (d : list Z) (c x : Z) :
  0 <= c < Z.of_nat (length d) -> 0 <= x < 256 ->
  write_elem d 1 c x = Done (<[Z.to_nat c := x]> d) [].
Proof.
  intros Hc Hx. unfold write_elem, write_bytes.
  change (bytes_of (Z.to_nat 1) x) with [Z.land x 0xff].
  change 0xff with (Z.ones 8). rewrite land_ones_small by (change (2 ^ 8) with 256; lia).
  cbn [length].
  replace ((0 <=? 1 * c) && (1 * c + Z.of_nat 1 <=? Z.of_nat (length d)))
    with true by (symmetry; apply andb_true_iff; split; apply Z.leb_le; lia).
  unfold ret. f_equal.
  replace (1 * c) with c by lia.
  rewrite insert_take_drop by lia.
  replace (Z.to_nat c + 1)%nat with (S (Z.to_nat c)) by lia. reflexivity.
Qed.

(** A loop whose body overwrites byte [c] with [k c]. *)
Lemma for_comps_bytes_map (k : Z -> Z) (body : Z -> list Z -> Outcome (list Z))
    (len : nat) :
  forall (n : nat) (c0 : Z) (d : list Z),
    0 <= c0 -> length d = len ->
    (forall c d', c0 <= c < c0 + Z.of_nat n -> length d' = len ->
                  body c d' = Done (<[Z.to_nat c := k c]> d') []) ->
    exists d',
      for_comps_bytes n c0 body d = Done d' [] /\ length d' = len /\
      forall i : nat,
        d' !! i = if (c0 <=? Z.of_nat i) && (Z.of_nat i <? c0 + Z.of_nat n)
                     && (i <? len)%nat
                  then Some (k (Z.of_nat i)) else d !! i.
Proof.
  induction n as [ | n IH ]; intros c0 d Hc0 Hlen Hbody.
  - exists d. split; [ reflexivity | split; [ exact Hlen | ] ].
    intros i.
    destruct (Z.leb_spec c0 (Z.of_nat i)); destruct (Z.ltb_spec (Z.of_nat i) (c0 + Z.of_nat 0));
      try lia; reflexivity.
  - cbn [for_comps_bytes]. rewrite Hbody by lia.
    destruct (IH (c0 + 1) (<[Z.to_nat c0 := k c0]> d)) as (d' & Hrun & Hlen' & Hd').
    + lia.
    + rewrite length_insert. exact Hlen.
    + intros c d0 Hc Hd0. apply Hbody; [ lia | exact Hd0 ].
    + exists d'. unfold bind. rewrite Hrun. split; [ reflexivity | split; [ exact Hlen' | ] ].
      intros i. rewrite Hd'.
      destruct (Nat.eq_dec i (Z.to_nat c0)) as [-> | Hne].
      * replace (c0 + 1 <=? Z.of_nat (Z.to_nat c0)) with false
          by (symmetry; apply Z.leb_gt; lia).
        replace (c0 <=? Z.of_nat (Z.to_nat c0)) with true by (symmetry; apply Z.leb_le; lia).
        replace (Z.of_nat (Z.to_nat c0) <? c0 + Z.of_nat (S n)) with true
          by (symmetry; apply Z.ltb_lt; lia).
        cbn [andb].
        destruct (Nat.ltb_spec (Z.to_nat c0) len) as [H5 | H5].
        -- rewrite list_lookup_insert_eq by lia. do 2 f_equal. lia.
        -- rewrite !lookup_ge_None_2; [ reflexivity | lia | rewrite length_insert; lia ].
      * rewrite list_lookup_insert_ne by lia.
        replace (c0 + 1 <=? Z.of_nat i) with (c0 <=? Z.of_nat i)
          by (destruct (Z.leb_spec c0 (Z.of_nat i)), (Z.leb_spec (c0 + 1) (Z.of_nat i));
              try lia; reflexivity).
        replace (c0 + 1 + Z.of_nat n) with (c0 + Z.of_nat (S n)) by lia. reflexivity.
Qed.

Lemma unorm8_codes (b : Z) :
  0 <= b < 256 ->
  unorm_encode 0xff (Z.land (int_over b 0xff) (Z.ones 32)) = Done b [].
Proof.
  intros Hb.
  assert (Hall : forallb (fun b => match unorm_encode 0xff
                                           (Z.land (int_over b 0xff) (Z.ones 32)) with
                                   | Done x [] => x =? b
                                   | _ => false
                                   end) all_bytes = true) by (vm_compute; reflexivity).
  rewrite forallb_forall in Hall. specialize (Hall b (in_all_bytes b Hb)).
  destruct (unorm_encode 0xff (Z.land (int_over b 0xff) (Z.ones 32))) as [x [ | ] | | ];
    try discriminate.
  apply Z.eqb_eq in Hall. subst x. reflexivity.
Qed.

Lemma snorm8_codes (b : Z) :
  0 <= b < 256 ->
  snorm_encode 8 INT8_MIN 0x7f
    (Z.land (if signed 8 b =? -128 then F32_MINUS_ONE else int_over (signed 8 b) 127)
            (Z.ones 32)) = Done (snorm8_restored b) [].
Proof.
  intros Hb.
  assert (Hall : forallb
                   (fun b => match snorm_encode 8 INT8_MIN 0x7f
                                     (Z.land (if signed 8 b =? -128 then F32_MINUS_ONE
                                              else int_over (signed 8 b) 127) (Z.ones 32)) with
                             | Done x [] => x =? snorm8_restored b
                             | _ => false
                             end) all_bytes = true) by (vm_compute; reflexivity).
  rewrite forallb_forall in Hall. specialize (Hall b (in_all_bytes b Hb)). cbv beta in Hall.
  destruct (snorm_encode 8 INT8_MIN 0x7f _) as [x [ | ] | | ]; try discriminate.
  apply Z.eqb_eq in Hall. subst x. reflexivity.
Qed.

Lemma nth_lookup_byte (d : list Z) (i : nat) (b : Z) :
  d !! i = Some b -> nth i d 0 = b.
Proof. intros H. apply nth_lookup_Some with (d := 0) in H. exact H. Qed.

Lemma is_bytes_nth (d : list Z) (i : nat) :
  is_bytes d -> (i < length d)%nat -> 0 <= nth i d 0 < 256.
Proof.
  intros Hd Hi. unfold is_bytes in Hd. rewrite Forall_forall in Hd.
  apply Hd. apply list_elem_of_In. apply nth_In. exact Hi.
Qed.

End Normalised.

(** X7.  Normalised one byte formats under load-then-store.  For a [UNorm]
    (or [UNormSRGB]) format the store of what was loaded writes every byte
    back as it was.  For an [SNorm] format it does not: the code 0x80
    (-128), which the load reads as -1.0, is written back as 0x81 (-127);
    every other byte of the stored components, and every byte after them,
    stays as it was.  Nothing is logged. *)
Theorem normalised_store_of_load (fmt : ViewFmt) (d : list Z) (uninit : ShaderValue) :
  byteWidth fmt = 1 ->
  0 <= numComps fmt <= 4 ->
  is_bytes d ->
  numComps fmt <= Z.of_nat (length d) ->
  (compType fmt = CompType.UNorm \/ compType fmt = CompType.UNormSRGB ->
   exists v,
     TypedUAVLoad fmt d uninit = Done v [] /\ TypedUAVStore fmt d v = Done d []) /\
  (compType fmt = CompType.SNorm ->
   exists v d',
     TypedUAVLoad fmt d uninit = Done v [] /\ TypedUAVStore fmt d v = Done d' [] /\
     length d' = length d /\
     forall (i : nat) (b : Z),
       d !! i = Some b ->
       d' !! i = Some (if Z.of_nat i <? numComps fmt then snorm8_restored b else b)).
Proof.
  intros Hbw Hn Hd Hlen.
  assert (Hbw' : byteWidth fmt = 4 \/ byteWidth fmt = 2 \/ byteWidth fmt = 1) by tauto.
  assert (Hrange : forall c, 0 <= c < numComps fmt -> ((0 <=? c) && (c <? 16)) = true).
  { intros c Hc. rewrite andb_true_iff; split; [ apply Z.leb_le | apply Z.ltb_lt ]; lia. }
  split.
  - intros Hct.
    destruct (TypedUAVLoad_lanes fmt d uninit
                (fun c => int_over (nth (Z.to_nat c) d 0) 0xff) Hbw')
      as (v & Hload & Hlanes).
    + exact Hn.
    + rewrite Hbw. destruct Hct as [-> | ->]; eexists; reflexivity.
    + intros c Hc. rewrite Hbw.
      assert (E : decode_elem 1 (compType fmt) d c =
                  Some (u <- read_elem d 1 c ;; ret (int_over u 0xff)))
        by (destruct Hct as [-> | ->]; reflexivity).
      rewrite E, read_elem_1 by lia. reflexivity.
    + exists v. split; [ exact Hload | ].
      unfold TypedUAVStore. rewrite Hbw. cbn [Z.eqb Pos.eqb orb].
      assert (E : forall x, encode_lane 1 (compType fmt) x = Some (unorm_encode 0xff x))
        by (intros x; destruct Hct as [-> | ->]; reflexivity).
      rewrite E. apply for_comps_bytes_same. intros c Hc.
      unfold load_lane. rewrite Hrange by lia. cbv [bind ret].
      rewrite Hlanes by lia. rewrite E.
      rewrite unorm8_codes by (apply is_bytes_nth; [ exact Hd | lia ]).
      cbv [app].
      pose proof (write_elem_same d 1 c Hd ltac:(lia) ltac:(lia) ltac:(lia)) as Hw.
      change (Z.to_nat 1) with 1%nat in Hw. replace (1 * c) with c in Hw by lia.
      rewrite take_one_drop in Hw by lia. cbn [of_bytes] in Hw.
      rewrite Z.shiftl_0_l, Z.lor_0_r in Hw. rewrite Hw. reflexivity.
  - intros Hct.
    set (g := fun c => let i := signed 8 (nth (Z.to_nat c) d 0) in
                       if i =? -128 then F32_MINUS_ONE else int_over i 127).
    destruct (TypedUAVLoad_lanes fmt d uninit g Hbw') as (v & Hload & Hlanes).
    + exact Hn.
    + rewrite Hbw, Hct. eexists; reflexivity.
    + intros c Hc. rewrite Hbw, Hct, decode_elem_snorm8.
      rewrite read_elem_1 by lia. unfold g. cbv [bind ret app].
      destruct (signed 8 (nth (Z.to_nat c) d 0) =? -128); reflexivity.
    + destruct (for_comps_bytes_map
                  (fun c => snorm8_restored (nth (Z.to_nat c) d 0))
                  (fun c d0 =>
                     x <- load_lane c v ;;
                     match encode_lane (byteWidth fmt) (compType fmt) x with
                     | Some m => e <- m ;; write_elem d0 (byteWidth fmt) c e
                     | None => ret d0
                     end)
                  (length d) (Z.to_nat (numComps fmt)) 0 d) as (d' & Hrun & Hlen' & Hd').
      * lia.
      * reflexivity.
      * intros c d0 Hc Hd0. unfold load_lane. rewrite Hrange by lia. cbv [bind ret].
        rewrite Hlanes by lia. rewrite Hbw, Hct.
        change (encode_lane 1 CompType.SNorm (Z.land (g c) (Z.ones 32)))
          with (Some (snorm_encode 8 INT8_MIN 0x7f (Z.land (g c) (Z.ones 32)))).
        unfold g. cbv zeta.
        assert (Hbyte : 0 <= nth (Z.to_nat c) d 0 < 256)
          by (apply is_bytes_nth; [ exact Hd | lia ]).
        rewrite snorm8_codes by exact Hbyte. cbv [app].
        rewrite write_elem_byte; [ reflexivity | lia | ].
        unfold snorm8_restored. destruct (nth (Z.to_nat c) d 0 =? 0x80); lia.
      * exists v, d'. split; [ exact Hload | ].
        split; [ | split; [ exact Hlen' | ] ].
        -- unfold TypedUAVStore. rewrite Hbw. cbn [Z.eqb Pos.eqb orb].
           rewrite Hct at 1.
           change (encode_lane 1 CompType.SNorm 0)
             with (Some (snorm_encode 8 INT8_MIN 0x7f 0)).
           cbv iota. rewrite Hbw in Hrun. exact Hrun.
        -- intros i b Hi. rewrite Hd'.
           assert (Hil : (i < length d)%nat) by (apply lookup_lt_Some in Hi; exact Hi).
           replace (i <? length d)%nat with true by (symmetry; apply Nat.ltb_lt; exact Hil).
           replace (0 <=? Z.of_nat i) with true by (symmetry; apply Z.leb_le; lia).
           cbn [andb]. rewrite Nat2Z.id, Z2Nat.id, andb_true_r, Z.add_0_l by lia.
           rewrite (nth_lookup_byte d i b Hi).
           destruct (Z.of_nat i <? numComps fmt); [ reflexivity | exact Hi ].
Qed.
(* ================================================================== *)
(** * Guessed view formats *)
(* ================================================================== *)

(** X5.  [FillViewFmtFromVarType] against [GetElementByteSize].  The two
    tables handle the same types: the format is filled in without a report
    just when the element size is known without a report, and on any other
    type the format is left as it was.  For every handled type but one the
    byte width that is set is the element size; for [ULong] the byte width is
    2 where the element size is 8. *)
Theorem FillViewFmt_element_size (type : VarType.t) (fmt : ViewFmt) :
  exists fmt' size,
    finishes (FillViewFmtFromVarType type fmt) fmt' /\
    finishes (GetElementByteSize type) size /\
    (log_of (FillViewFmtFromVarType type fmt) = [] <-> log_of (GetElementByteSize type) = []) /\
    (log_of (FillViewFmtFromVarType type fmt) <> [] -> fmt' = fmt) /\
    (log_of (FillViewFmtFromVarType type fmt) = [] ->
     numComps fmt' = numComps fmt /\ stride fmt' = stride fmt /\
     if VarType.eqb type VarType.ULong then byteWidth fmt' = 2 /\ size = 8
     else byteWidth fmt' = size).
Proof.
  destruct type; eexists; eexists;
    (split; [ reflexivity | split; [ reflexivity | ] ]);
    cbn [FillViewFmtFromVarType GetElementByteSize log_of ret RDCERR bind app VarType.eqb
         with_format byteWidth numComps stride];
    (split; [ split; intros H; (reflexivity || discriminate H) | ]);
    (split; [ intros H; (reflexivity || (exfalso; apply H; reflexivity)) | ]);
    intros H; try discriminate H; repeat split.
Qed.
(* ================================================================== *)
(** * The packed 10:10:10:2 format *)
(* ================================================================== *)

Section Packed.

(** The bits of a field that is masked and moved into place. *)
Lemma testbit_placed (a k w n : Z) :
  0 <= k -> 0 <= w -> 0 <= n ->
  Z.testbit (Z.shiftl (Z.land a (Z.ones w)) k) n =
    (k <=? n) && (n <? k + w) && Z.testbit a (n - k).
Proof.
  intros Hk Hw Hn.
  destruct (Z.leb_spec k n) as [Hge | Hlt].
  - rewrite Z.shiftl_spec, Z.land_spec, testbit_ones_nonneg by lia.
    replace (n - k <? w) with (n <? k + w)
      by (destruct (Z.ltb_spec n (k + w)), (Z.ltb_spec (n - k) w); try lia; reflexivity).
    cbn [andb]. apply andb_comm.
  - rewrite Z.shiftl_spec_low by lia. reflexivity.
Qed.

Lemma testbit_pack (v : ShaderValue) (n : Z) :
  0 <= n ->
  Z.testbit (pack_10_10_10_2 v) n =
    if n <? 10 then Z.testbit (u32v v 0) n
    else if n <? 20 then Z.testbit (u32v v 1) (n - 10)
    else if n <? 30 then Z.testbit (u32v v 2) (n - 20)
    else if n <? 32 then Z.testbit (u32v v 3) (n - 30)
    else false.
Proof.
  intros Hn. unfold pack_10_10_10_2.
  change 0x3ff with (Z.ones 10). change 0x3 with (Z.ones 2).
  rewrite !Z.lor_spec, Z.bits_0, !testbit_placed by lia.
  change (0 + 10) with 10. change (10 + 10) with 20. change (20 + 10) with 30.
  change (30 + 2) with 32. rewrite Z.sub_0_r.
  destruct (Z.ltb_spec n 10), (Z.ltb_spec n 20), (Z.ltb_spec n 30), (Z.ltb_spec n 32),
    (Z.leb_spec 0 n), (Z.leb_spec 10 n), (Z.leb_spec 20 n), (Z.leb_spec 30 n);
    try lia; cbn [andb orb]; rewrite ?orb_false_r; reflexivity.
Qed.

Lemma pack_range (v : ShaderValue) : 0 <= pack_10_10_10_2 v < 2 ^ 32.
Proof.
  assert (Hnn : 0 <= pack_10_10_10_2 v).
  { apply Z.bits_iff_nonneg_ex. exists 32. intros m Hm.
    rewrite testbit_pack by lia.
    destruct (Z.ltb_spec m 10), (Z.ltb_spec m 20), (Z.ltb_spec m 30), (Z.ltb_spec m 32);
      try lia; reflexivity. }
  split; [ exact Hnn | ].
  destruct (Z.eq_dec (pack_10_10_10_2 v) 0) as [-> | Hnz]; [ reflexivity | ].
  apply Z.log2_lt_pow2; [ lia | ].
  destruct (Z.lt_ge_cases (Z.log2 (pack_10_10_10_2 v)) 32) as [Hlt | Hge]; [ exact Hlt | ].
  exfalso.
  assert (Hbit : Z.testbit (pack_10_10_10_2 v) (Z.log2 (pack_10_10_10_2 v)) = true)
    by (apply Z.bit_log2; lia).
  rewrite testbit_pack in Hbit by lia.
  destruct (Z.ltb_spec (Z.log2 (pack_10_10_10_2 v)) 10),
    (Z.ltb_spec (Z.log2 (pack_10_10_10_2 v)) 20),
    (Z.ltb_spec (Z.log2 (pack_10_10_10_2 v)) 30),
    (Z.ltb_spec (Z.log2 (pack_10_10_10_2 v)) 32); try lia; discriminate.
Qed.

(** The field of [w] bits at bit [k] of the packed number is the low [w]
    bits of the lane it was packed from. *)
Lemma pack_field (v : ShaderValue) (i k w : Z) :
  (i = 0 /\ k = 0 /\ w = 10) \/ (i = 1 /\ k = 10 /\ w = 10) \/
  (i = 2 /\ k = 20 /\ w = 10) \/ (i = 3 /\ k = 30 /\ w = 2) ->
  Z.land (Z.shiftr (pack_10_10_10_2 v) k) (Z.ones w) = Z.land (u32v v i) (Z.ones w).
Proof.
  intros Hcase. apply Z.bits_inj'. intros n Hn.
  assert (Hk : 0 <= k /\ 0 <= w) by lia.
  rewrite !Z.land_spec, Z.shiftr_spec, !testbit_ones_nonneg by lia.
  destruct (Z.ltb_spec n w) as [Hlt | Hge]; [ | rewrite !andb_false_r; reflexivity ].
  rewrite !andb_true_r, testbit_pack by lia.
  destruct Hcase as [(-> & -> & ->) | [(-> & -> & ->) | [(-> & -> & ->) | (-> & -> & ->)]]];
    repeat match goal with
           | |- context [ ?a <? ?b ] => destruct (Z.ltb_spec a b); try lia
           end; f_equal; lia.
Qed.

(** Packing the four fields of a 32 bit number gives the number back. *)
Lemma pack_unpack (u : Z) (v : ShaderValue) :
  0 <= u < 2 ^ 32 ->
  u32v v 0 = Z.land (Z.shiftr u 0) 0x3ff ->
  u32v v 1 = Z.land (Z.shiftr u 10) 0x3ff ->
  u32v v 2 = Z.land (Z.shiftr u 20) 0x3ff ->
  u32v v 3 = Z.land (Z.shiftr u 30) 0x003 ->
  pack_10_10_10_2 v = u.
Proof.
  intros Hu H0 H1 H2 H3. apply Z.bits_inj'. intros n Hn.
  rewrite testbit_pack, H0, H1, H2, H3 by lia.
  change 0x3ff with (Z.ones 10). change 0x003 with (Z.ones 2).
  destruct (Z.ltb_spec n 10), (Z.ltb_spec n 20), (Z.ltb_spec n 30), (Z.ltb_spec n 32);
    try lia;
    try (rewrite Z.land_spec, Z.shiftr_spec, testbit_ones_nonneg by lia;
         match goal with
         | |- context [ ?a <? ?b ] =>
             replace (a <? b) with true by (symmetry; apply Z.ltb_lt; lia)
         end;
         rewrite andb_true_r; f_equal; lia).
  symmetry. apply Z.bits_above_log2; [ lia | ].
  destruct (Z.eq_dec u 0) as [-> | Hnz]; [ simpl; lia | ].
  assert (Z.log2 u < 32) by (apply Z.log2_lt_pow2; lia). lia.
Qed.

(** The first four bytes of a buffer after four bytes were written there. *)
Lemma read_after_write_elem0 (d : list Z) (x : Z) :
  4 <= Z.of_nat (length d) ->
  exists d',
    write_elem d 4 0 x = Done d' [] /\ length d' = length d /\
    read_elem d' 4 0 = Done (Z.land x (Z.ones 32)) [] /\
    drop 4 d' = drop 4 d.
Proof.
  intros Hlen.
  assert (Hl : length (bytes_of 4 x ++ drop 4 d) = length d).
  { rewrite length_app, length_bytes_of, length_drop. lia. }
  exists (bytes_of 4 x ++ drop 4 d).
  split; [ | split; [ exact Hl | split ] ].
  - unfold write_elem, write_bytes.
    rewrite length_bytes_of. change (4 * 0) with 0. change (Z.to_nat 4) with 4%nat.
    replace ((0 <=? 0) && (0 + Z.of_nat 4 <=? Z.of_nat (length d)))
      with true by (symmetry; apply andb_true_iff; split; apply Z.leb_le; lia).
    reflexivity.
  - rewrite read_elem_segment by lia.
    change (4 * 0) with 0. change (Z.to_nat 0) with 0%nat. change (Z.to_nat 4) with 4%nat.
    rewrite drop_0, take_app_length' by (symmetry; apply length_bytes_of).
    f_equal. apply of_bytes_bytes_of.
  - rewrite drop_app_length' by (symmetry; apply length_bytes_of). reflexivity.
Qed.

(** Storing the four fields of the number an element holds writes the
    element back. *)
Lemma TypedUAVStore_unpacked (fmt : ViewFmt) (d : list Z) (u : Z) (v : ShaderValue) :
  byteWidth fmt = 10 ->
  compType fmt = CompType.UInt ->
  0 <= u < 2 ^ 32 ->
  write_elem d 4 0 u = Done d [] ->
  u32v v 0 = Z.land (Z.shiftr u 0) (Z.ones 10) ->
  u32v v 1 = Z.land (Z.shiftr u 10) (Z.ones 10) ->
  u32v v 2 = Z.land (Z.shiftr u 20) (Z.ones 10) ->
  u32v v 3 = Z.land (Z.shiftr u 30) (Z.ones 2) ->
  TypedUAVStore fmt d v = Done d [].
Proof.
  intros Hbw Hct Hu Hwrite L0 L1 L2 L3.
  unfold TypedUAVStore. rewrite Hbw, Hct. cbn [Z.eqb Pos.eqb]. cbv zeta.
  fold (pack_10_10_10_2 v).
  rewrite (pack_unpack u v Hu L0 L1 L2 L3).
  cbv [bind ret]. rewrite Hwrite. reflexivity.
Qed.

End Packed.
(** X8.  The packed [R10G10B10A2_UINT] element.  A typed store writes the
    low ten bits of the first three lanes and the low two bits of the fourth
    into the first four bytes of the buffer and leaves the rest of the buffer
    alone; a typed load of the stored element gives exactly those bits back.
    In the other direction, the store of what a load returned writes the four
    bytes back as they were.  Nothing is logged. *)
Theorem packed_uint_round_trip (fmt : ViewFmt) (d : list Z) (uninit : ShaderValue) :
  byteWidth fmt = 10 ->
  compType fmt = CompType.UInt ->
  is_bytes d ->
  4 <= Z.of_nat (length d) ->
  (forall value,
     exists d' r,
       TypedUAVStore fmt d value = Done d' [] /\
       length d' = length d /\ drop 4 d' = drop 4 d /\
       TypedUAVLoad fmt d' uninit = Done r [] /\
       u32v r 0 = u32v value 0 mod 2 ^ 10 /\
       u32v r 1 = u32v value 1 mod 2 ^ 10 /\
       u32v r 2 = u32v value 2 mod 2 ^ 10 /\
       u32v r 3 = u32v value 3 mod 2 ^ 2) /\
  (exists v,
     TypedUAVLoad fmt d uninit = Done v [] /\ TypedUAVStore fmt d v = Done d []).
Proof.
  intros Hbw Hct Hd Hlen.
  assert (Hlanes : forall x0 x1 x2 x3 r,
            let r' := set_comp 32 3 x3 (set_comp 32 2 x2 (set_comp 32 1 x1
                        (set_comp 32 0 x0 r))) in
            u32v r' 0 = Z.land x0 (Z.ones 32) /\ u32v r' 1 = Z.land x1 (Z.ones 32) /\
            u32v r' 2 = Z.land x2 (Z.ones 32) /\ u32v r' 3 = Z.land x3 (Z.ones 32)).
  { intros x0 x1 x2 x3 r. cbv zeta. unfold u32v. repeat split.
    - rewrite !comp_set_comp_other by lia. apply comp_set_comp_same; lia.
    - rewrite !comp_set_comp_other by lia. apply comp_set_comp_same; lia.
    - rewrite !comp_set_comp_other by lia. apply comp_set_comp_same; lia.
    - apply comp_set_comp_same; lia. }
  assert (Hsmall : forall a w, 0 <= w <= 32 ->
            Z.land (Z.land a (Z.ones w)) (Z.ones 32) = Z.land a (Z.ones w)).
  { intros a w Hw. apply land_ones_small; [ lia | ].
    rewrite Z.land_ones by lia.
    pose proof (Z.mod_pos_bound a (2 ^ w) ltac:(apply Z.pow_pos_nonneg; lia)).
    assert (2 ^ w <= 2 ^ 32) by (apply Z.pow_le_mono_r; lia). lia. }
  split.
  - intros value.
    destruct (read_after_write_elem0 d (pack_10_10_10_2 value) Hlen)
      as (d' & Hwrite & Hlen' & Hread & Hdrop).
    rewrite land_ones_small in Hread by (try lia; apply pack_range).
    pose proof (Hlanes (Z.land (Z.shiftr (pack_10_10_10_2 value) 0) 0x3ff)
                       (Z.land (Z.shiftr (pack_10_10_10_2 value) 10) 0x3ff)
                       (Z.land (Z.shiftr (pack_10_10_10_2 value) 20) 0x3ff)
                       (Z.land (Z.shiftr (pack_10_10_10_2 value) 30) 0x003)
                       (set_comp 32 3 F32_ZERO (set_comp 32 2 F32_ZERO
                          (set_comp 32 1 F32_ZERO (set_comp 32 0 F32_ZERO uninit)))))
      as HL.
    cbv zeta in HL.
    remember (set_comp 32 3 (Z.land (Z.shiftr (pack_10_10_10_2 value) 30) 0x003) _)
      as r eqn:Er.
    destruct HL as (L0 & L1 & L2 & L3).
    exists d', r.
    split; [ | split; [ exact Hlen' | split; [ exact Hdrop | split ] ] ].
    + unfold TypedUAVStore. rewrite Hbw, Hct. cbn [Z.eqb Pos.eqb]. cbv zeta.
      fold (pack_10_10_10_2 value). cbv [bind ret]. rewrite Hwrite. reflexivity.
    + unfold TypedUAVLoad. rewrite Hbw, Hct. cbn [Z.eqb Pos.eqb].
      rewrite Hread. cbv [bind ret app]. rewrite Er. reflexivity.
    + change 0x3ff with (Z.ones 10) in L0, L1, L2. change 0x003 with (Z.ones 2) in L3.
      rewrite Hsmall in L0, L1, L2, L3 by lia.
      rewrite (pack_field value 0 0 10) in L0 by lia.
      rewrite (pack_field value 1 10 10) in L1 by lia.
      rewrite (pack_field value 2 20 10) in L2 by lia.
      rewrite (pack_field value 3 30 2) in L3 by lia.
      rewrite Z.land_ones in L0, L1, L2, L3 by lia.
      split; [ exact L0 | split; [ exact L1 | split; [ exact L2 | exact L3 ] ] ].
  - pose proof (read_elem_segment d 4 0 ltac:(lia) ltac:(lia) ltac:(lia)) as Hread.
    pose proof (elem_range d 4 0 Hd ltac:(lia) ltac:(lia) ltac:(lia)) as Hu.
    pose proof (write_elem_same d 4 0 Hd ltac:(lia) ltac:(lia) ltac:(lia)) as Hwrite.
    remember (of_bytes (take (Z.to_nat 4) (drop (Z.to_nat (4 * 0)) d))) as u eqn:Eu.
    clear Eu. change (8 * 4) with 32 in Hu.
    pose proof (Hlanes (Z.land (Z.shiftr u 0) 0x3ff) (Z.land (Z.shiftr u 10) 0x3ff)
                       (Z.land (Z.shiftr u 20) 0x3ff) (Z.land (Z.shiftr u 30) 0x003)
                       (set_comp 32 3 F32_ZERO (set_comp 32 2 F32_ZERO
                          (set_comp 32 1 F32_ZERO (set_comp 32 0 F32_ZERO uninit)))))
      as HL.
    cbv zeta in HL.
    remember (set_comp 32 3 (Z.land (Z.shiftr u 30) 0x003) _) as v eqn:Ev.
    destruct HL as (L0 & L1 & L2 & L3).
    change 0x3ff with (Z.ones 10) in L0, L1, L2. change 0x003 with (Z.ones 2) in L3.
    rewrite Hsmall in L0, L1, L2, L3 by lia.
    exists v. split.
    + unfold TypedUAVLoad. rewrite Hbw, Hct. cbn [Z.eqb Pos.eqb].
      rewrite Hread. cbv [bind ret app]. rewrite Ev. reflexivity.
    + apply (TypedUAVStore_unpacked fmt d u v Hbw Hct Hu Hwrite L0 L1 L2 L3).
Qed.
(* ================================================================== *)
(** * Integer intrinsics *)
(* ================================================================== *)

Section IntegerIntrinsics.

Lemma u32v_range (v : ShaderValue) (c : Z) : 0 <= u32v v c < 2 ^ 32.
Proof. unfold u32v. apply comp_range. lia. Qed.

Lemma u64v_range (v : ShaderValue) (c : Z) : 0 <= u64v v c < 2 ^ 64.
Proof. unfold u64v. apply comp_range. lia. Qed.

(** Writing lanes 0 and 1 of the 32 bit view and reading them back. *)
Lemma u32v_pair (x0 x1 : Z) (v : ShaderValue) :
  u32v (set_u32v 1 x1 (set_u32v 0 x0 v)) 0 = x0 mod 2 ^ 32 /\
  u32v (set_u32v 1 x1 (set_u32v 0 x0 v)) 1 = x1 mod 2 ^ 32.
Proof.
  unfold u32v, set_u32v. split.
  - rewrite comp_set_comp_other by lia. rewrite comp_set_comp_same by lia.
    apply Z.land_ones. lia.
  - rewrite comp_set_comp_same by lia. apply Z.land_ones. lia.
Qed.

(** The two halves of a 64 bit lane that was written. *)
Lemma u32v_of_u64v (x : Z) (v : ShaderValue) :
  u64v (set_u64v 0 x v) 0 = x mod 2 ^ 64 /\
  u32v (set_u64v 0 x v) 0 = x mod 2 ^ 32 /\
  u32v (set_u64v 0 x v) 1 = (x / 2 ^ 32) mod 2 ^ 32.
Proof.
  unfold u64v, u32v, set_u64v. repeat split.
  - rewrite comp_set_comp_same by lia. apply Z.land_ones. lia.
  - rewrite comp_set_comp_inside by lia. change (32 * 0 - 64 * 0) with 0.
    rewrite Z.shiftr_0_r. apply Z.land_ones. lia.
  - rewrite comp_set_comp_inside by lia. change (32 * 1 - 64 * 0) with 32.
    rewrite Z.shiftr_div_pow2 by lia. apply Z.land_ones. lia.
Qed.

Lemma lor_pow2_small (k a : Z) : 0 <= k -> 0 <= a < 2 ^ k -> Z.lor (2 ^ k) a = 2 ^ k + a.
Proof.
  intros Hk Ha. symmetry. apply Z.add_nocarry_lor.
  apply Z.bits_inj'. intros n Hn. rewrite Z.land_spec, Z.bits_0, Z.pow2_bits_eqb by lia.
  destruct (Z.eqb_spec k n) as [<- | Hne]; [ | reflexivity ].
  cbn [andb]. destruct (Z.eq_dec a 0) as [-> | Hnz]; [ apply Z.bits_0 | ].
  apply Z.bits_above_log2; [ lia | ]. apply Z.log2_lt_pow2; lia.
Qed.

Lemma byte_at_range (x i : Z) : 0 <= byte_at x i < 256.
Proof.
  unfold byte_at. change 0xff with (Z.ones 8). rewrite Z.land_ones by lia.
  apply Z.mod_pos_bound. reflexivity.
Qed.

Lemma sad_from_nonneg (n : nat) (i ref src : Z) : 0 <= sad_from n i ref src.
Proof.
  revert i. induction n as [ | n IH ]; intros i; cbn [sad_from]; [ lia | ].
  specialize (IH (i + 1)). unfold masked_abs_diff.
  destruct (byte_at ref i =? 0); lia.
Qed.

Lemma Msad_loop_spec (n : nat) :
  forall (i ref src accum : Z) (eventFlags : ShaderEvents),
    0 <= i -> 0 <= accum <= UINT32_MAX ->
    Msad_loop n i ref src accum eventFlags =
      if UINT32_MAX <? accum + sad_from n i ref src
      then (UINT32_MAX, Z.lor eventFlags ShaderEvents.GeneratedNanOrInf)
      else (accum + sad_from n i ref src, eventFlags).
Proof.
  unfold UINT32_MAX.
  induction n as [ | n IH ]; intros i ref src accum eventFlags Hi Hacc.
  - cbn [Msad_loop sad_from]. rewrite Z.add_0_r.
    destruct (Z.ltb_spec 0xffffffff accum); [ lia | reflexivity ].
  - cbn [Msad_loop sad_from]. cbv zeta. unfold UINT32_MAX.
    assert (Hbyte : forall x, wrap 8 (Z.shiftr x (i * 8)) = byte_at x i).
    { intros x. unfold wrap, byte_at. change 0xff with (Z.ones 8).
      rewrite Z.land_ones by lia. replace (8 * i) with (i * 8) by lia. reflexivity. }
    rewrite !Hbyte. unfold masked_abs_diff.
    pose proof (byte_at_range ref i) as Hr. pose proof (byte_at_range src i) as Hs.
    pose proof (sad_from_nonneg n (i + 1) ref src) as Hrest.
    destruct (Z.eqb_spec (byte_at ref i) 0) as [E | E].
    + rewrite IH by lia. rewrite Z.add_0_l. reflexivity.
    + assert (Hd : wrap 8 (if byte_at src i <=? byte_at ref i
                           then byte_at ref i - byte_at src i
                           else byte_at src i - byte_at ref i)
                   = Z.abs (byte_at ref i - byte_at src i)).
      { unfold wrap. change (2 ^ 8) with 256.
        destruct (Z.leb_spec (byte_at src i) (byte_at ref i));
          rewrite Z.mod_small by lia; lia. }
      rewrite Hd.
      assert (Habs : 0 <= Z.abs (byte_at ref i - byte_at src i) < 256) by lia.
      remember (Z.abs (byte_at ref i - byte_at src i)) as dd eqn:Edd. clear Edd Hd.
      destruct (Z.ltb_spec (0xffffffff - accum) dd) as [Hov | Hok].
      * destruct (Z.ltb_spec 0xffffffff (accum + (dd + sad_from n (i + 1) ref src)));
          [ reflexivity | lia ].
      * assert (Hw : wrap 32 (accum + dd) = accum + dd).
        { unfold wrap. apply Z.mod_small. change (2 ^ 32) with 4294967296. lia. }
        rewrite Hw, IH by lia. rewrite Z.add_assoc. reflexivity.
Qed.

Lemma sad_from_masked_sad (ref src : Z) : sad_from 4 0 ref src = masked_sad ref src.
Proof. unfold masked_sad. cbn [sad_from]. change (0 + 1) with 1.
  change (1 + 1) with 2. change (2 + 1) with 3. lia. Qed.

(** The bits [Ubfe] extracts. *)
Lemma Ubfe_field (c width offset : Z) :
  0 <= c < 2 ^ 32 -> 0 < width -> 0 <= offset -> width + offset < 32 ->
  Z.shiftr (wrap 32 (Z.shiftl c (32 - (width + offset)))) (32 - width) =
    Z.land (Z.shiftr c offset) (Z.ones width).
Proof.
  intros Hc Hw Ho Hsum. unfold wrap. rewrite <- Z.land_ones by lia.
  apply Z.bits_inj'. intros n Hn.
  rewrite Z.shiftr_spec, !Z.land_spec, Z.shiftr_spec, !testbit_ones_nonneg by lia.
  destruct (Z.ltb_spec n width) as [Hlt | Hge].
  - replace (n + (32 - width) <? 32) with true by (symmetry; apply Z.ltb_lt; lia).
    rewrite Z.shiftl_spec by lia. rewrite !andb_true_r. f_equal. lia.
  - replace (n + (32 - width) <? 32) with false by (symmetry; apply Z.ltb_ge; lia).
    rewrite !andb_false_r. reflexivity.
Qed.

Lemma Ubfe_tail (c width offset : Z) :
  0 <= c < 2 ^ 32 -> 0 <= width -> 0 <= offset -> 32 <= width + offset ->
  Z.shiftr c offset = Z.land (Z.shiftr c offset) (Z.ones width).
Proof.
  intros Hc Hw Ho Hsum. apply Z.bits_inj'. intros n Hn.
  rewrite Z.land_spec, Z.shiftr_spec, testbit_ones_nonneg by lia.
  destruct (Z.ltb_spec n width) as [Hlt | Hge]; [ rewrite andb_true_r; reflexivity | ].
  rewrite andb_false_r.
  destruct (Z.eq_dec c 0) as [-> | Hnz]; [ apply Z.bits_0 | ].
  apply Z.bits_above_log2; [ lia | ].
  assert (Z.log2 c < 32) by (apply Z.log2_lt_pow2; lia). lia.
Qed.

(** The lane the DXOp [Ubfe] writes. *)
Lemma Ubfe_lanes (uc width offset : Z) (v : ShaderValue) :
  0 <= uc < 2 ^ 32 -> 0 <= width < 32 -> 0 <= offset < 32 ->
  let r :=
    if width =? 0 then set_u32v 0 0 v
    else if width + offset <? 32 then
      let r := set_u32v 0 (wrap 32 (Z.shiftl uc (32 - (width + offset)))) v in
      set_u32v 0 (Z.shiftr (u32v r 0) (32 - width)) r
    else set_u32v 0 (Z.shiftr uc offset) v in
  u32v r 0 = Z.land (Z.shiftr uc offset) (Z.ones width).
Proof.
  intros Hrc Hwr Hor. cbv zeta.
  assert (Hfield : 0 <= Z.land (Z.shiftr uc offset) (Z.ones width) < 2 ^ 32).
  { rewrite Z.land_ones by lia.
    pose proof (Z.mod_pos_bound (Z.shiftr uc offset) (2 ^ width)
                  ltac:(apply Z.pow_pos_nonneg; lia)).
    assert (2 ^ width <= 2 ^ 32) by (apply Z.pow_le_mono_r; lia). lia. }
  destruct (Z.eqb_spec width 0) as [E0 | E0].
  - rewrite u32v_set_u32v by lia. rewrite E0. change (Z.ones 0) with 0.
    rewrite Z.land_0_r. reflexivity.
  - destruct (Z.ltb_spec (width + offset) 32) as [Hlt | Hge].
    + assert (Hsh : 0 <= wrap 32 (Z.shiftl uc (32 - (width + offset))) < 2 ^ 32)
        by (unfold wrap; apply Z.mod_pos_bound; lia).
      rewrite (u32v_set_u32v 0 (wrap 32 _)) by lia.
      rewrite Ubfe_field by lia.
      apply u32v_set_u32v; [ lia | exact Hfield ].
    + rewrite <- (Ubfe_tail uc width offset) in * by lia.
      apply u32v_set_u32v; [ lia | exact Hfield ].
Qed.

(** The two lanes the DXOp [UDiv] writes. *)
Lemma UDiv_lanes (ua ub : Z) (v : ShaderValue) :
  0 <= ua < 2 ^ 32 -> 0 < ub < 2 ^ 32 ->
  let r0 := set_u32v 0 (ua / ub) v in
  let r1 := set_u32v 1 (ua - u32v r0 0 * ub) r0 in
  u32v r1 0 = ua / ub /\ u32v r1 1 = ua mod ub.
Proof.
  intros Ha Hb. cbv zeta.
  assert (Hq : 0 <= ua / ub < 2 ^ 32).
  { split; [ apply Z.div_pos; lia | ].
    apply Z.div_lt_upper_bound; [ lia | nia ]. }
  assert (Hm : 0 <= ua mod ub < ub) by (apply Z.mod_pos_bound; lia).
  assert (Hdm : ua = ub * (ua / ub) + ua mod ub) by (apply Z.div_mod; lia).
  assert (Hr0 : u32v (set_u32v 0 (ua / ub) v) 0 = ua / ub) by (apply u32v_set_u32v; lia).
  rewrite Hr0. split.
  - rewrite u32v_set_u32v_other by lia. exact Hr0.
  - replace (ua - ua / ub * ub) with (ua mod ub) by lia.
    apply u32v_set_u32v; lia.
Qed.

(** The two lanes the DXOps [UAddc] and [USubb] write. *)
Lemma UAddc_lanes (ua ub : Z) (v : ShaderValue) :
  0 <= ua < 2 ^ 32 -> 0 <= ub < 2 ^ 32 ->
  let sum := wrap 64 (ua + ub) in
  let r := set_u32v 1 (if 0xffffffff <? sum then 1 else 0)
                    (set_u32v 0 (Z.land sum 0xffffffff) v) in
  u32v r 0 + 2 ^ 32 * u32v r 1 = ua + ub /\
  u32v r 0 = (ua + ub) mod 2 ^ 32 /\
  u32v r 1 = (if 2 ^ 32 <=? ua + ub then 1 else 0).
Proof.
  intros Ha Hb. cbv zeta.
  change (2 ^ 32) with 4294967296 in *.
  assert (Hw : wrap 64 (ua + ub) = ua + ub).
  { unfold wrap. apply Z.mod_small. change (2 ^ 64) with 18446744073709551616. lia. }
  rewrite Hw.
  destruct (u32v_pair (Z.land (ua + ub) 0xffffffff)
              (if 0xffffffff <? ua + ub then 1 else 0) v) as (E0 & E1).
  rewrite E0, E1. clear E0 E1.
  change 0xffffffff with (Z.ones 32). rewrite Z.land_ones by lia.
  change (2 ^ 32) with 4294967296. change (Z.ones 32) with 4294967295.
  rewrite Z.mod_mod by lia.
  pose proof (Z.mod_pos_bound (ua + ub) 4294967296 ltac:(lia)) as Hmb.
  destruct (Z.ltb_spec 4294967295 (ua + ub)) as [Hc | Hc];
    destruct (Z.leb_spec 4294967296 (ua + ub)) as [Hc' | Hc']; try lia.
  - rewrite (Z.mod_small 1) by lia.
    assert (Hm : (ua + ub) mod 4294967296 = ua + ub - 4294967296).
    { symmetry. apply Z.mod_unique with 1; lia. }
    rewrite Hm. repeat split; lia.
  - rewrite (Z.mod_small 0) by lia. rewrite (Z.mod_small (ua + ub)) by lia.
    repeat split; lia.
Qed.

Lemma USubb_lanes (ua ub : Z) (v : ShaderValue) :
  0 <= ua < 2 ^ 32 -> 0 <= ub < 2 ^ 32 ->
  let sub := wrap 64 (Z.lor 0x100000000 ua - ub) in
  let r := set_u32v 1 (if sub <=? 0xffffffff then 1 else 0)
                    (set_u32v 0 (Z.land sub 0xffffffff) v) in
  u32v r 0 - 2 ^ 32 * u32v r 1 = ua - ub /\
  u32v r 0 = (ua - ub) mod 2 ^ 32 /\
  u32v r 1 = (if ua <? ub then 1 else 0).
Proof.
  intros Ha Hb. cbv zeta.
  change 0x100000000 with (2 ^ 32). rewrite lor_pow2_small by lia.
  change (2 ^ 32) with 4294967296 in *.
  assert (Hw : wrap 64 (4294967296 + ua - ub) = 4294967296 + ua - ub).
  { unfold wrap. apply Z.mod_small. change (2 ^ 64) with 18446744073709551616. lia. }
  rewrite Hw.
  destruct (u32v_pair (Z.land (4294967296 + ua - ub) 0xffffffff)
              (if 4294967296 + ua - ub <=? 0xffffffff then 1 else 0) v) as (E0 & E1).
  rewrite E0, E1. clear E0 E1.
  change 0xffffffff with (Z.ones 32). rewrite Z.land_ones by lia.
  change (2 ^ 32) with 4294967296. change (Z.ones 32) with 4294967295.
  rewrite Z.mod_mod by lia.
  destruct (Z.leb_spec (4294967296 + ua - ub) 4294967295) as [Hc | Hc];
    destruct (Z.ltb_spec ua ub) as [Hc' | Hc']; try lia.
  - rewrite (Z.mod_small 1) by lia.
    assert (Hm : (4294967296 + ua - ub) mod 4294967296 = 4294967296 + ua - ub)
      by (apply Z.mod_small; lia).
    assert (Hm' : (ua - ub) mod 4294967296 = 4294967296 + ua - ub)
      by (symmetry; apply Z.mod_unique with (-1); lia).
    rewrite Hm, Hm'. repeat split; lia.
  - rewrite (Z.mod_small 0) by lia.
    assert (Hm : (4294967296 + ua - ub) mod 4294967296 = ua - ub)
      by (symmetry; apply Z.mod_unique with 1; lia).
    assert (Hm' : (ua - ub) mod 4294967296 = ua - ub) by (apply Z.mod_small; lia).
    rewrite Hm, Hm'. repeat split; lia.
Qed.

End IntegerIntrinsics.

(** Steps through the prologue of a case: the arguments, the assertions on
    their types and the fetches. *)
Ltac case_prologue :=
  cbv zeta;
  repeat match goal with
         | H : at_index (args ?inst) ?i = Some _ |- context [ arg_at ?inst ?i ] =>
             rewrite (arg_at_Some _ _ _ H)
         end;
  unfold assert_kind_scalar;
  repeat step_bind.

(** X9.  The DXOp [UDiv] with a divisor that is not zero: the first
    component of the result is the quotient and the second the remainder of
    the unsigned 32 bit operands, so that dividend = quotient * divisor +
    remainder with the remainder below the divisor; no event is raised. *)
Theorem DXOp_UDiv_quotient_remainder (ts : ThreadState) (inst : Instruction)
    (v1 v2 : Value) (a b result : ShaderVariable) (eventFlags : ShaderEvents) :
  at_index (args inst) 1 = Some v1 ->
  at_index (args inst) 2 = Some v2 ->
  finishes (fetch ts v1 Operation.Call DXOp.UDiv) a ->
  finishes (fetch ts v2 Operation.Call DXOp.UDiv) b ->
  u32v (value b) 0 <> 0 ->
  exists r,
    finishes (case_IMul_UMul_UDiv ts inst DXOp.UDiv result eventFlags) (r, eventFlags) /\
    u32v (value r) 0 = u32v (value a) 0 / u32v (value b) 0 /\
    u32v (value r) 1 = u32v (value a) 0 mod u32v (value b) 0 /\
    u32v (value a) 0 = u32v (value r) 0 * u32v (value b) 0 + u32v (value r) 1 /\
    0 <= u32v (value r) 1 < u32v (value b) 0.
Proof.
  intros Harg1 Harg2 Ha Hb Hnz.
  pose proof (u32v_range (value a) 0) as Hra. pose proof (u32v_range (value b) 0) as Hrb.
  destruct (UDiv_lanes (u32v (value a) 0) (u32v (value b) 0) (value result) Hra
              ltac:(lia)) as (H0 & H1).
  assert (Hm : 0 <= u32v (value a) 0 mod u32v (value b) 0 < u32v (value b) 0)
    by (apply Z.mod_pos_bound; lia).
  assert (Hdm := Z.div_mod (u32v (value a) 0) (u32v (value b) 0) Hnz).
  eexists. split.
  - unfold case_IMul_UMul_UDiv. case_prologue.
    destruct (Z.eqb_spec (u32v (value b) 0) 0) as [E | E]; [ contradiction | ].
    cbn [negb]. apply finishes_ret.
  - cbn [value with_value]. rewrite H0, H1. repeat split; lia.
Qed.

(** X10.  The DXOps [UMul] and [IMul] multiply two 32 bit operands into a 64
    bit result without loss: the first 64 bit component of the result is the
    exact product of the unsigned operands for [UMul] and, read as a signed
    number, of the signed operands for [IMul]; its low word is component 0
    and its high word component 1 of the 32 bit view. *)
Theorem DXOp_mul_wide (ts : ThreadState) (inst : Instruction) (dxOpCode : DXOp.t)
    (v1 v2 : Value) (a b result : ShaderVariable) (eventFlags : ShaderEvents) :
  at_index (args inst) 1 = Some v1 ->
  at_index (args inst) 2 = Some v2 ->
  finishes (fetch ts v1 Operation.Call dxOpCode) a ->
  finishes (fetch ts v2 Operation.Call dxOpCode) b ->
  dxOpCode = DXOp.UMul \/ dxOpCode = DXOp.IMul ->
  exists r,
    finishes (case_IMul_UMul_UDiv ts inst dxOpCode result eventFlags) (r, eventFlags) /\
    (dxOpCode = DXOp.UMul -> u64v (value r) 0 = u32v (value a) 0 * u32v (value b) 0) /\
    (dxOpCode = DXOp.IMul -> s64v (value r) 0 = s32v (value a) 0 * s32v (value b) 0) /\
    u32v (value r) 0 = u64v (value r) 0 mod 2 ^ 32 /\
    u32v (value r) 1 = u64v (value r) 0 / 2 ^ 32.
Proof.
  intros Harg1 Harg2 Ha Hb Hop.
  assert (Hwords : forall x,
            u32v (set_u64v 0 x (value result)) 0 = u64v (set_u64v 0 x (value result)) 0 mod 2 ^ 32 /\
            u32v (set_u64v 0 x (value result)) 1 = u64v (set_u64v 0 x (value result)) 0 / 2 ^ 32).
  { intros x. destruct (u32v_of_u64v x (value result)) as (E64 & E0 & E1).
    rewrite E64, E0, E1.
    change (2 ^ 64) with (2 ^ 32 * 2 ^ 32).
    rewrite Z.rem_mul_r by lia.
    pose proof (Z.mod_pos_bound x (2 ^ 32) ltac:(lia)) as Hm.
    pose proof (Z.mod_pos_bound (x / 2 ^ 32) (2 ^ 32) ltac:(lia)) as Hy.
    split.
    - apply Z.mod_unique with ((x / 2 ^ 32) mod 2 ^ 32); [ left; exact Hm | lia ].
    - apply Z.div_unique with (x mod 2 ^ 32); [ left; exact Hm | lia ]. }
  destruct Hop as [-> | ->].
  - exists (with_value (set_u64v 0 (u32v (value a) 0 * u32v (value b) 0) (value result)) result).
    split; [ unfold case_IMul_UMul_UDiv; case_prologue; apply finishes_ret | ].
    cbn [value with_value].
    split; [ | split; [ discriminate | apply Hwords ] ].
    intros _. destruct (u32v_of_u64v (u32v (value a) 0 * u32v (value b) 0) (value result))
      as (E64 & _). rewrite E64. apply Z.mod_small.
    pose proof (u32v_range (value a) 0). pose proof (u32v_range (value b) 0).
    change (2 ^ 64) with (2 ^ 32 * 2 ^ 32). nia.
  - exists (with_value (set_s64v 0 (s32v (value a) 0 * s32v (value b) 0) (value result)) result).
    split; [ unfold case_IMul_UMul_UDiv; case_prologue; apply finishes_ret | ].
    cbn [value with_value].
    split; [ discriminate | split; [ | apply Hwords ] ].
    intros _. unfold s64v, set_s64v. rewrite comp_set_comp_same by lia.
    apply (signed_land_ones 64); [ lia | ].
    pose proof (s32v_range (value a) 0). pose proof (s32v_range (value b) 0).
    change (2 ^ (64 - 1)) with (2 * (2 ^ 31 * 2 ^ 31)). nia.
Qed.

(** X11.  The DXOp [UAddc]: component 0 of the result is the 32 bit sum and
    component 1 the carry, 0 or 1, so that together they hold the exact sum
    of the two unsigned operands. *)
Theorem DXOp_UAddc_carry (ts : ThreadState) (inst : Instruction) (v1 v2 : Value)
    (a b result : ShaderVariable) :
  at_index (args inst) 1 = Some v1 ->
  at_index (args inst) 2 = Some v2 ->
  finishes (fetch ts v1 Operation.Call DXOp.UAddc) a ->
  finishes (fetch ts v2 Operation.Call DXOp.UAddc) b ->
  exists r,
    finishes (case_UAddc ts inst result) r /\
    u32v (value r) 0 + 2 ^ 32 * u32v (value r) 1 = u32v (value a) 0 + u32v (value b) 0 /\
    u32v (value r) 0 = (u32v (value a) 0 + u32v (value b) 0) mod 2 ^ 32 /\
    (u32v (value r) 1 = if 2 ^ 32 <=? u32v (value a) 0 + u32v (value b) 0 then 1 else 0).
Proof.
  intros Harg1 Harg2 Ha Hb.
  destruct (UAddc_lanes (u32v (value a) 0) (u32v (value b) 0) (value result)
              (u32v_range _ _) (u32v_range _ _)) as (Hsum & H0 & H1).
  eexists. split; [ unfold case_UAddc; case_prologue; apply finishes_ret | ].
  cbn [value with_value]. split; [ exact Hsum | split; [ exact H0 | exact H1 ] ].
Qed.

(** X12.  The DXOp [USubb]: component 0 of the result is the 32 bit
    difference and component 1 the borrow, which is 1 just when the first
    operand is below the second, so that together they hold the exact
    difference of the two unsigned operands. *)
Theorem DXOp_USubb_borrow (ts : ThreadState) (inst : Instruction) (v1 v2 : Value)
    (a b result : ShaderVariable) :
  at_index (args inst) 1 = Some v1 ->
  at_index (args inst) 2 = Some v2 ->
  finishes (fetch ts v1 Operation.Call DXOp.USubb) a ->
  finishes (fetch ts v2 Operation.Call DXOp.USubb) b ->
  exists r,
    finishes (case_USubb ts inst result) r /\
    u32v (value r) 0 - 2 ^ 32 * u32v (value r) 1 = u32v (value a) 0 - u32v (value b) 0 /\
    u32v (value r) 0 = (u32v (value a) 0 - u32v (value b) 0) mod 2 ^ 32 /\
    (u32v (value r) 1 = if u32v (value a) 0 <? u32v (value b) 0 then 1 else 0).
Proof.
  intros Harg1 Harg2 Ha Hb.
  destruct (USubb_lanes (u32v (value a) 0) (u32v (value b) 0) (value result)
              (u32v_range _ _) (u32v_range _ _)) as (Hdiff & H0 & H1).
  eexists. split; [ unfold case_USubb; case_prologue; apply finishes_ret | ].
  cbn [value with_value]. split; [ exact Hdiff | split; [ exact H0 | exact H1 ] ].
Qed.

(** X13.  The DXOp [Msad] saturates: the result is the accumulator plus the
    absolute differences of the bytes of the reference and of the source,
    over the bytes where the reference is not 0, cut at 0xFFFFFFFF; the event
    [GeneratedNanOrInf] is added just when that sum is above 0xFFFFFFFF. *)
Theorem DXOp_Msad_saturates (ts : ThreadState) (inst : Instruction) (v1 v2 v3 : Value)
    (a b c result : ShaderVariable) (eventFlags : ShaderEvents) :
  at_index (args inst) 1 = Some v1 ->
  at_index (args inst) 2 = Some v2 ->
  at_index (args inst) 3 = Some v3 ->
  finishes (fetch ts v1 Operation.Call DXOp.Msad) a ->
  finishes (fetch ts v2 Operation.Call DXOp.Msad) b ->
  finishes (fetch ts v3 Operation.Call DXOp.Msad) c ->
  let total := u32v (value c) 0 + masked_sad (u32v (value a) 0) (u32v (value b) 0) in
  exists r,
    finishes (case_Msad ts inst result eventFlags)
             (r, if UINT32_MAX <? total
                 then Z.lor eventFlags ShaderEvents.GeneratedNanOrInf else eventFlags) /\
    u32v (value r) 0 = Z.min UINT32_MAX total.
Proof.
  intros Harg1 Harg2 Harg3 Ha Hb Hc total.
  pose proof (u32v_range (value c) 0) as Hrc.
  assert (Hloop := Msad_loop_spec 4 0 (u32v (value a) 0) (u32v (value b) 0)
                     (u32v (value c) 0) eventFlags ltac:(lia)
                     ltac:(unfold UINT32_MAX; change (2 ^ 32) with 4294967296 in Hrc; lia)).
  rewrite sad_from_masked_sad in Hloop. fold total in Hloop.
  pose proof (sad_from_nonneg 4 0 (u32v (value a) 0) (u32v (value b) 0)) as Hnn.
  rewrite sad_from_masked_sad in Hnn.
  exists (with_value (set_u32v 0 (Z.min UINT32_MAX total) (value result)) result). split.
  - unfold case_Msad. case_prologue. rewrite Hloop.
    destruct (Z.ltb_spec UINT32_MAX total) as [Hov | Hok]; cbn [fst snd].
    + rewrite Z.min_l by lia. apply finishes_ret.
    + rewrite Z.min_r by lia. apply finishes_ret.
  - cbn [value with_value]. apply u32v_set_u32v; [ lia | ].
    unfold UINT32_MAX in *. change (2 ^ 32) with 4294967296 in *. lia.
Qed.

(** X14.  The DXOp [Ubfe] extracts a bit field: with the width and the
    offset taken from the low five bits of the first two operands, the result
    is the third operand shifted right by the offset and cut to the width,
    for every width from 0 to 31 and every offset, also when the field runs
    past bit 31. *)
Theorem DXOp_Ubfe_field (ts : ThreadState) (inst : Instruction) (v1 v2 v3 : Value)
    (a b c result : ShaderVariable) :
  at_index (args inst) 1 = Some v1 ->
  at_index (args inst) 2 = Some v2 ->
  at_index (args inst) 3 = Some v3 ->
  finishes (fetch ts v1 Operation.Call DXOp.Ubfe) a ->
  finishes (fetch ts v2 Operation.Call DXOp.Ubfe) b ->
  finishes (fetch ts v3 Operation.Call DXOp.Ubfe) c ->
  let width := u32v (value a) 0 mod 32 in
  let offset := u32v (value b) 0 mod 32 in
  exists r,
    finishes (case_Ubfe ts inst result) r /\
    u32v (value r) 0 = Z.land (Z.shiftr (u32v (value c) 0) offset) (Z.ones width).
Proof.
  intros Harg1 Harg2 Harg3 Ha Hb Hc width offset.
  pose proof (u32v_range (value c) 0) as Hrc.
  assert (Hw : Z.land (u32v (value a) 0) 0x1f = width).
  { change 0x1f with (Z.ones 5). rewrite Z.land_ones by lia. reflexivity. }
  assert (Ho : Z.land (u32v (value b) 0) 0x1f = offset).
  { change 0x1f with (Z.ones 5). rewrite Z.land_ones by lia. reflexivity. }
  assert (Hwr : 0 <= width < 32) by (apply Z.mod_pos_bound; lia).
  assert (Hor : 0 <= offset < 32) by (apply Z.mod_pos_bound; lia).
  pose proof (Ubfe_lanes (u32v (value c) 0) width offset (value result) Hrc Hwr Hor)
    as Hlane.
  cbv zeta in Hlane.
  exists (with_value
            (if width =? 0 then set_u32v 0 0 (value result)
             else if width + offset <? 32 then
               set_u32v 0
                 (Z.shiftr
                    (u32v (set_u32v 0 (wrap 32 (Z.shiftl (u32v (value c) 0)
                                                         (32 - (width + offset))))
                                    (value result)) 0)
                    (32 - width))
                 (set_u32v 0 (wrap 32 (Z.shiftl (u32v (value c) 0) (32 - (width + offset))))
                           (value result))
             else set_u32v 0 (Z.shiftr (u32v (value c) 0) offset) (value result))
            result).
  split.
  - unfold case_Ubfe. case_prologue. rewrite Hw, Ho.
    destruct (width =? 0); [ apply finishes_ret | ].
    destruct (width + offset <? 32); apply finishes_ret.
  - cbn [value with_value]. exact Hlane.
Qed.
(* ================================================================== *)
(** * Doubles from halves, unsigned extremes and LLVM integer arithmetic *)
(* ================================================================== *)

Section IntegerArithmetic.

(** A lane that was written holds the value modulo the lane width. *)
Lemma comp_set_comp_mod (w x : Z) (v : ShaderValue) :
  0 < w -> comp w 0 (set_comp w 0 x v) = x mod 2 ^ w.
Proof.
  intros Hw. rewrite comp_set_comp_same by lia. apply Z.land_ones. lia.
Qed.


Lemma signed_of_mod (w x : Z) :
  0 < w -> - 2 ^ (w - 1) <= x < 2 ^ (w - 1) -> signed w (x mod 2 ^ w) = x.
Proof.
  intros Hw Hx. rewrite <- Z.land_ones by lia. apply signed_land_ones; assumption.
Qed.

Lemma pow2_half (w : Z) : 0 < w -> 2 ^ w = 2 * 2 ^ (w - 1).
Proof.
  intros Hw. replace w with (Z.succ (w - 1)) at 1 by lia. apply Z.pow_succ_r. lia.
Qed.

(** The 32 bit lanes of the result of [SplitDouble]. *)
Lemma SplitDouble_lanes (x : Z) (v : ShaderValue) :
  0 <= x < 2 ^ 64 ->
  let r := set_u32v 1 (wrap 32 (Z.shiftr x 32))
                    (set_u32v 0 (wrap 32 (Z.land x 0xffffffff)) v) in
  u32v r 0 = x mod 2 ^ 32 /\ u32v r 1 = x / 2 ^ 32.
Proof.
  intros Hx. cbv zeta.
  destruct (u32v_pair (wrap 32 (Z.land x 0xffffffff)) (wrap 32 (Z.shiftr x 32)) v)
    as (E0 & E1).
  rewrite E0, E1. unfold wrap. rewrite !Z.mod_mod by lia.
  change 0xffffffff with (Z.ones 32). rewrite Z.land_ones by lia.
  rewrite Z.mod_mod by lia. rewrite Z.shiftr_div_pow2 by lia.
  split; [ reflexivity | ].
  apply Z.mod_small. split; [ apply Z.div_pos; lia | ].
  apply Z.div_lt_upper_bound; [ lia | ].
  change (2 ^ 32 * 2 ^ 32) with (2 ^ 64). lia.
Qed.

(** The 64 bit lane of the result of [MakeDouble]. *)
Lemma MakeDouble_lane (lo hi : Z) (v : ShaderValue) :
  0 <= lo < 2 ^ 32 -> 0 <= hi < 2 ^ 32 ->
  u64v (set_u64v 0 (Z.lor (wrap 64 (Z.shiftl hi 32)) lo) v) 0 = lo + 2 ^ 32 * hi.
Proof.
  intros Hlo Hhi.
  assert (Hsh : wrap 64 (Z.shiftl hi 32) = 2 ^ 32 * hi).
  { unfold wrap. rewrite Z.shiftl_mul_pow2 by lia.
    rewrite Z.mod_small; [ lia | ].
    change (2 ^ 64) with (2 ^ 32 * 2 ^ 32). nia. }
  rewrite Hsh.
  assert (Hor : Z.lor (2 ^ 32 * hi) lo = lo + 2 ^ 32 * hi).
  { rewrite Z.add_comm. symmetry. apply Z.add_nocarry_lor.
    apply Z.bits_inj'. intros n Hn. rewrite Z.land_spec, Z.bits_0.
    destruct (Z.ltb_spec n 32) as [Hlt | Hge].
    - rewrite Z.mul_comm, Z.mul_pow2_bits_low by lia. reflexivity.
    - destruct (Z.eq_dec lo 0) as [-> | Hnz];
        [ rewrite Z.bits_0; apply andb_false_r | ].
      rewrite (Z.bits_above_log2 lo n); [ apply andb_false_r | lia | ].
      assert (Z.log2 lo < 32) by (apply Z.log2_lt_pow2; lia). lia. }
  rewrite Hor.
  destruct (u32v_of_u64v (lo + 2 ^ 32 * hi) v) as (E & _).
  rewrite E. apply Z.mod_small.
  change (2 ^ 64) with (2 ^ 32 * 2 ^ 32). nia.
Qed.

End IntegerArithmetic.

(** X15.  [MakeDouble] and [SplitDouble] are inverse to each other on the
    bits: [MakeDouble(lo, hi)] writes the 64 bit number lo + 2^32 * hi, and
    [SplitDouble] of any operand whose first 64 bit component is that number
    returns lo in component 0 and hi in component 1. *)
Theorem DXOp_MakeDouble_SplitDouble (ts : ThreadState) (inst : Instruction) (v1 v2 : Value)
    (a b result : ShaderVariable) :
  at_index (args inst) 1 = Some v1 ->
  at_index (args inst) 2 = Some v2 ->
  finishes (fetch ts v1 Operation.Call DXOp.MakeDouble) a ->
  finishes (fetch ts v2 Operation.Call DXOp.MakeDouble) b ->
  exists d,
    finishes (case_MakeDouble ts inst result) d /\
    u64v (value d) 0 = u32v (value a) 0 + 2 ^ 32 * u32v (value b) 0 /\
    forall (ts' : ThreadState) (inst' : Instruction) (w1 : Value) (k : ScalarKind.t)
           (bitWidth : Z) (x result' : ShaderVariable),
      at_index (args inst') 1 = Some w1 ->
      value_type w1 = TyScalar k bitWidth ->
      finishes (fetch ts' w1 Operation.Call DXOp.SplitDouble) x ->
      u64v (value x) 0 = u64v (value d) 0 ->
      exists s,
        finishes (case_SplitDouble ts' inst' result') s /\
        u32v (value s) 0 = u32v (value a) 0 /\
        u32v (value s) 1 = u32v (value b) 0.
Proof.
  intros Harg1 Harg2 Ha Hb.
  pose proof (u32v_range (value a) 0) as Hra. pose proof (u32v_range (value b) 0) as Hrb.
  pose proof (MakeDouble_lane (u32v (value a) 0) (u32v (value b) 0) (value result) Hra Hrb)
    as Hmake.
  eexists. split; [ unfold case_MakeDouble; case_prologue; apply finishes_ret | ].
  cbn [value with_value]. split; [ exact Hmake | ].
  intros ts' inst' w1 k bitWidth x result' Harg Hty Hx Hsame.
  rewrite Hmake in Hsame.
  destruct (SplitDouble_lanes (u64v (value x) 0) (value result') (u64v_range _ _))
    as (H0 & H1).
  eexists. split.
  - unfold case_SplitDouble. cbv zeta. rewrite (arg_at_Some _ _ _ Harg).
    step_bind. unfold assert_bitWidth. rewrite Hty. repeat step_bind. apply finishes_ret.
  - cbn [value with_value]. rewrite H0, H1, Hsame. split.
    + symmetry. apply (Z.mod_unique _ _ (u32v (value b) 0)); [ left; exact Hra | lia ].
    + symmetry. apply (Z.div_unique _ _ _ (u32v (value a) 0)); [ left; exact Hra | lia ].
Qed.

(** X16.  The DXOps [UMin] and [UMax] compare the operands as unsigned 32 bit
    numbers, although the operands are asserted to be of type [SInt]: the
    result is the unsigned minimum or maximum, so an operand that is negative
    as a signed number counts as larger than every non-negative one. *)
Theorem DXOp_UMin_UMax_unsigned (ts : ThreadState) (inst : Instruction) (v1 v2 : Value)
    (a b result : ShaderVariable) (dxOpCode : DXOp.t) :
  dxOpCode = DXOp.UMin \/ dxOpCode = DXOp.UMax ->
  at_index (args inst) 1 = Some v1 ->
  at_index (args inst) 2 = Some v2 ->
  finishes (fetch ts v1 Operation.Call dxOpCode) a ->
  finishes (fetch ts v2 Operation.Call dxOpCode) b ->
  exists r,
    finishes (case_UMin_UMax ts inst dxOpCode result) r /\
    u32v (value r) 0 =
      match dxOpCode with
      | DXOp.UMin => Z.min (u32v (value a) 0) (u32v (value b) 0)
      | _ => Z.max (u32v (value a) 0) (u32v (value b) 0)
      end /\
    (s32v (value a) 0 < 0 <= s32v (value b) 0 ->
     u32v (value r) 0 =
       match dxOpCode with
       | DXOp.UMin => u32v (value b) 0
       | _ => u32v (value a) 0
       end).
Proof.
  intros Hdx Harg1 Harg2 Ha Hb.
  pose proof (u32v_range (value a) 0) as Hra. pose proof (u32v_range (value b) 0) as Hrb.
  assert (Hsign : s32v (value a) 0 < 0 <= s32v (value b) 0 ->
                  u32v (value b) 0 < u32v (value a) 0).
  { unfold s32v, signed. fold (u32v (value a) 0). fold (u32v (value b) 0).
    change (2 ^ (32 - 1)) with 2147483648. change (2 ^ 32) with 4294967296 in *.
    destruct (Z.ltb_spec (u32v (value a) 0) 2147483648);
      destruct (Z.ltb_spec (u32v (value b) 0) 2147483648); lia. }
  destruct Hdx as [-> | ->].
  - exists (with_value (set_u32v 0 (Z.min (u32v (value a) 0) (u32v (value b) 0))
                                 (value result)) result).
    split; [ unfold case_UMin_UMax; case_prologue; apply finishes_ret | ].
    cbn [value with_value]. rewrite u32v_set_u32v by lia.
    split; [ reflexivity | ]. intros Hs. specialize (Hsign Hs). lia.
  - exists (with_value (set_u32v 0 (Z.max (u32v (value a) 0) (u32v (value b) 0))
                                 (value result)) result).
    split; [ unfold case_UMin_UMax; case_prologue; apply finishes_ret | ].
    cbn [value with_value]. rewrite u32v_set_u32v by lia.
    split; [ reflexivity | ]. intros Hs. specialize (Hsign Hs). lia.
Qed.


(** X18.  The LLVM opcodes [UDiv] and [URem] with a divisor that is not
    zero: both finish without an event, the quotient is rounded down and
    dividend = quotient * divisor + remainder with the remainder below the
    divisor, on the unsigned lanes of the operands' type. *)
Theorem int_unsigned_division (a b result result' : ShaderVariable)
    (eventFlags : ShaderEvents) (w : Z) :
  int_lane_bits (type a) = Some w ->
  comp w 0 (value b) <> 0 ->
  exists q r,
    finishes (exec_int_arith Operation.UDiv a b result eventFlags) (q, eventFlags) /\
    finishes (exec_int_arith Operation.URem a b result' eventFlags) (r, eventFlags) /\
    comp w 0 (value q) = comp w 0 (value a) / comp w 0 (value b) /\
    comp w 0 (value r) = comp w 0 (value a) mod comp w 0 (value b) /\
    comp w 0 (value a) =
      comp w 0 (value q) * comp w 0 (value b) + comp w 0 (value r) /\
    0 <= comp w 0 (value r) < comp w 0 (value b).
Proof.
  intros Hw Hnz.
  assert (Hpos : 0 < w) by (destruct (int_lane_bits_cases _ _ Hw) as [-> | [-> | [-> | ->]]]; lia).
  pose proof (comp_range w 0 (value a) ltac:(lia)) as Hra.
  pose proof (comp_range w 0 (value b) ltac:(lia)) as Hrb.
  assert (Hm : 0 <= comp w 0 (value a) mod comp w 0 (value b) < comp w 0 (value b))
    by (apply Z.mod_pos_bound; lia).
  assert (Hdm := Z.div_mod (comp w 0 (value a)) (comp w 0 (value b)) Hnz).
  assert (Hq : 0 <= comp w 0 (value a) / comp w 0 (value b) < 2 ^ w).
  { split; [ apply Z.div_pos; lia | ].
    apply Z.div_lt_upper_bound; [ lia | nia ]. }
  exists (with_value (set_comp w 0 (comp w 0 (value a) / comp w 0 (value b))
                               (value result)) result),
         (with_value (set_comp w 0 (comp w 0 (value a) mod comp w 0 (value b))
                               (value result')) result').
  assert (E : (comp w 0 (value b) =? 0) = false) by (apply Z.eqb_neq; exact Hnz).
  split; [ | split ].
  - unfold exec_int_arith, cxx_udiv. rewrite Hw. cbv zeta. rewrite E. cbn [negb].
    apply finishes_ret.
  - unfold exec_int_arith, cxx_urem. rewrite Hw. cbv zeta. rewrite E.
    apply finishes_ret.
  - cbn [value with_value]. rewrite !comp_set_comp_mod by exact Hpos.
    rewrite (Z.mod_small (_ / _)) by exact Hq.
    rewrite (Z.mod_small (_ mod _)) by lia.
    repeat split; lia.
Qed.

(** X19.  The LLVM opcodes [SDiv] and [SRem] with a divisor that is not
    zero.  Unless the dividend is the smallest number of the type and the
    divisor is -1, both finish without an event, the quotient is rounded
    towards zero and dividend = quotient * divisor + remainder on the signed
    lanes, with a remainder that is smaller in magnitude than the divisor and
    has the sign of the dividend.  In the excepted case the 32 and 64 bit
    lanes run into a signed overflow, which is undefined behaviour. *)
Theorem int_signed_division (a b result result' : ShaderVariable)
    (eventFlags : ShaderEvents) (w : Z) :
  int_lane_bits (type a) = Some w ->
  signed w (comp w 0 (value b)) <> 0 ->
  let sa := signed w (comp w 0 (value a)) in
  let sb := signed w (comp w 0 (value b)) in
  (~ (sa = - 2 ^ (w - 1) /\ sb = -1) ->
   exists q r,
     finishes (exec_int_arith Operation.SDiv a b result eventFlags) (q, eventFlags) /\
     finishes (exec_int_arith Operation.SRem a b result' eventFlags) (r, eventFlags) /\
     signed w (comp w 0 (value q)) = Z.quot sa sb /\
     signed w (comp w 0 (value r)) = Z.rem sa sb /\
     sa = signed w (comp w 0 (value q)) * sb + signed w (comp w 0 (value r)) /\
     Z.abs (signed w (comp w 0 (value r))) < Z.abs sb /\
     0 <= signed w (comp w 0 (value r)) * sa) /\
  (sa = - 2 ^ (w - 1) -> sb = -1 -> 32 <= w ->
   exec_int_arith Operation.SDiv a b result eventFlags =
     Undefined "signed integer overflow" /\
   exec_int_arith Operation.SRem a b result' eventFlags =
     Undefined "signed integer overflow").
Proof.
  intros Hw Hnz sa sb.
  assert (Hpos : 0 < w) by (destruct (int_lane_bits_cases _ _ Hw) as [-> | [-> | [-> | ->]]]; lia).
  pose proof (signed_range w (comp w 0 (value a)) Hpos (comp_range w 0 _ ltac:(lia))) as Hra.
  pose proof (signed_range w (comp w 0 (value b)) Hpos (comp_range w 0 _ ltac:(lia))) as Hrb.
  fold sa in Hra. fold sb in Hrb. fold sb in Hnz.
  assert (E : (sb =? 0) = false) by (apply Z.eqb_neq; exact Hnz).
  assert (Hhalf : 0 < 2 ^ (w - 1)) by (apply Z.pow_pos_nonneg; lia).
  split.
  - intros Hno.
    assert (Eov : (32 <=? w) && (sa =? - 2 ^ (w - 1)) && (sb =? -1) = false).
    { destruct (Z.eqb_spec sa (- 2 ^ (w - 1))) as [E1 | E1];
        destruct (Z.eqb_spec sb (-1)) as [E2 | E2];
        rewrite ?andb_false_r; try reflexivity.
      exfalso. apply Hno. split; assumption. }
    pose proof (Z.quot_rem' sa sb) as Hqr.
    pose proof (Z.rem_bound_abs sa sb Hnz) as Hrem.
    pose proof (Z.rem_sign_mul sa sb Hnz) as Hsign.
    assert (Hq : - 2 ^ (w - 1) <= Z.quot sa sb < 2 ^ (w - 1)).
    { pose proof (Z.quot_abs sa sb Hnz) as Habs.
      assert (Hle : Z.abs (Z.quot sa sb) <= Z.abs sa).
      { rewrite <- Habs. apply Z.quot_le_upper_bound; [ lia | nia ]. }
      destruct (Z.eq_dec sa (- 2 ^ (w - 1))) as [E1 | E1]; [ | lia ].
      assert (E2 : sb <> -1) by (intros E2; apply Hno; split; assumption).
      destruct (Z.eq_dec sb 1) as [-> | E3]; [ rewrite Z.quot_1_r; lia | ].
      assert (Hlt : Z.abs (Z.quot sa sb) < Z.abs sa).
      { rewrite <- Habs. apply Z.quot_lt; lia. }
      lia. }
    assert (Hr : - 2 ^ (w - 1) <= Z.rem sa sb < 2 ^ (w - 1)) by lia.
    exists (with_value (set_comp w 0 (Z.quot sa sb) (value result)) result),
           (with_value (set_comp w 0 (Z.rem sa sb) (value result')) result').
    split; [ | split ].
    + unfold exec_int_arith, cxx_sdiv. rewrite Hw. cbv zeta.
      fold sa. fold sb. rewrite E, Eov. cbn [negb]. apply finishes_ret.
    + unfold exec_int_arith, cxx_srem. rewrite Hw. cbv zeta.
      fold sa. fold sb. rewrite E, Eov. apply finishes_ret.
    + cbn [value with_value]. rewrite !comp_set_comp_mod by exact Hpos.
      rewrite !signed_of_mod by assumption.
      repeat split; lia.
  - intros E1 E2 Hwide.
    assert (Eov : (32 <=? w) && (sa =? - 2 ^ (w - 1)) && (sb =? -1) = true).
    { rewrite E1, E2, !Z.eqb_refl, andb_true_r, andb_true_r. apply Z.leb_le. exact Hwide. }
    split.
    + unfold exec_int_arith, cxx_sdiv. rewrite Hw. cbv zeta.
      fold sa. fold sb. rewrite E, Eov. reflexivity.
    + unfold exec_int_arith, cxx_srem. rewrite Hw. cbv zeta.
      fold sa. fold sb. rewrite E, Eov. reflexivity.
Qed.
(* ================================================================== *)
(** * Integer comparisons, conversions and bit operations *)
(* ================================================================== *)

Section IntegerOpcodes.

(** A lane written into the zeroed result is the whole value. *)
Lemma set_comp_zero (w x : Z) : 0 < w -> 0 <= x < 2 ^ w -> set_comp w 0 x zero_value = x.
Proof.
  intros Hw Hx. unfold set_comp, zero_value.
  rewrite Z.ldiff_0_l, Z.lor_0_l, Z.mul_0_r, Z.shiftl_0_r.
  apply land_ones_small; lia.
Qed.

Lemma int_lane_bits_pos (t : VarType.t) (w : Z) : int_lane_bits t = Some w -> 8 <= w.
Proof.
  intros Hw. destruct (int_lane_bits_cases _ _ Hw) as [-> | [-> | [-> | ->]]]; lia.
Qed.

(** A small number is the same in every lane it fits. *)
Lemma u32v_small (x : Z) : 0 <= x < 2 ^ 32 -> u32v x 0 = x.
Proof.
  intros Hx. unfold u32v, comp. rewrite Z.mul_0_r, Z.shiftr_0_r.
  apply land_ones_small; lia.
Qed.

Lemma pow2_le_lane (w : Z) : 8 <= w -> 2 ^ 8 <= 2 ^ w.
Proof. intros Hw. apply Z.pow_le_mono_r; lia. Qed.





End IntegerOpcodes.

(** X20.  The integer comparisons, for operands of 8, 16, 32 and 64 bits
    alike: with the result zeroed as [ExecuteInstruction] leaves it, the
    whole result value is 1 or 0, so the 32 bit lane that [Branch] and
    [Select] test holds the answer also for 64 bit operands; it is 1 just
    when the relation of the opcode holds, between the unsigned lanes for
    [IEqual], [INotEqual] and the [U] opcodes and between the signed lanes
    for the [S] opcodes. *)
Theorem icmp_result (ts : ThreadState) (inst : Instruction) (opCode : Operation.t)
    (v0 v1 : Value) (a b result : ShaderVariable) (w : Z) :
  at_index (args inst) 0 = Some v0 ->
  at_index (args inst) 1 = Some v1 ->
  finishes (fetch ts v0 opCode DXOp.NumOpCodes) a ->
  finishes (fetch ts v1 opCode DXOp.NumOpCodes) b ->
  int_lane_bits (type a) = Some w ->
  value result = zero_value ->
  let ua := comp w 0 (value a) in
  let ub := comp w 0 (value b) in
  let sa := signed w ua in
  let sb := signed w ub in
  forall holds : Prop,
    match opCode with
    | Operation.IEqual => holds <-> ua = ub
    | Operation.INotEqual => holds <-> ua <> ub
    | Operation.UGreater => holds <-> ua > ub
    | Operation.UGreaterEqual => holds <-> ua >= ub
    | Operation.ULess => holds <-> ua < ub
    | Operation.ULessEqual => holds <-> ua <= ub
    | Operation.SGreater => holds <-> sa > sb
    | Operation.SGreaterEqual => holds <-> sa >= sb
    | Operation.SLess => holds <-> sa < sb
    | Operation.SLessEqual => holds <-> sa <= sb
    | _ => False
    end ->
    exists r,
      finishes (case_icmp ts inst opCode result) r /\
      (value r = 0 \/ value r = 1) /\
      u32v (value r) 0 = value r /\
      (value r = 1 <-> holds).
Proof.
  intros Harg0 Harg1 Ha Hb Hw Hzero ua ub sa sb holds Hrel.
  pose proof (int_lane_bits_pos _ _ Hw) as Hpos.
  pose proof (pow2_le_lane w Hpos) as Hpow. change (2 ^ 8) with 256 in Hpow.
  assert (Hstore : forall c : bool,
            value (with_value (set_comp w 0 (if c then 1 else 0) (value result)) result)
            = if c then 1 else 0).
  { intros c. cbn [value with_value]. rewrite Hzero.
    apply set_comp_zero; [ lia | destruct c; lia ]. }
  assert (Hrun : forall c : bool,
            icmp_value opCode ua ub sa sb = Some (if c then 1 else 0) ->
            finishes (case_icmp ts inst opCode result)
                     (with_value (set_comp w 0 (if c then 1 else 0) (value result)) result)).
  { intros c Hc. unfold case_icmp. case_prologue. unfold exec_icmp. rewrite Hw.
    cbv zeta. fold ua ub. fold sa sb. rewrite Hc. apply finishes_ret. }
  assert (Hfinal : forall c : bool,
            icmp_value opCode ua ub sa sb = Some (if c then 1 else 0) ->
            (c = true <-> holds) ->
            exists r,
              finishes (case_icmp ts inst opCode result) r /\
              (value r = 0 \/ value r = 1) /\
              u32v (value r) 0 = value r /\
              (value r = 1 <-> holds)).
  { intros c Hc Hiff. eexists. split; [ apply (Hrun c Hc) | ].
    rewrite (Hstore c). split; [ destruct c; auto | ]. split.
    - apply u32v_small. destruct c; lia.
    - rewrite <- Hiff. destruct c; split; intros E; try reflexivity; discriminate. }
  destruct opCode; try contradiction; cbn [icmp_value] in Hfinal.
  - apply (Hfinal (ua =? ub)); [ reflexivity | ]. rewrite Hrel. apply Z.eqb_eq.
  - apply (Hfinal (negb (ua =? ub))); [ reflexivity | ]. rewrite Hrel.
    rewrite negb_true_iff. apply Z.eqb_neq.
  - apply (Hfinal (ua >? ub)); [ reflexivity | ]. rewrite Hrel.
    rewrite Z.gtb_ltb, Z.ltb_lt. lia.
  - apply (Hfinal (ua >=? ub)); [ reflexivity | ]. rewrite Hrel.
    rewrite Z.geb_leb, Z.leb_le. lia.
  - apply (Hfinal (ua <? ub)); [ reflexivity | ]. rewrite Hrel. apply Z.ltb_lt.
  - apply (Hfinal (ua <=? ub)); [ reflexivity | ]. rewrite Hrel. apply Z.leb_le.
  - apply (Hfinal (sa >? sb)); [ reflexivity | ]. rewrite Hrel.
    rewrite Z.gtb_ltb, Z.ltb_lt. lia.
  - apply (Hfinal (sa >=? sb)); [ reflexivity | ]. rewrite Hrel.
    rewrite Z.geb_leb, Z.leb_le. lia.
  - apply (Hfinal (sa <? sb)); [ reflexivity | ]. rewrite Hrel. apply Z.ltb_lt.
  - apply (Hfinal (sa <=? sb)); [ reflexivity | ]. rewrite Hrel. apply Z.leb_le.
Qed.



(** X23.  [ArithShiftRight] on 32 bit lanes first assigns the 64 bit lane
    of the result the operand shifted left, and then the 32 bit lane the
    operand shifted right.  For operands whose upper halves are zero and a
    count below 32 the signed 32 bit lane of the result is the operand
    divided by 2^n rounded down, and the left-over of the first assignment
    stays in component 1: it is the operand divided by 2^(32-n). *)
Theorem ashr_result (a b result : ShaderVariable) :
  int_lane_bits (type result) = Some 32 ->
  u32v (value a) 1 = 0 ->
  u64v (value b) 0 < 32 ->
  exists r,
    finishes (exec_bitwise Operation.ArithShiftRight a b result) r /\
    s32v (value r) 0 = s32v (value a) 0 / 2 ^ u32v (value b) 0 /\
    u32v (value r) 1 = u32v (value a) 0 / 2 ^ (32 - u32v (value b) 0).
Proof.
  intros Hw Hhigh Hcount.
  pose proof (u32v_range (value a) 0) as Hra.
  pose proof (u64v_range (value b) 0) as Hrb.
  assert (Ha64 : u64v (value a) 0 = u32v (value a) 0).
  { apply Z.bits_inj'. intros i Hi. unfold u64v, u32v.
    rewrite !testbit_comp by lia. rewrite !Z.mul_0_r, !Z.add_0_r.
    destruct (Z.ltb_spec i 32) as [Hlt | Hge].
    - replace (i <? 64) with true by (symmetry; apply Z.ltb_lt; lia). reflexivity.
    - cbn [andb]. destruct (Z.ltb_spec i 64) as [Hlt' | Hge']; [ | reflexivity ].
      cbn [andb].
      assert (Hbit : Z.testbit (u32v (value a) 1) (i - 32) = false)
        by (rewrite Hhigh; apply Z.bits_0).
      unfold u32v in Hbit. rewrite testbit_comp in Hbit by lia.
      replace (i - 32 + 32 * 1) with i in Hbit by lia.
      replace (i - 32 <? 32) with true in Hbit by (symmetry; apply Z.ltb_lt; lia).
      exact Hbit. }
  assert (Hb32 : u32v (value b) 0 = u64v (value b) 0).
  { apply Z.bits_inj'. intros i Hi. unfold u64v, u32v.
    rewrite !testbit_comp by lia. rewrite !Z.mul_0_r, !Z.add_0_r.
    destruct (Z.ltb_spec i 32) as [Hlt | Hge].
    - replace (i <? 64) with true by (symmetry; apply Z.ltb_lt; lia). reflexivity.
    - cbn [andb].
      assert (Hbit : Z.testbit (u64v (value b) 0) i = false).
      { destruct (Z.eq_dec (u64v (value b) 0) 0) as [E | Hnz];
          [ rewrite E; apply Z.bits_0 | ].
        apply Z.bits_above_log2; [ lia | ].
        assert (Z.log2 (u64v (value b) 0) < 5) by (apply Z.log2_lt_pow2; lia). lia. }
      unfold u64v in Hbit. rewrite testbit_comp in Hbit by lia.
      rewrite Z.mul_0_r, Z.add_0_r in Hbit. symmetry. exact Hbit. }
  remember (u32v (value a) 0) as ua eqn:Eua.
  remember (u64v (value b) 0) as n eqn:En.
  assert (Hp : 0 < 2 ^ n) by (apply Z.pow_pos_nonneg; lia).
  assert (Hpn : 2 ^ n <= 2 ^ 31) by (apply Z.pow_le_mono_r; lia).
  assert (Hsplit : 2 ^ n * 2 ^ (32 - n) = 2 ^ 32).
  { rewrite <- Z.pow_add_r by lia. f_equal. lia. }
  assert (Hs64 : s64v (value a) 0 = ua).
  { unfold s64v. fold (u64v (value a) 0). rewrite Ha64. unfold signed.
    change (2 ^ (64 - 1)) with 9223372036854775808. change (2 ^ 32) with 4294967296 in Hra.
    destruct (Z.ltb_spec ua 9223372036854775808); lia. }
  assert (Hprod : 0 <= ua * 2 ^ n < 2 ^ 63).
  { change (2 ^ 63) with (2 ^ 32 * 2 ^ 31). nia. }
  assert (Hsb : signed 32 (comp 32 0 (value b)) = n).
  { fold (u32v (value b) 0). rewrite Hb32. unfold signed.
    change (2 ^ (32 - 1)) with 2147483648.
    destruct (Z.ltb_spec n 2147483648); lia. }
  assert (Hq : - 2 ^ 31 <= signed 32 ua / 2 ^ n < 2 ^ 31).
  { pose proof (signed_range 32 ua ltac:(lia) Hra) as Hs.
    change (2 ^ (32 - 1)) with (2 ^ 31) in Hs. split.
    - apply Z.div_le_lower_bound; [ lia | ]. nia.
    - apply Z.div_lt_upper_bound; [ lia | ]. nia. }
  exists (with_value
            (set_comp 32 0 (Z.shiftr (signed 32 ua) n)
                      (set_s64v 0 (Z.shiftl ua n) (value result))) result).
  split; [ | split ].
  - unfold exec_bitwise. cbv zeta. rewrite Hs64, <- En.
    unfold cxx_shl_s64.
    replace (64 <=? n) with false by (symmetry; apply Z.leb_gt; lia).
    replace (ua <? 0) with false by (symmetry; apply Z.ltb_ge; lia).
    replace (2 ^ 63 <=? ua * 2 ^ n) with false by (symmetry; apply Z.leb_gt; lia).
    cbn [orb]. step_bind. cbn [type with_value]. rewrite Hw.
    cbn [value with_value]. fold (u32v (value a) 0). rewrite <- Eua, Hsb.
    unfold cxx_shr_signed, promoted_bits.
    replace (n <? 0) with false by (symmetry; apply Z.ltb_ge; lia).
    replace (Z.max 32 32 <=? n) with false by (symmetry; apply Z.leb_gt; lia).
    cbn [orb]. step_bind. apply finishes_ret.
  - cbn [value with_value]. unfold s32v. rewrite comp_set_comp_mod by lia.
    fold (u32v (value a) 0). rewrite <- Eua.
    rewrite Z.shiftr_div_pow2 by lia.
    rewrite signed_of_mod by (try lia; exact Hq).
    rewrite Hb32. reflexivity.
  - cbn [value with_value]. unfold u32v at 1.
    rewrite comp_set_comp_other by lia. unfold set_s64v.
    rewrite comp_set_comp_inside by lia. change (32 * 1 - 64 * 0) with 32.
    rewrite Z.land_ones by lia. rewrite Z.shiftr_div_pow2, Z.shiftl_mul_pow2 by lia.
    rewrite Hb32.
    assert (Hpm : 0 < 2 ^ (32 - n)) by (apply Z.pow_pos_nonneg; lia).
    assert (Hdiv : (ua * 2 ^ n) / 2 ^ 32 = ua / 2 ^ (32 - n)).
    { rewrite <- Hsplit. rewrite (Z.mul_comm ua). apply Z.div_mul_cancel_l; lia. }
    rewrite Hdiv.
    apply Z.mod_small. split.
    + apply Z.div_pos; [ lia | apply Z.pow_pos_nonneg; lia ].
    + apply Z.div_lt_upper_bound; [ apply Z.pow_pos_nonneg; lia | ].
      assert (1 <= 2 ^ (32 - n)) by (apply Z.pow_le_mono_r with (b := 0) (c := 32 - n) (a := 2); lia).
      nia.
Qed.
(* ================================================================== *)
(** * Vector elements and selection *)
(* ================================================================== *)

Section VectorElements.

Lemma finishes_inner_scalarType (n : Z) (inner : DXILType) :
  finishes (inner_scalarType (TyVector n inner)) (type_scalarType inner).
Proof. apply finishes_ret. Qed.

Lemma finishes_comp_at (w c : Z) (v : ShaderValue) :
  0 <= c < 16 -> finishes (comp_at w c v) (comp w c v).
Proof.
  intros Hc. unfold comp_at.
  replace ((0 <=? c) && (c <? 16)) with true; [ apply finishes_ret | ].
  symmetry. apply andb_true_iff. split; [ apply Z.leb_le | apply Z.ltb_lt ]; lia.
Qed.

Lemma finishes_set_comp_at (w c x : Z) (v : ShaderValue) :
  0 <= c < 16 -> finishes (set_comp_at w c x v) (set_comp w c x v).
Proof.
  intros Hc. unfold set_comp_at.
  replace ((0 <=? c) && (c <? 16)) with true; [ apply finishes_ret | ].
  symmetry. apply andb_true_iff. split; [ apply Z.leb_le | apply Z.ltb_lt ]; lia.
Qed.

(** The lanes after one lane was written. *)
Lemma comp_set_comp_lanes (w c j x : Z) (v : ShaderValue) :
  0 < w -> 0 <= c -> 0 <= j -> 0 <= x < 2 ^ w ->
  comp w j (set_comp w c x v) = if j =? c then x else comp w j v.
Proof.
  intros Hw Hc Hj Hx. destruct (Z.eqb_spec j c) as [-> | Hne].
  - rewrite comp_set_comp_same by lia. apply land_ones_small; lia.
  - apply comp_set_comp_other; lia.
Qed.

(** The types with integer lanes and those with floating point lanes are
    apart. *)
Lemma int_lanes_not_float (t : VarType.t) (w : Z) :
  int_lane_bits t = Some w -> float_lane_format t = None.
Proof. destruct t; cbn; intros E; try discriminate; reflexivity. Qed.

Lemma float_lanes_not_int (t : VarType.t) (fmt : FloatFormat) :
  float_lane_format t = Some fmt -> int_lane_bits t = None /\ 16 <= fwidth fmt.
Proof.
  destruct t; cbn; intros E; try discriminate; injection E as <-;
    (split; [ reflexivity | cbv; discriminate ]).
Qed.

(** The width of the lanes of a variable of an integer or floating point
    type. *)
Lemma lane_width_cases (t : VarType.t) (w : Z) :
  int_lane_bits t = Some w \/ option_map fwidth (float_lane_format t) = Some w ->
  8 <= w /\
  ((int_lane_bits t = Some w /\ float_lane_format t = None) \/
   (int_lane_bits t = None /\ exists fmt, float_lane_format t = Some fmt /\ fwidth fmt = w)).
Proof.
  intros [Hi | Hf].
  - split; [ apply (int_lane_bits_pos _ _ Hi) | ].
    left. split; [ exact Hi | apply (int_lanes_not_float _ _ Hi) ].
  - destruct (float_lane_format t) as [fmt | ] eqn:E; [ | discriminate ].
    injection Hf as Hf. destruct (float_lanes_not_int _ _ E) as (Hn & Hwide).
    split; [ lia | ]. right. split; [ exact Hn | ]. exists fmt. split; [ reflexivity | exact Hf ].
Qed.

End VectorElements.

Ltac step_element :=
  first
    [ step_bind
    | eapply finishes_bind; [ apply finishes_inner_scalarType | cbv beta iota zeta ]
    | eapply finishes_bind; [ apply finishes_comp_at; lia | cbv beta iota zeta ]
    | eapply finishes_bind; [ apply finishes_set_comp_at; lia | cbv beta iota zeta ] ].

(** X24.  [InsertElement] followed by [ExtractElement].  For a vector of an
    integer or floating point type, a scalar of the same type and an index
    below 16, [InsertElement] returns the vector with the lane at the index
    replaced by the scalar and every other lane kept; the result is a copy of
    the vector operand with that one lane assigned, so it carries that
    operand's name and type.
    [ExtractElement] of a vector holding that value returns the inserted
    scalar at the same index and the lane of the original vector at any
    other index. *)
Theorem InsertElement_ExtractElement (ts : ThreadState) (inst : Instruction)
    (v0 v1 v2 : Value) (n0 n1 : Z) (inner0 inner1 : DXILType)
    (a b c result : ShaderVariable) (w : Z) :
  at_index (args inst) 0 = Some v0 ->
  at_index (args inst) 1 = Some v1 ->
  at_index (args inst) 2 = Some v2 ->
  value_type v0 = TyVector n0 inner0 ->
  itype inst = TyVector n1 inner1 ->
  finishes (fetch ts v0 Operation.InsertElement DXOp.NumOpCodes) a ->
  finishes (fetch ts v1 Operation.InsertElement DXOp.NumOpCodes) b ->
  finishes (fetch ts v2 Operation.InsertElement DXOp.NumOpCodes) c ->
  int_lane_bits (type a) = Some w \/
    option_map fwidth (float_lane_format (type a)) = Some w ->
  type b = type a ->
  u32v (value c) 0 < 16 ->
  let idx := u32v (value c) 0 in
  exists r,
    finishes (case_InsertElement ts inst result) r /\
    name r = name a /\ type r = type a /\
    value r = set_comp w idx (comp w 0 (value b)) (value a) /\
    (forall j, 0 <= j ->
       comp w j (value r) = if j =? idx then comp w 0 (value b) else comp w j (value a)) /\
    forall (ts' : ThreadState) (inst' : Instruction) (w0 w1 : Value) (m0 : Z)
           (inner' : DXILType) (x y result' : ShaderVariable),
      at_index (args inst') 0 = Some w0 ->
      at_index (args inst') 1 = Some w1 ->
      value_type w0 = TyVector m0 inner' ->
      finishes (fetch ts' w0 Operation.ExtractElement DXOp.NumOpCodes) x ->
      finishes (fetch ts' w1 Operation.ExtractElement DXOp.NumOpCodes) y ->
      type x = type r -> value x = value r ->
      u32v (value y) 0 < 16 ->
      exists e,
        finishes (case_ExtractElement ts' inst' result') e /\
        comp w 0 (value e) =
          if u32v (value y) 0 =? idx then comp w 0 (value b)
          else comp w (u32v (value y) 0) (value a).
Proof.
  intros Harg0 Harg1 Harg2 Hty Hret Ha Hb Hc Hlanes Htb Hidx idx.
  pose proof (u32v_range (value c) 0) as Hrc. fold idx in Hrc, Hidx.
  destruct (lane_width_cases _ _ Hlanes) as (Hpos & Hcases).
  pose proof (comp_range w 0 (value b) ltac:(lia)) as Hrb.
  exists (with_value (set_comp w idx (comp w 0 (value b)) (value a)) a).
  assert (Hread : forall j, 0 <= j ->
            comp w j (set_comp w idx (comp w 0 (value b)) (value a)) =
              if j =? idx then comp w 0 (value b) else comp w j (value a)).
  { intros j Hj. apply comp_set_comp_lanes; lia. }
  split; [ | split; [ reflexivity | split; [ reflexivity | split; [ reflexivity | split ] ] ] ].
  - unfold case_InsertElement. cbv zeta.
    rewrite (arg_at_Some _ _ _ Harg0), (arg_at_Some _ _ _ Harg1),
      (arg_at_Some _ _ _ Harg2).
    step_element. rewrite Hty, Hret. repeat step_element.
    rewrite Htb. fold idx.
    destruct Hcases as [(Hi & Hf) | (Hi & fmt & Hf & Hfw)]; rewrite Hi, Hf.
    + eapply finishes_bind; [ step_element; apply finishes_ret | ].
      cbv beta iota. apply finishes_ret.
    + step_element. rewrite Hfw. step_element. apply finishes_ret.
  - intros j Hj. cbn [value with_value]. apply Hread. exact Hj.
  - intros ts' inst' w0 w1 m0 inner' x y result' Harg0' Harg1' Hty' Hx Hy Htx Hvx Hj.
    pose proof (u32v_range (value y) 0) as Hry.
    cbn [type value with_value] in Htx, Hvx.
    assert (Hlane : comp w (u32v (value y) 0) (value x) =
                      if u32v (value y) 0 =? idx then comp w 0 (value b)
                      else comp w (u32v (value y) 0) (value a)).
    { rewrite Hvx. apply Hread. lia. }
    assert (Hrl : 0 <= comp w (u32v (value y) 0) (value x) < 2 ^ w)
      by (apply comp_range; lia).
    exists (with_value (set_comp w 0 (comp w (u32v (value y) 0) (value x)) (value result'))
                       result').
    split.
    + unfold case_ExtractElement. cbv zeta.
      rewrite (arg_at_Some _ _ _ Harg0'), (arg_at_Some _ _ _ Harg1').
      step_element. rewrite Hty'. repeat step_element.
      rewrite Htx.
      destruct Hcases as [(Hi & Hf) | (Hi & fmt & Hf & Hfw)]; rewrite Hi, Hf.
      * eapply finishes_bind; [ step_element; apply finishes_ret | ].
        cbv beta iota. apply finishes_ret.
      * step_element. rewrite Hfw. step_element. apply finishes_ret.
    + cbn [value with_value]. rewrite comp_set_comp_mod by lia.
      rewrite Z.mod_small by exact Hrl. exact Hlane.
Qed.

(** X25.  [Select] takes the first operand only when component 0 of the
    selector is exactly 1, and the second for every other selector, and it
    fetches only the operand it takes: the result gets the whole value of
    that operand, whatever the other operand is, even when the other cannot
    be fetched at all. *)
Theorem Select_result (ts : ThreadState) (inst : Instruction) (v2 v : Value)
    (selector arg result : ShaderVariable) :
  at_index (args inst) 2 = Some v2 ->
  finishes (fetch ts v2 Operation.Select DXOp.NumOpCodes) selector ->
  at_index (args inst) (if u32v (value selector) 0 =? 1 then 0 else 1) = Some v ->
  finishes (fetch ts v Operation.Select DXOp.NumOpCodes) arg ->
  finishes (case_Select ts inst result) (with_value (value arg) result) /\
  (u32v (value selector) 0 <> 1 -> at_index (args inst) 1 = Some v) /\
  name (with_value (value arg) result) = name result /\
  type (with_value (value arg) result) = type result.
Proof.
  intros Harg2 Hsel Harg Hfetch.
  split; [ | split; [ | split; reflexivity ] ].
  - unfold case_Select. cbv zeta. rewrite (arg_at_Some _ _ _ Harg2).
    repeat step_bind. rewrite (arg_at_Some _ _ _ Harg). repeat step_bind.
    apply finishes_ret.
  - intros Hne. destruct (Z.eqb_spec (u32v (value selector) 0) 1) as [E | E];
      [ contradiction | exact Harg ].
Qed.
(* ================================================================== *)
(** * Divergence of a workgroup and of a quad *)
(* ================================================================== *)

Section Divergence.

Lemma execution_point_eq (lane : ThreadState) (block0 instr0 : Z) :
  execution_point lane = (block0, instr0) <->
  (m_Block lane =? block0) = true /\ (m_ActiveGlobalInstructionIdx lane =? instr0) = true.
Proof.
  unfold execution_point. rewrite !Z.eqb_eq. split.
  - intros E. injection E as E1 E2. split; assumption.
  - intros (E1 & E2). rewrite E1, E2. reflexivity.
Qed.

(** Once a first unfinished lane was found, the loop answers false just when
    every unfinished lane that follows is at the same execution point. *)
Lemma WorkgroupIsDiverged_loop_found (workgroup : list ThreadState) (block0 instr0 : Z) :
  block0 <> NO_INDEX ->
  (WorkgroupIsDiverged_loop workgroup block0 instr0 = false <->
   Forall (unfinished_at (block0, instr0)) workgroup).
Proof.
  intros Hb. apply Z.eqb_neq in Hb.
  induction workgroup as [ | lane rest IH ]; cbn [WorkgroupIsDiverged_loop].
  - split; [ constructor | reflexivity ].
  - rewrite Forall_cons. unfold unfinished_at at 1.
    destruct (Finished lane) eqn:Efin.
    + rewrite IH. split; [ intros H; split; [ discriminate | exact H ] | intros (_ & H); exact H ].
    + rewrite Hb. rewrite execution_point_eq.
      destruct (m_Block lane =? block0); cbn [negb].
      * destruct (m_ActiveGlobalInstructionIdx lane =? instr0); cbn [negb].
        -- rewrite IH. split; [ intros H; split; [ auto | exact H ] | intros (_ & H); exact H ].
        -- split; [ discriminate | ]. intros (H & _). destruct (H eq_refl). discriminate.
      * split; [ discriminate | ]. intros (H & _). destruct (H eq_refl). discriminate.
Qed.

(** Before a first unfinished lane was found. *)
Lemma WorkgroupIsDiverged_loop_start (workgroup : list ThreadState) (instr0 : Z) :
  Forall (fun lane => Finished lane = false -> m_Block lane <> NO_INDEX) workgroup ->
  (WorkgroupIsDiverged_loop workgroup NO_INDEX instr0 = false <->
   forall x y, In x workgroup -> In y workgroup ->
               Finished x = false -> Finished y = false ->
               execution_point x = execution_point y).
Proof.
  induction workgroup as [ | lane rest IH ]; intros Hvalid; cbn [WorkgroupIsDiverged_loop].
  - split; [ intros _ x y [] | reflexivity ].
  - apply Forall_cons in Hvalid as (Hlane & Hrest).
    destruct (Finished lane) eqn:Efin.
    + rewrite (IH Hrest). split.
      * intros H x y [<- | Hx] [<- | Hy] Fx Fy; try congruence. apply H; assumption.
      * intros H x y Hx Hy. apply H; right; assumption.
    + rewrite Z.eqb_refl.
      rewrite (WorkgroupIsDiverged_loop_found rest _ _ (Hlane eq_refl)).
      rewrite List.Forall_forall. unfold unfinished_at. fold (execution_point lane). split.
      * intros H x y [<- | Hx] [<- | Hy] Fx Fy.
        -- reflexivity.
        -- symmetry. apply H; assumption.
        -- apply H; assumption.
        -- rewrite (H x Hx Fx), (H y Hy Fy). reflexivity.
      * intros H x Hx Fx. apply H; [ right; exact Hx | left; reflexivity | exact Fx | exact Efin ].
Qed.

(** The loop of [QuadIsDiverged] over neighbours that are lanes of the
    workgroup is the loop of [WorkgroupIsDiverged] over those lanes. *)
Lemma QuadIsDiverged_loop_lanes (workgroup : list ThreadState) (qs : list Z)
    (lanes : list ThreadState) :
  Forall2 (fun q lane => q <> NO_INDEX /\ at_index workgroup q = Some lane) qs lanes ->
  forall block0 instr0,
    QuadIsDiverged_loop workgroup qs block0 instr0 =
      ret (WorkgroupIsDiverged_loop lanes block0 instr0).
Proof.
  induction 1 as [ | q lane qs lanes (Hq & Hlane) _ IH ]; intros block0 instr0;
    cbn [QuadIsDiverged_loop WorkgroupIsDiverged_loop]; [ reflexivity | ].
  apply Z.eqb_neq in Hq. rewrite Hq, Hlane.
  destruct (Finished lane); [ apply IH | ].
  destruct (block0 =? NO_INDEX); [ apply IH | ].
  destruct (negb (m_Block lane =? block0)); [ reflexivity | ].
  destruct (negb (m_ActiveGlobalInstructionIdx lane =? instr0)); [ reflexivity | apply IH ].
Qed.

End Divergence.

(** X26.  [WorkgroupIsDiverged] answers false exactly when all the lanes
    that have not finished are in the same block at the same instruction,
    provided no unfinished lane is in the block ~0U, the number the loop uses
    for "no lane seen yet"; finished lanes do not count. *)
Theorem WorkgroupIsDiverged_false_iff (workgroup : list ThreadState) :
  Forall (fun lane => Finished lane = false -> m_Block lane <> NO_INDEX) workgroup ->
  (WorkgroupIsDiverged workgroup = false <->
   forall x y, In x workgroup -> In y workgroup ->
               Finished x = false -> Finished y = false ->
               m_Block x = m_Block y /\
               m_ActiveGlobalInstructionIdx x = m_ActiveGlobalInstructionIdx y).
Proof.
  intros Hvalid. unfold WorkgroupIsDiverged.
  rewrite (WorkgroupIsDiverged_loop_start workgroup NO_INDEX Hvalid).
  unfold execution_point. split.
  - intros H x y Hx Hy Fx Fy. specialize (H x y Hx Hy Fx Fy).
    injection H as E1 E2. split; assumption.
  - intros H x y Hx Hy Fx Fy. destruct (H x y Hx Hy Fx Fy) as (E1 & E2).
    rewrite E1, E2. reflexivity.
Qed.

(** X27.  [QuadIsDiverged] is [WorkgroupIsDiverged] restricted to the quad:
    when every neighbour index names a lane of the workgroup, it returns,
    without logging anything, what [WorkgroupIsDiverged] returns on the list
    of those lanes; for a workgroup that is one quad in order the two
    agree. *)
Theorem QuadIsDiverged_is_WorkgroupIsDiverged (workgroup : list ThreadState) (qs : list Z)
    (lanes : list ThreadState) :
  Forall2 (fun q lane => q <> NO_INDEX /\ at_index workgroup q = Some lane) qs lanes ->
  QuadIsDiverged workgroup qs = Done (WorkgroupIsDiverged lanes) [] /\
  (qs = [0; 1; 2; 3] -> length workgroup = 4%nat ->
   QuadIsDiverged workgroup qs = Done (WorkgroupIsDiverged workgroup) []).
Proof.
  intros Hlanes.
  assert (Hrun : QuadIsDiverged workgroup qs = Done (WorkgroupIsDiverged lanes) []).
  { unfold QuadIsDiverged, WorkgroupIsDiverged.
    rewrite (QuadIsDiverged_loop_lanes workgroup qs lanes Hlanes). reflexivity. }
  split; [ exact Hrun | ].
  intros -> Hlen. rewrite Hrun. do 2 f_equal.
  destruct workgroup as [ | l0 [ | l1 [ | l2 [ | l3 [ | l4 rest ] ] ] ] ]; try discriminate.
  inversion Hlanes as [ | q0 x0 qs0 xs0 (_ & H0) Ht0 ]; subst.
  inversion Ht0 as [ | q1 x1 qs1 xs1 (_ & H1) Ht1 ]; subst.
  inversion Ht1 as [ | q2 x2 qs2 xs2 (_ & H2) Ht2 ]; subst.
  inversion Ht2 as [ | q3 x3 qs3 xs3 (_ & H3) Ht3 ]; subst.
  inversion Ht3; subst.
  cbv in H0, H1, H2, H3. congruence.
Qed.
(* ================================================================== *)
(** * What a typed store leaves alone *)
(* ================================================================== *)

Section StoreFrame.

Lemma same_outside_refl (bound : Z) (d : list Z) : same_outside bound d d.
Proof. repeat split; auto. Qed.

Lemma same_outside_trans (bound : Z) (d1 d2 d3 : list Z) :
  same_outside bound d1 d2 -> same_outside bound d2 d3 -> same_outside bound d1 d3.
Proof.
  intros (L1 & F1 & B1) (L2 & F2 & B2). repeat split.
  - congruence.
  - intros i Hi. rewrite (F2 i Hi). apply F1. exact Hi.
  - auto.
Qed.

Lemma same_outside_weaken (bound bound' : Z) (d d' : list Z) :
  bound <= bound' -> same_outside bound d d' -> same_outside bound' d d'.
Proof.
  intros Hle (L & F & B). repeat split; [ exact L | | exact B ].
  intros i Hi. apply F. lia.
Qed.

Lemma not_finishes_Unmodelled {A : Type} (why : string) (a : A) :
  ~ finishes (Unmodelled why) a.
Proof. unfold finishes. simpl. discriminate. Qed.

Lemma finishes_ret_inv {A : Type} (a a' : A) : finishes (ret a) a' -> a' = a.
Proof. intros H. symmetry. apply (finishes_fun _ _ _ (finishes_ret a) H). Qed.

(** [memcpy] of bytes into a block changes no byte behind the copy. *)
Lemma write_bytes_frame (d src d' : list Z) (off : Z) :
  is_bytes src ->
  finishes (write_bytes d off src) d' ->
  same_outside (off + Z.of_nat (length src)) d d'.
Proof.
  intros Hs. unfold write_bytes.
  destruct ((0 <=? off) && (off + Z.of_nat (length src) <=? Z.of_nat (length d))) eqn:E;
    [ | intros H; exfalso; apply (not_finishes_Undefined _ _ H) ].
  intros H. apply finishes_ret_inv in H. subst d'.
  apply andb_true_iff in E as (E1 & E2). apply Z.leb_le in E1, E2.
  repeat split.
  - rewrite !length_app, length_take, length_drop. lia.
  - intros i Hi.
    rewrite lookup_app_r by (rewrite length_take; lia). rewrite length_take.
    rewrite lookup_app_r by lia. rewrite lookup_drop. f_equal. lia.
  - intros Hd. unfold is_bytes in *.
    apply Forall_app_2; [ apply Forall_take; exact Hd | ].
    apply Forall_app_2; [ exact Hs | apply Forall_drop; exact Hd ].
Qed.

Lemma write_elem_frame (d d' : list Z) (n c x : Z) :
  0 <= n ->
  finishes (write_elem d n c x) d' ->
  same_outside (n * c + n) d d'.
Proof.
  intros Hn H. unfold write_elem in H.
  apply write_bytes_frame in H; [ | apply is_bytes_bytes_of ].
  rewrite length_bytes_of in H. rewrite Z2Nat.id in H by exact Hn. exact H.
Qed.

(** The loop over the components keeps what every pass keeps. *)
Lemma for_comps_bytes_frame (bound : Z) (body : Z -> list Z -> Outcome (list Z)) (n : nat) :
  forall (c0 : Z) (d d' : list Z),
    (forall c d1 d2, c0 <= c < c0 + Z.of_nat n ->
       finishes (body c d1) d2 -> same_outside bound d1 d2) ->
    finishes (for_comps_bytes n c0 body d) d' ->
    same_outside bound d d'.
Proof.
  induction n as [ | n IH ]; intros c0 d d' Hbody H; cbn [for_comps_bytes] in H.
  - apply finishes_ret_inv in H. subst d'. apply same_outside_refl.
  - apply finishes_bind_inv in H as (d1 & H1 & H2).
    apply (same_outside_trans bound d d1 d').
    + apply (Hbody c0); [ lia | exact H1 ].
    + apply (IH (c0 + 1)); [ | exact H2 ].
      intros c e1 e2 Hc. apply Hbody. lia.
Qed.

End StoreFrame.

(** X28.  A typed store never touches a byte behind the element it writes:
    whenever [TypedUAVStore] finishes, for any format and any value, the
    buffer keeps its size, every byte from the end of the element on (4 bytes
    for the packed 10-10-10-2 format, byteWidth * numComps bytes otherwise)
    is unchanged, and a buffer of bytes stays a buffer of bytes. *)
Theorem TypedUAVStore_frame (fmt : ViewFmt) (d d' : list Z) (value : ShaderValue) :
  finishes (TypedUAVStore fmt d value) d' ->
  length d' = length d /\
  (forall i : nat,
     (if byteWidth fmt =? 10 then 4 else byteWidth fmt * numComps fmt) <= Z.of_nat i ->
     d' !! i = d !! i) /\
  (is_bytes d -> is_bytes d').
Proof.
  intros H. unfold TypedUAVStore in H.
  change (same_outside (if byteWidth fmt =? 10 then 4 else byteWidth fmt * numComps fmt)
                       d d').
  destruct (byteWidth fmt =? 10) eqn:E10.
  - apply finishes_bind_inv in H as (u & _ & H).
    apply write_elem_frame in H; [ exact H | lia ].
  - destruct (byteWidth fmt =? 11) eqn:E11;
      [ exfalso; apply (not_finishes_Unmodelled _ _ H) | ].
    destruct ((byteWidth fmt =? 4) || (byteWidth fmt =? 2) || (byteWidth fmt =? 1)) eqn:Ew;
      [ | apply finishes_ret_inv in H; subst d'; apply same_outside_refl ].
    assert (Hbw : 0 < byteWidth fmt).
    { apply orb_true_iff in Ew as [Ew | Ew];
        [ apply orb_true_iff in Ew as [Ew | Ew] | ]; apply Z.eqb_eq in Ew; lia. }
    destruct (encode_lane (byteWidth fmt) (compType fmt) 0) as [ m0 | ].
    + apply (for_comps_bytes_frame (byteWidth fmt * numComps fmt)) in H; [ exact H | ].
      intros c d1 d2 Hc Hbody. cbv beta in Hbody.
      apply finishes_bind_inv in Hbody as (x & _ & Hbody).
      destruct (encode_lane (byteWidth fmt) (compType fmt) x) as [ m | ].
      * apply finishes_bind_inv in Hbody as (e & _ & Hbody).
        apply write_elem_frame in Hbody; [ | lia ].
        assert (Hc1 : c + 1 <= numComps fmt) by lia.
        assert (Hb : byteWidth fmt * c + byteWidth fmt <= byteWidth fmt * numComps fmt)
          by nia.
        apply (same_outside_weaken _ _ _ _ Hb Hbody).
      * apply finishes_ret_inv in Hbody. subst d2. apply same_outside_refl.
    + apply finishes_bind_inv in H as (u & _ & H).
      apply finishes_ret_inv in H. subst d'. apply same_outside_refl.
Qed.
(* ================================================================== *)
(** * Branches and stepping over instructions that do nothing *)
(* ================================================================== *)

Section Jumps.

Lemma finishes_block_id (i : Z) : finishes (block_id (VBlock i)) i.
Proof. apply finishes_ret. Qed.

Lemma at_index_in_range {A : Type} (l : list A) (i : Z) (x : A) :
  at_index l i = Some x -> 0 <= i < Z.of_nat (length l).
Proof.
  unfold at_index. destruct (Z.ltb_spec i 0) as [Hneg | Hnn]; [ discriminate | ].
  intros H. apply lookup_lt_Some in H. lia.
Qed.

(** A jump to a block of the function. *)
Lemma JumpToBlock_known (fi : FunctionInfo) (ts : ThreadState) (blockId : Z) (blk : Block)
    (divergencePoint : bool) :
  at_index (blocks (function fi)) blockId = Some blk ->
  exists ts',
    finishes (JumpToBlock fi ts (Some blockId) divergencePoint) (true, ts') /\
    m_PreviousBlock ts' = m_Block ts /\
    m_Block ts' = blockId /\
    m_FunctionInstructionIdx ts' = startInstructionIdx blk /\
    m_EnteredPoints ts' = m_EnteredPoints ts ++ [blockId] /\
    m_Diverged ts' = divergencePoint || m_Diverged ts.
Proof.
  intros Hblk. unfold JumpToBlock. cbv zeta.
  match goal with
  | |- context [ set_m_Block _ ?x ] => remember x as X eqn:EX
  end.
  assert (HX : m_PreviousBlock X = m_Block ts /\ m_EnteredPoints X = m_EnteredPoints ts /\
               m_Diverged X = m_Diverged ts).
  { rewrite EX. cbn [m_PreviousBlock set_m_PhiVariables set_m_PreviousBlock].
    destruct (phiReferencedIdsPerBlock fi !! m_Block ts); repeat split. }
  clear EX. destruct HX as (HP & HE & HD).
  rewrite Hblk.
  cbn [m_State m_Ended set_m_Block set_m_FunctionInstructionIdx].
  destruct (m_State X) as [st | ] eqn:Est; [ destruct (m_Ended X) eqn:Eend | ];
    destruct divergencePoint;
    try match goal with |- context [ List.find ?f ?l ] => destruct (List.find f l) end;
    (eexists; split; [ repeat step_bind; apply finishes_ret | ]);
    cbn [m_PreviousBlock m_Block m_FunctionInstructionIdx m_EnteredPoints m_Diverged
         set_m_Block set_m_FunctionInstructionIdx set_m_State set_m_EnteredPoints
         set_m_Diverged set_m_ConvergencePoint orb];
    rewrite ?HP, ?HE, ?HD; repeat split; reflexivity.
Qed.

(** A jump to a block the function does not have. *)
Lemma JumpToBlock_unknown (fi : FunctionInfo) (ts : ThreadState) (blockId : Z)
    (divergencePoint : bool) :
  at_index (blocks (function fi)) blockId = None ->
  exists ts',
    finishes (JumpToBlock fi ts (Some blockId) divergencePoint) (false, ts') /\
    m_PreviousBlock ts' = m_Block ts /\
    m_Block ts' = m_Block ts /\
    m_FunctionInstructionIdx ts' = m_FunctionInstructionIdx ts /\
    m_EnteredPoints ts' = m_EnteredPoints ts /\
    m_Diverged ts' = m_Diverged ts.
Proof.
  intros Hblk. unfold JumpToBlock. cbv zeta. rewrite Hblk.
  eexists. split; [ repeat step_bind; apply finishes_ret | ].
  cbn [m_PreviousBlock set_m_PhiVariables set_m_PreviousBlock].
  destruct (phiReferencedIdsPerBlock fi !! m_Block ts); repeat split.
Qed.

(** A bind finishes, and reports what its continuation reports. *)
Lemma run_bind {A B : Type} (m : Outcome A) (k : A -> Outcome B) (a : A) (b : B)
    (P : Prop) (r : Report) :
  finishes m a ->
  finishes (k a) b /\ (P -> reports (k a) r) ->
  finishes (bind m k) b /\ (P -> reports (bind m k) r).
Proof.
  intros Hm (Hk & Hr). split.
  - eapply finishes_bind; [ exact Hm | exact Hk ].
  - intros HP. eapply reports_bind_r; [ exact Hm | exact Hk | apply Hr; exact HP ].
Qed.

(** The case [Branch] on a conditional branch, given what the jump does. *)
Lemma case_Branch_run (fi : FunctionInfo) (ts : ThreadState) (inst : Instruction)
    (b0 b1 : Z) (v2 : Value) (cond : ShaderVariable) (b : bool) (ts' : ThreadState) :
  at_index (args inst) 0 = Some (VBlock b0) ->
  at_index (args inst) 1 = Some (VBlock b1) ->
  at_index (args inst) 2 = Some v2 ->
  finishes (fetch ts v2 Operation.Branch DXOp.NumOpCodes) cond ->
  finishes (JumpToBlock fi ts (Some (if u32v (value cond) 0 =? 0 then b1 else b0))
                        (negb (b0 =? b1))) (b, ts') ->
  finishes (case_Branch fi ts inst) ts' /\
  (b = false -> reports (case_Branch fi ts inst) (Error "Unknown branch target")).
Proof.
  intros Harg0 Harg1 Harg2 Hcond Hjump.
  pose proof (at_index_in_range _ _ _ Harg1) as Hlen.
  assert (Elen : (1 <? Z.of_nat (length (args inst))) = true) by (apply Z.ltb_lt; lia).
  assert (Htarget : arg_at inst (if u32v (value cond) 0 =? 0 then 1 else 0) =
                      ret (VBlock (if u32v (value cond) 0 =? 0 then b1 else b0))).
  { destruct (u32v (value cond) 0 =? 0); apply arg_at_Some; assumption. }
  unfold case_Branch. rewrite Elen.
  eapply run_bind.
  { rewrite (arg_at_Some _ _ _ Harg0), (arg_at_Some _ _ _ Harg1),
      (arg_at_Some _ _ _ Harg2).
    step_bind. eapply finishes_bind; [ apply finishes_block_id | cbv beta ].
    step_bind. eapply finishes_bind; [ apply finishes_block_id | cbv beta ].
    step_bind. step_bind. apply finishes_ret. }
  cbv beta. cbn [fst snd]. rewrite Htarget.
  eapply run_bind; [ apply finishes_ret | cbv beta iota ].
  eapply run_bind; [ exact Hjump | cbv beta; cbn [fst snd] ].
  destruct b.
  - split; [ step_bind; apply finishes_ret | discriminate ].
  - split; [ step_bind; apply finishes_ret | ]. intros _.
    eapply reports_bind_l; [ apply finishes_RDCERR | apply finishes_ret | ].
    apply reports_RDCERR.
Qed.

(** Skipping [n] instructions that do nothing. *)
Lemma StepOverNopInstructions_loop_skips (fi : FunctionInfo) (inst : Instruction) (n : nat) :
  Z.of_nat (length (instructions (function fi))) < 2 ^ 32 ->
  IsNopInstruction inst = false ->
  forall (fuel : nat) (ts : ThreadState),
    (n < fuel)%nat ->
    0 <= m_FunctionInstructionIdx ts ->
    (forall k, m_FunctionInstructionIdx ts <= k < m_FunctionInstructionIdx ts + Z.of_nat n ->
       exists nop, at_index (instructions (function fi)) k = Some nop /\
                   IsNopInstruction nop = true) ->
    at_index (instructions (function fi)) (m_FunctionInstructionIdx ts + Z.of_nat n)
      = Some inst ->
    exists ts',
      finishes (StepOverNopInstructions_loop fuel fi ts) ts' /\
      m_FunctionInstructionIdx ts' = m_FunctionInstructionIdx ts + Z.of_nat n /\
      m_ActiveGlobalInstructionIdx ts' =
        wrap 32 (globalInstructionOffset fi + (m_FunctionInstructionIdx ts + Z.of_nat n)) /\
      m_Block ts' = m_Block ts /\ m_Variables ts' = m_Variables ts /\
      m_Ended ts' = m_Ended ts.
Proof.
  intros Hsize Hinst.
  induction n as [ | n IH ]; intros fuel ts Hfuel Hidx Hnops Hstop;
    (destruct fuel as [ | fuel ]; [ lia | ]); cbn [StepOverNopInstructions_loop].
  - rewrite Z.add_0_r in Hstop. rewrite Hstop, Hinst. cbn [negb].
    eexists. split; [ step_bind; apply finishes_ret | ].
    cbn [m_FunctionInstructionIdx m_ActiveGlobalInstructionIdx m_Block m_Variables m_Ended
         set_m_ActiveGlobalInstructionIdx].
    rewrite !Z.add_0_r. repeat split.
  - destruct (Hnops (m_FunctionInstructionIdx ts) ltac:(lia)) as (nop & Hnop & Hisnop).
    rewrite Hnop, Hisnop. cbn [negb].
    pose proof (at_index_in_range _ _ _ Hnop) as Hrange.
    assert (Hwrap : wrap 32 (m_FunctionInstructionIdx ts + 1) = m_FunctionInstructionIdx ts + 1).
    { unfold wrap. apply Z.mod_small. lia. }
    rewrite Hwrap.
    destruct (IH fuel (set_m_FunctionInstructionIdx (m_FunctionInstructionIdx ts + 1) ts))
      as (ts' & Hrun & Hi & Ha & Hb & Hv & He).
    + lia.
    + cbn [m_FunctionInstructionIdx set_m_FunctionInstructionIdx]. lia.
    + cbn [m_FunctionInstructionIdx set_m_FunctionInstructionIdx].
      intros k Hk. apply Hnops. lia.
    + cbn [m_FunctionInstructionIdx set_m_FunctionInstructionIdx].
      replace (m_FunctionInstructionIdx ts + 1 + Z.of_nat n)
        with (m_FunctionInstructionIdx ts + Z.of_nat (S n)) by lia.
      exact Hstop.
    + cbn [m_FunctionInstructionIdx m_Block m_Variables m_Ended
           set_m_FunctionInstructionIdx] in Hi, Ha, Hb, Hv, He.
      exists ts'. split; [ step_bind; exact Hrun | ].
      rewrite Hi, Ha, Hb, Hv, He.
      replace (m_FunctionInstructionIdx ts + 1 + Z.of_nat n)
        with (m_FunctionInstructionIdx ts + Z.of_nat (S n)) by lia.
      repeat split.
Qed.

(** When only instructions that do nothing are left, the loop reads past
    the end of the instructions. *)
Lemma StepOverNopInstructions_loop_runs_off (fi : FunctionInfo) (n : nat) :
  Z.of_nat (length (instructions (function fi))) < 2 ^ 32 ->
  forall (fuel : nat) (ts : ThreadState),
    (n < fuel)%nat ->
    0 <= m_FunctionInstructionIdx ts ->
    m_FunctionInstructionIdx ts + Z.of_nat n = Z.of_nat (length (instructions (function fi))) ->
    (forall k nop, m_FunctionInstructionIdx ts <= k ->
       at_index (instructions (function fi)) k = Some nop -> IsNopInstruction nop = true) ->
    StepOverNopInstructions_loop fuel fi ts = Undefined "instructions index out of bounds".
Proof.
  intros Hsize.
  induction n as [ | n IH ]; intros fuel ts Hfuel Hidx Hend Hnops;
    (destruct fuel as [ | fuel ]; [ lia | ]); cbn [StepOverNopInstructions_loop].
  - assert (Hnone : at_index (instructions (function fi)) (m_FunctionInstructionIdx ts) = None).
    { unfold at_index. destruct (Z.ltb_spec (m_FunctionInstructionIdx ts) 0); [ reflexivity | ].
      apply lookup_ge_None_2. lia. }
    rewrite Hnone.
    replace (m_FunctionInstructionIdx ts <? Z.of_nat (length (instructions (function fi))))
      with false by (symmetry; apply Z.ltb_ge; lia).
    reflexivity.
  - destruct (at_index (instructions (function fi)) (m_FunctionInstructionIdx ts))
      as [nop | ] eqn:Hnop.
    + rewrite (Hnops (m_FunctionInstructionIdx ts) nop ltac:(lia) Hnop). cbn [negb].
      assert (Hwrap : wrap 32 (m_FunctionInstructionIdx ts + 1)
                      = m_FunctionInstructionIdx ts + 1).
      { unfold wrap. apply Z.mod_small. lia. }
      rewrite Hwrap.
      rewrite (IH fuel (set_m_FunctionInstructionIdx (m_FunctionInstructionIdx ts + 1) ts)).
      * replace (m_FunctionInstructionIdx ts
                   <? Z.of_nat (length (instructions (function fi))))
          with true by (symmetry; apply Z.ltb_lt; lia).
        reflexivity.
      * lia.
      * cbn [m_FunctionInstructionIdx set_m_FunctionInstructionIdx]. lia.
      * cbn [m_FunctionInstructionIdx set_m_FunctionInstructionIdx]. lia.
      * cbn [m_FunctionInstructionIdx set_m_FunctionInstructionIdx].
        intros k nop' Hk. apply Hnops. lia.
    + exfalso. unfold at_index in Hnop.
      destruct (Z.ltb_spec (m_FunctionInstructionIdx ts) 0); [ lia | ].
      apply lookup_ge_None_1 in Hnop. lia.
Qed.

End Jumps.

(** X29.  A conditional [Branch] goes to the block of its first label when
    component 0 of the condition is not zero and to the block of its second
    label when it is zero.  If the function has that block, the lane is
    afterwards at the first instruction of the block, the block it left is
    its previous block, the block is appended to the entered points, and the
    lane is marked diverged when the two labels differ.  If the function has
    no such block, "Unknown branch target" is logged and the lane stays where
    it was, in the same block at the same instruction index, with only its
    previous block overwritten. *)
Theorem Branch_conditional (fi : FunctionInfo) (ts : ThreadState) (inst : Instruction)
    (b0 b1 : Z) (v2 : Value) (cond : ShaderVariable) :
  at_index (args inst) 0 = Some (VBlock b0) ->
  at_index (args inst) 1 = Some (VBlock b1) ->
  at_index (args inst) 2 = Some v2 ->
  finishes (fetch ts v2 Operation.Branch DXOp.NumOpCodes) cond ->
  let target := if u32v (value cond) 0 =? 0 then b1 else b0 in
  exists ts',
    finishes (case_Branch fi ts inst) ts' /\
    m_PreviousBlock ts' = m_Block ts /\
    match at_index (blocks (function fi)) target with
    | Some blk =>
        m_Block ts' = target /\
        m_FunctionInstructionIdx ts' = startInstructionIdx blk /\
        m_EnteredPoints ts' = m_EnteredPoints ts ++ [target] /\
        m_Diverged ts' = negb (b0 =? b1) || m_Diverged ts
    | None =>
        reports (case_Branch fi ts inst) (Error "Unknown branch target") /\
        m_Block ts' = m_Block ts /\
        m_FunctionInstructionIdx ts' = m_FunctionInstructionIdx ts /\
        m_EnteredPoints ts' = m_EnteredPoints ts /\
        m_Diverged ts' = m_Diverged ts
    end.
Proof.
  intros Harg0 Harg1 Harg2 Hcond target.
  destruct (at_index (blocks (function fi)) target) as [blk | ] eqn:Hblk.
  - destruct (JumpToBlock_known fi ts target blk (negb (b0 =? b1)) Hblk)
      as (ts' & Hjump & HP & HB & HI & HE & HD).
    destruct (case_Branch_run fi ts inst b0 b1 v2 cond true ts' Harg0 Harg1 Harg2 Hcond Hjump)
      as (Hrun & _).
    exists ts'. repeat split; assumption.
  - destruct (JumpToBlock_unknown fi ts target (negb (b0 =? b1)) Hblk)
      as (ts' & Hjump & HP & HB & HI & HE & HD).
    destruct (case_Branch_run fi ts inst b0 b1 v2 cond false ts' Harg0 Harg1 Harg2 Hcond Hjump)
      as (Hrun & Hreport).
    exists ts'. repeat split; try assumption. apply Hreport. reflexivity.
Qed.

(** X30.  [StepOverNopInstructions] on a lane that has not ended stops at the
    first instruction, at or after the current one, that is not a nop (a
    [NoOp] or a call of an LLVM debug or intrinsic function): the instruction
    index becomes its index and the active global instruction index the
    function's global offset plus that index, and nothing else of the block
    and the variables changes.  When only nops are left up to the end of the
    function, the loop runs past the last instruction and indexes the
    instruction array out of bounds, which is undefined behaviour.  (Both for
    any bound on the passes of the loop above the number of instructions
    skipped.) *)
Theorem StepOverNopInstructions_first_real (fi : FunctionInfo) (ts : ThreadState)
    (fuel n : nat) :
  Z.of_nat (length (instructions (function fi))) < 2 ^ 32 ->
  m_Ended ts = false ->
  0 <= m_FunctionInstructionIdx ts ->
  (n < fuel)%nat ->
  (forall k, m_FunctionInstructionIdx ts <= k < m_FunctionInstructionIdx ts + Z.of_nat n ->
     exists nop, at_index (instructions (function fi)) k = Some nop /\
                 IsNopInstruction nop = true) ->
  (forall inst,
     at_index (instructions (function fi)) (m_FunctionInstructionIdx ts + Z.of_nat n)
       = Some inst ->
     IsNopInstruction inst = false ->
     exists ts',
       finishes (ThreadState_StepOverNopInstructions fuel fi ts) ts' /\
       m_FunctionInstructionIdx ts' = m_FunctionInstructionIdx ts + Z.of_nat n /\
       m_ActiveGlobalInstructionIdx ts' =
         wrap 32 (globalInstructionOffset fi + (m_FunctionInstructionIdx ts + Z.of_nat n)) /\
       m_Block ts' = m_Block ts /\ m_Variables ts' = m_Variables ts) /\
  (m_FunctionInstructionIdx ts + Z.of_nat n = Z.of_nat (length (instructions (function fi))) ->
   ThreadState_StepOverNopInstructions fuel fi ts =
     Undefined "instructions index out of bounds").
Proof.
  intros Hsize Hended Hidx Hfuel Hnops. unfold ThreadState_StepOverNopInstructions.
  rewrite Hended. split.
  - intros inst Hstop Hinst.
    destruct (StepOverNopInstructions_loop_skips fi inst n Hsize Hinst fuel ts Hfuel Hidx
                Hnops Hstop) as (ts' & Hrun & Hi & Ha & Hb & Hv & _).
    exists ts'. repeat split; assumption.
  - intros Hend.
    apply (StepOverNopInstructions_loop_runs_off fi n Hsize fuel ts Hfuel Hidx Hend).
    intros k nop Hk Hnop.
    pose proof (at_index_in_range _ _ _ Hnop) as Hrange.
    destruct (Hnops k ltac:(lia)) as (nop' & Hnop' & Hisnop).
    congruence.
Qed.

(* ================================================================== *)
(** * Further statements at concrete inputs *)
(* ================================================================== *)

Lemma six_bytes_are_bytes : is_bytes six_bytes.
Proof. unfold is_bytes, six_bytes. repeat constructor; vm_compute; discriminate. Qed.

Lemma snorm8_data_are_bytes : is_bytes snorm8_data.
Proof. unfold is_bytes, snorm8_data. repeat constructor; vm_compute; discriminate. Qed.

(** An [R8G8B8A8_UINT] element is stored back as it was loaded. *)
Lemma typed_store_of_load_witness :
  exists v,
    TypedUAVLoad uint8_fmt six_bytes 0 = Done v [] /\
    TypedUAVStore uint8_fmt six_bytes v = Done six_bytes [].
Proof.
  apply (typed_store_of_load uint8_fmt six_bytes 0).
  - reflexivity.
  - vm_compute. split; discriminate.
  - exact six_bytes_are_bytes.
  - vm_compute. discriminate.
Defined.

(** The [R8G8B8A8_SNORM] element that starts with the code 0x80 is stored
    back with 0x81 in its place. *)
Lemma normalised_store_of_load_witness :
  exists v d',
    TypedUAVLoad snorm8_fmt snorm8_data 0 = Done v [] /\
    TypedUAVStore snorm8_fmt snorm8_data v = Done d' [] /\
    d' !! 0%nat = Some 0x81 /\ d' !! 1%nat = Some 0x7f.
Proof.
  destruct (normalised_store_of_load snorm8_fmt snorm8_data 0) as (_ & Hsnorm).
  - reflexivity.
  - vm_compute. split; discriminate.
  - exact snorm8_data_are_bytes.
  - vm_compute. discriminate.
  - destruct (Hsnorm eq_refl) as (v & d' & Hload & Hstore & _ & Hbytes).
    exists v, d'. split; [ exact Hload | split; [ exact Hstore | split ] ].
    + exact (Hbytes 0%nat 0x80 eq_refl).
    + exact (Hbytes 1%nat 0x7f eq_refl).
Defined.

(** An [R10G10B10A2_UINT] element is stored back as it was loaded. *)
Lemma packed_uint_round_trip_witness :
  exists v,
    TypedUAVLoad packed_fmt six_bytes 0 = Done v [] /\
    TypedUAVStore packed_fmt six_bytes v = Done six_bytes [].
Proof.
  destruct (packed_uint_round_trip packed_fmt six_bytes 0) as (_ & Hback).
  - reflexivity.
  - reflexivity.
  - exact six_bytes_are_bytes.
  - vm_compute. discriminate.
  - exact Hback.
Defined.

(** [UDiv(7, 2)] gives the quotient 3 and the remainder 1. *)
Lemma DXOp_UDiv_quotient_remainder_witness :
  exists r,
    finishes (case_IMul_UMul_UDiv idle_lane udiv_7_2 DXOp.UDiv
                (scalar_var "_2" VarType.SInt 0) ShaderEvents.NoEvent)
             (r, ShaderEvents.NoEvent) /\
    u32v (value r) 0 = 3 /\ u32v (value r) 1 = 1.
Proof.
  destruct (DXOp_UDiv_quotient_remainder idle_lane udiv_7_2 (const_i32 7) (const_i32 2)
              (scalar_var "" VarType.SInt 7) (scalar_var "" VarType.SInt 2)
              (scalar_var "_2" VarType.SInt 0) ShaderEvents.NoEvent)
    as (r & Hrun & Hq & Hr & _); try reflexivity.
  - vm_compute. discriminate.
  - exists r. split; [ exact Hrun | split; [ exact Hq | exact Hr ] ].
Defined.

(** [UMul(0xffffffff, 0xffffffff)] gives 0xfffffffe00000001. *)
Lemma DXOp_mul_wide_witness :
  exists r,
    finishes (case_IMul_UMul_UDiv idle_lane umul_example DXOp.UMul
                (scalar_var "_2" VarType.SInt 0) ShaderEvents.NoEvent)
             (r, ShaderEvents.NoEvent) /\
    u64v (value r) 0 = 0xfffffffe00000001.
Proof.
  destruct (DXOp_mul_wide idle_lane umul_example DXOp.UMul (const_i32 0xffffffff)
              (const_i32 0xffffffff) (scalar_var "" VarType.SInt 0xffffffff)
              (scalar_var "" VarType.SInt 0xffffffff) (scalar_var "_2" VarType.SInt 0)
              ShaderEvents.NoEvent)
    as (r & Hrun & Hu & _); try reflexivity.
  - left. reflexivity.
  - exists r. split; [ exact Hrun | exact (Hu eq_refl) ].
Defined.

(** [UAddc(0xffffffff, 1)] gives the sum 0 and the carry 1. *)
Lemma DXOp_UAddc_carry_witness :
  exists r,
    finishes (case_UAddc idle_lane uaddc_example (scalar_var "_2" VarType.SInt 0)) r /\
    u32v (value r) 0 = 0 /\ u32v (value r) 1 = 1.
Proof.
  destruct (DXOp_UAddc_carry idle_lane uaddc_example (const_i32 0xffffffff) (const_i32 1)
              (scalar_var "" VarType.SInt 0xffffffff) (scalar_var "" VarType.SInt 1)
              (scalar_var "_2" VarType.SInt 0))
    as (r & Hrun & _ & Hsum & Hcarry); try reflexivity.
  exists r. split; [ exact Hrun | split; [ exact Hsum | exact Hcarry ] ].
Defined.

(** [USubb(0, 1)] gives the difference 0xffffffff and the borrow 1. *)
Lemma DXOp_USubb_borrow_witness :
  exists r,
    finishes (case_USubb idle_lane usubb_example (scalar_var "_2" VarType.SInt 0)) r /\
    u32v (value r) 0 = 0xffffffff /\ u32v (value r) 1 = 1.
Proof.
  destruct (DXOp_USubb_borrow idle_lane usubb_example (const_i32 0) (const_i32 1)
              (scalar_var "" VarType.SInt 0) (scalar_var "" VarType.SInt 1)
              (scalar_var "_2" VarType.SInt 0))
    as (r & Hrun & _ & Hdiff & Hborrow); try reflexivity.
  exists r. split; [ exact Hrun | split; [ exact Hdiff | exact Hborrow ] ].
Defined.

(** [Msad(0x00ff00ff, 0x01020304, 0xffffff00)]: the two masked differences
    251 and 253 carry the accumulator past 0xFFFFFFFF; the result is cut
    there and the event is raised. *)
Lemma DXOp_Msad_saturates_witness :
  exists r,
    finishes (case_Msad idle_lane msad_example (scalar_var "_2" VarType.SInt 0)
                ShaderEvents.NoEvent)
             (r, ShaderEvents.GeneratedNanOrInf) /\
    u32v (value r) 0 = 0xffffffff.
Proof.
  pose proof (DXOp_Msad_saturates idle_lane msad_example (const_i32 0x00ff00ff)
                (const_i32 0x01020304) (const_i32 0xffffff00)
                (scalar_var "" VarType.SInt 0x00ff00ff)
                (scalar_var "" VarType.SInt 0x01020304)
                (scalar_var "" VarType.SInt 0xffffff00)
                (scalar_var "_2" VarType.SInt 0) ShaderEvents.NoEvent) as Hthm.
  cbv zeta in Hthm.
  destruct Hthm as (r & Hrun & Hval); try reflexivity.
  exists r. split; [ exact Hrun | exact Hval ].
Defined.

(** [Ubfe(8, 28, 0xf0000000)]: the field of 8 bits from bit 28 on runs past
    bit 31 and holds 15. *)
Lemma DXOp_Ubfe_field_witness :
  exists r,
    finishes (case_Ubfe idle_lane ubfe_example (scalar_var "_2" VarType.SInt 0)) r /\
    u32v (value r) 0 = 15.
Proof.
  pose proof (DXOp_Ubfe_field idle_lane ubfe_example (const_i32 8) (const_i32 28)
                (const_i32 0xf0000000) (scalar_var "" VarType.SInt 8)
                (scalar_var "" VarType.SInt 28) (scalar_var "" VarType.SInt 0xf0000000)
                (scalar_var "_2" VarType.SInt 0)) as Hthm.
  cbv zeta in Hthm.
  destruct Hthm as (r & Hrun & Hval); try reflexivity.
  exists r. split; [ exact Hrun | exact Hval ].
Defined.

(** [MakeDouble(1, 2)] writes 0x0000000200000001, and [SplitDouble] of a
    double with these bits returns 1 and 2. *)
Lemma DXOp_MakeDouble_SplitDouble_witness :
  exists d s,
    finishes (case_MakeDouble idle_lane makedouble_example
                (scalar_var "_2" VarType.Double 0)) d /\
    u64v (value d) 0 = 0x0000000200000001 /\
    finishes (case_SplitDouble idle_lane splitdouble_example
                (scalar_var "_2" VarType.SInt 0)) s /\
    u32v (value s) 0 = 1 /\ u32v (value s) 1 = 2.
Proof.
  destruct (DXOp_MakeDouble_SplitDouble idle_lane makedouble_example (const_i32 1)
              (const_i32 2) (scalar_var "" VarType.SInt 1) (scalar_var "" VarType.SInt 2)
              (scalar_var "_2" VarType.Double 0))
    as (d & Hmake & Hbits & Hsplit); try reflexivity.
  destruct (Hsplit idle_lane splitdouble_example (const_f64 0x0000000200000001)
              ScalarKind.Float 64 (scalar_var "" VarType.Double 0x0000000200000001)
              (scalar_var "_2" VarType.SInt 0))
    as (s & Hrun & Hlo & Hhi); try reflexivity.
  - rewrite Hbits. reflexivity.
  - exists d, s.
    split; [ exact Hmake | split; [ exact Hbits | split; [ exact Hrun | split;
      [ exact Hlo | exact Hhi ] ] ] ].
Defined.

(** [UMin(-1, 3)] is 3: -1 is the largest unsigned number. *)
Lemma DXOp_UMin_UMax_unsigned_witness :
  exists r,
    finishes (case_UMin_UMax idle_lane umin_example DXOp.UMin
                (scalar_var "_2" VarType.SInt 0)) r /\
    u32v (value r) 0 = 3.
Proof.
  destruct (DXOp_UMin_UMax_unsigned idle_lane umin_example (const_i32 0xffffffff)
              (const_i32 3) (scalar_var "" VarType.SInt 0xffffffff)
              (scalar_var "" VarType.SInt 3) (scalar_var "_2" VarType.SInt 0) DXOp.UMin)
    as (r & Hrun & Hmin & _); try reflexivity.
  - left. reflexivity.
  - exists r. split; [ exact Hrun | exact Hmin ].
Defined.


(** [udiv i32 7, 2] is 3 and [urem i32 7, 2] is 1. *)
Lemma int_unsigned_division_witness :
  exists q r,
    finishes (exec_int_arith Operation.UDiv (scalar_var "" VarType.SInt 7)
                (scalar_var "" VarType.SInt 2) (scalar_var "_2" VarType.SInt 0)
                ShaderEvents.NoEvent) (q, ShaderEvents.NoEvent) /\
    finishes (exec_int_arith Operation.URem (scalar_var "" VarType.SInt 7)
                (scalar_var "" VarType.SInt 2) (scalar_var "_3" VarType.SInt 0)
                ShaderEvents.NoEvent) (r, ShaderEvents.NoEvent) /\
    comp 32 0 (value q) = 3 /\ comp 32 0 (value r) = 1.
Proof.
  destruct (int_unsigned_division (scalar_var "" VarType.SInt 7)
              (scalar_var "" VarType.SInt 2) (scalar_var "_2" VarType.SInt 0)
              (scalar_var "_3" VarType.SInt 0) ShaderEvents.NoEvent 32)
    as (q & r & Hdiv & Hrem & Hq & Hr & _); try reflexivity.
  - vm_compute. discriminate.
  - exists q, r. split; [ exact Hdiv | split; [ exact Hrem | split; [ exact Hq | exact Hr ] ] ].
Defined.

(** [sdiv i32 -7, 2] is -3 and [srem i32 -7, 2] is -1: the quotient is
    rounded towards zero. *)
Lemma int_signed_division_witness :
  exists q r,
    finishes (exec_int_arith Operation.SDiv (scalar_var "" VarType.SInt 0xfffffff9)
                (scalar_var "" VarType.SInt 2) (scalar_var "_2" VarType.SInt 0)
                ShaderEvents.NoEvent) (q, ShaderEvents.NoEvent) /\
    finishes (exec_int_arith Operation.SRem (scalar_var "" VarType.SInt 0xfffffff9)
                (scalar_var "" VarType.SInt 2) (scalar_var "_3" VarType.SInt 0)
                ShaderEvents.NoEvent) (r, ShaderEvents.NoEvent) /\
    signed 32 (comp 32 0 (value q)) = -3 /\ signed 32 (comp 32 0 (value r)) = -1.
Proof.
  pose proof (int_signed_division (scalar_var "" VarType.SInt 0xfffffff9)
                (scalar_var "" VarType.SInt 2) (scalar_var "_2" VarType.SInt 0)
                (scalar_var "_3" VarType.SInt 0) ShaderEvents.NoEvent 32) as Hthm.
  cbv zeta in Hthm.
  destruct Hthm as (Hregular & _).
  - reflexivity.
  - vm_compute. discriminate.
  - destruct Hregular as (q & r & Hdiv & Hrem & Hq & Hr & _).
    + vm_compute. intros [Hmin _]. discriminate Hmin.
    + exists q, r.
      split; [ exact Hdiv | split; [ exact Hrem | split; [ exact Hq | exact Hr ] ] ].
Defined.

(** [icmp slt i32 -1, 3] is 1. *)
Lemma icmp_result_witness :
  exists r,
    finishes (case_icmp idle_lane icmp_slt_example Operation.SLess
                (scalar_var "_2" VarType.Bool 0)) r /\
    value r = 1.
Proof.
  pose proof (icmp_result idle_lane icmp_slt_example Operation.SLess (const_i32 0xffffffff)
                (const_i32 3) (scalar_var "" VarType.SInt 0xffffffff)
                (scalar_var "" VarType.SInt 3) (scalar_var "_2" VarType.Bool 0) 32) as Hthm.
  cbv zeta in Hthm.
  destruct (Hthm eq_refl eq_refl eq_refl eq_refl eq_refl eq_refl (-1 < 3) (iff_refl _))
    as (r & Hrun & _ & _ & Hholds).
  exists r. split; [ exact Hrun | ]. apply Hholds. reflexivity.
Defined.



(** [ashr i32 -1, 1] is -1 in the 32 bit lane, and leaves 1 in
    component 1. *)
Lemma ashr_result_witness :
  exists r,
    finishes (exec_bitwise Operation.ArithShiftRight (scalar_var "" VarType.SInt 0xffffffff)
                (scalar_var "" VarType.SInt 1) (scalar_var "_2" VarType.SInt 0)) r /\
    s32v (value r) 0 = -1 /\ u32v (value r) 1 = 1.
Proof.
  destruct (ashr_result (scalar_var "" VarType.SInt 0xffffffff)
              (scalar_var "" VarType.SInt 1) (scalar_var "_2" VarType.SInt 0))
    as (r & Hrun & Hlane & Hrest); try reflexivity.
  exists r. split; [ exact Hrun | split; [ exact Hlane | exact Hrest ] ].
Defined.

(** Lane 2 of the vector 1, 2, 3, 4 is replaced by 9, and then read. *)
Lemma InsertElement_ExtractElement_witness :
  exists r e,
    finishes (case_InsertElement vector_lane insert_example
                (vector_var "_2" 0)) r /\
    value r = vector_1294 /\
    finishes (case_ExtractElement vector_lane extract_example
                (scalar_var "_3" VarType.SInt 0)) e /\
    comp 32 0 (value e) = 9.
Proof.
  pose proof (InsertElement_ExtractElement vector_lane insert_example
                (VInstruction v4i32 1) (const_i32 9) (const_i32 2) 4 4 i32 i32
                (vector_var "_1" vector_1234) (scalar_var "" VarType.SInt 9)
                (scalar_var "" VarType.SInt 2) (vector_var "_2" 0) 32) as Hthm.
  cbv zeta in Hthm.
  destruct Hthm as (r & Hrun & _ & Htype & Hvalue & _ & Hextract); try reflexivity.
  - left. reflexivity.
  - destruct (Hextract vector_lane extract_example (VInstruction v4i32 2) (const_i32 2) 4 i32
                (vector_var "_1" vector_1294) (scalar_var "" VarType.SInt 2)
                (scalar_var "_3" VarType.SInt 0))
      as (e & Hrun' & Hlane); try reflexivity.
    + rewrite Htype. reflexivity.
    + rewrite Hvalue. reflexivity.
    + exists r, e.
      split; [ exact Hrun | split; [ exact Hvalue | split; [ exact Hrun' | exact Hlane ] ] ].
Defined.

(** [select] with a selector that is all ones takes its second operand:
    only the number 1 selects the first. *)
Lemma Select_result_witness :
  finishes (case_Select idle_lane select_example (scalar_var "_2" VarType.SInt 0))
           (scalar_var "_2" VarType.SInt 20).
Proof.
  exact (proj1 (Select_result idle_lane select_example (const_i32 0xffffffff) (const_i32 20)
                  (scalar_var "" VarType.SInt 0xffffffff) (scalar_var "" VarType.SInt 20)
                  (scalar_var "_2" VarType.SInt 0) eq_refl eq_refl eq_refl eq_refl)).
Defined.

(** The lanes 0 and 2 are at the same point and the lanes 1 and 3 have
    ended: the workgroup is not diverged. *)
Lemma WorkgroupIsDiverged_false_iff_witness :
  WorkgroupIsDiverged converged_workgroup = false.
Proof.
  apply (WorkgroupIsDiverged_false_iff converged_workgroup).
  - unfold converged_workgroup. repeat constructor; vm_compute; intros; discriminate.
  - intros x y Hx Hy Fx Fy. unfold converged_workgroup in Hx, Hy.
    cbn [In] in Hx, Hy.
    destruct Hx as [<- | [<- | [<- | [<- | [] ] ] ] ];
      try (vm_compute in Fx; discriminate Fx);
      destruct Hy as [<- | [<- | [<- | [<- | [] ] ] ] ];
      try (vm_compute in Fy; discriminate Fy);
      split; reflexivity.
Defined.

(** On the quad whose lane 1 is in another block the two tests agree: the
    quad is diverged. *)
Lemma QuadIsDiverged_is_WorkgroupIsDiverged_witness :
  QuadIsDiverged diverged_quad [0; 1; 2; 3] = Done (WorkgroupIsDiverged diverged_quad) [] /\
  WorkgroupIsDiverged diverged_quad = true.
Proof.
  split; [ | vm_compute; reflexivity ].
  apply (QuadIsDiverged_is_WorkgroupIsDiverged diverged_quad [0; 1; 2; 3] diverged_quad).
  - unfold diverged_quad.
    repeat (constructor; [ split; [ vm_compute; discriminate | reflexivity ] | ]).
    constructor.
  - reflexivity.
  - reflexivity.
Defined.

(** A store of an [R8G8B8A8_UINT] element into the buffer of six bytes
    leaves the last two bytes as they were. *)
Lemma TypedUAVStore_frame_witness :
  exists d',
    finishes (TypedUAVStore uint8_fmt six_bytes 0x00000004000000030000000200000001) d' /\
    length d' = 6%nat /\ d' !! 4%nat = Some 0x9a /\ d' !! 5%nat = Some 0xbc.
Proof.
  assert (Hrun : finishes (TypedUAVStore uint8_fmt six_bytes
                             0x00000004000000030000000200000001)
                          [1; 2; 3; 4; 0x9a; 0xbc]) by (vm_compute; reflexivity).
  destruct (TypedUAVStore_frame uint8_fmt six_bytes _ _ Hrun) as (Hlen & Hrest & _).
  eexists. split; [ exact Hrun | split; [ exact Hlen | split ] ].
  - apply (Hrest 4%nat). vm_compute. discriminate.
  - apply (Hrest 5%nat). vm_compute. discriminate.
Defined.

(** [br i1 1, label %b1, label %b2] goes to block 1; [br i1 0, ...] names
    block 2, which the function does not have: the error is logged and the
    lane stays in block 0. *)
Lemma Branch_conditional_witness :
  (exists ts',
     finishes (case_Branch two_blocks idle_lane (branch_example 1)) ts' /\
     m_Block ts' = 1 /\ m_FunctionInstructionIdx ts' = 1 /\ m_Diverged ts' = true) /\
  (exists ts',
     finishes (case_Branch two_blocks idle_lane (branch_example 0)) ts' /\
     reports (case_Branch two_blocks idle_lane (branch_example 0))
             (Error "Unknown branch target") /\
     m_Block ts' = 0 /\ m_FunctionInstructionIdx ts' = 0).
Proof.
  split.
  - pose proof (Branch_conditional two_blocks idle_lane (branch_example 1) 1 2 (const_i32 1)
                  (scalar_var "" VarType.SInt 1)) as Hthm.
    cbv zeta in Hthm.
    destruct (Hthm eq_refl eq_refl eq_refl eq_refl) as (ts' & Hrun & _ & Hthere).
    destruct Hthere as (Hblock & Hidx & _ & Hdiverged).
    exists ts'. split; [ exact Hrun | split; [ exact Hblock | split;
      [ exact Hidx | exact Hdiverged ] ] ].
  - pose proof (Branch_conditional two_blocks idle_lane (branch_example 0) 1 2 (const_i32 0)
                  (scalar_var "" VarType.SInt 0)) as Hthm.
    cbv zeta in Hthm.
    destruct (Hthm eq_refl eq_refl eq_refl eq_refl) as (ts' & Hrun & _ & Hstays).
    destruct Hstays as (Hlog & Hblock & Hidx & _).
    exists ts'. split; [ exact Hrun | split; [ exact Hlog | split;
      [ exact Hblock | exact Hidx ] ] ].
Defined.

(** In the function of two nops and a [UDiv], with the global offset 10, a
    lane at the first nop is moved to the [UDiv]: instruction 2, global
    instruction 12. *)
Lemma StepOverNopInstructions_first_real_witness :
  exists ts',
    finishes (ThreadState_StepOverNopInstructions 3 nops_then_udiv idle_lane) ts' /\
    m_FunctionInstructionIdx ts' = 2 /\ m_ActiveGlobalInstructionIdx ts' = 12.
Proof.
  destruct (StepOverNopInstructions_first_real nops_then_udiv idle_lane 3 2)
    as (Hstops & _).
  - vm_compute. reflexivity.
  - reflexivity.
  - vm_compute. discriminate.
  - lia.
  - intros k Hk. change (m_FunctionInstructionIdx idle_lane) with 0 in Hk.
    assert (Hcases : k = 0 \/ k = 1) by lia.
    destruct Hcases as [-> | ->]; exists nop_inst; split; reflexivity.
  - destruct (Hstops udiv_7_2 eq_refl eq_refl) as (ts' & Hrun & Hidx & Hglobal & _).
    exists ts'. split; [ exact Hrun | split; [ exact Hidx | exact Hglobal ] ].
Defined.
